(* ===== verification/_CoqProject ===== *)
-Q . S2P
Prelude.v
JsMap.v
JsString.v
Json.v
JsValue.v
FloatFacts.v
JsNumber.v
Calendar.v
JsText.v
Constants.v
NodesStore.v
LoadRecords.v
AuthSession.v
Csv.v
Markdown.v
RecordHelper.v
NodeCost.v
TagHelper.v
Ping.v
Network.v
NodeFacts.v
Format.v
NodeMetrics.v
RegionHelper.v
AppSettings.v
GeneralCards.v
Captain.v
CaptainMetrics.v
InitApp.v
MetricSeries.v
Finance.v
AppStore.v
Prediction.v
SharedCache.v
PromiseCache.v
RequestManager.v
RpcClient.v
DiagnosticSession.v
LiveDiagnostics.v
TopologyChangesets.v
PathRoutes.v
SubDesign.v
EntryFlow.v
MetricsService.v
ServiceStatus.v
Referral.v
Evidence.v
Billing.v
