(* ===== verification/Prelude.v ===== *)
(** * Captain web front ends: a verification library

    Captain is a proxy panel: a Go server and four web applications written in
    TypeScript, the administration console ([src/web/admin]), the user portal
    ([src/web/portal]), the public status page ([src/web/probe], whose theme
    code is [glass-shared]) and the marketing site ([src/web/site]).  This
    library models the parts of the TypeScript code that hold state, schedule
    asynchronous work or transform data, and proves what makes them correct.

    ** How the parts interact

    The status page polls a public snapshot and puts it into its stores; the
    theme was written for another server, and an adapter answers the calls of
    its RPC surface from the snapshot and from histories.  The theme's own
    JSON-RPC client (HTTP or WebSocket) is part of the code.  Requests go through
    a request manager, which bounds their number, shares one promise per key,
    retries and cancels.  Results live in
    caches with a time to live, in a store of nodes whose derived lists are
    memoised, and in shared entries of load history with a refresh timer.  The
    theme settings, an untyped object of the server, are turned into typed
    settings, node names and regions are matched against a table of flags,
    records are put on a grid and smoothed for charts, and snapshots are
    exported as CSV.  In the console, a diagnostic session holds a lease of the
    server while a view is open and feeds a window of live samples, the
    subscription designer edits policy groups that refer to each other by name,
    change sets and paths describe how lines are to be changed, entries dial
    through one another and through ingresses, and bills have dates.  The portal
    writes invitation codes and shows the status of the service.

    ** Files

    Language and libraries:
    - [Prelude]: tactics, the hint database [js], lemmas on lists, stable
      sorting, boolean filters and runs of event-driven components ([runs]).
    - [JsMap]: JavaScript's [Map] as an insertion-ordered association list,
      its equivalence ([jm_equiv], with [Proper] instances) and its abstraction
      to [gmap].
    - [JsString]: strings as lists of UTF-16 code units; the class
      [CaseMapping] states what is used of the Unicode case mapping.
    - [Json]: numbers as binary64 [spec_float] values, and JSON values.
    - [JsValue]: values with object identity, [===], [Object.is], shallow
      equality, the order of numbers and the stable sort by a number.
    - [JsNumber]: [String(x)] of numbers and values.
    - [FloatFacts]: signs and bounds of binary64 results.
    - [JsText]: [JSON.stringify] of strings, [Number] of a text, the order of
      strings and [toISOString], with their injectivity.
    - [Calendar]: the UTC dates of the platform ([setUTCFullYear] and the
      getters) as day numbers of the proleptic Gregorian calendar.
    - [Constants]: [glass-shared/constants/*.ts].

    The status page ([src/web/probe]):
    - [NodesStore]: [glass/src/stores/nodes.ts] and [store.ts], with
      [groupHelper.ts] and [gpuHelper.ts].  [NodesStore.t] is the raw state with
      the object identities, [memory] what [derive] remembers.
    - [LoadRecords]: module [History] is [services/history.service.ts], module
      [LoadRecords] is [composables/loadRecords.ts]: one shared entry and its
      heap of promises and closures.
    - [AuthSession]: [services/auth.service.ts].
    - [Csv]: [utils/csv.ts] and the CSV builders of [snapshot.service.ts], with
      the reader of RFC 4180 as the reference.
    - [Markdown]: [utils/html.ts] (module [Html]) and [utils/markdown.ts].
    - [RecordHelper]: [utils/recordHelper.ts].
    - [NodeCost]: [src/lib/node-cost.ts] of the status page.
    - [TagHelper]: [utils/tagHelper.ts] and [expiry-label.ts].
    - [Ping]: [ping-selection.ts] (module [PingSelection]) and
      [ping-summary.ts] (module [PingSummary]).
    - [SharedCache]: class [SharedCache] of [services/cache.service.ts].  [t] is
      the object: [entries] the map, [evictions] the calls of [onEvict],
      [releasers] the closures that [retain] has returned.
    - [PromiseCache]: class [PromiseCache] of the same file, a client of the
      interface [KeyedCache], which [SharedCache] implements.
    - [RequestManager]: [services/request.service.ts].
    - [RpcClient]: [utils/rpc.ts], the response validation and the WebSocket
      transport.
    - [RegionHelper]: [utils/regionHelper.ts], with its table.
    - [AppSettings]: [stores/app-settings.ts], with its tables.
    - [Network]: [shared/carrier-provinces.ts] and [src/lib/network.ts].
    - [NodeFacts]: the modules of [src/lib] that write a node's processor,
      bandwidth, price and storage.
    - [Format]: [utils/helper.ts]; [NodeMetrics]: [utils/nodeMetricsHelper.ts].
    - [GeneralCards]: [views/generalCards.ts], which composes [NodeCost],
      [NodeMetrics], [RegionHelper], [AppSettings] and [Format].
    - [Captain]: [captain.ts], the snapshot, its conversions and the cache of
      history requests; [CaptainMetrics]: its load and ping metrics and the
      dispatch of RPC methods.
    - [InitApp]: [glass/src/utils/init.ts], polling, on top of [Captain] and
      [NodesStore].
    - [MetricSeries]: [utils/metricSeries.ts]; [Finance]:
      [utils/financeHelper.ts]; [Prediction]: [services/prediction.service.ts].
    - [AppStore]: [glass/src/stores/app.ts] and [storage.ts], on top of
      [AppSettings] and [AuthSession].
    - [MetricsService]: the class [KomariRpc] of [utils/rpc.ts] on top of
      [CaptainMetrics], and [services/metrics.service.ts] on top of
      [SharedCache].

    The console ([src/web/admin/src/lib]):
    - [DiagnosticSession]: [diagnostic-session.ts].
    - [LiveDiagnostics]: [observed-request.ts] (module [ObservedRequest]) and
      [live-diagnostics.ts].
    - [TopologyChangesets]: [topology-changesets.ts].
    - [PathRoutes]: [path-health.ts] (module [PathHealth]) and [path-routes.ts].
    - [SubDesign]: [sub-design.ts].
    - [EntryFlow]: [ingress.ts], [entry-flow.ts] and [line-impact.ts].
    - [Evidence]: [line-change-evidence.ts], [node-addresses.ts] and
      [agent-https.ts], with a reader of shell words as the reference.
    - [Billing]: [infrastructure-payment.ts], [node-renewal.ts] and the bills of
      [node-infrastructure.ts].

    The portal ([src/web/portal/src/lib]):
    - [ServiceStatus]: [service-status.ts] (also of the site).
    - [Referral]: the writer of [referral.ts] as a state machine over its
      promises, and [login-return.ts].

    ** How the code is modelled

    A class or a module with variables is a record of its fields and a method
    or function that changes them a function on it.  An asynchronous method is
    cut at its awaits; each continuation, timer, callback and message is an
    event, and a component's [step] runs one event.  Theorems on
    [runs step events] quantify over all lists of events, so they hold in every
    order in which an engine can run the continuations; an event that refers to
    something that does not exist leaves the state alone.  Clock readings, fresh
    identifiers and the outcomes of calls to the environment are arguments of
    the events.  Objects with an identity (closures, sockets, requests,
    promises, node objects) are named by their position in a list that only
    grows or by an address.  Functions that can throw, or that may not return,
    return an option.  Clock values, counters and sizes are integers of [Z],
    which the code keeps far below 2^53; where the code reads numbers from
    outside they are binary64 values.  Objects whose fields are read by name are
    insertion-ordered maps.

    Recursion that is not structural has fuel.  [can_direct] of [SubDesign]
    follows references between groups and gets one more than the number of
    groups: a chain without repetition is no longer, and [can_direct_exact]
    shows that the result is reachability.  [normalize] of [AppSettings]
    unwraps settings nested in JSON text and gets the length of the text plus
    two: every unwrapping shortens the text, and [normalize_terminates] shows
    that the fuel never runs out.  [parse] of [Markdown] gets the length of the
    text: every token consumes some of it ([markdown_lossless]).  [time_points]
    of [RecordHelper] gets the length of the window in milliseconds: with a
    positive interval that is enough ([fill_exact]), and with another interval
    the loop of the code does not end either.  [number_string] of [JsNumber]
    tries 17 digits, which is enough for binary64.  The loop of
    [canDialThrough] in [EntryFlow] ends at depth 8 in the code itself; the port
    search walks through finite ranges.

    Parameters: the Unicode case mapping ([CaseMapping], laws on the characters
    of the tables only), [JSON.parse] ([JsonParse]: the text of a string inside
    a parsed text is shorter than the text), the protocol of a URL, the time
    stamp of a date text ([dayjs], [Date.parse], [Date]) and the printing of a
    time; the dictionary of the interface in [TagHelper]; the order of
    [localeCompare] in [NodeCost]; [toLowerCase] in [SubDesign] and
    [PathRoutes]; [Intl], the hour in Beijing, [URLSearchParams] and [new URL].
    These have no law.  [Math.log] ([ByteIndex] in [Format], laws only away from
    the powers of 1024), the JSON codec of stored values ([JsonCodec], its round
    trip) and the parser of dates ([DateParse], what it does with a date) are
    classes with an instance each.

    ** What is proved

    - Request manager: the slots taken are those of the requests executing,
      never more than the limit; no request waits while a slot is free; every
      promise handed out is queued, running or settled, exactly once; if tasks
      complete, everything accepted settles; slots are granted in order of
      arrival, attempts are bounded, an aborted request makes no further
      attempt, and without cancellations a key has one request in flight.
    - Caches: capacity, least-recently-used order and minimality of eviction,
      conservation of entries with their [onEvict] calls, reference counts
      against release closures, insertion and lookup; single flight, and no
      settled promise is ever served.
    - RPC client: a request is pending exactly while its one caller is in
      flight, and has a timeout that ends it; a call settles at most once, a
      response goes to the call with its identifier and to no other, closing
      rejects all, and the accepted responses are exactly the well-formed ones.
    - Node store: the guarded, identity-preserving updates refine plain
      assignments of every field but the parsed groups, which follow the group
      text ([store_refines_assignments]), and the memoised
      derived state equals the state derived from scratch
      ([derived_state_exact]).
    - Load history: one load of all nodes and one load per node in flight, the
      timer runs exactly while there are subscribers, the server is left alone
      after a failure, records are grouped exactly, and an abort uses the key of
      the request.
    - Sign-in: the session is coherent, checks share one request, and a
      permission is granted exactly on a positive answer.
    - Charts: a filled series is the whole grid with the records in tolerance,
      interpolation only fills gaps, and the in-place peak cutting refines a
      function on columns.
    - Costs: the calendar is exact in both directions; the remaining cost of a
      node is prorated over the calendar cycle that ends at its expiry, and a
      converted total is never partial.
    - Tags and expiry: tags are read as they are written, the expiry status has
      its thresholds to the millisecond and only gets worse.
    - Pings: a source is never substituted by one of another carrier, family or
      task, and a summary counts every point of its window once.
    - Text: a CSV export reads back as it was written and contains no formula,
      the chunked export equals the plain one, escaped HTML is inert and shown
      as it was, Markdown parsing ends and loses nothing.
    - Diagnostic session and live samples: a granted lease is held, in a
      response about to be handled, or has been released; an active session has
      exactly one renewal and one poll, and each of its requests a timeout of ten
      seconds; answers to a closed view are not
      adopted; the live window is bounded, ordered and of one lease, graphs
      break at gaps, and an observation that counts as fresh is fresh on both
      clocks.
    - Change sets and paths: a save keeps what was edited in the meantime, a
      reopened edit of an inbound or entry sends what it had, an unreferenced operation can be
      removed; moving an item moves only that item, probe evidence only decays,
      and probes are offered only where they can work.
    - Subscription design: exactness of the direct-connection check, renaming
      keeps the routes and can be undone, the rule difference is a patch, the
      catalogue is complete.
    - Regions and settings: round trips of the tables, well-formedness and
      totality of the derived settings, confinement of local backgrounds to
      their directory.
    - The page: it shows exactly the snapshot that was accepted last
      ([page_shows_snapshot] composes the poller, the adapter and the node
      store), polling never stops while it is open, history requests are shared,
      and the adapter reads only what the snapshot publishes; ping statistics
      and load records are exact, and cards never show costs that are hidden.
    - The RPC surface answers exactly as the adapter does, errors included; the
      keys of metric requests and series identify what they stand for.
    - Preferences survive a reload whatever other tabs do, and the memoised
      state equals the state derived from scratch.
    - Finance and prediction: overrides of exchange rates and estimates are read
      as they were stored; a prediction is given exactly when nothing speaks
      against it, with its numbers in range.
    - Entries: a dialer is accepted exactly if the chain it makes ends within
      eight levels; free ports and forwarding addresses are exact and confined;
      an endpoint follows its inbound unless it was typed.
    - Evidence: a change is shown as applied exactly if every target is, on
      evidence that is good on both clocks; commands for a shell are read as
      their fixed words and the address as one word.
    - Bills: the next date is the billing day the right number of months later,
      and periods in years become whole months exactly or not at all.
    - Portal: the headline says that all is well exactly if every entry is
      healthy on current evidence; invitation codes are written in order, one at
      a time, and the writer never gets stuck.
    - Behaviours the code does not intend have theorems of their own: the
      callbacks of a replaced request, promise, socket or entry act on its
      successor ([stale_finally_unregisters_successor],
      [stale_settle_evicts_successor], [late_close_kills_new_connection],
      [stale_release_drops_new_reference]); a new subscriber joins a load that
      was aborted ([resubscribe_joins_aborted_load]); lookups in object literals
      find inherited properties ([inherited_preset_throws],
      [inherited_property_throws]); one field of the node list cannot be
      selected ([city_field_never_selected]); a refresh replaces nodes that did
      not change ([patch_replaces_unchanged_nodes]); plain text of the banner is
      escaped twice ([plain_text_escaped_twice]); a value that is left can be
      negative in the millisecond of the expiry ([remaining_value_negative]);
      sizes below one byte are shown in the largest unit
      ([fraction_shown_as_petabytes]); a replaced history request that fails
      drops its successor ([stale_failure_drops_successor]); a retry during a
      request doubles the polling ([retry_doubles_polling]); after an error the
      store serves the settings before ([stale_settings_after_error]); an abort
      of a metric query looks for a key that is not there
      ([abort_misses_query]), and an unsupported request is tried again
      ([unsupported_is_retried]).

    ** What is not modelled

    The Go server, the SQL schema, deployment and the React views are outside:
    they are the environment.  Of the modelled files, [adoptClaudeRules]
    (compares JSON texts), [getBeijingHour] and [getTodayDateKey] (time zones of
    the platform), the URL rewriting of the RPC client and its
    [ensureWebSocketConnectedWithPing], the listener set and hooks of the stores,
    the JSON half of the snapshot export, [formatCostAmount] ([Intl]),
    [formatCurrencyValue] ([toFixed]), the requests behind the history functions,
    the label of an ingress, URLs built with [URLSearchParams], the finance form
    of the console, and [routeInput], [linearSourceLine], [pathInboundSupported]
    and [pathNetworkLabel] of the paths are left out.  Not modelled at all are
    the options of the charting library ([charts/load.ts], [charts/ping.ts]:
    styles and labels around series that are modelled), the REST client of the
    original theme, which the adapter replaces, the provider, audit and visitor
    services (calls of browser interfaces), tables of translations, logos and
    coordinates, and small helpers of single pages of the console.  They would
    come next, the helpers first. *)

From stdpp Require Export prelude list gmap strings relations sorting.

#[export] Set Default Goal Selector "!".

(** ** Hint databases and tactics *)

(** [js] holds the resolution hints of the development, [js_simpl] its
    rewriting rules (projections of updated states, lookups in ordered maps). *)
Create HintDb js discriminated.

(** Case analysis on every [if] and [match] scrutinee of the goal. *)
Ltac split_cases := repeat (case_match; simplify_eq/=).

(** Splits boolean conjunctions and reflects decisions. *)
Ltac reflect_bools :=
  repeat match goal with
  | H : _ && _ = true |- _ => apply andb_true_iff in H as [? ?]
  | H : _ || _ = false |- _ => apply orb_false_iff in H as [? ?]
  | H : negb _ = true |- _ => apply negb_true_iff in H
  | H : negb _ = false |- _ => apply negb_false_iff in H
  | H : bool_decide _ = true |- _ => apply bool_decide_eq_true_1 in H
  | H : bool_decide _ = false |- _ => apply bool_decide_eq_false_1 in H
  end.

(** A closed decidable proposition, by evaluating its decision procedure. *)
Ltac decide_closed :=
  match goal with |- ?P => apply (bool_decide_eq_true_1 P); vm_compute; reflexivity end.

(** ** Lists *)

Section lists.
Context {A : Type}.
Implicit Types l : list A.

(** [Array.prototype.some] and [every] with boolean callbacks. *)
Definition some (f : A → bool) (l : list A) : bool := existsb f l.
Definition every (f : A → bool) (l : list A) : bool := forallb f l.

(** [Array.prototype.filter] with a boolean callback. *)
Fixpoint bfilter (f : A → bool) (l : list A) : list A :=
  match l with
  | [] => []
  | x :: l => if f x then x :: bfilter f l else bfilter f l
  end.

Lemma some_true f l : some f l = true ↔ ∃ x, x ∈ l ∧ f x = true.
Proof.
  unfold some. rewrite existsb_exists.
  by setoid_rewrite list_elem_of_In.
Qed.

Lemma some_false f l : some f l = false ↔ ∀ x, x ∈ l → f x = false.
Proof.
  split.
  - intros Hs x Hx. destruct (f x) eqn:Hf; [|done].
    assert (some f l = true) by (apply some_true; eauto). congruence.
  - intros Hall. destruct (some f l) eqn:Hs; [|done].
    apply some_true in Hs as (x & Hx & Hf). by rewrite Hall in Hf.
Qed.

Lemma every_true f l : every f l = true ↔ ∀ x, x ∈ l → f x = true.
Proof.
  unfold every. rewrite forallb_forall.
  by setoid_rewrite list_elem_of_In.
Qed.

Lemma elem_of_bfilter f l x : x ∈ bfilter f l ↔ f x = true ∧ x ∈ l.
Proof.
  induction l as [|y l IH]; simpl; [set_solver|].
  destruct (f y) eqn:Hy; rewrite ?elem_of_cons, IH; naive_solver congruence.
Qed.

Lemma bfilter_app f l1 l2 : bfilter f (l1 ++ l2) = bfilter f l1 ++ bfilter f l2.
Proof. induction l1 as [|x l1 IH]; simpl; [done|]. rewrite IH. by destruct (f x). Qed.

Lemma bfilter_ext f g l : (∀ x, x ∈ l → f x = g x) → bfilter f l = bfilter g l.
Proof.
  induction l as [|x l IH]; simpl; intros Hfg; [done|].
  rewrite Hfg by set_solver. rewrite IH by set_solver. done.
Qed.

Lemma bfilter_bfilter f g l : bfilter f (bfilter g l) = bfilter (λ x, g x && f x) l.
Proof.
  induction l as [|x l IH]; simpl; [done|].
  destruct (g x); simpl; [|done]. destruct (f x); by rewrite IH.
Qed.

Lemma bfilter_all f l : (∀ x, x ∈ l → f x = true) → bfilter f l = l.
Proof.
  induction l as [|x l IH]; simpl; intros Hf; [done|].
  rewrite Hf by set_solver. rewrite IH by set_solver. done.
Qed.

Lemma bfilter_none f l : (∀ x, x ∈ l → f x = false) → bfilter f l = [].
Proof.
  induction l as [|x l IH]; simpl; intros Hf; [done|].
  rewrite Hf by set_solver. rewrite IH by set_solver. done.
Qed.

Lemma bfilter_sublist f l : bfilter f l `sublist_of` l.
Proof. induction l as [|x l IH]; simpl; [done|]. destruct (f x); by constructor. Qed.

Lemma length_bfilter f l : length (bfilter f l) ≤ length l.
Proof. apply sublist_length, bfilter_sublist. Qed.

(** A list splits into what a filter keeps and what it drops. *)
Lemma bfilter_partition f l :
  l ≡ₚ bfilter f l ++ bfilter (λ x, negb (f x)) l.
Proof.
  induction l as [|x l IH]; simpl; [done|].
  destruct (f x); simpl; [by rewrite <-IH|].
  rewrite <-Permutation_middle. by rewrite <-IH.
Qed.

Lemma length_bfilter_negb f l :
  length l = length (bfilter f l) + length (bfilter (λ x, negb (f x)) l).
Proof. rewrite <-length_app. apply Permutation_length, bfilter_partition. Qed.

(** Overwriting one position changes a count by the two tests involved. *)
Lemma length_bfilter_insert f l (i : nat) x y :
  l !! i = Some x →
  (length (bfilter f (<[i := y]> l)) + (if f x then 1 else 0)
   = length (bfilter f l) + (if f y then 1 else 0))%nat.
Proof.
  revert i. induction l as [|z l IH]; intros [|i]; simpl; intros Hi; simplify_eq.
  - destruct (f x), (f y); simpl; lia.
  - specialize (IH i Hi). destruct (f z); simpl; lia.
Qed.

Lemma NoDup_bfilter f l : NoDup l → NoDup (bfilter f l).
Proof. intros. by eapply sublist_NoDup, bfilter_sublist. Qed.
End lists.

#[global] Instance bfilter_proper {A} (f : A → bool) : Proper ((≡ₚ) ==> (≡ₚ)) (bfilter f).
Proof.
  induction 1; simpl; repeat case_match; try done.
  - by constructor.
  - by constructor.
  - etrans; eauto.
Qed.

(** [Array.prototype.find]. *)
Fixpoint list_find_first {A} (f : A → bool) (l : list A) : option A :=
  match l with
  | [] => None
  | x :: l => if f x then Some x else list_find_first f l
  end.

Lemma list_find_first_Some {A} (f : A → bool) l x :
  list_find_first f l = Some x → x ∈ l ∧ f x = true.
Proof. induction l; simpl; [done|]. case_match; set_solver. Qed.

Lemma list_find_first_None {A} (f : A → bool) l :
  list_find_first f l = None ↔ ∀ x, x ∈ l → f x = false.
Proof.
  induction l as [|y l IH]; simpl; [set_solver|].
  destruct (f y) eqn:Hy; [split; [done|]|].
  - intros Hall. rewrite Hall in Hy by set_solver. done.
  - rewrite IH. set_solver.
Qed.

Lemma list_find_first_ext {A} (f g : A → bool) l :
  (∀ x, x ∈ l → f x = g x) → list_find_first f l = list_find_first g l.
Proof.
  induction l as [|x l IH]; intros Hfg; [done|]. cbn [list_find_first].
  rewrite Hfg by set_solver. case_match; [done|]. apply IH. set_solver.
Qed.

Lemma sublist_map {A B} (f : A → B) l1 l2 :
  l1 `sublist_of` l2 → (f <$> l1) `sublist_of` (f <$> l2).
Proof. induction 1; csimpl; by constructor. Qed.

Lemma StronglySorted_sublist {A} (R : relation A) l1 l2 :
  l1 `sublist_of` l2 → StronglySorted R l2 → StronglySorted R l1.
Proof.
  induction 1 as [|x l1 l2 Hsub IH|x l1 l2 Hsub IH]; [done|..];
    intros [Hs Hf]%StronglySorted_inv; [|auto].
  constructor; [auto|]. rewrite Forall_forall in Hf |- *.
  intros y Hy. apply Hf. by eapply elem_of_sublist.
Qed.

Lemma Forall2_impl_elem {A B} (P Q : A → B → Prop) l k :
  Forall2 P l k → (∀ x y, x ∈ l → y ∈ k → P x y → Q x y) → Forall2 Q l k.
Proof.
  induction 1 as [|x y l k Hxy Hlk IH]; intros Himp; constructor.
  - apply Himp; set_solver.
  - apply IH. intros. apply Himp; set_solver.
Qed.

Lemma Forall2_compose {A B C} (P : A → B → Prop) (Q : B → C → Prop) (R : A → C → Prop) l k m :
  (∀ x y z, P x y → Q y z → R x z) → Forall2 P l k → Forall2 Q k m → Forall2 R l m.
Proof.
  intros HR Hlk. revert m. induction Hlk as [|x y l k Hxy Hlk IH]; intros m Hkm; inversion Hkm; subst;
    constructor; eauto.
Qed.

(** Removal of one occurrence, when there is one. *)
Fixpoint remove_one {A} `{EqDecision A} (x : A) (l : list A) : option (list A) :=
  match l with
  | [] => None
  | y :: l => if decide (x = y) then Some l else cons y <$> remove_one x l
  end.

Lemma remove_one_Some {A} `{EqDecision A} (x : A) l l' :
  remove_one x l = Some l' → l ≡ₚ x :: l'.
Proof.
  revert l'. induction l as [|y l IH]; simpl; intros l' H; [done|].
  case_decide; simplify_eq; [done|].
  destruct (remove_one x l) as [l2|] eqn:Hr; simplify_eq/=.
  rewrite (IH l2) by done. constructor.
Qed.

(** When [f] of the elements is unique, removing by [f] removes one element. *)
Lemma bfilter_remove_perm {A B} `{EqDecision B} (f : A → B) l x :
  NoDup (f <$> l) → list_find_first (λ y, bool_decide (f y = f x)) l = Some x →
  l ≡ₚ x :: bfilter (λ y, negb (bool_decide (f y = f x))) l.
Proof.
  induction l as [|y l IH]; csimpl; [done|].
  intros [Hni Hnd]%NoDup_cons. destruct (bool_decide (f y = f x)) eqn:Hy; simpl.
  - intros [= ->]. rewrite bfilter_all; [done|].
    intros z Hz. rewrite bool_decide_eq_false_2; [done|].
    intros Heq. apply Hni. rewrite <-Heq. apply list_elem_of_fmap. eauto.
  - intros Hf. rewrite (IH Hnd Hf) at 1. constructor.
Qed.

(** ** Permutations by counting

    [perm_solve] proves a permutation from permutation hypotheses by
    comparing the number of occurrences of an arbitrary element. *)
Definition count_of {A} `{EqDecision A} (x : A) (l : list A) : nat :=
  count_occ (λ x y, decide (x = y)) l x.

Lemma count_of_nil {A} `{EqDecision A} (x : A) : count_of x [] = 0.
Proof. done. Qed.
Lemma count_of_cons {A} `{EqDecision A} (x y : A) l :
  count_of x (y :: l) = (if decide (y = x) then 1 else 0) + count_of x l.
Proof. unfold count_of. simpl. by case_decide. Qed.
Lemma count_of_app {A} `{EqDecision A} (x : A) l1 l2 :
  count_of x (l1 ++ l2) = count_of x l1 + count_of x l2.
Proof. apply count_occ_app. Qed.
Lemma count_of_0 {A} `{EqDecision A} (x : A) l : x ∉ l → count_of x l = 0.
Proof. intros. apply count_occ_not_In. by rewrite <-list_elem_of_In. Qed.
Lemma perm_count_of {A} `{EqDecision A} (l1 l2 : list A) :
  l1 ≡ₚ l2 ↔ ∀ x, count_of x l1 = count_of x l2.
Proof. apply Permutation_count_occ. Qed.

Create Rewrite HintDb perm_count.
#[export] Hint Rewrite @count_of_nil @count_of_cons @count_of_app : perm_count.

Ltac perm_solve :=
  csimpl in *; rewrite ?fmap_app in *; csimpl in *;
  apply perm_count_of; let x := fresh "x" in intros x;
  repeat match goal with
  | H : _ ≡ₚ _ |- _ => rewrite perm_count_of in H; specialize (H x)
  end;
  autorewrite with perm_count in *; lia.

(** ** Stable sorting

    [Array.prototype.sort] is stable (ECMAScript 2019).  Every comparator of
    the modelled code that is of the form [(a, b) => key(a) - key(b)] is
    [sort_on key]. *)

Section sorting.
Context {A : Type} (key : A → Z).

Fixpoint insert_on (x : A) (l : list A) : list A :=
  match l with
  | [] => [x]
  | y :: l' => if bool_decide (key y < key x)%Z then y :: insert_on x l' else x :: l
  end.

Definition sort_on (l : list A) : list A := foldr insert_on [] l.

Definition on_le (x y : A) : Prop := (key x ≤ key y)%Z.

Lemma insert_on_perm x l : insert_on x l ≡ₚ x :: l.
Proof.
  induction l as [|y l IH]; simpl; [done|].
  case_bool_decide; [|done]. rewrite IH. constructor.
Qed.

Lemma sort_on_perm l : sort_on l ≡ₚ l.
Proof. induction l as [|x l IH]; simpl; [done|]. by rewrite insert_on_perm, IH. Qed.

Lemma insert_on_sorted x l :
  StronglySorted on_le l → StronglySorted on_le (insert_on x l).
Proof.
  induction 1 as [|y l Hs IH Hf]; simpl; [by repeat constructor|].
  case_bool_decide.
  - constructor; [done|]. rewrite insert_on_perm.
    constructor; [unfold on_le; lia|done].
  - constructor; [by constructor|].
    constructor; [unfold on_le; lia|].
    eapply Forall_impl; [done|]. unfold on_le; intros; lia.
Qed.

Lemma sort_on_sorted l : StronglySorted on_le (sort_on l).
Proof. induction l; simpl; [constructor|]. by apply insert_on_sorted. Qed.

(** Elements of equal key keep their order. *)
Lemma sort_on_stable k l :
  bfilter (λ x, bool_decide (key x = k)) (sort_on l)
  = bfilter (λ x, bool_decide (key x = k)) l.
Proof.
  induction l as [|x l IH]; simpl; [done|]. rewrite <-IH.
  generalize (sort_on l); intros s. clear IH.
  induction s as [|y s IHs]; simpl; [done|].
  repeat (case_bool_decide; simpl; try done); try lia; by rewrite IHs.
Qed.

(** An element that is not below any other and comes last stays last. *)
Lemma sort_on_snoc_max l x :
  (∀ y, y ∈ l → on_le y x) → sort_on (l ++ [x]) = sort_on l ++ [x].
Proof.
  unfold on_le. induction l as [|y l IH]; simpl; intros Hmax; [done|].
  rewrite IH by set_solver. assert (key y ≤ key x)%Z as Hy by set_solver.
  generalize (sort_on l); intros s. clear IH.
  induction s as [|z s IHs]; simpl.
  - by rewrite bool_decide_eq_false_2 by lia.
  - case_bool_decide; [by rewrite IHs|done].
Qed.

Lemma elem_of_sort_on x l : x ∈ sort_on l ↔ x ∈ l.
Proof. by rewrite sort_on_perm. Qed.
Lemma length_sort_on l : length (sort_on l) = length l.
Proof. by rewrite sort_on_perm. Qed.
End sorting.

(** ** Reachability *)

(** [runs step es s] folds a deterministic step function over a list of
    events: the way every event-driven component of the library is run. *)
Definition runs {E S} (step : E → S → S) (es : list E) (s : S) : S :=
  foldl (λ s e, step e s) s es.

Lemma runs_app {E S} (step : E → S → S) es1 es2 s :
  runs step (es1 ++ es2) s = runs step es2 (runs step es1 s).
Proof. apply foldl_app. Qed.

Lemma runs_snoc {E S} (step : E → S → S) es e s : runs step (es ++ [e]) s = step e (runs step es s).
Proof. by rewrite runs_app. Qed.

(** Induction principle for invariants of event-driven components. *)
Lemma runs_invariant {E S} (step : E → S → S) (P : S → Prop) es s :
  (∀ e s, P s → P (step e s)) → P s → P (runs step es s).
Proof. intros Hstep. revert s. induction es; simpl; eauto. Qed.

(** The same with a condition on the events. *)
Lemma runs_invariant_cond {E S} (step : E → S → S) (ok : E → Prop) (P : S → Prop) es s :
  (∀ e s, ok e → P s → P (step e s)) → Forall ok es → P s → P (runs step es s).
Proof. intros Hstep Hok. revert s. induction Hok; simpl; eauto. Qed.
