(* ===== verification/JsMap.v ===== *)
(** * Insertion-ordered maps

    JavaScript's [Map] as the source uses it: lookup by key, in-place
    update of an existing key, append of a new key, deletion, and iteration
    in insertion order.  A map is an association list in iteration order;
    well-formed maps have no duplicate key.  [to_gmap] is the abstraction to
    a finite map that forgets the order, and [jm_equiv] the equivalence of
    maps with the same lookups. *)

From S2P Require Import Prelude.

Abbreviation jsmap K V := (list (K * V)).

Section jsmap.
Context {K V : Type} `{EqDecision K}.
Implicit Types (m : jsmap K V) (k : K) (v : V).

Fixpoint jm_get k m : option V :=
  match m with
  | [] => None
  | (k', v) :: m => if bool_decide (k = k') then Some v else jm_get k m
  end.

Definition jm_has k m : bool := match jm_get k m with Some _ => true | None => false end.

Fixpoint jm_set k v m : jsmap K V :=
  match m with
  | [] => [(k, v)]
  | (k', v') :: m => if bool_decide (k = k') then (k', v) :: m else (k', v') :: jm_set k v m
  end.

Definition jm_delete k m : jsmap K V := bfilter (λ kv, negb (bool_decide (k = kv.1))) m.

(** Mutation of the object stored under a key. *)
Definition jm_alter (f : V → V) k m : jsmap K V :=
  match jm_get k m with Some v => jm_set k (f v) m | None => m end.

Definition jm_keys m : list K := m.*1.
Definition jm_values m : list V := m.*2.
Definition jm_size m : Z := Z.of_nat (length m).

Definition jm_wf m : Prop := NoDup (m.*1).

(** ** Lookup laws *)

Lemma jm_get_set_eq k v m : jm_get k (jm_set k v m) = Some v.
Proof.
  induction m as [|[k' v'] m IH]; simpl.
  - by rewrite bool_decide_eq_true_2.
  - case_bool_decide; simpl; [by rewrite bool_decide_eq_true_2|].
    by rewrite bool_decide_eq_false_2.
Qed.

Lemma jm_get_set_ne k k' v m : k ≠ k' → jm_get k (jm_set k' v m) = jm_get k m.
Proof.
  intros Hne. induction m as [|[k2 v2] m IH]; simpl.
  - by rewrite bool_decide_eq_false_2.
  - case_bool_decide; simpl; subst; repeat case_bool_decide; congruence.
Qed.

Lemma jm_get_delete_eq k m : jm_get k (jm_delete k m) = None.
Proof.
  unfold jm_delete. induction m as [|[k' v'] m IH]; simpl; [done|].
  case_bool_decide; simpl; [done|]. by rewrite bool_decide_eq_false_2.
Qed.

Lemma jm_get_delete_ne k k' m : k ≠ k' → jm_get k (jm_delete k' m) = jm_get k m.
Proof.
  intros Hne. unfold jm_delete. induction m as [|[k2 v2] m IH]; simpl; [done|].
  case_bool_decide; simpl; subst; [by rewrite bool_decide_eq_false_2|].
  by rewrite IH.
Qed.

Lemma jm_get_delete k k' m :
  jm_get k (jm_delete k' m) = if bool_decide (k = k') then None else jm_get k m.
Proof. case_bool_decide; subst; [apply jm_get_delete_eq|by apply jm_get_delete_ne]. Qed.

Lemma jm_get_set k k' v m :
  jm_get k (jm_set k' v m) = if bool_decide (k = k') then Some v else jm_get k m.
Proof. case_bool_decide; subst; [apply jm_get_set_eq|by apply jm_get_set_ne]. Qed.

Lemma jm_get_alter k k' f m :
  jm_get k (jm_alter f k' m) = if bool_decide (k = k') then f <$> jm_get k m else jm_get k m.
Proof.
  unfold jm_alter. case_bool_decide; subst; destruct (jm_get k' m) eqn:Hg; simpl.
  - apply jm_get_set_eq.
  - done.
  - by apply jm_get_set_ne.
  - done.
Qed.

(** ** Keys *)

Lemma jm_get_is_Some k m : is_Some (jm_get k m) ↔ k ∈ m.*1.
Proof.
  induction m as [|[k' v] m IH]; simpl; [rewrite is_Some_alt; set_solver|].
  case_bool_decide; subst.
  - split; [set_solver|eauto].
  - rewrite IH. set_solver.
Qed.

Lemma jm_get_None k m : jm_get k m = None ↔ k ∉ m.*1.
Proof. rewrite <-jm_get_is_Some, eq_None_not_Some. done. Qed.

Lemma jm_get_elem_of k v m : jm_get k m = Some v → (k, v) ∈ m.
Proof.
  induction m as [|[k' v'] m IH]; simpl; [done|].
  case_bool_decide; intros; simplify_eq; set_solver.
Qed.

Lemma jm_elem_of_get k v m : jm_wf m → (k, v) ∈ m → jm_get k m = Some v.
Proof.
  unfold jm_wf. induction m as [|[k' v'] m IH]; simpl; [set_solver|].
  intros [Hni Hnd]%NoDup_cons [?|Hin]%elem_of_cons; simplify_eq.
  - by rewrite bool_decide_eq_true_2.
  - rewrite bool_decide_eq_false_2; [auto|].
    intros ->. apply Hni. rewrite list_elem_of_fmap. by exists (k', v).
Qed.

Lemma jm_elem_of k v m : jm_wf m → (k, v) ∈ m ↔ jm_get k m = Some v.
Proof. split; eauto using jm_elem_of_get, jm_get_elem_of. Qed.

Lemma jm_has_true k m : jm_has k m = true ↔ k ∈ m.*1.
Proof.
  rewrite <-jm_get_is_Some. unfold jm_has. destruct (jm_get k m) eqn:Hg; split; done.
Qed.

Lemma jm_keys_set k v m :
  (jm_set k v m).*1 = if bool_decide (k ∈ m.*1) then m.*1 else m.*1 ++ [k].
Proof.
  induction m as [|[k' v'] m IH]; simpl; [done|].
  destruct (decide (k = k')) as [->|Hne].
  - rewrite !bool_decide_eq_true_2; [done|set_solver|done].
  - rewrite (bool_decide_eq_false_2 (k = k')) by done. csimpl. rewrite IH.
    repeat case_bool_decide; set_solver.
Qed.

Lemma jm_keys_alter f k m : (jm_alter f k m).*1 = m.*1.
Proof.
  unfold jm_alter. destruct (jm_get k m) eqn:Hg; [|done].
  rewrite jm_keys_set, bool_decide_eq_true_2; [done|].
  apply jm_get_is_Some. eauto.
Qed.

Lemma jm_keys_bfilter (f : K * V → bool) m : (bfilter f m).*1 `sublist_of` m.*1.
Proof. induction m as [|x m IH]; simpl; [done|]. destruct (f x); simpl; by constructor. Qed.

(** ** Well-formedness *)

Lemma jm_wf_nil : jm_wf [].
Proof. constructor. Qed.

Lemma jm_wf_set k v m : jm_wf m → jm_wf (jm_set k v m).
Proof.
  unfold jm_wf. rewrite jm_keys_set. case_bool_decide as Hk; [done|].
  intros. apply NoDup_app. split_and!; [done|set_solver|apply NoDup_singleton].
Qed.

Lemma jm_wf_bfilter f m : jm_wf m → jm_wf (bfilter f m).
Proof. intros. by eapply sublist_NoDup, jm_keys_bfilter. Qed.

Lemma jm_wf_delete k m : jm_wf m → jm_wf (jm_delete k m).
Proof. apply jm_wf_bfilter. Qed.

Lemma jm_wf_alter f k m : jm_wf m → jm_wf (jm_alter f k m).
Proof. unfold jm_wf. by rewrite jm_keys_alter. Qed.

Lemma jm_get_bfilter f k m :
  jm_wf m →
  jm_get k (bfilter f m) =
    match jm_get k m with
    | Some v => if f (k, v) then Some v else None
    | None => None
    end.
Proof.
  intros Hwf. destruct (jm_get k m) as [v|] eqn:Hg.
  - destruct (f (k, v)) eqn:Hf.
    + apply jm_elem_of_get; [by apply jm_wf_bfilter|].
      apply elem_of_bfilter. split; [done|]. by apply jm_get_elem_of.
    + apply jm_get_None. rewrite list_elem_of_fmap. intros ([k' v'] & -> & Hin).
      apply elem_of_bfilter in Hin as [Hf' Hin]. apply jm_elem_of in Hin; [|done].
      simpl in *. congruence.
  - apply jm_get_None. apply jm_get_None in Hg. intros Hin. apply Hg.
    eapply elem_of_sublist; [done|apply jm_keys_bfilter].
Qed.

Lemma jm_keys_bfilter_elem f k v m :
  jm_wf m → (k, v) ∈ m → k ∈ (bfilter f m).*1 ↔ f (k, v) = true.
Proof.
  intros Hwf Hin. apply jm_elem_of in Hin; [|done].
  rewrite <-jm_get_is_Some, jm_get_bfilter, Hin by done.
  destruct (f (k, v)); split; eauto; [|done]. by intros [? [=]].
Qed.

Lemma jm_keys_delete k k' m : k' ∈ (jm_delete k m).*1 → k' ∈ m.*1.
Proof. intros Hk. eapply elem_of_sublist; [done|apply jm_keys_bfilter]. Qed.

Lemma jm_delete_not_in k m : k ∉ m.*1 → jm_delete k m = m.
Proof.
  intros Hk. apply bfilter_all. intros [k' v] Hin. simpl.
  rewrite bool_decide_eq_false_2; [done|].
  intros ->. apply Hk. rewrite list_elem_of_fmap. by exists (k', v).
Qed.

(** Overwriting a present key, up to order. *)
Lemma jm_set_perm k v m : jm_wf m → k ∈ m.*1 → jm_set k v m ≡ₚ (k, v) :: jm_delete k m.
Proof.
  intros Hwf Hk. induction m as [|[k' v'] m IH]; [set_solver|]. cbn [jm_set].
  apply NoDup_cons in Hwf as [Hn Hwf]. unfold jm_delete. cbn [bfilter]. case_bool_decide as He; subst.
  - rewrite (bool_decide_eq_true_2 (_ = _)) by done. cbn [negb]. fold (jm_delete k' m).
    by rewrite jm_delete_not_in.
  - rewrite (bool_decide_eq_false_2 (_ = _)) by done. cbn [negb]. fold (jm_delete k m).
    rewrite IH by (done || set_solver). constructor.
Qed.

Lemma jm_length_delete k m :
  jm_wf m → k ∈ m.*1 → S (length (jm_delete k m)) = length m.
Proof.
  unfold jm_wf. induction m as [|[k' v] m IH]; simpl; [set_solver|].
  unfold jm_delete; simpl. intros [Hni Hnd]%NoDup_cons [->|Hin]%elem_of_cons.
  - rewrite bool_decide_eq_true_2 by done. simpl.
    fold (jm_delete k' m). by rewrite jm_delete_not_in.
  - rewrite bool_decide_eq_false_2 by (intros ->; done). simpl.
    fold (jm_delete k m). by rewrite IH.
Qed.

Lemma jm_delete_perm k v m : jm_wf m → (k, v) ∈ m → m ≡ₚ (k, v) :: jm_delete k m.
Proof.
  unfold jm_wf. induction m as [|[k' v'] m IH]; csimpl; [set_solver|].
  unfold jm_delete; simpl. intros [Hni Hnd]%NoDup_cons [?|Hin]%elem_of_cons; simplify_eq.
  - rewrite bool_decide_eq_true_2 by done. simpl. fold (jm_delete k' m).
    by rewrite jm_delete_not_in.
  - rewrite bool_decide_eq_false_2.
    + simpl. fold (jm_delete k m). rewrite (IH Hnd Hin) at 1. constructor.
    + intros ->. apply Hni. apply list_elem_of_fmap. by exists (k', v).
Qed.

Lemma jm_set_fresh k v m : jm_get k m = None → jm_set k v m = m ++ [(k, v)].
Proof.
  induction m as [|[k' v'] m IH]; simpl; [done|].
  case_bool_decide; [done|]. intros. by rewrite IH.
Qed.

Lemma jm_length_set k v m :
  length (jm_set k v m) = if jm_has k m then length m else S (length m).
Proof.
  rewrite <-(length_fmap fst (jm_set k v m)), jm_keys_set.
  destruct (jm_has k m) eqn:Hk.
  - rewrite jm_has_true in Hk. rewrite bool_decide_eq_true_2 by done. by rewrite length_fmap.
  - rewrite bool_decide_eq_false_2.
    + rewrite length_app, length_fmap. simpl. lia.
    + rewrite <-jm_has_true. by rewrite Hk.
Qed.

Lemma jm_elem_of_set k v m kv :
  jm_wf m → kv ∈ jm_set k v m ↔ kv = (k, v) ∨ (kv ∈ m ∧ kv.1 ≠ k).
Proof.
  intros Hwf. destruct kv as [k' v'].
  rewrite (jm_elem_of k' v' (jm_set k v m)), (jm_elem_of k' v' m) by auto using jm_wf_set.
  rewrite jm_get_set. simpl. case_bool_decide; subst; naive_solver.
Qed.
End jsmap.

#[global] Arguments jm_delete : simpl never.

#[export] Hint Resolve jm_wf_nil jm_wf_set jm_wf_delete jm_wf_alter jm_wf_bfilter : js.

(** ** Observational equivalence *)

Section equiv.
Context {K V : Type} `{EqDecision K}.

(** Two maps are equivalent when no lookup tells them apart: iteration
    order is forgotten. *)
Definition jm_equiv (m1 m2 : jsmap K V) : Prop := ∀ k, jm_get k m1 = jm_get k m2.

#[export] Instance jm_equiv_equivalence : Equivalence jm_equiv.
Proof.
  split; [by intros ??|by intros ?? H k|].
  intros ??? H1 H2 k. by rewrite (H1 k), (H2 k).
Qed.

#[export] Instance jm_get_proper k : Proper (jm_equiv ==> eq) (jm_get k).
Proof. intros ?? H. apply H. Qed.
#[export] Instance jm_has_proper k : Proper (jm_equiv ==> eq) (jm_has k).
Proof. intros ?? H. unfold jm_has. by rewrite (H k). Qed.
#[export] Instance jm_set_proper k v : Proper (jm_equiv ==> jm_equiv) (jm_set k v).
Proof. intros ?? H k'. rewrite !jm_get_set. by rewrite (H k'). Qed.
#[export] Instance jm_delete_proper k : Proper (jm_equiv ==> jm_equiv) (jm_delete k).
Proof. intros ?? H k'. rewrite !jm_get_delete. by rewrite (H k'). Qed.
End equiv.

(** ** Abstraction to finite maps *)

Section to_gmap.
Context {K V : Type} `{Countable K}.

Fixpoint to_gmap (m : jsmap K V) : gmap K V :=
  match m with
  | [] => ∅
  | (k, v) :: m => <[k := v]> (to_gmap m)
  end.

Lemma lookup_to_gmap k (m : jsmap K V) : to_gmap m !! k = jm_get k m.
Proof.
  induction m as [|[k' v] m IH]; simpl; [apply lookup_empty|].
  case_bool_decide; subst; [by rewrite lookup_insert_eq|].
  by rewrite lookup_insert_ne.
Qed.

Lemma to_gmap_set k v (m : jsmap K V) : to_gmap (jm_set k v m) = <[k := v]> (to_gmap m).
Proof.
  apply map_eq. intros k'. rewrite lookup_to_gmap, jm_get_set, lookup_insert, lookup_to_gmap.
  repeat case_decide; repeat case_bool_decide; congruence.
Qed.

Lemma to_gmap_delete k (m : jsmap K V) : to_gmap (jm_delete k m) = delete k (to_gmap m).
Proof.
  apply map_eq. intros k'.
  rewrite lookup_to_gmap, jm_get_delete, lookup_delete, lookup_to_gmap.
  repeat case_decide; repeat case_bool_decide; congruence.
Qed.

Lemma to_gmap_equiv (m1 m2 : jsmap K V) : jm_equiv m1 m2 ↔ to_gmap m1 = to_gmap m2.
Proof.
  split.
  - intros Heq. apply map_eq. intros k. by rewrite !lookup_to_gmap, (Heq k).
  - intros Heq k. by rewrite <-!lookup_to_gmap, Heq.
Qed.
End to_gmap.
