(* ===== verification/JsString.v ===== *)
(** * JavaScript strings

    A string is a list of UTF-16 code units.  [js] turns a source literal,
    which Rocq stores as UTF-8 bytes, into one.  White space and code points
    follow the language definition; the Unicode case mapping is a parameter
    with the laws that the programs rely on ([CaseMapping]). *)

From Stdlib Require Import Ascii.
From S2P Require Import Prelude JsMap.

Open Scope Z_scope.

Definition jsstring := list Z.

#[global] Instance jsstring_eq_dec : EqDecision jsstring := _.

(** ** Literals *)

Fixpoint bytes (s : string) : list Z :=
  match s with
  | EmptyString => []
  | String a s => Z.of_N (N_of_ascii a) :: bytes s
  end.

(** The UTF-16 code units of one code point. *)
Definition encode_point (c : Z) : list Z :=
  if bool_decide (c < 65536) then [c]
  else [55296 + Z.shiftr (c - 65536) 10; 56320 + Z.land (c - 65536) 1023].

Fixpoint decode_utf8 (l : list Z) : list Z :=
  match l with
  | a :: l1 =>
      if bool_decide (a < 128) then a :: decode_utf8 l1
      else match l1 with
      | b :: l2 =>
          if bool_decide (a < 224) then Z.lor (Z.shiftl (Z.land a 31) 6) (Z.land b 63) :: decode_utf8 l2
          else match l2 with
          | c :: l3 =>
              if bool_decide (a < 240)
              then Z.lor (Z.shiftl (Z.land a 15) 12) (Z.lor (Z.shiftl (Z.land b 63) 6) (Z.land c 63))
                   :: decode_utf8 l3
              else match l3 with
              | d :: l4 =>
                  Z.lor (Z.shiftl (Z.land a 7) 18)
                    (Z.lor (Z.shiftl (Z.land b 63) 12) (Z.lor (Z.shiftl (Z.land c 63) 6) (Z.land d 63)))
                  :: decode_utf8 l4
              | [] => []
              end
          | [] => []
          end
      | [] => []
      end
  | [] => []
  end.

Definition js (s : string) : jsstring := decode_utf8 (bytes s) ≫= encode_point.

(** ** Code points ([for...of], the [u] flag of regular expressions) *)

Definition is_high (u : Z) : bool := bool_decide (55296 ≤ u ≤ 56319).
Definition is_low (u : Z) : bool := bool_decide (56320 ≤ u ≤ 57343).

Fixpoint code_points (s : jsstring) : list Z :=
  match s with
  | [] => []
  | u :: s' =>
      match s' with
      | v :: s'' =>
          if is_high u && is_low v
          then (65536 + Z.shiftl (u - 55296) 10 + (v - 56320)) :: code_points s''
          else u :: code_points s'
      | [] => [u]
      end
  end.

(** ** White space and [trim] *)

Definition is_space (u : Z) : bool :=
  bool_decide (9 ≤ u ≤ 13) || bool_decide (u = 32) || bool_decide (u = 160)
  || bool_decide (u = 5760) || bool_decide (8192 ≤ u ≤ 8202) || bool_decide (8232 ≤ u ≤ 8233)
  || bool_decide (u = 8239) || bool_decide (u = 8287) || bool_decide (u = 12288)
  || bool_decide (u = 65279).

Fixpoint trimStart (s : jsstring) : jsstring :=
  match s with
  | u :: s' => if is_space u then trimStart s' else s
  | [] => []
  end.

Definition trimEnd (s : jsstring) : jsstring := reverse (trimStart (reverse s)).
Definition trim (s : jsstring) : jsstring := trimEnd (trimStart s).

(** A string with no white space at its ends. *)
Definition trimmed (s : jsstring) : bool :=
  match s, reverse s with u :: _, v :: _ => negb (is_space u) && negb (is_space v) | _, _ => true end.

Lemma trimStart_id u s : is_space u = false → trimStart (u :: s) = u :: s.
Proof. intros Hu. cbn. by rewrite Hu. Qed.

Lemma trim_trimmed s : trimmed s = true → trim s = s.
Proof.
  unfold trimmed, trim, trimEnd. destruct s as [|u s]; [done|].
  destruct (reverse (u :: s)) as [|v r] eqn:Hr.
  - apply (f_equal length) in Hr. rewrite length_reverse in Hr. done.
  - intros [Hu Hv]%andb_true_iff. apply negb_true_iff in Hu, Hv.
    rewrite trimStart_id by done. rewrite Hr, trimStart_id by done.
    by rewrite <-Hr, reverse_involutive.
Qed.

(** What [trimStart] returns does not start with white space. *)
Lemma trimStart_head s u r : trimStart s = u :: r → is_space u = false.
Proof.
  induction s as [|v s IH]; cbn; [done|]. destruct (is_space v) eqn:Hv; [done|].
  intros [= <- _]. done.
Qed.

Lemma trimStart_suffix s : trimStart s `suffix_of` s.
Proof.
  induction s as [|u s IH]; cbn; [done|]. case_match; [by apply suffix_cons_r|done].
Qed.

Lemma trimmed_trim s : trimmed (trim s) = true.
Proof.
  unfold trim, trimEnd. set (a := trimStart s).
  assert (∀ u r, a = u :: r → is_space u = false) as Ha by (intros u r; apply trimStart_head).
  destruct (trimStart (reverse a)) as [|v r] eqn:Hb; [done|].
  pose proof (trimStart_head _ _ _ Hb) as Hv.
  destruct (reverse (v :: r)) as [|u t] eqn:Hc; [done|].
  assert (reverse (u :: t) = v :: r) as Hd by (by rewrite <-Hc, reverse_involutive).
  unfold trimmed. rewrite Hd.
  pose proof (trimStart_suffix (reverse a)) as [k Hk]. rewrite Hb in Hk.
  apply (f_equal reverse) in Hk. rewrite reverse_involutive, reverse_app, Hc in Hk.
  rewrite (Ha u _ Hk), Hv. done.
Qed.

Lemma trimStart_nil s : trimStart s = [] → every is_space s = true.
Proof. induction s as [|u s IH]; cbn; [done|]. destruct (is_space u); [done|]. done. Qed.

(** Only white space is trimmed away. *)
Lemma trim_cons_ne u s : is_space u = false → trim (u :: s) ≠ [].
Proof.
  unfold trim, trimEnd. intros Hu Ht. rewrite trimStart_id in Ht by done.
  apply (f_equal reverse) in Ht. rewrite reverse_involutive in Ht. apply trimStart_nil in Ht.
  rewrite every_true in Ht. specialize (Ht u). rewrite elem_of_reverse in Ht. rewrite Ht in Hu; set_solver.
Qed.

Lemma trim_idemp s : trim (trim s) = trim s.
Proof. apply trim_trimmed, trimmed_trim. Qed.

(** ** Searching *)

Fixpoint startsWith (s p : jsstring) : bool :=
  match p, s with
  | [], _ => true
  | a :: p, b :: s => bool_decide (a = b) && startsWith s p
  | _ :: _, [] => false
  end.

Fixpoint includes (s p : jsstring) : bool :=
  startsWith s p || match s with [] => false | _ :: s => includes s p end.

Lemma startsWith_prefix s p : startsWith s p = true ↔ p `prefix_of` s.
Proof.
  revert s. induction p as [|a p IH]; intros s; cbn [startsWith].
  - split; [intros _; apply prefix_nil|by destruct s].
  - destruct s as [|b s].
    + split; [done|]. by intros ?%prefix_nil_inv.
    + cbn [startsWith]. rewrite andb_true_iff, IH, bool_decide_eq_true. split.
      * intros [-> ?]. by apply prefix_cons.
      * intros Hp. split; [by eapply prefix_cons_inv_1|by eapply prefix_cons_inv_2].
Qed.

Lemma includes_app s p : includes s p = true ↔ ∃ a b, s = a ++ p ++ b.
Proof.
  induction s as [|u s IH]; cbn [includes]; rewrite orb_true_iff, startsWith_prefix.
  - split.
    + intros [[k Hk]|?]; [|done]. by exists [], k.
    + intros (a & b & Hs). left. symmetry in Hs. apply app_eq_nil in Hs as [-> [-> ->]%app_eq_nil].
      done.
  - rewrite IH. split.
    + intros [[k Hk]|(a & b & ->)]; [by exists [], k|by exists (u :: a), b].
    + intros ([|x a] & b & Hs); [left; by exists b|right]. injection Hs as _ ->. by exists a, b.
Qed.

(** ** Splitting and joining *)

(** [split] with a regular expression that matches runs of separators: [cur]
    is the current piece in reverse, [inrun] whether a separator came last. *)
Fixpoint split_runs (sep : Z → bool) (s cur : jsstring) (inrun : bool) : list jsstring :=
  match s with
  | [] => [reverse cur]
  | u :: s =>
      if sep u then
        if inrun then split_runs sep s [] true else reverse cur :: split_runs sep s [] true
      else split_runs sep s (u :: cur) false
  end.

(** [split] with a one-character separator. *)
Fixpoint split_char (c : Z) (s cur : jsstring) : list jsstring :=
  match s with
  | [] => [reverse cur]
  | u :: s => if bool_decide (u = c) then reverse cur :: split_char c s [] else split_char c s (u :: cur)
  end.

Fixpoint join (sep : jsstring) (l : list jsstring) : jsstring :=
  match l with
  | [] => []
  | [x] => x
  | x :: l => x ++ sep ++ join sep l
  end.

Lemma split_char_none c x cur : c ∉ x → split_char c x cur = [reverse cur ++ x].
Proof.
  revert cur. induction x as [|u x IH]; intros cur Hc; cbn; [by rewrite app_nil_r|].
  apply not_elem_of_cons in Hc as [Hu Hx]. rewrite bool_decide_eq_false_2 by done.
  rewrite IH by done. by rewrite reverse_cons, <-app_assoc.
Qed.

Lemma split_char_first c x s cur : c ∉ x → split_char c (x ++ c :: s) cur = (reverse cur ++ x) :: split_char c s [].
Proof.
  revert cur. induction x as [|u x IH]; intros cur Hc; cbn.
  - by rewrite bool_decide_eq_true_2, app_nil_r.
  - apply not_elem_of_cons in Hc as [Hu Hx]. rewrite bool_decide_eq_false_2 by done.
    rewrite IH by done. by rewrite reverse_cons, <-app_assoc.
Qed.

(** Splitting undoes joining, for pieces without the separator. *)
Lemma split_char_join c l : l ≠ [] → Forall (λ x, c ∉ x) l → split_char c (join [c] l) [] = l.
Proof.
  induction l as [|x [|y l] IH]; [done| |]; intros _ [Hx Hl]%Forall_cons.
  - cbn [join]. by apply split_char_none.
  - change (join [c] (x :: y :: l)) with (x ++ c :: join [c] (y :: l)).
    rewrite split_char_first by done. by rewrite IH.
Qed.

(** ** [encodeURIComponent] *)

Definition utf8_bytes (c : Z) : list Z :=
  if bool_decide (c < 128) then [c]
  else if bool_decide (c < 2048) then [192 + Z.shiftr c 6; 128 + Z.land c 63]
  else if bool_decide (c < 65536)
  then [224 + Z.shiftr c 12; 128 + Z.land (Z.shiftr c 6) 63; 128 + Z.land c 63]
  else [240 + Z.shiftr c 18; 128 + Z.land (Z.shiftr c 12) 63; 128 + Z.land (Z.shiftr c 6) 63;
        128 + Z.land c 63].

Definition hex_digit (n : Z) : Z := if bool_decide (n < 10) then 48 + n else 55 + n.

Definition percent (b : Z) : jsstring := [37; hex_digit (Z.shiftr b 4); hex_digit (Z.land b 15)].

(** Letters, digits and [-_.!~*'()]. *)
Definition is_unreserved (c : Z) : bool :=
  bool_decide (48 ≤ c ≤ 57) || bool_decide (65 ≤ c ≤ 90) || bool_decide (97 ≤ c ≤ 122)
  || bool_decide (c ∈ [45; 95; 46; 33; 126; 42; 39; 40; 41]).

Definition encode_char (c : Z) : jsstring :=
  if is_unreserved c then [c] else utf8_bytes c ≫= percent.

(** A lone surrogate throws: [None]. *)
Definition encodeURIComponent (s : jsstring) : option jsstring :=
  let l := code_points s in
  if some (λ c, bool_decide (55296 ≤ c ≤ 57343)) l then None else Some (l ≫= encode_char).

(** ** Property access on plain objects *)

(** The properties of [Object.prototype], which every object literal inherits. *)
Definition inherited_keys : list jsstring :=
  js <$> ["constructor"; "toString"; "valueOf"; "hasOwnProperty"; "isPrototypeOf";
          "propertyIsEnumerable"; "toLocaleString"; "__proto__"; "__defineGetter__";
          "__defineSetter__"; "__lookupGetter__"; "__lookupSetter__"]%string.

(** ** Case mapping *)

(** [String.prototype.toLowerCase] and [toUpperCase].  The laws give the
    mapping on the characters the programs' own literals are made of: Latin-1,
    Han characters and flag emojis for lower case, ASCII for upper case. *)

Definition lower_unit (u : Z) : Z :=
  if bool_decide (65 ≤ u ≤ 90) || (bool_decide (192 ≤ u ≤ 222) && negb (bool_decide (u = 215)))
  then u + 32 else u.

Definition upper_unit (u : Z) : Z := if bool_decide (97 ≤ u ≤ 122) then u - 32 else u.

Lemma lower_unit_idemp u : lower_unit (lower_unit u) = lower_unit u.
Proof.
  unfold lower_unit. destruct (bool_decide (65 ≤ u ≤ 90) || _) eqn:Hu.
  - rewrite !bool_decide_eq_false_2; [done|..]; apply orb_true_iff in Hu as [Hu|Hu]; reflect_bools; lia.
  - by rewrite Hu.
Qed.

Definition lower_covered (u : Z) : bool :=
  bool_decide (0 ≤ u < 256) || bool_decide (19968 ≤ u ≤ 40959)
  || bool_decide (u = 55356) || bool_decide (56806 ≤ u ≤ 56831).

Definition upper_covered (u : Z) : bool := bool_decide (0 ≤ u < 128).

Class CaseMapping := {
  toLowerCase : jsstring → jsstring;
  toUpperCase : jsstring → jsstring;
  toLowerCase_covered : ∀ s, every lower_covered s = true → toLowerCase s = lower_unit <$> s;
  toUpperCase_covered : ∀ s, every upper_covered s = true → toUpperCase s = upper_unit <$> s;
}.

(** A mapping with these laws. *)
#[refine] Instance simple_case : CaseMapping := {|
  toLowerCase := fmap lower_unit;
  toUpperCase := fmap upper_unit;
|}.
Proof. all: done. Defined.
