(* ===== verification/Json.v ===== *)
(** * JavaScript numbers and JSON values

    A JavaScript number is an IEEE 754 binary64 value: the model is
    [spec_float] with 53 bits of precision, on which the operations of the
    standard's floating-point specification compute.  JSON values are what
    [JSON.parse] returns; an object is an insertion-ordered map, whose property
    names are kept as source text. *)

From Stdlib Require Import SpecFloat.
From S2P Require Import Prelude JsMap JsString.

Open Scope Z_scope.

(** ** Numbers *)

Abbreviation num := spec_float.

Definition prec : Z := 53.
Definition emax : Z := 1024.

Definition num_of_Z (z : Z) : num := binary_normalize prec emax z 0 false.
Definition NaN : num := S754_nan.

(** [===], [<] and [<=] on numbers. *)
Definition num_eqb (x y : num) : bool := SFeqb x y.
Definition num_ltb (x y : num) : bool := SFltb x y.
Definition num_leb (x y : num) : bool := SFleb x y.

(** Arithmetic. *)
Definition num_add (x y : num) : num := SFadd prec emax x y.
Definition num_sub (x y : num) : num := SFsub prec emax x y.
Definition num_mul (x y : num) : num := SFmul prec emax x y.
Definition num_div (x y : num) : num := SFdiv prec emax x y.

Definition is_nan (x : num) : bool := match x with S754_nan => true | _ => false end.

(** [Math.max] and [Math.min]: NaN wins, and +0 counts as larger than -0. *)
Definition math_max (x y : num) : num :=
  if is_nan x || is_nan y then NaN
  else if num_ltb x y then y
  else match x, y with S754_zero true, S754_zero _ => y | _, _ => x end.
Definition math_min (x y : num) : num :=
  if is_nan x || is_nan y then NaN
  else if num_ltb y x then y
  else match x, y with S754_zero false, S754_zero _ => y | _, _ => x end.

(** [Number.isFinite] *)
Definition isFinite (x : num) : bool :=
  match x with S754_zero _ | S754_finite _ _ _ => true | _ => false end.

(** Truthiness of a number. *)
Definition num_truthy (x : num) : bool :=
  match x with S754_zero _ | S754_nan => false | _ => true end.

#[global] Instance num_eq_dec : EqDecision num.
Proof. solve_decision. Defined.

(** ** JSON values *)

Inductive json :=
  | JNull
  | JBool (b : bool)
  | JNum (x : num)
  | JStr (s : jsstring)
  | JArr (l : list json)
  | JObj (m : jsmap string json).

(** [!value] *)
Definition json_falsy (v : json) : bool :=
  match v with
  | JNull => true
  | JBool b => negb b
  | JNum x => negb (num_truthy x)
  | JStr s => bool_decide (s = [])
  | JArr _ | JObj _ => false
  end.

(** Property access: [None] is [undefined]. *)
Definition json_prop (k : string) (v : json) : option json :=
  match v with JObj m => jm_get k m | _ => None end.

(** [k in value], for a parsed object or array and a non-index key. *)
Definition json_in (k : string) (v : json) : bool :=
  match v with JObj m => jm_has k m | _ => false end.

(** ** Integers as numbers

    An integer of at most 53 bits is represented exactly: its significand is
    the integer shifted to 53 bits. *)

Definition int_mantissa (p : positive) : positive :=
  match (prec - Zpos (digits2_pos p))%Z with Zpos d => Pos.iter xO p d | _ => p end.

Lemma digits2_pos_shift (d p : positive) :
  digits2_pos (Pos.iter xO p d) = (digits2_pos p + d)%positive.
Proof.
  induction d as [|d IH] using Pos.peano_ind; [simpl; lia|].
  rewrite Pos.iter_succ. simpl. rewrite IH. lia.
Qed.

Lemma digits2_pos_bound p : Zpos p < 2 ^ Zpos (digits2_pos p).
Proof.
  induction p as [p IH|p IH|]; cbn [digits2_pos]; [..|done];
    rewrite Pos2Z.inj_succ, Z.pow_succ_r by lia; lia.
Qed.

Lemma digits2_pos_lower p : 2 ^ (Zpos (digits2_pos p) - 1) ≤ Zpos p.
Proof.
  induction p as [p IH|p IH|]; cbn [digits2_pos]; [..|done];
    rewrite Pos2Z.inj_succ; replace (Z.succ (Zpos (digits2_pos p)) - 1)
      with (Z.succ (Zpos (digits2_pos p) - 1)) by lia;
    rewrite Z.pow_succ_r by lia; lia.
Qed.

Lemma digits2_pos_le p n : Zpos p < 2 ^ n → 0 ≤ n → Zpos (digits2_pos p) ≤ n.
Proof.
  intros Hp Hn. pose proof (digits2_pos_lower p) as Hl. apply Znot_gt_le. intros Hgt.
  assert (2 ^ n ≤ 2 ^ (Zpos (digits2_pos p) - 1)) by (apply Z.pow_le_mono_r; lia). lia.
Qed.

Lemma digits_int_mantissa p :
  Zpos (digits2_pos p) ≤ prec → Zpos (digits2_pos (int_mantissa p)) = prec.
Proof.
  intros Hp. unfold int_mantissa. destruct (prec - _) as [|d|d] eqn:Hd; [lia| |lia].
  rewrite digits2_pos_shift. lia.
Qed.

Lemma round_exact m e :
  Zpos (digits2_pos m) = prec → -1074 ≤ e ≤ emax - prec →
  binary_round_aux prec emax false (Zpos m) e loc_Exact = S754_finite false m e.
Proof.
  intros Hm He. unfold binary_round_aux, shr_fexp.
  assert (fexp prec emax (Zdigits2 (Zpos m) + e) - e = 0) as Hz.
  { unfold fexp, SpecFloat.emin, Zdigits2. rewrite Hm. unfold prec, emax in *. lia. }
  rewrite Hz. cbn [shr shr_record_of_loc shr_m loc_of_shr_record round_nearest_even].
  rewrite Hz. cbn [shr shr_record_of_loc shr_m].
  destruct (Z.leb_spec e (emax - prec)); [done|lia].
Qed.

Lemma num_of_Z_pos p :
  Zpos p < 2 ^ 53 →
  num_of_Z (Zpos p) = S754_finite false (int_mantissa p) (Zpos (digits2_pos p) - prec).
Proof.
  intros Hp%digits2_pos_le; [|done]. change 53 with prec in Hp.
  unfold num_of_Z, binary_normalize, binary_round.
  assert (fexp prec emax (Zpos (digits2_pos p) + 0) = Zpos (digits2_pos p) - prec) as ->.
  { unfold fexp, SpecFloat.emin, prec, emax in *. lia. }
  assert (shl_align p 0 (Zpos (digits2_pos p) - prec)
    = (int_mantissa p, Zpos (digits2_pos p) - prec)) as ->.
  { unfold shl_align, int_mantissa. rewrite Z.sub_0_r.
    replace (Zpos (digits2_pos p) - prec) with (- (prec - Zpos (digits2_pos p))) by lia.
    by destruct (prec - Zpos (digits2_pos p)) eqn:Hd; [..|lia]. }
  apply round_exact; [by apply digits_int_mantissa|]. unfold prec, emax in *. lia.
Qed.

Lemma iter_xO_inj d p q : Pos.iter xO p d = Pos.iter xO q d → p = q.
Proof.
  induction d as [|d IH] using Pos.peano_ind; [by intros [=]|].
  rewrite !Pos.iter_succ. intros [=]. auto.
Qed.

Lemma int_mantissa_inj p q :
  digits2_pos p = digits2_pos q → int_mantissa p = int_mantissa q → p = q.
Proof.
  unfold int_mantissa. intros ->. destruct (prec - _); [done| |done]. apply iter_xO_inj.
Qed.

Lemma num_eqb_finite x m e : num_eqb x (S754_finite false m e) = true → x = S754_finite false m e.
Proof.
  destruct x as [s|s| |[] m' e']; try done; try by destruct s.
  unfold num_eqb, SFeqb, SFcompare. destruct (Z.compare_spec e' e) as [->| |]; [|done..].
  destruct (Pos.compare_cont Eq m' m) eqn:Hm; [|done..]. intros _. by apply Pos.compare_eq in Hm as ->.
Qed.

(** Distinct integers of at most 53 bits are distinct numbers. *)
Lemma num_of_Z_eqb_inj x a b :
  0 < a < 2 ^ 53 → 0 < b < 2 ^ 53 →
  num_eqb x (num_of_Z a) = true → num_eqb x (num_of_Z b) = true → a = b.
Proof.
  intros [Ha1 Ha2] [Hb1 Hb2]. destruct a as [|p|p], b as [|q|q]; try lia.
  rewrite !num_of_Z_pos by done. intros ->%num_eqb_finite Heq%num_eqb_finite.
  injection Heq as Hm He. f_equal. apply int_mantissa_inj; [lia|done].
Qed.

(** ** Order on numbers *)

Lemma num_compare_antisym x y : SFcompare y x = CompOpp <$> SFcompare x y.
Proof.
  destruct x as [sx|sx| |sx mx ex], y as [sy|sy| |sy my ey]; try destruct sx; try destruct sy; try done;
    cbn; rewrite (Z.compare_antisym ex ey); destruct (Z.compare ex ey); cbn; try done;
    change (Pos.compare_cont Eq my mx) with (Pos.compare my mx);
    change (Pos.compare_cont Eq mx my) with (Pos.compare mx my);
    rewrite (Pos.compare_antisym mx my); by destruct (Pos.compare mx my).
Qed.

Lemma num_compare_defined x y : is_nan x = false → is_nan y = false → SFcompare x y ≠ None.
Proof.
  intros Hx Hy. destruct x as [sx|sx| |sx mx ex], y as [sy|sy| |sy my ey]; try done;
    try (destruct sx; done); try (destruct sy; done); destruct sx, sy; try done;
    cbn; destruct (Z.compare ex ey); done.
Qed.

(** What is not smaller is at least as large. *)
Lemma num_not_ltb x y :
  is_nan x = false → is_nan y = false → num_ltb x y = false → num_leb y x = true.
Proof.
  intros Hx Hy. unfold num_ltb, num_leb, SFltb, SFleb. rewrite (num_compare_antisym x y).
  pose proof (num_compare_defined x y Hx Hy). by destruct (SFcompare x y) as [[]|].
Qed.

Lemma num_leb_refl x : is_nan x = false → num_leb x x = true.
Proof.
  intros Hx. apply num_not_ltb; [done..|]. unfold num_ltb, SFltb.
  pose proof (num_compare_antisym x x) as Ha. destruct (SFcompare x x) as [[]|]; done.
Qed.

Lemma finite_not_nan x : isFinite x = true → is_nan x = false.
Proof. by destruct x. Qed.

(** Clamping keeps a number between its bounds. *)
Lemma clamp_bounds x lo hi :
  is_nan x = false → is_nan lo = false → is_nan hi = false → num_leb lo hi = true →
  num_leb lo (math_min (math_max x lo) hi) = true ∧ num_leb (math_min (math_max x lo) hi) hi = true.
Proof.
  intros Hx Hlo Hhi Hle. set (m := math_max x lo).
  assert (is_nan m = false ∧ num_leb lo m = true) as [Hm Hlm].
  { unfold m, math_max. rewrite Hx, Hlo. cbn [orb]. destruct (num_ltb x lo) eqn:Hlt.
    - split; [done|by apply num_leb_refl].
    - pose proof (num_not_ltb x lo Hx Hlo Hlt). destruct x as [[]| | |], lo as [[]| | |]; done. }
  unfold math_min. rewrite Hm, Hhi. cbn [orb]. destruct (num_ltb hi m) eqn:Hlt.
  - split; [done|by apply num_leb_refl].
  - pose proof (num_not_ltb hi m Hhi Hm Hlt). destruct m as [[]| | |], hi as [[]| | |]; done.
Qed.
