(* ===== verification/JsValue.v ===== *)
(** * JavaScript values

    The values a plain object holds, with the identity of objects: an object
    or array is an address with its content (objects are not mutated, so that
    an address has one content).  [strict_eq] is [===], [object_is]
    is [Object.is].  [same] is equality up to the sign of zero and NaN: the
    equivalence under which a guarded assignment [if (o\[k\] !== v) o\[k\] = v]
    is an assignment.

    The file also has the order of numbers and the stable sort by a
    comparator. *)

From Stdlib Require Import SpecFloat.
From S2P Require Import Prelude JsMap JsString Json.

Open Scope Z_scope.

(** ** Equality of JSON data *)

#[global] Instance json_eq_dec : EqDecision json.
Proof.
  refine (fix go (x y : json) : Decision (x = y) :=
    match x, y with
    | JNull, JNull => left eq_refl
    | JBool a, JBool b => cast_if (decide (a = b))
    | JNum a, JNum b => cast_if (decide (a = b))
    | JStr a, JStr b => cast_if (decide (a = b))
    | JArr a, JArr b => cast_if (@list_eq_dec _ go a b)
    | JObj a, JObj b =>
        cast_if (@list_eq_dec _ (λ p q : string * json,
          match p, q with (k, v), (k', v') => cast_if_and (decide (k = k')) (go v v') end) a b)
    | _, _ => right _
    end); clear go; congruence.
Defined.

(** Objects of the environment and objects that the modelled code creates. *)
Inductive addr := Env (n : nat) | Own (n : nat).

#[global] Instance addr_eq_dec : EqDecision addr.
Proof. solve_decision. Defined.

Inductive value :=
  | VUndefined
  | VNull
  | VBool (b : bool)
  | VNum (x : num)
  | VStr (s : jsstring)
  | VObj (a : addr) (c : json).

Definition strict_eq (v w : value) : bool :=
  match v, w with
  | VUndefined, VUndefined | VNull, VNull => true
  | VBool a, VBool b => bool_decide (a = b)
  | VNum x, VNum y => num_eqb x y
  | VStr s, VStr t => bool_decide (s = t)
  | VObj a c, VObj b d => bool_decide (a = b) && bool_decide (c = d)
  | _, _ => false
  end.

Definition object_is (v w : value) : bool :=
  match v, w with
  | VNum x, VNum y => bool_decide (x = y)
  | _, _ => strict_eq v w
  end.

Definition truthy (v : value) : bool :=
  match v with
  | VUndefined | VNull => false
  | VBool b => b
  | VNum x => num_truthy x
  | VStr s => negb (bool_decide (s = []))
  | VObj _ _ => true
  end.

(** ** Objects as property maps *)

Abbreviation fields := (jsmap string value).

Definition prop (k : string) (o : fields) : value := default VUndefined (jm_get k o).

#[global] Arguments prop : simpl never.

(** [{ ...o, ...p }] *)
Definition spread (o p : fields) : fields := foldl (λ o kv, jm_set kv.1 kv.2 o) o p.

(** [shallowEqual] of two objects. *)
Definition shallow_equal (a b : fields) : bool :=
  bool_decide (length a = length b) && every (λ kv, object_is (prop kv.1 a) (prop kv.1 b)) a.

Lemma prop_set k k' v o : prop k (jm_set k' v o) = if bool_decide (k = k') then v else prop k o.
Proof. unfold prop. rewrite jm_get_set. by case_bool_decide. Qed.

(** ** Equality of numbers *)

Lemma num_eqb_spec x y :
  num_eqb x y = true ↔
  (x = y ∧ is_nan x = false) ∨ (∃ s t, x = S754_zero s ∧ y = S754_zero t).
Proof.
  unfold num_eqb, SFeqb, SFcompare.
  destruct x as [sx|sx| |sx mx ex], y as [sy|sy| |sy my ey]; try destruct sx; try destruct sy;
    try naive_solver.
  all: destruct (Z.compare_spec ex ey) as [->| |];
    change (Pos.compare_cont Eq mx my) with (Pos.compare mx my);
    try destruct (Pos.compare_spec mx my) as [->| |]; cbn; naive_solver lia.
Qed.

(** ** Equality up to the sign of zero and NaN *)

Definition same_num (x y : num) : Prop :=
  x = y ∨ ∃ s t, x = S754_zero s ∧ y = S754_zero t.

Definition same (v w : value) : Prop :=
  match v, w with
  | VNum x, VNum y => same_num x y
  | _, _ => v = w
  end.

#[global] Instance same_num_equivalence : Equivalence same_num.
Proof. unfold same_num. split; red; naive_solver. Qed.

#[global] Instance same_equivalence : Equivalence same.
Proof.
  split.
  - intros []; cbn; reflexivity.
  - intros v w; destruct v, w; cbn; try done; by intros ->.
  - intros u v w; destruct u, v, w; cbn; try done; try congruence. apply transitivity.
Qed.

Lemma same_strict_eq v w : strict_eq v w = true → same v w.
Proof.
  destruct v, w; cbn; try done; rewrite ?andb_true_iff, ?bool_decide_eq_true;
    [congruence| |congruence|intuition congruence].
  intros [[-> _]|?]%num_eqb_spec; [by left|by right].
Qed.

Lemma num_eqb_same_l x y z : same_num x y → num_eqb x z = num_eqb y z.
Proof.
  intros [->|(s & t & -> & ->)]; [done|]. apply eq_bool_prop_intro.
  rewrite !Is_true_true, !num_eqb_spec. naive_solver.
Qed.

Lemma strict_eq_same_l v w u : same v w → strict_eq v u = strict_eq w u.
Proof. destruct v, w, u; cbn; try congruence; try (by intros [=]; subst). apply num_eqb_same_l. Qed.

Lemma same_object_is v w : object_is v w = true → same v w.
Proof.
  destruct v, w; cbn; try done; rewrite ?andb_true_iff, ?bool_decide_eq_true;
    [congruence| |congruence|intuition congruence]. by intros ->; left.
Qed.

Lemma same_truthy v w : same v w → truthy v = truthy w.
Proof.
  destruct v, w; cbn; try congruence; [|by intros [= ->]].
  intros [->|(s & t & -> & ->)]; done.
Qed.

(** ** Order of numbers *)

Lemma num_leb_not_nan x y : num_leb x y = true → is_nan x = false ∧ is_nan y = false.
Proof. unfold num_leb, SFleb. destruct x as [| | |[]], y as [| | |[]]; cbn; auto; destruct s; done. Qed.

Lemma num_leb_trans x y z : num_leb x y = true → num_leb y z = true → num_leb x z = true.
Proof.
  unfold num_leb, SFleb, SFcompare.
  destruct x as [sx|sx| |sx mx ex], y as [sy|sy| |sy my ey], z as [sz|sz| |sz mz ez];
    try destruct sx; try destruct sy; try destruct sz; try done.
  all: repeat (match goal with
    | |- context [Pos.compare_cont Eq ?a ?b] => change (Pos.compare_cont Eq a b) with (Pos.compare a b)
    end); repeat match goal with
    | |- context [Z.compare ?a ?b] => destruct (Z.compare_spec a b)
    | |- context [Pos.compare ?a ?b] => destruct (Pos.compare_spec a b)
    end; cbn; try done; lia.
Qed.

Lemma num_ltb_leb x y : num_ltb x y = true → num_leb x y = true.
Proof. unfold num_ltb, num_leb, SFltb, SFleb. by destruct (SFcompare x y) as [[]|]. Qed.

Lemma num_leb_ltb_trans x y z : num_leb x y = true → num_ltb y z = true → num_ltb x z = true.
Proof.
  intros Hxy Hyz. destruct (num_ltb x z) eqn:Hxz; [done|].
  pose proof (num_leb_not_nan x y Hxy) as [Hx _].
  assert (num_leb y z = true) as Hle by by apply num_ltb_leb.
  pose proof (num_leb_not_nan y z Hle) as [_ Hz].
  apply num_not_ltb in Hxz; [|done..]. pose proof (num_leb_trans _ _ _ Hxz Hxy) as Hzy.
  unfold num_ltb, num_leb, SFltb, SFleb in *. rewrite (num_compare_antisym y z) in Hzy.
  by destruct (SFcompare y z) as [[]|].
Qed.

Lemma num_ltb_irrefl x : num_ltb x x = false.
Proof.
  unfold num_ltb, SFltb. pose proof (num_compare_antisym x x). by destruct (SFcompare x x) as [[]|].
Qed.

Lemma num_eqb_ltb x y k : num_eqb x k = true → num_eqb y k = true → num_ltb y x = false.
Proof.
  rewrite !num_eqb_spec. intros [[-> _]|(s & t & -> & ->)] [[-> _]|(s' & t' & -> & Hk)];
    [apply num_ltb_irrefl|by subst k|done|done].
Qed.

(** ** Integers among the numbers *)

(** The integer a number stands for, when it is one. *)
Definition num_to_Z (x : num) : option Z :=
  match x with
  | S754_zero _ => Some 0
  | S754_finite s m e =>
      let sign := if s then -1 else 1 in
      if bool_decide (0 ≤ e) then Some (sign * (Zpos m * 2 ^ e))
      else if bool_decide (Zpos m mod 2 ^ (- e) = 0) then Some (sign * (Zpos m / 2 ^ (- e)))
      else None
  | _ => None
  end.

(** [Number.isInteger] and [Number.isSafeInteger] *)
Definition isInteger (x : num) : bool := bool_decide (is_Some (num_to_Z x)).
Definition isSafeInteger (x : num) : bool :=
  match num_to_Z x with Some z => bool_decide (Z.abs z ≤ 2 ^ 53 - 1) | None => false end.

(** ** Stable sort by a number

    The comparators [(a, b) => a.k - b.k]: the sign of the difference of two
    numbers is the order of the numbers, since IEEE subtraction is zero only on
    equal numbers. *)

Section sort_num.
Context {A : Type} (key : A → num).

Fixpoint insert_num (x : A) (l : list A) : list A :=
  match l with
  | [] => [x]
  | y :: l' => if num_ltb (key y) (key x) then y :: insert_num x l' else x :: l
  end.

Definition sort_num (l : list A) : list A := foldr insert_num [] l.

Definition num_le (x y : A) : Prop := num_leb (key x) (key y) = true.
Definition ordered (x : A) : Prop := is_nan (key x) = false.

Lemma insert_num_perm x l : insert_num x l ≡ₚ x :: l.
Proof.
  induction l as [|y l IH]; cbn; [done|]. case_match; [|done]. rewrite IH. constructor.
Qed.

Lemma sort_num_perm l : sort_num l ≡ₚ l.
Proof. induction l as [|x l IH]; cbn; [done|]. by rewrite insert_num_perm, IH. Qed.

Lemma insert_num_sorted x l :
  ordered x → Forall ordered l → StronglySorted num_le l → StronglySorted num_le (insert_num x l).
Proof.
  intros Hx Hl Hs. induction Hs as [|y l Hs IH Hf]; cbn; [by repeat constructor|].
  apply Forall_cons in Hl as [Hy Hl]. destruct (num_ltb (key y) (key x)) eqn:Hlt.
  - constructor; [by apply IH|]. rewrite insert_num_perm. constructor; [by apply num_ltb_leb|done].
  - assert (num_le x y) as Hxy by by apply num_not_ltb.
    constructor; [by constructor|]. constructor; [done|].
    eapply Forall_impl; [done|]. intros z. by apply num_leb_trans.
Qed.

Lemma sort_num_sorted l : Forall ordered l → StronglySorted num_le (sort_num l).
Proof.
  induction 1 as [|x l Hx Hl IH]; cbn; [constructor|]. apply insert_num_sorted; [done| |done].
  by rewrite sort_num_perm.
Qed.

(** A list in order is left alone. *)
Lemma sort_num_id l : StronglySorted num_le l → sort_num l = l.
Proof.
  induction 1 as [|x l Hs IH Hf]; [done|].
  change (sort_num (x :: l)) with (insert_num x (sort_num l)). rewrite IH. destruct Hf as [|y l Hy Hf]; [done|]. cbn.
  replace (num_ltb (key y) (key x)) with false; [done|]. symmetry.
  unfold num_le, num_leb, num_ltb, SFleb, SFltb in *. rewrite (num_compare_antisym (key x) (key y)).
  by destruct (SFcompare (key x) (key y)) as [[]|].
Qed.

(** Elements of equal key keep their order. *)
Lemma sort_num_stable k l :
  bfilter (λ x, num_eqb (key x) k) (sort_num l) = bfilter (λ x, num_eqb (key x) k) l.
Proof.
  induction l as [|x l IH]; [done|].
  change (sort_num (x :: l)) with (insert_num x (sort_num l)). cbn [bfilter]. rewrite <-IH.
  generalize (sort_num l); intros s. clear IH. induction s as [|y s IHs]; cbn; [done|].
  destruct (num_ltb (key y) (key x)) eqn:Hlt; [|done]. cbn. rewrite IHs.
  destruct (num_eqb (key y) k) eqn:Hy, (num_eqb (key x) k) eqn:Hx; try done.
  by rewrite (num_eqb_ltb _ _ k Hx Hy) in Hlt.
Qed.
End sort_num.
