(* ===== verification/FloatFacts.v ===== *)
(** * Signs of binary64 results

    Sums, products and quotients of numbers that are not negative are not
    negative and are not [NaN], apart from the forms [0 * Infinity], [0 / 0]
    and [Infinity / Infinity].  Bounds by [Math.min] and [Math.max] follow. *)

From Stdlib Require Import SpecFloat.
From S2P Require Import Prelude JsMap JsString Json JsValue.

Open Scope Z_scope.

(** [x >= 0]: also true of [-0]. *)
Definition nonneg (x : num) : bool :=
  match x with
  | S754_zero _ | S754_infinity false | S754_finite false _ _ => true
  | _ => false
  end.

Definition is_positive (x : num) : bool :=
  match x with S754_infinity false | S754_finite false _ _ => true | _ => false end.

Lemma nonneg_leb x : num_leb (num_of_Z 0) x = nonneg x.
Proof. by destruct x as [[]|[]| |[] m e]. Qed.

Lemma positive_ltb x : num_ltb (num_of_Z 0) x = is_positive x.
Proof. by destruct x as [[]|[]| |[] m e]. Qed.

Lemma positive_nonneg x : is_positive x = true → nonneg x = true.
Proof. by destruct x as [[]|[]| |[] m e]. Qed.

Lemma nonneg_not_nan x : nonneg x = true → is_nan x = false.
Proof. by destruct x as [[]|[]| |[] m e]. Qed.

(** ** Rounding keeps the sign *)

Section rounding.
Implicit Types r : shr_record.

Lemma shr_1_nonneg r : 0 ≤ shr_m r → 0 ≤ shr_m (shr_1 r).
Proof using. destruct r as [[|p|p] a b]; cbn; [done| |lia]. intros _. destruct p; cbn; lia. Qed.

Lemma shr_nonneg r e n : 0 ≤ shr_m r → 0 ≤ shr_m (shr r e n).1.
Proof using.
  intros Hr. unfold shr. destruct n as [|p|p]; cbn; [done| |done].
  revert r Hr. induction p as [p IH|p IH|]; intros r Hr; cbn [iter_pos]; [| |by apply shr_1_nonneg].
  - apply IH, IH. by apply shr_1_nonneg.
  - by apply IH, IH.
Qed.

Lemma shr_fexp_nonneg m e l : 0 ≤ m → 0 ≤ shr_m (shr_fexp prec emax m e l).1.
Proof using.
  intros Hm. unfold shr_fexp. apply shr_nonneg. unfold shr_record_of_loc.
  destruct l as [|[]]; cbn; done.
Qed.

Lemma round_even_nonneg m l : 0 ≤ m → 0 ≤ round_nearest_even m l.
Proof using. intros Hm. unfold round_nearest_even. destruct l as [|[]]; try lia. destruct (Z.even m); lia. Qed.

Lemma binary_round_aux_sign s m e l :
  0 ≤ m →
  binary_round_aux prec emax s m e l = S754_zero s ∨
  binary_round_aux prec emax s m e l = S754_infinity s ∨
  ∃ m' e', binary_round_aux prec emax s m e l = S754_finite s m' e'.
Proof using.
  intros Hm. unfold binary_round_aux.
  pose proof (shr_fexp_nonneg m e l Hm) as H1. destruct (shr_fexp prec emax m e l) as [r1 e1]. cbn in H1.
  pose proof (round_even_nonneg (shr_m r1) (loc_of_shr_record r1) H1) as H2.
  pose proof (shr_fexp_nonneg _ e1 loc_Exact H2) as H3.
  destruct (shr_fexp prec emax _ e1 loc_Exact) as [r2 e2]. cbn in H3.
  destruct (shr_m r2) as [|p|p]; [by left| |lia]. destruct (e2 <=? emax - prec); eauto.
Qed.

Lemma binary_round_sign s m e :
  binary_round prec emax s m e = S754_zero s ∨ binary_round prec emax s m e = S754_infinity s ∨
  ∃ m' e', binary_round prec emax s m e = S754_finite s m' e'.
Proof using.
  unfold binary_round. destruct (shl_align _ _ _) as [p q]. apply binary_round_aux_sign. lia.
Qed.
End rounding.

Lemma round_nonneg m e l : 0 ≤ m → nonneg (binary_round_aux prec emax false m e l) = true.
Proof. intros Hm. by destruct (binary_round_aux_sign false m e l Hm) as [->|[->|(? & ? & ->)]]. Qed.

(** ** Arithmetic *)

Lemma num_add_nonneg x y : nonneg x = true → nonneg y = true → nonneg (num_add x y) = true.
Proof.
  destruct x as [[]|[]| |[] m e], y as [[]|[]| |[] m' e']; try done. intros _ _.
  unfold num_add, SFadd, binary_normalize.
  destruct (_ + _) as [|p|p] eqn:Hs; [done| |].
  - by destruct (binary_round_sign false p (Z.min e e')) as [->|[->|(? & ? & ->)]].
  - cbn [cond_Zopp] in Hs. lia.
Qed.

Lemma num_mul_nonneg x y :
  nonneg x = true → nonneg y = true → isFinite x = true → isFinite y = true → nonneg (num_mul x y) = true.
Proof.
  destruct x as [[]|[]| |[] m e], y as [[]|[]| |[] m' e']; try done. intros _ _ _ _.
  unfold num_mul, SFmul. apply round_nonneg. lia.
Qed.

Lemma SFdiv_core_nonneg m e m' e' : 0 ≤ m → 0 < m' → 0 ≤ (SFdiv_core_binary prec emax m e m' e').1.1.
Proof.
  intros Hm Hm'. unfold SFdiv_core_binary. set (k := Z.min _ _).
  destruct (e - e' - k) as [|p|p]; cbn zeta iota.
  - destruct (Z.div_eucl m m') as [q r] eqn:Hq. cbn.
    pose proof (Z.div_pos m m' Hm Hm') as Hd. unfold Z.div in Hd. by rewrite Hq in Hd.
  - assert (0 ≤ Z.shiftl m (Zpos p)) as Hs by (apply Z.shiftl_nonneg; lia).
    destruct (Z.div_eucl (Z.shiftl m (Zpos p)) m') as [q r] eqn:Hq. cbn.
    pose proof (Z.div_pos _ m' Hs Hm') as Hd. unfold Z.div in Hd. by rewrite Hq in Hd.
  - cbn. lia.
Qed.

Lemma num_div_nonneg x y :
  nonneg x = true → isFinite x = true → is_positive y = true → nonneg (num_div x y) = true.
Proof.
  destruct x as [[]|[]| |[] m e], y as [[]|[]| |[] m' e']; try done. intros _ _ _.
  unfold num_div, SFdiv. pose proof (SFdiv_core_nonneg (Zpos m) e (Zpos m') e') as Hq.
  destruct (SFdiv_core_binary prec emax (Zpos m) e (Zpos m') e') as [[q e2] l]. apply round_nonneg.
  apply Hq; lia.
Qed.

(** ** [Math.min] and [Math.max] *)

Lemma math_min_nonneg x y : nonneg x = true → nonneg y = true → nonneg (math_min x y) = true.
Proof.
  intros Hx Hy. unfold math_min. rewrite !nonneg_not_nan by done. cbn [orb].
  repeat case_match; done.
Qed.

Lemma math_min_le x y :
  is_nan x = false → is_nan y = false → num_leb (math_min x y) x = true ∧ num_leb (math_min x y) y = true.
Proof.
  intros Hx Hy. unfold math_min. rewrite Hx, Hy. cbn [orb]. destruct (num_ltb y x) eqn:Hlt.
  - split; [by apply num_ltb_leb|by apply num_leb_refl].
  - apply num_not_ltb in Hlt; [|done..].
    destruct x as [[]|[]| |[] m e], y as [[]|[]| |[] m' e']; (split; [by apply num_leb_refl || done|done]).
Qed.

(** A share in per cent, cut at 100. *)
Definition is_percentage (x : num) : Prop :=
  num_leb (num_of_Z 0) x = true ∧ num_leb x (num_of_Z 100) = true.

Lemma percentage_min x : nonneg x = true → is_percentage (math_min (num_of_Z 100) x).
Proof.
  intros Hx. split; [rewrite nonneg_leb; by apply math_min_nonneg|].
  apply math_min_le; [done|by apply nonneg_not_nan].
Qed.

(** A quotient may be infinite: then so is the product. *)
Lemma num_mul_nonneg_r x y :
  nonneg x = true → is_positive y = true → isFinite y = true → nonneg (num_mul x y) = true.
Proof.
  destruct x as [[]|[]| |[] m e], y as [[]|[]| |[] m' e']; try done. intros _ _ _.
  unfold num_mul, SFmul. apply round_nonneg. lia.
Qed.

(** ** The order of integers *)

Lemma iter_xO d p : Zpos (Pos.iter xO p d) = Zpos p * 2 ^ Zpos d.
Proof.
  induction d as [|d IH] using Pos.peano_ind; [cbn; lia|]. rewrite Pos.iter_succ.
  rewrite Pos2Z.inj_succ, Z.pow_succ_r by lia. change (Zpos (Pos.iter xO p d)~0) with (2 * Zpos (Pos.iter xO p d)).
  rewrite IH. lia.
Qed.

Lemma int_mantissa_value p :
  Zpos (digits2_pos p) ≤ prec → Zpos (int_mantissa p) = Zpos p * 2 ^ (prec - Zpos (digits2_pos p)).
Proof.
  intros Hp. unfold int_mantissa. destruct (prec - Zpos (digits2_pos p)) as [|d|d] eqn:Hd; [cbn; lia| |lia].
  apply iter_xO.
Qed.

Lemma num_of_Z_leb a b :
  0 ≤ a < 2 ^ 53 → 0 ≤ b < 2 ^ 53 → num_leb (num_of_Z a) (num_of_Z b) = bool_decide (a ≤ b).
Proof.
  intros Ha Hb. destruct a as [|p|p], b as [|q|q]; try lia; [done|..].
  - rewrite num_of_Z_pos by lia. by rewrite bool_decide_eq_true_2.
  - rewrite num_of_Z_pos by lia. by rewrite bool_decide_eq_false_2 by lia.
  - rewrite !num_of_Z_pos by lia. unfold num_leb, SFleb, SFcompare.
    pose proof (digits2_pos_le p 53 ltac:(lia) ltac:(lia)) as Hp. pose proof (digits2_pos_le q 53 ltac:(lia) ltac:(lia)) as Hq.
    pose proof (digits2_pos_bound p). pose proof (digits2_pos_bound q).
    pose proof (digits2_pos_lower p). pose proof (digits2_pos_lower q).
    pose proof (int_mantissa_value p Hp) as Hmp. pose proof (int_mantissa_value q Hq) as Hmq.
    destruct (Z.compare_spec (Zpos (digits2_pos p) - prec) (Zpos (digits2_pos q) - prec)) as [He|He|He].
    + change (Pos.compare_cont Eq (int_mantissa p) (int_mantissa q)) with (Pos.compare (int_mantissa p) (int_mantissa q)).
      replace (Zpos (digits2_pos q)) with (Zpos (digits2_pos p)) in Hmq by lia.
      assert (0 < 2 ^ (prec - Zpos (digits2_pos p))) by (apply Z.pow_pos_nonneg; unfold prec; lia).
      destruct (Pos.compare_spec (int_mantissa p) (int_mantissa q)) as [Hm|Hm|Hm].
      * apply (f_equal Zpos) in Hm. rewrite Hmp, Hmq in Hm. symmetry. apply bool_decide_eq_true. nia.
      * apply Pos2Z.pos_lt_pos in Hm. rewrite Hmp, Hmq in Hm. symmetry. apply bool_decide_eq_true. nia.
      * apply Pos2Z.pos_lt_pos in Hm. rewrite Hmp, Hmq in Hm. symmetry. apply bool_decide_eq_false. nia.
    + assert (2 ^ Zpos (digits2_pos p) ≤ 2 ^ (Zpos (digits2_pos q) - 1)) by (apply Z.pow_le_mono_r; lia).
      symmetry. apply bool_decide_eq_true. lia.
    + assert (2 ^ Zpos (digits2_pos q) ≤ 2 ^ (Zpos (digits2_pos p) - 1)) by (apply Z.pow_le_mono_r; lia).
      symmetry. apply bool_decide_eq_false. lia.
Qed.

Lemma num_of_Z_not_nan z : 0 ≤ z < 2 ^ 53 → is_nan (num_of_Z z) = false.
Proof. intros Hz. destruct z as [|p|p]; [done| |lia]. by rewrite num_of_Z_pos by lia. Qed.

(** ** Clamping to the unit interval *)

Lemma math_max_zero x : is_nan x = false → nonneg (math_max x (num_of_Z 0)) = true.
Proof. by destruct x as [[]|[]| |[] m e]. Qed.

Lemma unit_clamp x :
  is_nan x = false →
  let y := math_min (math_max x (num_of_Z 0)) (num_of_Z 1) in
  num_leb (num_of_Z 0) y = true ∧ num_leb y (num_of_Z 1) = true.
Proof.
  intros Hx. cbn zeta. pose proof (math_max_zero x Hx) as Hm. split.
  - rewrite nonneg_leb. by apply math_min_nonneg.
  - apply math_min_le; [by apply nonneg_not_nan|done].
Qed.

Lemma num_div_nonneg_r x y :
  nonneg x = true → isFinite y = true → is_positive y = true → nonneg (num_div x y) = true.
Proof.
  intros Hx Hy Hp. destruct (isFinite x) eqn:Hf; [by apply num_div_nonneg|].
  by destruct x as [[]|[]| |[] m e], y as [[]|[]| |[] m' e'].
Qed.

(** What is not at most zero is positive. *)
Lemma not_leb_positive x : is_nan x = false → num_leb x (num_of_Z 0) = false → is_positive x = true.
Proof. by destruct x as [[]|[]| |[] m e]. Qed.

Lemma positive_not_leb x : is_positive x = true → num_leb x (num_of_Z 0) = false.
Proof. by destruct x as [[]|[]| |[] m e]. Qed.

(** ** Differences and comparisons of finite numbers *)

Lemma num_sub_not_nan x y : isFinite x = true → isFinite y = true → is_nan (num_sub x y) = false.
Proof.
  destruct x as [sx|sx| |sx m e], y as [sy|sy| |sy m' e']; try done; intros _ _; [by destruct sx, sy|..]; [done..|].
  unfold num_sub, SFsub, binary_normalize. destruct (_ - _) as [|p|p]; [done| |].
  - by destruct (binary_round_sign false p (Z.min e e')) as [->|[->|(? & ? & ->)]].
  - by destruct (binary_round_sign true p (Z.min e e')) as [->|[->|(? & ? & ->)]].
Qed.

Lemma num_leb_flip x y :
  is_nan x = false → is_nan y = false → num_leb y x = false ↔ num_ltb x y = true.
Proof.
  intros Hx Hy. unfold num_ltb, num_leb, SFltb, SFleb. rewrite (num_compare_antisym x y).
  pose proof (num_compare_defined x y Hx Hy). by destruct (SFcompare x y) as [[]|].
Qed.

Lemma num_ltb_flip x y :
  is_nan x = false → is_nan y = false → num_ltb x y = false ↔ num_leb y x = true.
Proof. intros Hx Hy. rewrite <-not_true_iff_false, <-num_leb_flip by done. by rewrite not_false_iff_true. Qed.
