(* ===== verification/JsNumber.v ===== *)
(** * Numbers as text

    [String(x)] of a number: the shortest decimal that reads back as the
    number, laid out as the language definition says (Number::toString with
    radix 10).  The digits are found by trying 1 to 17 of them and rounding
    each candidate back to binary64; 17 digits are enough for every number. *)

From Stdlib Require Import SpecFloat.
From S2P Require Import Prelude JsMap JsString Json JsValue.

Open Scope Z_scope.

(** ** Decimal digits of an integer *)

Fixpoint digits_fuel (fuel : nat) (z : Z) (acc : list Z) : list Z :=
  match fuel with
  | O => acc
  | S fuel => if bool_decide (z < 10) then z :: acc else digits_fuel fuel (z / 10) (z mod 10 :: acc)
  end.

(** The digits of [z ≥ 0], most significant first. *)
Definition digits (z : Z) : list Z := digits_fuel (S (Z.to_nat (Z.log2 z))) z [].

Definition digit_string (l : list Z) : jsstring := (Z.add 48) <$> l.

(** [String(z)] of an integer below 10^21. *)
Definition int_string (z : Z) : jsstring :=
  if bool_decide (z < 0) then 45 :: digit_string (digits (- z)) else digit_string (digits z).

(** The value of a list of digits. *)
Definition digits_value (l : list Z) : Z := foldl (λ a d, a * 10 + d) 0 l.

(** ** Decimals as numbers *)

(** The number nearest to [s * 10^p], for [s > 0]. *)
Definition decimal (s : positive) (p : Z) : num :=
  if bool_decide (0 ≤ p) then binary_normalize prec emax (Zpos s * 10 ^ p) 0 false
  else let '(q, e, l) := SFdiv_core_binary prec emax (Zpos s) 0 (10 ^ (- p)) 0 in
       binary_round_aux prec emax false q e l.

(** A positive finite number as a fraction. *)
Definition fraction (m : positive) (e : Z) : Z * Z :=
  if bool_decide (0 ≤ e) then (Zpos m * 2 ^ e, 1) else (Zpos m, 2 ^ (- e)).

(** The [n] with [10^(n-1) ≤ a/d < 10^n]. *)
Fixpoint magnitude_up (fuel : nat) (a d n : Z) : Z :=
  match fuel with
  | O => n
  | S fuel => if bool_decide (a < d) then n else magnitude_up fuel a (d * 10) (n + 1)
  end.
Fixpoint magnitude_down (fuel : nat) (a d n : Z) : Z :=
  match fuel with
  | O => n
  | S fuel => if bool_decide (a * 10 < d) then magnitude_down fuel (a * 10) d (n - 1) else n
  end.
Definition magnitude (a d : Z) : Z :=
  if bool_decide (d ≤ a) then magnitude_up 400 a d 0 else magnitude_down 400 a d 0.

(** The nearest [s] with [s * 10^p] equal to [x = a/d] as a number, if any. *)
Definition candidate (x : num) (a d p : Z) : option Z :=
  let '(a, d) := if bool_decide (0 ≤ p) then (a, d * 10 ^ p) else (a * 10 ^ (- p), d) in
  let q := a / d in
  let r := a mod d in
  let ok s := match s with Zpos s => num_eqb (decimal s p) x | _ => false end in
  let '(near, far) := if bool_decide (2 * r ≤ d) then (q, q + 1) else (q + 1, q) in
  if ok near then Some near else if ok far then Some far else None.

Fixpoint shortest (x : num) (a d n k : Z) (fuel : nat) : option (Z * Z) :=
  match fuel with
  | O => None
  | S fuel =>
      match candidate x a d (n - k) with
      | Some s => if bool_decide (s = 10 ^ k) then Some (1, n + 1)
                  else if bool_decide (s < 10 ^ (k - 1)) then shortest x a d n (k + 1) fuel
                  else Some (s, n)
      | None => shortest x a d n (k + 1) fuel
      end
  end.

(** ** Layout *)

Definition zeros (n : Z) : jsstring := replicate (Z.to_nat n) 48.

Definition layout (s n : Z) : jsstring :=
  let ds := digit_string (digits s) in
  let k := Z.of_nat (length ds) in
  if bool_decide (k ≤ n ≤ 21) then ds ++ zeros (n - k)
  else if bool_decide (0 < n ≤ 21) then take (Z.to_nat n) ds ++ [46] ++ drop (Z.to_nat n) ds
  else if bool_decide (-6 < n ≤ 0) then [48; 46] ++ zeros (- n) ++ ds
  else let e := n - 1 in
       take 1 ds ++ (if bool_decide (k = 1) then [] else [46] ++ drop 1 ds)
       ++ [101; if bool_decide (e < 0) then 45 else 43] ++ digit_string (digits (Z.abs e)).

Definition positive_string (m : positive) (e : Z) : jsstring :=
  let '(a, d) := fraction m e in
  let n := magnitude a d in
  match shortest (S754_finite false m e) a d n 1 17 with
  | Some (s, n) => layout s n
  | None => []
  end.

Definition number_string (x : num) : jsstring :=
  match x with
  | S754_nan => js "NaN"
  | S754_zero _ => js "0"
  | S754_infinity s => if s then js "-Infinity" else js "Infinity"
  | S754_finite s m e => (if s then [45] else []) ++ positive_string m e
  end.

Example number_string_examples :
  number_string (num_of_Z 250) = js "250" ∧
  number_string (decimal 1 (-1)) = js "0.1" ∧
  number_string (num_sub (num_of_Z 0) (decimal 1234 (-2))) = js "-12.34" ∧
  number_string (decimal 1 21) = js "1e+21" ∧
  number_string (decimal 123456789012345680000 0) = js "123456789012345680000" ∧
  number_string (decimal 15 (-8)) = js "1.5e-7" ∧
  number_string (decimal 5 (-324)) = js "5e-324" ∧
  number_string (decimal 1 (-323)) = js "1e-323" ∧
  number_string (decimal 17976931348623157 292) = js "1.7976931348623157e+308" ∧
  number_string (num_add (decimal 1 (-1)) (decimal 2 (-1))) = js "0.30000000000000004" ∧
  number_string (decimal 9007199254740993 0) = js "9007199254740992".
Proof. vm_compute. repeat split; reflexivity. Qed.

(** ** Rounding and [toFixed] *)

(** The largest integer below a finite number. *)
Definition floor_Z (x : num) : option Z :=
  match x with
  | S754_zero _ => Some 0
  | S754_finite s m e => let '(a, d) := fraction m e in Some ((if s then - a else a) / d)
  | _ => None
  end.

(** [Math.round]: halves go up; what rounds to zero keeps its sign. *)
Definition math_round (x : num) : num :=
  match x with
  | S754_finite s m e =>
      let '(a, d) := fraction m e in
      let z := (2 * (if s then - a else a) + d) / (2 * d) in
      if bool_decide (z = 0) then S754_zero s else num_of_Z z
  | _ => x
  end.

(** The digits of [n] with a point before the last [f] of them. *)
Definition fixed_layout (n f : Z) : jsstring :=
  let ds := digit_string (digits n) in
  let padded := zeros (f + 1 - Z.of_nat (length ds)) ++ ds in
  let k := (length padded - Z.to_nat f)%nat in
  if bool_decide (f = 0) then ds else take k padded ++ [46] ++ drop k padded.

(** [x.toFixed(f)]; [None] is the [RangeError] for [f] outside 0 to 100.  The
    nearest multiple of [10^-f], the larger of two; numbers of 10^21 and more
    are written as by [String]. *)
Definition toFixed (x : num) (f : Z) : option jsstring :=
  if bool_decide (0 ≤ f ≤ 100) then
    Some match x with
    | S754_zero _ => fixed_layout 0 f
    | S754_finite s m e =>
        let '(a, d) := fraction m e in
        if bool_decide (10 ^ 21 * d ≤ a) then number_string x
        else (if s then [45] else []) ++ fixed_layout ((2 * a * 10 ^ f + d) / (2 * d)) f
    | _ => number_string x
    end
  else None.

Example toFixed_examples :
  toFixed (decimal 12345 (-3)) 1 = Some (js "12.3") ∧
  toFixed (decimal 5 (-1)) 0 = Some (js "1") ∧
  toFixed (decimal 25 (-1)) 0 = Some (js "3") ∧
  toFixed (decimal 1005 (-3)) 2 = Some (js "1.00") ∧
  toFixed (num_sub (num_of_Z 0) (decimal 1 (-3))) 1 = Some (js "-0.0") ∧
  toFixed (num_of_Z 0) 2 = Some (js "0.00") ∧
  toFixed (decimal 1 21) 2 = Some (js "1e+21") ∧
  toFixed NaN 1 = Some (js "NaN") ∧
  toFixed (num_of_Z 1) (-1) = None ∧
  math_round (decimal 25 (-1)) = num_of_Z 3 ∧
  math_round (num_sub (num_of_Z 0) (decimal 25 (-1))) = num_of_Z (-2).
Proof. vm_compute. repeat split; reflexivity. Qed.

(** ** [String(value)] *)

(** Of an object's content: [Array.prototype.toString] joins the elements,
    [null] as nothing. *)
Fixpoint json_string (v : json) : jsstring :=
  match v with
  | JNull => js "null"
  | JBool b => if b then js "true" else js "false"
  | JNum x => number_string x
  | JStr s => s
  | JArr l => join [44] ((λ w, match w with JNull => [] | _ => json_string w end) <$> l)
  | JObj _ => js "[object Object]"
  end.

Definition value_string (v : value) : jsstring :=
  match v with
  | VUndefined => js "undefined"
  | VNull => js "null"
  | VBool b => if b then js "true" else js "false"
  | VNum x => number_string x
  | VStr s => s
  | VObj _ c => json_string c
  end.

(** [value ?? ''] *)
Definition or_empty (v : value) : value :=
  match v with VUndefined | VNull => VStr [] | _ => v end.

(** ** Integers *)

Lemma digits_fuel_value fuel z acc :
  0 ≤ z < 10 ^ Z.of_nat fuel → 0 < Z.of_nat fuel →
  digits_value (digits_fuel fuel z acc) = foldl (λ a d, a * 10 + d) z acc.
Proof.
  revert z acc. induction fuel as [|fuel IH]; intros z acc Hz Hf; [lia|].
  cbn [digits_fuel]. case_bool_decide as Hlt.
  - done.
  - rewrite Nat2Z.inj_succ, Z.pow_succ_r in Hz by lia.
    rewrite IH.
    + cbn. f_equal. pose proof (Z.div_mod z 10). lia.
    + split; [apply Z.div_pos; lia|]. apply Z.div_lt_upper_bound; lia.
    + destruct fuel; [cbn in Hz; lia|lia].
Qed.

(** The digits of an integer have its value, so that different integers have
    different digits. *)
Lemma digits_value_digits z : 0 ≤ z → digits_value (digits z) = z.
Proof.
  intros Hz. unfold digits. rewrite digits_fuel_value; [done| |lia]. split; [done|].
  destruct (decide (z = 0)) as [->|]; [done|]. pose proof (Z.log2_spec z ltac:(lia)) as [_ Hl].
  pose proof (Z.log2_nonneg z). rewrite Nat2Z.inj_succ, Z2Nat.id by done.
  eapply Z.lt_le_trans; [done|]. apply Z.pow_le_mono_l. lia.
Qed.

Lemma digits_inj a b : 0 ≤ a → 0 ≤ b → digits a = digits b → a = b.
Proof. intros Ha Hb Heq. by rewrite <-(digits_value_digits a), <-(digits_value_digits b), Heq. Qed.

Lemma digits_fuel_range fuel z acc :
  0 ≤ z → Forall (λ d, 0 ≤ d < 10) acc → Forall (λ d, 0 ≤ d < 10) (digits_fuel fuel z acc).
Proof.
  revert z acc. induction fuel as [|fuel IH]; intros z acc Hz Hacc; [done|]. cbn [digits_fuel].
  case_bool_decide; [by constructor|]. apply IH; [apply Z.div_pos; lia|].
  constructor; [apply Z.mod_pos_bound; lia|done].
Qed.

Lemma digits_range z : 0 ≤ z → Forall (λ d, 0 ≤ d < 10) (digits z).
Proof. intros. by apply digits_fuel_range. Qed.

Lemma digit_string_inj : Inj (=) (=) digit_string.
Proof.
  unfold digit_string. intros l1. induction l1 as [|a l1 IH]; intros [|b l2]; csimpl; try done.
  intros [= Hab Hl]. f_equal; [lia|by apply IH].
Qed.

Lemma int_string_nonneg_inj a b : 0 ≤ a → 0 ≤ b → int_string a = int_string b → a = b.
Proof.
  intros Ha Hb. unfold int_string. rewrite !bool_decide_eq_false_2 by lia.
  intros Heq%digit_string_inj. by apply digits_inj.
Qed.
