(* ===== verification/Calendar.v ===== *)
(** * Calendar dates of JavaScript

    The day numbers and civil dates behind [Date] in UTC, as the language
    definition gives them (DayFromYear, YearFromTime, MonthFromTime, MakeDay),
    with the round trips between them.  Months count from 0. *)

From S2P Require Import Prelude.

Open Scope Z_scope.

Module Calendar.

Definition leap (y : Z) : bool :=
  bool_decide (y mod 4 = 0) && negb (bool_decide (y mod 100 = 0)) || bool_decide (y mod 400 = 0).

(** The day number of 1 January. *)
Definition year_start (y : Z) : Z :=
  365 * (y - 1970) + (y - 1969) / 4 - (y - 1901) / 100 + (y - 1601) / 400.

Definition leap_day (y : Z) : Z := if leap y then 1 else 0.

(** The first day of a month within its year; [month_start y 12] is the length
    of the year. *)
Definition month_start (y m : Z) : Z :=
  if bool_decide (m ≤ 0) then 0 else if bool_decide (m = 1) then 31
  else leap_day y +
    (if bool_decide (m = 2) then 59 else if bool_decide (m = 3) then 90 else if bool_decide (m = 4) then 120
     else if bool_decide (m = 5) then 151 else if bool_decide (m = 6) then 181
     else if bool_decide (m = 7) then 212 else if bool_decide (m = 8) then 243
     else if bool_decide (m = 9) then 273 else if bool_decide (m = 10) then 304
     else if bool_decide (m = 11) then 334 else 365).

Definition month_length (y m : Z) : Z := month_start y (m + 1) - month_start y m.

(** [MakeDay(year, month, date)]: months and days may be out of range. *)
Definition make_day (y m d : Z) : Z :=
  let y' := y + m / 12 in year_start y' + month_start y' (m mod 12) + d - 1.

(** The year of a day number: an estimate, corrected by one. *)
Definition year_of (day : Z) : Z :=
  let y := 1970 + day * 400 / 146097 in
  if bool_decide (day < year_start y) then y - 1
  else if bool_decide (year_start (y + 1) ≤ day) then y + 1 else y.

(** The month of a day within its year. *)
Definition month_of (y k : Z) : Z :=
  if bool_decide (k < month_start y 1) then 0 else if bool_decide (k < month_start y 2) then 1
  else if bool_decide (k < month_start y 3) then 2 else if bool_decide (k < month_start y 4) then 3
  else if bool_decide (k < month_start y 5) then 4 else if bool_decide (k < month_start y 6) then 5
  else if bool_decide (k < month_start y 7) then 6 else if bool_decide (k < month_start y 8) then 7
  else if bool_decide (k < month_start y 9) then 8 else if bool_decide (k < month_start y 10) then 9
  else if bool_decide (k < month_start y 11) then 10 else 11.

(** Year, month and day of the month of a day number. *)
Record civil := { year : Z; month : Z; mday : Z }.

Definition civil_of (day : Z) : civil :=
  let y := year_of day in
  let k := day - year_start y in
  {| year := y; month := month_of y k; mday := k - month_start y (month_of y k) + 1 |}.

Definition day_of (c : civil) : Z := make_day (year c) (month c) (mday c).

Definition valid (c : civil) : Prop := 0 ≤ month c < 12 ∧ 1 ≤ mday c ≤ month_length (year c) (month c).

#[global] Instance valid_dec c : Decision (valid c).
Proof. unfold valid. apply _. Defined.

(** ** Years *)

Lemma leap_spec y : leap_day y = (y / 4 - (y - 1) / 4) - (y / 100 - (y - 1) / 100) + (y / 400 - (y - 1) / 400).
Proof.
  unfold leap_day, leap.
  destruct (bool_decide (y mod 4 = 0)) eqn:H4, (bool_decide (y mod 100 = 0)) eqn:H100,
    (bool_decide (y mod 400 = 0)) eqn:H400; reflect_bools; cbn; Z.to_euclidean_division_equations; lia.
Qed.

Lemma year_start_succ y : year_start (y + 1) = year_start y + 365 + leap_day y.
Proof.
  rewrite leap_spec. unfold year_start. replace (y + 1 - 1969) with (y + -492 * 4) by lia.
  replace (y + 1 - 1901) with (y + -19 * 100) by lia. replace (y + 1 - 1601) with (y + -4 * 400) by lia.
  replace (y - 1969) with (y - 1 + -492 * 4) by lia. replace (y - 1901) with (y - 1 + -19 * 100) by lia.
  replace (y - 1601) with (y - 1 + -4 * 400) by lia. rewrite !Z.div_add by lia. lia.
Qed.

Lemma leap_day_range y : 0 ≤ leap_day y ≤ 1.
Proof. unfold leap_day. destruct (leap y); lia. Qed.

Lemma year_start_mono y z : y ≤ z → year_start y + 365 * (z - y) ≤ year_start z.
Proof.
  intros Hyz. replace z with (y + Z.of_nat (Z.to_nat (z - y))) by lia.
  generalize (Z.to_nat (z - y)); intros n. induction n as [|n IH]; [rewrite Z.add_0_r; lia|].
  replace (y + Z.of_nat (S n)) with (y + Z.of_nat n + 1) by lia. rewrite year_start_succ.
  pose proof (leap_day_range (y + Z.of_nat n)). lia.
Qed.

(** A year is the only one whose days contain a given day. *)
Lemma year_unique y z day :
  year_start y ≤ day < year_start (y + 1) → year_start z ≤ day < year_start (z + 1) → y = z.
Proof.
  intros Hy Hz. destruct (Z.lt_trichotomy y z) as [Hlt|[?|Hlt]]; [|done|].
  - pose proof (year_start_mono (y + 1) z ltac:(lia)). lia.
  - pose proof (year_start_mono (z + 1) y ltac:(lia)). lia.
Qed.

(** The mean length of a year is 146097/400 days. *)
Lemma year_start_bounds y : 146097 * (y - 1970) - 506 ≤ 400 * year_start y ≤ 146097 * (y - 1970) + 589.
Proof.
  unfold year_start. pose proof (Z.div_mod (y - 1969) 4 ltac:(lia)). pose proof (Z.mod_pos_bound (y - 1969) 4 ltac:(lia)).
  pose proof (Z.div_mod (y - 1901) 100 ltac:(lia)). pose proof (Z.mod_pos_bound (y - 1901) 100 ltac:(lia)).
  pose proof (Z.div_mod (y - 1601) 400 ltac:(lia)). pose proof (Z.mod_pos_bound (y - 1601) 400 ltac:(lia)).
  lia.
Qed.

(** The estimate is off by at most one. *)
Lemma year_of_spec day : year_start (year_of day) ≤ day < year_start (year_of day + 1).
Proof.
  unfold year_of. cbn zeta. set (y := 1970 + day * 400 / 146097).
  assert (year_start (y - 1) ≤ day < year_start (y + 2)) as [Hlo Hhi].
  { pose proof (year_start_bounds (y - 1)). pose proof (year_start_bounds (y + 2)).
    pose proof (Z.div_mod (day * 400) 146097 ltac:(lia)). pose proof (Z.mod_pos_bound (day * 400) 146097 ltac:(lia)).
    unfold y in *. lia. }
  case_bool_decide; [replace (y - 1 + 1) with y by lia; lia|].
  case_bool_decide; [replace (y + 1 + 1) with (y + 2) by lia; lia|lia].
Qed.

(** ** Months *)

Lemma month_start_step y m : 0 ≤ m < 12 → 28 ≤ month_length y m ≤ 31.
Proof.
  intros Hm. pose proof (leap_day_range y). unfold month_length, month_start.
  repeat (case_bool_decide; try lia).
Qed.

Lemma month_start_12 y : month_start y 12 = 365 + leap_day y.
Proof. unfold month_start. repeat (case_bool_decide; try lia). Qed.

Lemma month_of_spec y k :
  0 ≤ k < 365 + leap_day y →
  0 ≤ month_of y k < 12 ∧ month_start y (month_of y k) ≤ k < month_start y (month_of y k + 1).
Proof.
  rewrite <-month_start_12. intros Hk. unfold month_of.
  assert (month_start y 0 = 0) by done.
  repeat (case_bool_decide; [split; [lia|]; split; [lia|assumption]|]).
  split; [lia|]. split; [lia|apply Hk].
Qed.

Lemma month_start_mono y m m' : 0 ≤ m → m ≤ m' → m' ≤ 12 → month_start y m ≤ month_start y m'.
Proof.
  intros H0 Hle H12. replace m' with (m + Z.of_nat (Z.to_nat (m' - m))) by lia.
  assert (m + Z.of_nat (Z.to_nat (m' - m)) ≤ 12) as Hb by lia. revert Hb.
  generalize (Z.to_nat (m' - m)); intros n. induction n as [|n IH]; intros Hb; [rewrite Z.add_0_r; lia|].
  specialize (IH ltac:(lia)). pose proof (month_start_step y (m + Z.of_nat n) ltac:(lia)) as Hs.
  unfold month_length in Hs. replace (m + Z.of_nat (S n)) with (m + Z.of_nat n + 1) by lia. lia.
Qed.

Lemma month_unique y m m' k :
  0 ≤ m < 12 → 0 ≤ m' < 12 → month_start y m ≤ k < month_start y (m + 1) →
  month_start y m' ≤ k < month_start y (m' + 1) → m = m'.
Proof.
  intros Hm Hm' Hk Hk'. destruct (Z.lt_trichotomy m m') as [Hlt|[?|Hlt]]; [|done|].
  - pose proof (month_start_mono y (m + 1) m' ltac:(lia) ltac:(lia) ltac:(lia)). lia.
  - pose proof (month_start_mono y (m' + 1) m ltac:(lia) ltac:(lia) ltac:(lia)). lia.
Qed.

(** ** Round trips *)

Lemma make_day_in_range y m d : 0 ≤ m < 12 → make_day y m d = year_start y + month_start y m + d - 1.
Proof.
  intros Hm. unfold make_day. rewrite Z.div_small, Z.mod_small by lia. by rewrite Z.add_0_r.
Qed.

Lemma civil_of_valid day : valid (civil_of day).
Proof.
  pose proof (year_of_spec day) as Hy. rewrite year_start_succ in Hy.
  pose proof (month_of_spec (year_of day) (day - year_start (year_of day)) ltac:(lia)) as [Hm Hk].
  unfold valid, civil_of, month_length. cbn [year month mday]. lia.
Qed.

(** Every day number is the number of its date. *)
Lemma day_of_civil_of day : day_of (civil_of day) = day.
Proof.
  pose proof (civil_of_valid day) as [Hm _]. unfold day_of. rewrite make_day_in_range by done.
  unfold civil_of. cbn [year month mday]. lia.
Qed.

(** Every date is the date of its number. *)
Lemma civil_of_day_of c : valid c → civil_of (day_of c) = c.
Proof.
  destruct c as [y m d]. unfold valid, day_of. cbn [year month mday]. intros [Hm Hd].
  rewrite make_day_in_range by done. set (day := year_start y + month_start y m + d - 1).
  unfold month_length in Hd.
  assert (month_start y (m + 1) ≤ month_start y 12) as H12 by (apply month_start_mono; lia).
  assert (0 ≤ month_start y m) as H0 by (change 0 with (month_start y 0); apply month_start_mono; lia).
  rewrite month_start_12 in H12.
  assert (year_of day = y) as Hy.
  { apply (year_unique _ _ day); [apply year_of_spec|]. rewrite year_start_succ. lia. }
  unfold civil_of. rewrite Hy.
  assert (month_of y (day - year_start y) = m) as Hmo.
  { pose proof (month_of_spec y (day - year_start y) ltac:(lia)) as [? ?].
    apply (month_unique y _ _ (day - year_start y)); [done|done|done|lia]. }
  rewrite Hmo. f_equal. lia.
Qed.

(** A date is valid exactly when it is the date of its number: the test that
    programs make after constructing a date. *)
Lemma valid_iff c : valid c ↔ civil_of (day_of c) = c.
Proof. split; [apply civil_of_day_of|]. intros <-. apply civil_of_valid. Qed.

(** ** Order *)

(** The months of all years in one sequence. *)
Definition month_index (c : civil) : Z := year c * 12 + month c.

Lemma month_index_split y m : 0 ≤ m < 12 → (y * 12 + m) / 12 = y ∧ (y * 12 + m) mod 12 = m.
Proof. intros Hm. Z.to_euclidean_division_equations. lia. Qed.

(** The first day of the next month. *)
Lemma next_month y m : 0 ≤ m < 12 → make_day y (m + 1) 1 = make_day y m 1 + month_length y m.
Proof.
  intros Hm. rewrite (make_day_in_range y m) by done. unfold month_length.
  destruct (decide (m = 11)) as [->|Hne].
  - unfold make_day. change ((11 + 1) / 12) with 1. change ((11 + 1) mod 12) with 0. cbn zeta.
    rewrite year_start_succ. change (month_start (y + 1) 0) with 0.
    change (11 + 1) with 12. rewrite month_start_12. lia.
  - rewrite make_day_in_range by lia. lia.
Qed.

(** The first day of month number [i]. *)
Definition month_day (i : Z) : Z := make_day 0 i 1.

Lemma month_day_index y m : month_day (y * 12 + m) = make_day y m 1.
Proof.
  unfold month_day, make_day. rewrite (Z.add_comm (y * 12)), Z.div_add, Z.mod_add by lia.
  by rewrite (Z.add_comm (m / 12) y).
Qed.

Lemma month_day_succ i : month_day (i + 1) = month_day i + month_length (i / 12) (i mod 12).
Proof.
  pose proof (Z.div_mod i 12 ltac:(lia)). pose proof (Z.mod_pos_bound i 12 ltac:(lia)).
  assert (month_day i = make_day (i / 12) (i mod 12) 1) as -> by (rewrite <-month_day_index; f_equal; lia).
  assert (month_day (i + 1) = make_day (i / 12) (i mod 12 + 1) 1) as ->
    by (rewrite <-month_day_index; f_equal; lia).
  by apply next_month.
Qed.

Lemma month_day_mono i j : i ≤ j → month_day i ≤ month_day j.
Proof.
  intros Hij. replace j with (i + Z.of_nat (Z.to_nat (j - i))) by lia.
  generalize (Z.to_nat (j - i)); intros n. induction n as [|n IH]; [rewrite Z.add_0_r; lia|].
  replace (i + Z.of_nat (S n)) with (i + Z.of_nat n + 1) by lia. rewrite month_day_succ.
  pose proof (Z.mod_pos_bound (i + Z.of_nat n) 12 ltac:(lia)).
  pose proof (month_start_step ((i + Z.of_nat n) / 12) ((i + Z.of_nat n) mod 12) ltac:(lia)). lia.
Qed.

Lemma day_of_month c : valid c → month_day (month_index c) ≤ day_of c < month_day (month_index c + 1).
Proof.
  intros [Hm Hd]. rewrite month_day_succ. unfold month_index, day_of.
  destruct (month_index_split (year c) (month c) Hm) as [-> ->]. rewrite month_day_index.
  rewrite !make_day_in_range by done. lia.
Qed.

(** Dates are ordered by month. *)
Lemma month_order c c' : valid c → valid c' → month_index c < month_index c' → day_of c < day_of c'.
Proof.
  intros Hc Hc' Hlt. pose proof (day_of_month c Hc). pose proof (day_of_month c' Hc').
  pose proof (month_day_mono (month_index c + 1) (month_index c') ltac:(lia)). lia.
Qed.

End Calendar.
