(* ===== verification/JsText.v ===== *)
(** * Texts of the standard library

    [JSON.stringify] of strings, [Number] of a text and
    [Date.prototype.toISOString], as the language defines them, with what the
    programs rely on: [JSON.stringify] and [toISOString] are injective.  A
    string is written so that it can be read back wherever it stands; times are
    whole milliseconds. *)

From Stdlib Require Import SpecFloat.
From S2P Require Import Prelude JsMap JsString Json JsNumber Calendar.

Open Scope Z_scope.

(** ** [JSON.stringify] of a string *)

Definition hex_lower (d : Z) : Z := if bool_decide (d < 10) then 48 + d else 87 + d.

(** A backslash, [u] and four digits. *)
Definition unicode_escape (u : Z) : jsstring :=
  [92; 117; hex_lower (Z.shiftr u 12); hex_lower (Z.land (Z.shiftr u 8) 15);
   hex_lower (Z.land (Z.shiftr u 4) 15); hex_lower (Z.land u 15)].

Definition quote_unit (u : Z) : jsstring :=
  if bool_decide (u = 8) then [92; 98]
  else if bool_decide (u = 9) then [92; 116]
  else if bool_decide (u = 10) then [92; 110]
  else if bool_decide (u = 12) then [92; 102]
  else if bool_decide (u = 13) then [92; 114]
  else if bool_decide (u = 34) then [92; 34]
  else if bool_decide (u = 92) then [92; 92]
  else if bool_decide (u < 32) then unicode_escape u
  else [u].

(** Surrogates that are not part of a pair are escaped. *)
Fixpoint quote_units (s : jsstring) : jsstring :=
  match s with
  | [] => []
  | u :: s' =>
      match s' with
      | v :: s'' =>
          if is_high u && is_low v then u :: v :: quote_units s''
          else if is_high u || is_low u then unicode_escape u ++ quote_units s'
          else quote_unit u ++ quote_units s'
      | [] => if is_high u || is_low u then unicode_escape u else quote_unit u
      end
  end.

Definition quote (s : jsstring) : jsstring := 34 :: quote_units s ++ [34].

(** The reader: the string and what follows its closing quote. *)
Definition hex_value (u : Z) : Z := if bool_decide (u < 58) then u - 48 else u - 87.

Definition unescape (u : Z) : Z :=
  if bool_decide (u = 98) then 8
  else if bool_decide (u = 116) then 9
  else if bool_decide (u = 110) then 10
  else if bool_decide (u = 102) then 12
  else if bool_decide (u = 114) then 13
  else u.

Fixpoint unquote_units (s : jsstring) : option (jsstring * jsstring) :=
  match s with
  | [] => None
  | u :: r =>
      if bool_decide (u = 34) then Some ([], r)
      else if bool_decide (u = 92) then
        match r with
        | 117 :: a :: b :: c :: d :: r =>
            prod_map (cons (hex_value a * 4096 + hex_value b * 256 + hex_value c * 16 + hex_value d)) id
            <$> unquote_units r
        | v :: r => prod_map (cons (unescape v)) id <$> unquote_units r
        | [] => None
        end
      else prod_map (cons u) id <$> unquote_units r
  end.

Definition code_unit (u : Z) : Prop := 0 ≤ u < 65536.

(** Every code unit is written as one that the reader reads. *)
Lemma hex_value_lower d : 0 ≤ d < 16 → hex_value (hex_lower d) = d.
Proof. intros Hd. unfold hex_value, hex_lower. repeat case_bool_decide; lia. Qed.

Lemma unquote_escape u r :
  code_unit u → unquote_units (unicode_escape u ++ r) = prod_map (cons u) id <$> unquote_units r.
Proof.
  intros Hu. unfold unicode_escape, code_unit in *. cbn [app unquote_units].
  rewrite bool_decide_eq_false_2, bool_decide_eq_true_2 by lia.
  change 15 with (Z.ones 4). rewrite !Z.land_ones, !Z.shiftr_div_pow2 by lia.
  rewrite !hex_value_lower.
  - f_equal. f_equal. f_equal. change (2 ^ 12) with 4096. change (2 ^ 8) with 256. change (2 ^ 4) with 16.
    pose proof (Z.div_mod u 16). pose proof (Z.div_mod (u / 16) 16). pose proof (Z.div_mod (u / 256) 16).
    assert (u / 16 / 16 = u / 256) by (by rewrite Z.div_div by lia).
    assert (u / 256 / 16 = u / 4096) by (by rewrite Z.div_div by lia). lia.
  - apply Z.mod_pos_bound. lia.
  - apply Z.mod_pos_bound. lia.
  - apply Z.mod_pos_bound. lia.
  - split; [apply Z.div_pos; lia|apply Z.div_lt_upper_bound; lia].
Qed.

Lemma unquote_unit u r :
  code_unit u → unquote_units (quote_unit u ++ r) = prod_map (cons u) id <$> unquote_units r.
Proof.
  intros Hu. unfold quote_unit.
  repeat (case_bool_decide; [subst; (reflexivity || by apply unquote_escape)|]).
  cbn [app unquote_units]. by rewrite !bool_decide_eq_false_2 by done.
Qed.

Lemma unquote_plain u r :
  is_high u || is_low u = true → unquote_units (u :: r) = prod_map (cons u) id <$> unquote_units r.
Proof.
  unfold is_high, is_low. intros Hu. cbn [unquote_units].
  rewrite !bool_decide_eq_false_2; [done| |]; intros ->; done.
Qed.

Lemma quote_units_cons u v s :
  quote_units (u :: v :: s) =
  if is_high u && is_low v then u :: v :: quote_units s
  else if is_high u || is_low u then unicode_escape u ++ quote_units (v :: s)
  else quote_unit u ++ quote_units (v :: s).
Proof. done. Qed.

Lemma unquote_quote_units s r :
  Forall code_unit s → unquote_units (quote_units s ++ 34 :: r) = Some (s, r).
Proof.
  remember (length s) as n eqn:Hn. revert s Hn. induction (lt_wf n) as [n _ IH]. intros s -> Hs.
  destruct s as [|u s]; [done|]. inversion Hs as [|? ? Hu Hs']; subst. destruct s as [|v s].
  - cbn [quote_units]. destruct (is_high u || is_low u);
      rewrite ?unquote_escape, ?unquote_unit by done; cbn [unquote_units]; by rewrite bool_decide_eq_true_2.
  - rewrite quote_units_cons. destruct (is_high u && is_low v) eqn:Hp.
    + apply andb_true_iff in Hp as [Hh Hl]. inversion Hs' as [|? ? Hv Hs'']; subst.
      cbn [app]. rewrite !unquote_plain by (rewrite ?Hh, ?Hl; by rewrite ?orb_true_r).
      erewrite IH; [done| |done|done]. cbn. lia.
    + assert (unquote_units (quote_units (v :: s) ++ 34 :: r) = Some (v :: s, r)) as Hr
        by (eapply IH; [|done|done]; cbn; lia).
      destruct (is_high u || is_low u); rewrite <-app_assoc, ?unquote_escape, ?unquote_unit by done;
        by rewrite Hr.
Qed.

(** Two texts that start with quoted strings start with the same string. *)
Lemma quote_app_inj s t r q :
  Forall code_unit s → Forall code_unit t → quote s ++ r = quote t ++ q → s = t ∧ r = q.
Proof.
  intros Hs Ht. unfold quote. cbn [app]. rewrite <-!app_assoc. intros [= He].
  pose proof (unquote_quote_units s r Hs) as H1. pose proof (unquote_quote_units t q Ht) as H2.
  cbn [app] in He. rewrite He in H1. rewrite H1 in H2. by injection H2.
Qed.

(** ** [JSON.stringify] of data *)

(** What is not finite is written as [null]; the properties of an object are in
    its order. *)
Fixpoint json_text (v : json) : jsstring :=
  match v with
  | JNull => js "null"
  | JBool b => if b then js "true" else js "false"
  | JNum x => if isFinite x then number_string x else js "null"
  | JStr s => quote s
  | JArr l => 91 :: join [44] (json_text <$> l) ++ [93]
  | JObj m => 123 :: join [44] ((λ kv, quote (js kv.1) ++ 58 :: json_text kv.2) <$> m) ++ [125]
  end.

Example json_text_examples :
  json_text (JArr [JNum (num_of_Z 1); JStr (js "ab"); JNull]) = js "[1," ++ quote (js "ab") ++ js ",null]" ∧
  json_text (JObj [("k"%string, JBool true); ("n"%string, JNum NaN)]) = 123 :: quote (js "k") ++ js ":true," ++ quote (js "n") ++ js ":null}".
Proof. vm_compute. split; reflexivity. Qed.

(** ** The order of strings *)

(** [a <= b]: by code units, a prefix first. *)
Fixpoint js_leb (a b : jsstring) : bool :=
  match a, b with
  | [], _ => true
  | _ :: _, [] => false
  | x :: a, y :: b => bool_decide (x < y) || (bool_decide (x = y) && js_leb a b)
  end.

Definition js_le (a b : jsstring) : Prop := js_leb a b = true.

#[global] Instance js_le_dec : RelDecision js_le.
Proof. intros a b. unfold js_le. apply _. Defined.

#[global] Instance js_le_total : Total js_le.
Proof.
  intros a. unfold js_le. induction a as [|x a IH]; intros b; [by left|]. destruct b as [|y b]; [by right|]. cbn.
  destruct (Z.lt_total x y) as [?|[->|?]].
  - left. by rewrite bool_decide_eq_true_2.
  - rewrite bool_decide_eq_false_2, !bool_decide_eq_true_2 by lia. apply IH.
  - right. by rewrite bool_decide_eq_true_2.
Qed.

#[global] Instance js_le_trans : Transitive js_le.
Proof.
  intros a. unfold js_le. induction a as [|x a IH]; intros [|y b] [|z c]; try done. cbn.
  rewrite !orb_true_iff, !andb_true_iff, !bool_decide_eq_true. intros [?|[-> Hab]] [?|[<- Hbc]]; [left; lia..|].
  right. split; [done|by eapply IH].
Qed.

#[global] Instance js_le_antisymm : AntiSymm (=) js_le.
Proof.
  intros a. unfold js_le. induction a as [|x a IH]; intros [|y b]; try done. cbn.
  rewrite !orb_true_iff, !andb_true_iff, !bool_decide_eq_true. intros [?|[-> Hab]] [?|[? Hba]]; try lia.
  f_equal. by apply IH.
Qed.

(** [Array.prototype.sort] of strings. *)
Definition sort_strings (l : list jsstring) : list jsstring := merge_sort js_le l.

Lemma sort_strings_perm l : sort_strings l ≡ₚ l.
Proof. apply merge_sort_Permutation. Qed.

Lemma sort_strings_eq l l' : l ≡ₚ l' → sort_strings l = sort_strings l'.
Proof.
  intros Hp. apply (StronglySorted_unique js_le).
  - apply (StronglySorted_merge_sort js_le).
  - apply (StronglySorted_merge_sort js_le).
  - by rewrite !sort_strings_perm.
Qed.

(** ** [Number(text)] *)

Definition is_ascii_digit (u : Z) : bool := bool_decide (48 ≤ u ≤ 57).

Fixpoint span_digits (s : jsstring) : jsstring * jsstring :=
  match s with
  | u :: s' => if is_ascii_digit u then let '(d, r) := span_digits s' in (u :: d, r) else ([], s)
  | [] => ([], [])
  end.

Definition digits_of (s : jsstring) : Z := digits_value ((λ u, u - 48) <$> s).

(** [s * 10^p] *)
Definition scaled_decimal (s p : Z) : num := match s with Zpos s => decimal s p | _ => S754_zero false end.

(** An exponent, if any, up to the end. *)
Definition exponent_of (s : jsstring) : option Z :=
  match s with
  | [] => Some 0
  | e :: s =>
      if bool_decide (e = 101 ∨ e = 69) then
        let '(sign, s) := match s with 43 :: s => (1, s) | 45 :: s => (-1, s) | _ => (1, s) end in
        let '(d, r) := span_digits s in
        match d, r with _ :: _, [] => Some (sign * digits_of d) | _, _ => None end
      else None
  end.

(** Without a sign. *)
Definition unsigned_number (s : jsstring) : option num :=
  if bool_decide (s = js "Infinity") then Some (S754_infinity false)
  else
    let '(w, r) := span_digits s in
    let '(f, r) := match r with 46 :: r => span_digits r | _ => ([], r) end in
    match w ++ f, exponent_of r with
    | _ :: _, Some e => Some (scaled_decimal (digits_of (w ++ f)) (e - Z.of_nat (length f)))
    | _, _ => None
    end.

Definition radix_digit (u : Z) : Z :=
  if is_ascii_digit u then u - 48
  else if bool_decide (97 ≤ u ≤ 102) then u - 87
  else if bool_decide (65 ≤ u ≤ 70) then u - 55
  else 16.

Definition radix_number (radix : Z) (s : jsstring) : num :=
  if negb (bool_decide (s = [])) && every (λ u, bool_decide (radix_digit u < radix)) s
  then num_of_Z (foldl (λ a u, a * radix + radix_digit u) 0 s) else NaN.

Definition negated (x : num) : num := SFopp x.

Definition string_number (text : jsstring) : num :=
  match trim text with
  | [] => num_of_Z 0
  | 45 :: s => default NaN (negated <$> unsigned_number s)
  | 43 :: s => default NaN (unsigned_number s)
  | 48 :: x :: s =>
      if bool_decide (x = 120 ∨ x = 88) then radix_number 16 s
      else if bool_decide (x = 111 ∨ x = 79) then radix_number 8 s
      else if bool_decide (x = 98 ∨ x = 66) then radix_number 2 s
      else default NaN (unsigned_number (48 :: x :: s))
  | s => default NaN (unsigned_number s)
  end.

Example string_number_examples :
  string_number [] = num_of_Z 0 ∧
  string_number (js " 12.50 ") = decimal 125 (-1) ∧
  string_number (js "-0") = S754_zero true ∧
  string_number (js ".5e1") = num_of_Z 5 ∧
  string_number (js "0x1F") = num_of_Z 31 ∧
  string_number (js "1,5") = NaN ∧
  string_number (js "5.") = num_of_Z 5 ∧
  string_number (js ".") = NaN ∧
  string_number (js "1e") = NaN ∧
  string_number (js "-Infinity") = S754_infinity true ∧
  string_number (js "9007199254740993") = num_of_Z 9007199254740992.
Proof. vm_compute. repeat split; reflexivity. Qed.

(** [Math.ceil] of a finite number. *)
Definition ceil_Z (x : num) : option Z :=
  match x with
  | S754_zero _ => Some 0
  | S754_finite s m e => let '(a, d) := fraction m e in Some (- ((if s then a else - a) / d))
  | _ => None
  end.

(** ** [toISOString] *)

Import Calendar.

(** The last [k] decimal digits. *)
Fixpoint pad (k : nat) (z : Z) : jsstring :=
  match k with O => [] | S k => pad k (z / 10) ++ [48 + z mod 10] end.

Definition MS_PER_DAY : Z := 86400000.

(** The largest time value is 100,000,000 days. *)
Definition MAX_TIME : Z := 8640000000000000.

Definition year_text (y : Z) : jsstring :=
  if bool_decide (0 ≤ y ≤ 9999) then pad 4 y
  else if bool_decide (0 ≤ y) then 43 :: pad 6 y
  else 45 :: pad 6 (- y).

Definition iso_text (c : civil) (t : Z) : jsstring :=
  year_text (year c) ++ [45] ++ pad 2 (month c + 1) ++ [45] ++ pad 2 (mday c) ++ [84]
  ++ pad 2 (t / 3600000) ++ [58] ++ pad 2 (t / 60000 mod 60) ++ [58] ++ pad 2 (t / 1000 mod 60) ++ [46]
  ++ pad 3 (t mod 1000) ++ [90].

(** [None] is a RangeError. *)
Definition toISOString (ms : Z) : option jsstring :=
  if bool_decide (Z.abs ms ≤ MAX_TIME)
  then Some (iso_text (civil_of (ms / MS_PER_DAY)) (ms mod MS_PER_DAY))
  else None.

Example iso_examples :
  toISOString 0 = Some (js "1970-01-01T00:00:00.000Z") ∧
  toISOString 1754006399999 = Some (js "2025-07-31T23:59:59.999Z") ∧
  toISOString (- 1) = Some (js "1969-12-31T23:59:59.999Z") ∧
  toISOString MAX_TIME = Some (js "+275760-09-13T00:00:00.000Z") ∧
  toISOString (MAX_TIME + 1) = None.
Proof. vm_compute. done. Qed.

Lemma length_pad k z : length (pad k z) = k.
Proof. revert z. induction k as [|k IH]; intros z; [done|]. cbn. rewrite length_app, IH. cbn. lia. Qed.

Lemma pad_inj k a b :
  0 ≤ a < 10 ^ Z.of_nat k → 0 ≤ b < 10 ^ Z.of_nat k → pad k a = pad k b → a = b.
Proof.
  revert a b. induction k as [|k IH]; intros a b Ha Hb; [cbn in *; lia|]. cbn [pad]. intros He.
  apply app_inj_2 in He as [He [= Hm]]; [|done].
  rewrite Nat2Z.inj_succ, Z.pow_succ_r in Ha, Hb by lia.
  pose proof (Z.div_mod a 10). pose proof (Z.div_mod b 10). apply IH in He; [lia| |];
    (split; [apply Z.div_pos; lia|apply Z.div_lt_upper_bound; lia]).
Qed.

(** Reading a text from the left: fields of fixed width and separators. *)
Lemma pad_app_inj k a b r q :
  0 ≤ a < 10 ^ Z.of_nat k → 0 ≤ b < 10 ^ Z.of_nat k → pad k a ++ r = pad k b ++ q → a = b ∧ r = q.
Proof.
  intros Ha Hb He. apply app_inj_1 in He as [He ->]; [|by rewrite !length_pad].
  split; [by eapply pad_inj|done].
Qed.

Lemma sep_app_inj (c : Z) r q : [c] ++ r = [c] ++ q → r = q.
Proof. by intros [= ->]. Qed.

Lemma pad_head k z r : ∃ d l, pad (S k) z ++ r = d :: l ∧ 48 ≤ d < 58.
Proof.
  revert z r. induction k as [|k IH]; intros z r.
  - exists (48 + z mod 10), r. split; [done|]. pose proof (Z.mod_pos_bound z 10). lia.
  - cbn [pad]. rewrite <-app_assoc. change (pad k (z / 10 / 10) ++ [48 + (z / 10) mod 10]) with (pad (S k) (z / 10)).
    apply IH.
Qed.

Lemma year_app_inj a b r q :
  Z.abs a < 1000000 → Z.abs b < 1000000 → year_text a ++ r = year_text b ++ q → a = b ∧ r = q.
Proof.
  intros Ha Hb. unfold year_text.
  pose proof (pad_head 3 a r) as (da & la & Hda & Hra). pose proof (pad_head 3 b q) as (db & lb & Hdb & Hrb).
  repeat case_bool_decide; intros He; try lia.
  all: try (rewrite ?Hda, ?Hdb in He; cbn [app] in He; injection He as He; lia).
  - apply pad_app_inj in He; [done|cbn; lia|cbn; lia].
  - apply (f_equal tail) in He. change (pad 6 a ++ r = pad 6 b ++ q) in He.
    apply pad_app_inj in He; [done|cbn; lia|cbn; lia].
  - apply (f_equal tail) in He. change (pad 6 (- a) ++ r = pad 6 (- b) ++ q) in He.
    apply pad_app_inj in He as [Hab ->]; [split; [lia|done]|cbn; lia|cbn; lia].
Qed.


(** The years of time values have at most six digits. *)
Lemma year_bound ms : Z.abs ms ≤ MAX_TIME → Z.abs (year (civil_of (ms / MS_PER_DAY))) < 1000000.
Proof.
  intros Hms. unfold MAX_TIME in Hms. set (d := ms / MS_PER_DAY).
  assert (- 100000001 ≤ d ≤ 100000001) as Hd.
  { unfold d, MS_PER_DAY. split; [apply Z.div_le_lower_bound; lia|].
    assert (ms / 86400000 < 100000001); [apply Z.div_lt_upper_bound; lia|lia]. }
  unfold civil_of. cbn [year]. pose proof (year_of_spec d) as [H1 H2].
  pose proof (year_start_bounds (year_of d)). pose proof (year_start_bounds (year_of d + 1)). lia.
Qed.

Lemma small_fields c : valid c → 0 ≤ month c + 1 < 100 ∧ 0 ≤ mday c < 100.
Proof. intros [Hm Hd]. pose proof (month_start_step (year c) (month c) Hm). lia. Qed.

(** A time of day is its fields. *)
Lemma day_time_fields t :
  0 ≤ t < MS_PER_DAY →
  0 ≤ t / 3600000 < 100 ∧ 0 ≤ t / 60000 mod 60 < 100 ∧ 0 ≤ t / 1000 mod 60 < 100 ∧ 0 ≤ t mod 1000 < 1000 ∧
  t = t / 3600000 * 3600000 + t / 60000 mod 60 * 60000 + t / 1000 mod 60 * 1000 + t mod 1000.
Proof.
  intros Ht. unfold MS_PER_DAY in Ht.
  assert (t / 60000 / 60 = t / 3600000) by (by rewrite Z.div_div by lia).
  assert (t / 1000 / 60 = t / 60000) by (by rewrite Z.div_div by lia).
  pose proof (Z.div_mod t 1000). pose proof (Z.div_mod (t / 1000) 60). pose proof (Z.div_mod (t / 60000) 60).
  pose proof (Z.mod_pos_bound t 1000). pose proof (Z.mod_pos_bound (t / 1000) 60).
  pose proof (Z.mod_pos_bound (t / 60000) 60). lia.
Qed.

Lemma iso_text_inj c c' t t' :
  Z.abs (year c) < 1000000 → Z.abs (year c') < 1000000 → valid c → valid c' →
  0 ≤ t < MS_PER_DAY → 0 ≤ t' < MS_PER_DAY → iso_text c t = iso_text c' t' → c = c' ∧ t = t'.
Proof.
  intros Hy Hy' Hc Hc' Ht Ht'. apply small_fields in Hc as [Hm Hd], Hc' as [Hm' Hd'].
  apply day_time_fields in Ht as (H1 & H2 & H3 & H4 & Ht), Ht' as (H1' & H2' & H3' & H4' & Ht').
  unfold iso_text. intros He. apply year_app_inj in He as [Ey He]; [|done|done].
  apply sep_app_inj, pad_app_inj in He as [Em He]; [|cbn; lia..].
  apply sep_app_inj, pad_app_inj in He as [Ed He]; [|cbn; lia..].
  apply sep_app_inj, pad_app_inj in He as [E1 He]; [|cbn; lia..].
  apply sep_app_inj, pad_app_inj in He as [E2 He]; [|cbn; lia..].
  apply sep_app_inj, pad_app_inj in He as [E3 He]; [|cbn; lia..].
  apply sep_app_inj, pad_app_inj in He as [E4 _]; [|cbn; lia..].
  split; [destruct c, c'; cbn in *; f_equal; lia|]. rewrite Ht, Ht'. lia.
Qed.

(** Different times have different texts. *)
Lemma toISOString_inj a b s : toISOString a = Some s → toISOString b = Some s → a = b.
Proof.
  unfold toISOString. case_bool_decide as Ha; [|done]. case_bool_decide as Hb; [|done].
  intros [= <-] [= He]. symmetry in He.
  apply iso_text_inj in He as [Hc Ht];
    [|by apply year_bound|by apply year_bound|apply civil_of_valid|apply civil_of_valid
     |apply Z.mod_pos_bound; done|apply Z.mod_pos_bound; done].
  apply (f_equal day_of) in Hc. rewrite !day_of_civil_of in Hc.
  rewrite (Z.div_mod a MS_PER_DAY), (Z.div_mod b MS_PER_DAY) by done. congruence.
Qed.
