(* ===== verification/Constants.v ===== *)
(** * Shared constants ([glass-shared/constants/*.ts])

    The numeric configuration the services read: durations are milliseconds. *)

From S2P Require Import Prelude.

Open Scope Z_scope.

Module TIME_MS.
Definition second : Z := 1000.
Definition minute : Z := 60000.
Definition hour : Z := 60 * 60000.
Definition day : Z := 24 * 60 * 60000.
End TIME_MS.

Module NETWORK_CONFIG.
Definition timeout_request : Z := 30 * TIME_MS.second.
Definition concurrency_maxRequests : Z := 8.
Definition retry_attempts : Z := 1.
End NETWORK_CONFIG.

Module REQUEST_CONFIG.
Definition timeout_default : Z := NETWORK_CONFIG.timeout_request.
Definition default_retry_attempts : Z := NETWORK_CONFIG.retry_attempts.
Definition pool_maxConcurrent : Z := NETWORK_CONFIG.concurrency_maxRequests.
End REQUEST_CONFIG.

Module CACHE_CONFIG.
Definition providerMetadata_maxSize : Z := 1000.
Definition providerMetadata_ttl : Z := TIME_MS.day.
Definition request_ttl : Z := 5 * TIME_MS.minute.
Definition promise_ttl : Z := 30 * TIME_MS.second.
Definition cleanup_interval : Z := 5 * TIME_MS.minute.
End CACHE_CONFIG.

Module LOAD_CONFIG.
Definition records_maxCount : Z := 6000.
Definition records_refreshInterval : Z := 5 * TIME_MS.minute.
Definition pingRecords_maxCount : Z := 6000.
Definition pingRecords_summaryMaxCount : Z := 150.
Definition diskPrediction_minSampleDays : Z := 2.
End LOAD_CONFIG.
