(* ===== verification/NodesStore.v ===== *)
(** * The node store of the status page ([glass/src/stores/nodes.ts])

    The store keeps the monitored nodes as immutable objects in weight order.
    Refreshes merge client metadata and statuses into it; an object is replaced
    only when a field changed, and the derived state (visible nodes, groups,
    lookup maps) is memoised, so that React components compare by reference.

    Node objects, arrays of nodes and raw states live in heaps that only grow
    ([objects], [arrays], [states]): a reference is a position, and two
    references are [===] when they are equal.  [raw] is the store made by
    [createStore] of [glass/src/stores/store.ts]; [calls] counts the times its
    listeners were called.  The records [clients] and [statuses] are maps in
    the order of [Object.entries], keyed by identifiers of nodes, which are
    never names of inherited properties.

    [GroupHelper] and [GpuHelper] are the helpers of [glass-shared/utils] that
    the merge uses. *)

From Stdlib Require Import SpecFloat.
From S2P Require Import Prelude JsMap JsString Json JsValue.

Open Scope Z_scope.

Module GroupHelper.

(** [seen] holds the same strings as [groups].  The argument is a string,
    [null] or [undefined]. *)
Definition add_group (groups : list jsstring) (item : jsstring) : list jsstring :=
  let normalized := trim item in
  if bool_decide (normalized = []) || bool_decide (normalized ∈ groups) then groups
  else groups ++ [normalized].

Definition parseNodeGroups (group : value) : list jsstring :=
  if negb (truthy group) then []
  else match group with
  | VStr s => foldl add_group [] (split_char 59 s [])
  | _ => []
  end.

Definition isNodeInGroup (group : value) (selectedGroup : jsstring) : bool :=
  if bool_decide (selectedGroup = js "all") then true
  else bool_decide (selectedGroup ∈ parseNodeGroups group).
End GroupHelper.

Module GpuHelper.

Definition asFiniteNumber (v : option json) : option num :=
  match v with Some (JNum x) => if isFinite x then Some x else None | _ => None end.

Definition average (values : list num) : option num :=
  match values with
  | [] => None
  | _ => Some (num_div (foldl num_add (num_of_Z 0) values) (num_of_Z (Z.of_nat (length values))))
  end.

Definition usagesFromDetails (details : option json) : list num :=
  match details with
  | Some (JArr l) =>
      omap (λ item, match asFiniteNumber (json_prop "utilization" item) with
                    | Some x => Some x
                    | None => asFiniteNumber (json_prop "usage" item)
                    end) l
  | _ => []
  end.

(** [a ?? b] *)
Definition nullish (a b : option json) : option json :=
  match a with None | Some JNull => b | _ => a end.

Definition gpuUsageFromUnknown (v : option json) : num :=
  match asFiniteNumber v with
  | Some direct => direct
  | None =>
      match v with
      | Some ((JObj _ | JArr _) as report) =>
          match asFiniteNumber (json_prop "average_usage" report) with
          | Some nested => nested
          | None =>
              match asFiniteNumber (json_prop "averageUsage" report) with
              | Some nested => nested
              | None =>
                  default (num_of_Z 0)
                    (average (usagesFromDetails
                       (nullish (json_prop "detailed_info" report) (json_prop "detailedInfo" report))))
              end
          end
      | _ => num_of_Z 0
      end
  end.

(** A property of a status as JSON data. *)
Definition data (v : value) : option json :=
  match v with
  | VUndefined => None
  | VNull => Some JNull
  | VBool b => Some (JBool b)
  | VNum x => Some (JNum x)
  | VStr s => Some (JStr s)
  | VObj _ c => Some c
  end.

Definition gpuUsageFromStatus (status : fields) : num :=
  match asFiniteNumber (data (prop "gpu_average_usage" status)) with
  | Some fromAverage => fromAverage
  | None =>
      let fromGpu := gpuUsageFromUnknown (data (prop "gpu" status)) in
      if negb (num_eqb fromGpu (num_of_Z 0)) then fromGpu
      else default fromGpu (average (usagesFromDetails (data (prop "gpu_detailed_info" status))))
  end.
End GpuHelper.

Module NodesStore.
Import GroupHelper GpuHelper.

Inductive WsConnectionState := disconnected | connecting | connected | reconnecting.

#[export] Instance ws_eq_dec : EqDecision WsConnectionState.
Proof. solve_decision. Defined.

Definition STATUS_FIELDS : list string :=
  ["online"; "time"; "cpu"; "ram"; "swap"; "load"; "load5"; "load15"; "temp"; "disk";
   "net_in"; "net_out"; "net_total_up"; "net_total_down"; "traffic_up"; "traffic_down";
   "process"; "connections"; "connections_udp"; "uptime"; "message"].

Definition CLIENT_FIELDS : list string :=
  ["name"; "cpu_name"; "virtualization"; "arch"; "cpu_cores"; "cpu_physical_cores"; "os";
   "kernel_version"; "gpu_name"; "ipv4"; "ipv6"; "region"; "location"; "remark"; "public_remark";
   "mem_total"; "swap_total"; "disk_total"; "version"; "weight"; "price"; "billing_cycle";
   "auto_renewal"; "currency"; "expired_at"; "tags"; "hidden"; "traffic_limit";
   "created_at"; "updated_at"; "group_zh"; "group_en"].

Definition areStringArraysEqual (left right : list jsstring) : bool := bool_decide (left = right).

(** The strings of a [groups] array. *)
Definition strings (v : value) : list jsstring :=
  match v with
  | VObj _ (JArr l) => omap (λ x, match x with JStr s => Some s | _ => None end) l
  | _ => []
  end.

Definition array_of (own : nat) (l : list jsstring) : value := VObj (Own own) (JArr (JStr <$> l)).

(** [own] names the array that [parseNodeGroups] returns. *)
Definition createNodeFromClient (own : nat) (client : fields) : fields :=
  let c k := (k, prop k client) in
  [c "uuid"; c "name"; c "cpu_name"; c "virtualization"; c "arch"; c "cpu_cores";
   c "cpu_physical_cores"; c "os"; c "kernel_version"; c "gpu_name"; c "ipv4"; c "ipv6";
   c "region"; c "location"; c "remark"; c "public_remark"; c "mem_total"; c "swap_total";
   c "disk_total"; c "version"; c "weight"; c "price"; c "billing_cycle"; c "auto_renewal";
   c "currency"; c "expired_at"; c "group"; c "group_zh"; c "group_en";
   ("groups", array_of own (parseNodeGroups (prop "group" client)));
   c "tags"; c "hidden"; c "traffic_limit"; c "traffic_limit_type"; c "created_at"; c "updated_at";
   ("online", VBool false); ("time", VStr [])]
  ++ ((λ k, (k, VNum (num_of_Z 0))) <$>
        ["cpu"; "gpu"; "ram"; "swap"; "load"; "load5"; "load15"; "temp"; "disk"; "net_in"; "net_out";
         "net_total_up"; "net_total_down"; "traffic_up"; "traffic_down"; "process"; "connections";
         "connections_udp"; "uptime"]).

(** The local function [set]: [next] is the copy made at the first change. *)
Definition set (node : fields) (key : string) (v : value) (next : option fields) : option fields :=
  if strict_eq (prop key node) v then next else Some (jm_set key v (default node next)).

Definition set_all (node : fields) (l : list (string * value)) (next : option fields) : option fields :=
  foldl (λ next kv, set node kv.1 kv.2 next) next l.

Definition status_sets (status : fields) : list (string * value) :=
  ((λ k, (k, prop k status)) <$> STATUS_FIELDS)
  ++ [("gpu", VNum (gpuUsageFromStatus status)); ("status_updated_at", prop "updated_at" status)].

(** [None] is the node itself. *)
Definition withStatus (node status : fields) : option fields := set_all node (status_sets status) None.

Definition client_sets (client : fields) : list (string * value) :=
  ((λ k, (k, prop k client)) <$> CLIENT_FIELDS) ++ [("traffic_limit_type", prop "traffic_limit_type" client)].

(** The array of the new groups is a new object, so [set] always stores it. *)
Definition withClient (own : nat) (node client : fields) : option fields :=
  let next := set_all node (client_sets client) None in
  if strict_eq (prop "group" node) (prop "group" client) then next
  else
    let next := set node "group" (prop "group" client) next in
    let nextGroups := parseNodeGroups (prop "group" client) in
    if areStringArraysEqual (strings (prop "groups" node)) nextGroups then next
    else Some (jm_set "groups" (array_of own nextGroups) (default node next)).

(** ** State *)

Record NodesRawState := mkRaw {
  nodes : nat;
  wsConnectionState : WsConnectionState;
  wsReconnectAttempts : num;
}.

Record NodesState := mkState {
  state_id : nat;
  base : NodesRawState;
  visibleNodes : nat;
  onlineCount : Z;
  totalCount : Z;
  groups : list jsstring;
  nodesByUuid : jsmap jsstring nat;
  visibleNodesByUuid : jsmap jsstring nat;
}.

Record memory := mkMemory { lastRaw : nat; lastPrivate : bool; lastState : NodesState }.

Record t := mkStore {
  objects : list fields;
  arrays : list (list nat);
  states : list NodesRawState;
  current : nat;
  memo : option memory;
  calls : nat;
}.

Definition initial : t :=
  mkStore [] [[]] [mkRaw 0 disconnected (num_of_Z 0)] 0 None 0.

Definition obj (s : t) (i : nat) : fields := default [] (objects s !! i).
Definition elems (s : t) (r : nat) : list nat := default [] (arrays s !! r).
Definition raw (s : t) : NodesRawState :=
  default (mkRaw 0 disconnected (num_of_Z 0)) (states s !! current s).
Definition list_of (s : t) : list nat := elems s (nodes (raw s)).

(** Properties of nodes as the code reads them. *)
Definition uuid (f : fields) : jsstring := match prop "uuid" f with VStr s => s | _ => [] end.
Definition weight (f : fields) : num := match prop "weight" f with VNum x => x | _ => NaN end.

Definition alloc (f : fields) (s : t) : nat * t :=
  (length (objects s),
   mkStore (objects s ++ [f]) (arrays s) (states s) (current s) (memo s) (calls s)).

Definition alloc_array (l : list nat) (s : t) : nat * t :=
  (length (arrays s),
   mkStore (objects s) (arrays s ++ [l]) (states s) (current s) (memo s) (calls s)).

(** The node, or a new object when something changed. *)
Definition replace (i : nat) (next : option fields) (s : t) : nat * t :=
  match next with Some f => alloc f s | None => (i, s) end.

(** [setState] of [createStore]; an absent key of the patch is [None]. *)
Definition setState (n : option nat) (ws : option WsConnectionState) (attempts : option num)
    (s : t) : t :=
  let r := raw s in
  let next := mkRaw (default (nodes r) n) (default (wsConnectionState r) ws)
                (default (wsReconnectAttempts r) attempts) in
  if bool_decide (nodes next = nodes r ∧ wsConnectionState next = wsConnectionState r
                  ∧ wsReconnectAttempts next = wsReconnectAttempts r)
  then s
  else mkStore (objects s) (arrays s) (states s ++ [next]) (length (states s)) (memo s) (S (calls s)).

Definition setNodes (l : list nat) (s : t) : t :=
  if bool_decide (list_of s = l) then s
  else let '(r, s) := alloc_array l s in setState (Some r) None None s.

Definition sortByWeight (s : t) (l : list nat) : list nat := sort_num (λ i, weight (obj s i)) l.

(** [record\[uuid\]]; a [null] entry is as good as none. *)
Definition entry (record : jsmap jsstring (option fields)) (u : jsstring) : option fields :=
  mjoin (jm_get u record).

Definition replace_status (statuses : jsmap jsstring (option fields)) (u : jsstring) (i : nat) (s : t)
    : nat * t :=
  match entry statuses u with
  | Some status => replace i (withStatus (obj s i) status) s
  | None => (i, s)
  end.

(** The loop over the present nodes in [initNodes] and [updateNodeClients]
    (which has no statuses): the kept nodes, their identifiers ([seen]) and
    [needSort]. *)
Fixpoint merge_existing (clients statuses : jsmap jsstring (option fields)) (l : list nat) (s : t)
    : list nat * list jsstring * bool * t :=
  match l with
  | [] => ([], [], false, s)
  | i :: l =>
      let u := uuid (obj s i) in
      match entry clients u with
      | None =>
          let '(next, seen, _, s) := merge_existing clients statuses l s in (next, seen, true, s)
      | Some client =>
          let w := prop "weight" (obj s i) in
          let '(i1, s) := replace i (withClient (length (objects s)) (obj s i) client) s in
          let moved := negb (strict_eq (prop "weight" (obj s i1)) w) in
          let '(i2, s) := replace_status statuses u i1 s in
          let '(next, seen, needSort, s) := merge_existing clients statuses l s in
          (i2 :: next, u :: seen, moved || needSort, s)
      end
  end.

(** The loop over [Object.entries(clients)]. *)
Fixpoint append_new (entries : list (jsstring * option fields)) (seen : list jsstring)
    (statuses : jsmap jsstring (option fields)) (s : t) : list nat * t :=
  match entries with
  | [] => ([], s)
  | (u, client) :: entries =>
      match client with
      | Some client =>
          if bool_decide (u ∈ seen) then append_new entries seen statuses s
          else
            let '(i, s) := alloc (createNodeFromClient (length (objects s)) client) s in
            let '(i, s) := replace_status statuses u i s in
            let '(next, s) := append_new entries seen statuses s in
            (i :: next, s)
      | None => append_new entries seen statuses s
      end
  end.

Definition initNodes (clients statuses : jsmap jsstring (option fields)) (s : t) : t :=
  let '(kept, seen, _, s) := merge_existing clients statuses (list_of s) s in
  let '(new, s) := append_new clients seen statuses s in
  setNodes (sortByWeight s (kept ++ new)) s.

Definition sortNodesByWeight (s : t) : t := setNodes (sortByWeight s (list_of s)) s.

(** [list.map] with a callback that may allocate. *)
Fixpoint map_nodes (f : nat → t → nat * t) (l : list nat) (s : t) : list nat * t :=
  match l with
  | [] => ([], s)
  | i :: l => let '(i, s) := f i s in let '(next, s) := map_nodes f l s in (i :: next, s)
  end.

Definition updateNodeStatuses (statuses : jsmap jsstring (option fields)) (s : t) : t :=
  let '(next, s) := map_nodes (λ i s, replace_status statuses (uuid (obj s i)) i s) (list_of s) s in
  setNodes next s.

Definition updateNodeClients (clients : jsmap jsstring (option fields)) (s : t) : t :=
  let '(kept, seen, needSort, s) := merge_existing clients [] (list_of s) s in
  let '(new, s) := append_new clients seen [] s in
  let next := kept ++ new in
  setNodes (if needSort || negb (bool_decide (new = [])) then sortByWeight s next else next) s.

Definition patch_node (patch : fields → option fields) (i : nat) (s : t) : nat * t :=
  let node := obj s i in
  match patch node with
  | None => (i, s)
  | Some p =>
      let merged := spread node p in
      if shallow_equal node merged then (i, s) else alloc merged s
  end.

Definition patchNodes (patch : fields → option fields) (s : t) : t :=
  let '(next, s) := map_nodes (patch_node patch) (list_of s) s in setNodes next s.

Definition updateWsState (state : WsConnectionState) (attempts : option num) (s : t) : t :=
  setState None (Some state) attempts s.

Definition clearNodes (s : t) : t :=
  let '(r, s) := alloc_array [] s in setState (Some r) None None s.

(** ** The derived state *)

Definition uuid_map (s : t) (l : list nat) : jsmap jsstring nat :=
  foldl (λ m i, jm_set (uuid (obj s i)) i m) [] l.

(** The strings of [Array.from(groupSet)]. *)
Definition group_set (s : t) (l : list nat) : list jsstring :=
  foldl (λ acc g, if bool_decide (g ∈ acc) then acc else acc ++ [g]) []
    (l ≫= λ i, strings (prop "groups" (obj s i))).

(** The new state, before identities are kept. *)
Definition build (privateAllowed : bool) (s : t) : NodesState * t :=
  let state := raw s in
  let '(visible, s) :=
    if privateAllowed then (nodes state, s)
    else alloc_array (bfilter (λ i, negb (truthy (prop "hidden" (obj s i)))) (elems s (nodes state))) s in
  let l := elems s visible in
  (mkState 0 state visible
     (Z.of_nat (length (bfilter (λ i, truthy (prop "online" (obj s i))) l)))
     (Z.of_nat (length l)) (group_set s l)
     (uuid_map s (elems s (nodes state))) (uuid_map s l), s).

(** Keep the identities of derived collections that did not change. *)
Definition keep_identities (last next : NodesState) (s : t) : NodesState :=
  let visible :=
    if bool_decide (elems s (visibleNodes last) = elems s (visibleNodes next))
    then visibleNodes last else visibleNodes next in
  mkState (state_id next) (base next) visible (onlineCount next) (totalCount next)
    (if areStringArraysEqual (groups last) (groups next) then groups last else groups next)
    (if bool_decide (nodes (base last) = nodes (base next)) then nodesByUuid last else nodesByUuid next)
    (if bool_decide (visibleNodes last = visible) then visibleNodesByUuid last
     else visibleNodesByUuid next).

Definition with_id (n : nat) (d : NodesState) : NodesState :=
  mkState n (base d) (visibleNodes d) (onlineCount d) (totalCount d) (groups d) (nodesByUuid d)
    (visibleNodesByUuid d).

Definition derive (privateAllowed : bool) (s : t) : NodesState * t :=
  let fresh := 
    let '(next, s) := build privateAllowed s in
    let next := match memo s with Some m => keep_identities (lastState m) next s | None => next end in
    let next := with_id (match memo s with Some m => S (state_id (lastState m)) | None => 0%nat end) next in
    (next, mkStore (objects s) (arrays s) (states s) (current s)
             (Some (mkMemory (current s) privateAllowed next)) (calls s)) in
  match memo s with
  | Some m =>
      if bool_decide (lastRaw m = current s) && bool_decide (lastPrivate m = privateAllowed)
      then (lastState m, s) else fresh
  | None => fresh
  end.

(** ** The abstract store

    What the store promises: for each identifier the properties of its node,
    as a function of the property name.  A merge overwrites properties. *)

Abbreviation view := (string → value).

Definition view_of (f : fields) : view := λ k, prop k f.

(** Property by property equality; of [groups] only the strings count. *)
Definition field_same (k : string) (v w : value) : Prop :=
  if decide (k = "groups") then strings v = strings w else same v w.

Definition view_same (f g : view) : Prop := ∀ k, field_same k (f k) (g k).

#[export] Instance field_same_equivalence k : Equivalence (field_same k).
Proof.
  unfold field_same. case_decide; [split; red; congruence|]. apply same_equivalence.
Qed.

#[export] Instance view_same_equivalence : Equivalence view_same.
Proof.
  split; red; unfold view_same; [done|intros f g Hfg k; by symmetry|].
  intros f g h Hfg Hgh k. etrans; [apply Hfg|apply Hgh].
Qed.

Definition overlay (l : jsmap string value) (f : view) : view :=
  λ k, match jm_get k l with Some v => v | None => f k end.

Definition spec_status (status : fields) (f : view) : view := overlay (status_sets status) f.

Definition spec_client (client : fields) (f : view) : view := λ k,
  if decide (k = "group") then prop "group" client
  else if decide (k = "groups") then
    if strict_eq (f "group") (prop "group" client) then f "groups"
    else array_of 0 (parseNodeGroups (prop "group" client))
  else overlay (client_sets client) f k.

Definition spec_create (client : fields) : view := view_of (createNodeFromClient 0 client).

Definition spec := jsstring → option view.

Definition spec_statuses (statuses : jsmap jsstring (option fields)) (u : jsstring) (f : view) : view :=
  match entry statuses u with Some status => spec_status status f | None => f end.

Definition spec_merge (clients statuses : jsmap jsstring (option fields)) (A : spec) : spec := λ u,
  (λ client, spec_statuses statuses u
     (match A u with Some f => spec_client client f | None => spec_create client end))
  <$> entry clients u.

(** ** Guarded assignment is assignment *)

Lemma set_all_spec node l next k :
  NoDup l.*1 → (∀ k, k ∈ l.*1 → prop k (default node next) = prop k node) →
  same (prop k (default node (set_all node l next))) (overlay l (view_of (default node next)) k).
Proof.
  revert next. induction l as [|[k1 v] l IH]; intros next Hnd Hcur; [reflexivity|].
  apply NoDup_cons in Hnd as [Hk1 Hnd]. cbn [fmap list_fmap fst] in Hcur.
  change (set_all node ((k1, v) :: l) next) with (set_all node l (set node k1 v next)).
  assert (∀ k, k ≠ k1 → prop k (default node (set node k1 v next)) = prop k (default node next)) as Hne.
  { intros k' Hk'. unfold set. case_match; [done|]. cbn. rewrite prop_set. by rewrite bool_decide_eq_false_2. }
  assert (same (prop k1 (default node (set node k1 v next))) v) as Hset.
  { unfold set. destruct (strict_eq (prop k1 node) v) eqn:Heq; cbn.
    - rewrite Hcur by set_solver. by apply same_strict_eq.
    - rewrite prop_set. by rewrite bool_decide_eq_true_2. }
  etrans; [apply IH; [done|]|].
  { intros k' Hk'. rewrite Hne by set_solver. apply Hcur. set_solver. }
  unfold overlay, view_of. cbn [jm_get]. case_bool_decide as Hk; subst.
  - replace (jm_get k1 l) with (@None value); [done|]. symmetry. by apply jm_get_None.
  - destruct (jm_get k l); [done|]. by rewrite Hne.
Qed.

Lemma keyed_keys (g : string → value) l : ((λ k, (k, g k)) <$> l).*1 = l.
Proof. induction l; csimpl; congruence. Qed.

Lemma status_sets_keys st : (status_sets st).*1 = STATUS_FIELDS ++ ["gpu"; "status_updated_at"].
Proof. unfold status_sets. by rewrite fmap_app, keyed_keys. Qed.

Lemma client_sets_keys c : (client_sets c).*1 = CLIENT_FIELDS ++ ["traffic_limit_type"].
Proof. unfold client_sets. by rewrite fmap_app, keyed_keys. Qed.

Lemma status_sets_NoDup st : NoDup (status_sets st).*1.
Proof. rewrite status_sets_keys. decide_closed. Qed.

Lemma client_sets_NoDup c : NoDup (client_sets c).*1.
Proof. rewrite client_sets_keys. decide_closed. Qed.

Lemma not_a_client_set c k : k ∉ CLIENT_FIELDS ++ ["traffic_limit_type"] → jm_get k (client_sets c) = None.
Proof. intros. apply jm_get_None. by rewrite client_sets_keys. Qed.

Lemma not_a_status_set st k : k ∉ STATUS_FIELDS ++ ["gpu"; "status_updated_at"] → jm_get k (status_sets st) = None.
Proof. intros. apply jm_get_None. by rewrite status_sets_keys. Qed.

Ltac not_listed := decide_closed.

Lemma same_strings v w : same v w → strings v = strings w.
Proof. destruct v, w; cbn; try done; by intros [=]; subst. Qed.

Lemma field_same_same k v w : same v w → field_same k v w.
Proof. unfold field_same. case_decide; [apply same_strings|done]. Qed.

Lemma withStatus_spec node st :
  view_same (view_of (default node (withStatus node st))) (spec_status st (view_of node)).
Proof.
  intros k. apply field_same_same, (set_all_spec node (status_sets st) None k); [|done].
  apply status_sets_NoDup.
Qed.

Lemma strings_array_of own l : strings (array_of own l) = l.
Proof. unfold strings, array_of. induction l as [|x l IH]; csimpl; [done|]. by rewrite IH. Qed.

Lemma withClient_spec own node c :
  view_same (view_of (default node (withClient own node c))) (spec_client c (view_of node)).
Proof.
  set (next := set_all node (client_sets c) None).
  assert (∀ k, same (prop k (default node next)) (overlay (client_sets c) (view_of node) k)) as Hs.
  { intros k. apply (set_all_spec node (client_sets c) None k); [apply client_sets_NoDup|done]. }
  assert (∀ k, k ∉ CLIENT_FIELDS ++ ["traffic_limit_type"] → same (prop k (default node next)) (prop k node))
    as Hkeep.
  { intros k Hk. specialize (Hs k). unfold overlay in Hs. by rewrite not_a_client_set in Hs. }
  unfold withClient. fold next. unfold spec_client, view_of at 2.
  destruct (strict_eq (prop "group" node) (prop "group" c)) eqn:Hg.
  - intros k. apply field_same_same. unfold view_of at 1. case_decide as H1; [subst|].
    { rewrite Hkeep by not_listed. by apply same_strict_eq. }
    case_decide as H2; [subst; apply Hkeep; not_listed|apply Hs].
  - set (next' := set node "group" (prop "group" c) next).
    assert (default node next' = jm_set "group" (prop "group" c) (default node next)) as Hn.
    { unfold next', set. by rewrite Hg. }
    assert (∀ k, k ≠ "groups" → same (prop k (default node next')) 
      (if decide (k = "group") then prop "group" c else overlay (client_sets c) (view_of node) k)) as Hs'.
    { intros k Hk. rewrite Hn, prop_set. case_bool_decide; case_decide; done. }
    assert (strings (prop "groups" (default node next')) = strings (prop "groups" node)) as Hgr.
    { rewrite Hn, prop_set. rewrite bool_decide_eq_false_2 by done. apply same_strings, Hkeep. not_listed. }
    intros k. unfold field_same, view_of at 1. destruct (decide (k = "groups")) as [->|Hk].
    + rewrite decide_False by done.
      unfold areStringArraysEqual. case_bool_decide as Heq.
      * by rewrite Hgr, Heq, strings_array_of.
      * cbn [default from_option id]. rewrite prop_set, bool_decide_eq_true_2 by done.
        by rewrite !strings_array_of.
    + unfold areStringArraysEqual. case_bool_decide; [by apply Hs'|]. cbn [default from_option id].
      unfold view_of at 1. rewrite prop_set, bool_decide_eq_false_2 by done. by apply Hs'.
Qed.

Lemma overlay_proper l f g : view_same f g → view_same (overlay l f) (overlay l g).
Proof. intros Hfg k. unfold overlay. destruct (jm_get k l); [reflexivity|apply Hfg]. Qed.

Lemma spec_client_proper c f g : view_same f g → view_same (spec_client c f) (spec_client c g).
Proof.
  intros Hfg k. unfold spec_client. case_decide; [reflexivity|]. case_decide as Hk.
  - subst. assert (same (f "group") (g "group")) as Hg by apply (Hfg "group").
    rewrite (strict_eq_same_l _ _ _ Hg). case_match; [apply Hfg|reflexivity].
  - by apply overlay_proper.
Qed.

Lemma spec_statuses_proper sts u f g :
  view_same f g → view_same (spec_statuses sts u f) (spec_statuses sts u g).
Proof. intros. unfold spec_statuses. destruct (entry sts u); [by apply overlay_proper|done]. Qed.

(** Which properties the merges leave alone. *)
Lemma spec_statuses_keep sts u f k :
  k ∉ STATUS_FIELDS ++ ["gpu"; "status_updated_at"] → spec_statuses sts u f k = f k.
Proof.
  intros Hk. unfold spec_statuses. case_match; [|done]. unfold spec_status, overlay.
  by rewrite not_a_status_set.
Qed.

Definition uuid_of (f : view) : jsstring := match f "uuid" with VStr s => s | _ => [] end.
Definition weight_of (f : view) : num := match f "weight" with VNum x => x | _ => NaN end.

Lemma view_same_uuid f g : view_same f g → uuid_of f = uuid_of g.
Proof.
  intros Hfg. specialize (Hfg "uuid"). unfold uuid_of, field_same in *. cbn in Hfg.
  destruct (f "uuid"), (g "uuid"); cbn in Hfg; congruence || done.
Qed.

Lemma view_same_weight f g : view_same f g → same_num (weight_of f) (weight_of g).
Proof.
  intros Hfg. specialize (Hfg "weight"). unfold weight_of, field_same in *. cbn in Hfg.
  destruct (f "weight"), (g "weight"); cbn in Hfg; try reflexivity; congruence || done.
Qed.

Lemma spec_client_uuid c f : uuid_of (spec_client c f) = uuid_of f.
Proof.
  unfold uuid_of, spec_client. rewrite !decide_False by done. unfold overlay.
  by rewrite not_a_client_set by not_listed.
Qed.

Lemma spec_client_weight c f : weight_of (spec_client c f) = weight_of (view_of c).
Proof. reflexivity. Qed.

Lemma spec_create_uuid c : uuid_of (spec_create c) = uuid_of (view_of c).
Proof. reflexivity. Qed.

Lemma spec_create_weight c : weight_of (spec_create c) = weight_of (view_of c).
Proof. reflexivity. Qed.

Lemma spec_statuses_uuid sts u f : uuid_of (spec_statuses sts u f) = uuid_of f.
Proof. unfold uuid_of. by rewrite spec_statuses_keep by not_listed. Qed.

Lemma spec_statuses_weight sts u f : weight_of (spec_statuses sts u f) = weight_of f.
Proof. unfold weight_of. by rewrite spec_statuses_keep by not_listed. Qed.

Lemma same_num_nan x y : same_num x y → is_nan x = is_nan y.
Proof. by intros [->|(s & t & -> & ->)]. Qed.

Lemma same_num_leb x y x' y' : same_num x x' → same_num y y' → num_leb x y = num_leb x' y'.
Proof.
  intros [->|(s & t & -> & ->)] [->|(s' & t' & -> & ->)]; try done.
Qed.

(** ** Growing heaps *)

(** [s'] has the arrays and states of [s] and more objects. *)
Definition grows (s s' : t) : Prop :=
  objects s `prefix_of` objects s' ∧
  s' = mkStore (objects s') (arrays s) (states s) (current s) (memo s) (calls s).

Definition valid (s : t) (l : list nat) : Prop := ∀ i, i ∈ l → (i < length (objects s))%nat.

Lemma grows_refl s : grows s s.
Proof. split; [done|by destruct s]. Qed.

Lemma grows_trans s1 s2 s3 : grows s1 s2 → grows s2 s3 → grows s1 s3.
Proof. intros [Hp ->] [Hp' ->]. split; [by etrans|done]. Qed.

Lemma grows_obj s s' i : grows s s' → (i < length (objects s))%nat → obj s' i = obj s i.
Proof.
  intros [Hp _] Hi. unfold obj. destruct (lookup_lt_is_Some_2 _ _ Hi) as [f Hf].
  rewrite Hf. by rewrite (prefix_lookup_Some _ _ _ _ Hf Hp).
Qed.

Lemma grows_valid s s' l : grows s s' → valid s l → valid s' l.
Proof. intros [Hp%prefix_length _] Hl i Hi. specialize (Hl i Hi). lia. Qed.

Lemma grows_list s s' : grows s s' → list_of s' = list_of s.
Proof. by intros [_ ->]. Qed.

Lemma obj_map_grows {X} (g : fields → X) s s' l :
  grows s s' → valid s l → (λ i, g (obj s' i)) <$> l = (λ i, g (obj s i)) <$> l.
Proof. intros Hg Hl. apply list_fmap_ext. intros k i Hi. by rewrite (grows_obj s s') by eauto using list_elem_of_lookup_2. Qed.

Lemma alloc_spec f s i s' :
  alloc f s = (i, s') → grows s s' ∧ (i < length (objects s'))%nat ∧ obj s' i = f.
Proof.
  intros [= <- <-]. split_and!.
  - split; [by apply prefix_app_r|done].
  - cbn. rewrite length_app. cbn. lia.
  - unfold obj. cbn. by rewrite list_lookup_middle.
Qed.

Lemma replace_spec i next s i' s' :
  (i < length (objects s))%nat → replace i next s = (i', s') →
  grows s s' ∧ (i' < length (objects s'))%nat ∧ obj s' i' = default (obj s i) next.
Proof.
  intros Hi. unfold replace. destruct next; [apply alloc_spec|]. intros [= <- <-].
  split; [apply grows_refl|done].
Qed.

Lemma replace_status_spec sts u i s i' s' :
  (i < length (objects s))%nat → replace_status sts u i s = (i', s') →
  grows s s' ∧ (i' < length (objects s'))%nat ∧
  view_same (view_of (obj s' i')) (spec_statuses sts u (view_of (obj s i))).
Proof.
  intros Hi. unfold replace_status, spec_statuses. destruct (entry sts u) as [st|].
  - intros (? & ? & ->)%replace_spec; [|done]. split_and!; [done..|]. apply withStatus_spec.
  - intros [= <- <-]. split_and!; [apply grows_refl|done|reflexivity].
Qed.

(** ** The merge loops *)

Definition uuids (s : t) (l : list nat) : list jsstring := (λ i, uuid (obj s i)) <$> l.

Definition has (record : jsmap jsstring (option fields)) (u : jsstring) : bool :=
  bool_decide (is_Some (entry record u)).

Section merge.
Context (clients statuses : jsmap jsstring (option fields)).

(** [i'] in [s'] is node [i] of [s] after the merge. *)
Definition merged (s s' : t) (i i' : nat) : Prop :=
  ∃ c, entry clients (uuid (obj s i)) = Some c ∧
    view_same (view_of (obj s' i'))
      (spec_statuses statuses (uuid (obj s i)) (spec_client c (view_of (obj s i)))).

Lemma merged_uuid s s' i i' : merged s s' i i' → uuid (obj s' i') = uuid (obj s i).
Proof.
  intros (c & _ & Hv%view_same_uuid). rewrite spec_statuses_uuid, spec_client_uuid in Hv. exact Hv.
Qed.

Lemma merged_grows s1 s s' s2 i i' :
  grows s1 s → grows s' s2 → (i < length (objects s1))%nat → (i' < length (objects s'))%nat →
  merged s s' i i' → merged s1 s2 i i'.
Proof.
  intros Hg Hg' Hi Hi' (c & Hc & Hv). exists c.
  rewrite (grows_obj s1 s) in * by done. rewrite (grows_obj s' s2) by done. done.
Qed.

Lemma merge_existing_spec l s next seen b s' :
  valid s l → merge_existing clients statuses l s = (next, seen, b, s') →
  grows s s' ∧ valid s' next ∧ seen = bfilter (has clients) (uuids s l) ∧
  Forall2 (merged s s') (bfilter (λ i, has clients (uuid (obj s i))) l) next ∧
  (b = false →
   bfilter (λ i, has clients (uuid (obj s i))) l = l ∧
   Forall2 (λ i i', same_num (weight (obj s i)) (weight (obj s' i'))) l next).
Proof.
  revert s next seen b s'. induction l as [|i l IH]; intros s next seen b s' Hl; cbn [merge_existing].
  { intros [= <- <- <- <-]. split_and!; [apply grows_refl|intros i Hi; by apply not_elem_of_nil in Hi|..]; done. }
  assert (i < length (objects s))%nat as Hi by (apply Hl; set_solver).
  assert (valid s l) as Hl' by (intros j Hj; apply Hl; set_solver).
  unfold uuids. csimpl. destruct (entry clients (uuid (obj s i))) as [c|] eqn:Hc.
  2:{ destruct (merge_existing clients statuses l s) as [[[next1 seen1] b1] s1] eqn:Hrec.
    intros [= <- <- <- <-]. apply IH in Hrec as (Hg & Hv & -> & Hf & _); [|done].
    replace (has clients (uuid (obj s i))) with false
      by (symmetry; apply bool_decide_eq_false_2; rewrite Hc; by intros []).
    split_and!; done. }
  assert (has clients (uuid (obj s i)) = true) as Hhas.
  { unfold has. rewrite Hc. by apply bool_decide_eq_true_2. }
  rewrite !Hhas.
  destruct (replace i _ s) as [i1 s1] eqn:H1. apply replace_spec in H1 as (Hg1 & Hi1 & Ho1); [|done].
  destruct (replace_status statuses (uuid (obj s i)) i1 s1) as [i2 s2] eqn:H2.
  apply replace_status_spec in H2 as (Hg2 & Hi2 & Hv2); [|done].
  pose proof (grows_trans _ _ _ Hg1 Hg2) as Hg12.
  destruct (merge_existing clients statuses l s2) as [[[next1 seen1] b1] s3] eqn:Hrec.
  intros [= <- <- <- <-].
  apply IH in Hrec as (Hg3 & Hv3 & -> & Hf & Hb); [|by eapply grows_valid].
  assert (bfilter (λ i, has clients (uuid (obj s2 i))) l = bfilter (λ i, has clients (uuid (obj s i))) l)
    as Hfil.
  { apply bfilter_ext. intros j Hj. by rewrite (grows_obj s s2) by auto. }
  assert (view_same (view_of (obj s3 i2)) (spec_statuses statuses (uuid (obj s i))
    (spec_client c (view_of (obj s i))))) as Hview.
  { rewrite (grows_obj s2 s3) by done. etrans; [exact Hv2|]. apply spec_statuses_proper. rewrite Ho1.
    apply withClient_spec. }
  rewrite Hfil in Hf, Hb. split_and!.
  - by eapply grows_trans.
  - intros j [->|Hj]%elem_of_cons; [|by apply Hv3].
    destruct Hg3 as [Hp%prefix_length _]. lia.
  - f_equal. unfold uuids. by rewrite (obj_map_grows uuid s s2).
  - constructor; [by exists c|]. eapply Forall2_impl_elem; [exact Hf|].
    intros j j' Hj Hj'. apply (merged_grows s s2 s3 s3); [done|apply grows_refl| |by apply Hv3].
    apply Hl'. by apply elem_of_bfilter in Hj as [_ ?].
  - intros [Hw Hb1]%orb_false_iff. destruct (Hb Hb1) as [Hall Hws]. split; [by rewrite Hall|].
    constructor.
    + apply negb_false_iff, same_strict_eq in Hw. rewrite (grows_obj s2 s3) by done.
      apply view_same_weight in Hv2. rewrite spec_statuses_weight in Hv2.
      symmetry. etrans; [exact Hv2|]. unfold weight_of, view_of, weight.
      destruct (prop "weight" (obj s1 i1)), (prop "weight" (obj s i)); cbn in Hw; try reflexivity; congruence || done.
    + eapply Forall2_impl_elem; [exact Hws|]. intros j j' Hj Hj' Hsame.
      cbv beta in Hsame |- *. by rewrite (grows_obj s s2 j) in Hsame by auto.
Qed.
End merge.

(** Which array holds the groups of a new node does not matter. *)
Lemma create_own own c : view_same (view_of (createNodeFromClient own c)) (spec_create c).
Proof.
  intros k. unfold spec_create, field_same. case_decide as Hk.
  - subst k. change (strings (array_of own (parseNodeGroups (prop "group" c)))
      = strings (array_of 0 (parseNodeGroups (prop "group" c)))). by rewrite !strings_array_of.
  - unfold view_of, prop, createNodeFromClient. cbn [app jm_get].
    repeat (case_bool_decide; [first [done|reflexivity]|]). reflexivity.
Qed.

Lemma append_new_spec statuses entries seen s next s' :
  NoDup entries.*1 → (∀ u c, (u, Some c) ∈ entries → uuid c = u) →
  append_new entries seen statuses s = (next, s') →
  grows s s' ∧ valid s' next ∧
  uuids s' next
  = (bfilter (λ kv, bool_decide (is_Some kv.2) && negb (bool_decide (kv.1 ∈ seen))) entries).*1 ∧
  (∀ i, i ∈ next → ∃ c, (uuid (obj s' i), Some c) ∈ entries ∧ (uuid (obj s' i) ∉ seen) ∧
     view_same (view_of (obj s' i)) (spec_statuses statuses (uuid (obj s' i)) (spec_create c))).
Proof.
  revert s next s'. induction entries as [|[u [c|]] entries IH]; intros s next s' Hnd Hkey;
    cbn [append_new bfilter].
  - intros [= <- <-]. split_and!; [apply grows_refl|set_solver|done|set_solver].
  - apply NoDup_cons in Hnd as [Hu Hnd].
    cbn [fst snd]. rewrite (bool_decide_eq_true_2 (is_Some _)) by (by eexists). cbn [andb].
    case_bool_decide as Hin; cbn [negb].
    { intros Hrec. apply IH in Hrec as (Hg & Hv & Hus & Hall); [|done|set_solver].
      split_and!; [done..|]. intros i Hi. destruct (Hall i Hi) as (c' & ? & ?). exists c'. set_solver. }
    destruct (alloc _ s) as [i1 s1] eqn:H1. apply alloc_spec in H1 as (Hg1 & Hi1 & Ho1).
    destruct (replace_status statuses u i1 s1) as [i2 s2] eqn:H2.
    apply replace_status_spec in H2 as (Hg2 & Hi2 & Hv2); [|done].
    destruct (append_new entries seen statuses s2) as [next1 s3] eqn:Hrec. intros [= <- <-].
    apply IH in Hrec as (Hg3 & Hv3 & Hus & Hall); [|done|set_solver].
    assert (uuid c = u) as Huc by (apply Hkey; set_solver).
    assert (view_same (view_of (obj s3 i2)) (spec_statuses statuses u (spec_create c))) as Hview.
    { rewrite (grows_obj s2 s3) by done. etrans; [exact Hv2|]. apply spec_statuses_proper. rewrite Ho1.
      apply create_own. }
    assert (uuid (obj s3 i2) = u) as Hu2.
    { apply view_same_uuid in Hview. rewrite spec_statuses_uuid, spec_create_uuid in Hview.
      etrans; [exact Hview|exact Huc]. }
    split_and!.
    + eapply grows_trans; [|done]. by eapply grows_trans.
    + intros j [->|Hj]%elem_of_cons; [|by apply Hv3]. destruct Hg3 as [Hp%prefix_length _]. lia.
    + csimpl. unfold uuids in *. csimpl. by rewrite Hu2, Hus.
    + intros i [->|Hi]%elem_of_cons.
      * exists c. rewrite Hu2. split_and!; [set_solver|done|done].
      * destruct (Hall i Hi) as (c' & ? & ?). exists c'. set_solver.
  - apply NoDup_cons in Hnd as [Hu Hnd]. cbn [fst snd].
    rewrite (bool_decide_eq_false_2 (is_Some _)) by (by intros []). cbn [andb].
    intros Hrec. apply IH in Hrec as (Hg & Hv & Hus & Hall); [|done|set_solver].
    split_and!; [done..|]. intros i Hi. destruct (Hall i Hi) as (c' & ? & ?). exists c'. set_solver.
Qed.

(** ** Refinement *)

(** The list [l] of nodes in the heap of [s] is what the abstract store [A]
    holds. *)
Record holds (s : t) (l : list nat) (A : spec) : Prop := mkHolds {
  holds_valid : valid s l;
  holds_nodup : NoDup (uuids s l);
  holds_dom : ∀ u, u ∈ uuids s l ↔ is_Some (A u);
  holds_view : ∀ i, i ∈ l → ∃ f, A (uuid (obj s i)) = Some f ∧ view_same (view_of (obj s i)) f;
  holds_ordered : Forall (ordered (λ i, weight (obj s i))) l;
}.

#[export] Instance uuids_perm s : Proper ((≡ₚ) ==> (≡ₚ)) (uuids s).
Proof. intros l l' Hp. unfold uuids. by rewrite Hp. Qed.

#[export] Instance holds_perm s : Proper ((≡ₚ) ==> (=) ==> iff) (holds s).
Proof.
  assert (∀ l l' A, l ≡ₚ l' → holds s l A → holds s l' A) as Himp.
  { intros l l' A Hp [H1 H2 H3 H4 H5]. split.
    - intros i Hi. apply H1. by rewrite Hp.
    - by rewrite <-Hp.
    - intros u. by rewrite <-Hp.
    - intros i Hi. apply H4. by rewrite Hp.
    - by rewrite <-Hp. }
  intros l l' Hp A ? <-. split; by apply Himp.
Qed.

(** The records of clients that the server sends. *)
Definition well_keyed (clients : jsmap jsstring (option fields)) : Prop :=
  jm_wf clients ∧ ∀ u c, entry clients u = Some c → uuid c = u ∧ is_nan (weight c) = false.

Lemma entry_elem record u c : jm_wf record → entry record u = Some c ↔ (u, Some c) ∈ record.
Proof.
  intros Hwf. unfold entry. rewrite jm_elem_of by done. destruct (jm_get u record) as [[]|]; cbn; naive_solver.
Qed.

Lemma merge_holds clients statuses l s A kept seen b s1 new s2 :
  well_keyed clients → holds s l A →
  merge_existing clients statuses l s = (kept, seen, b, s1) →
  append_new clients seen statuses s1 = (new, s2) →
  holds s2 (kept ++ new) (spec_merge clients statuses A).
Proof.
  intros [Hwf Hck] [H1 H2 H3 H4 H5] Hm Ha.
  apply merge_existing_spec in Hm as (Hg1 & Hv1 & -> & Hf & _); [|done].
  apply append_new_spec in Ha as (Hg2 & Hv2 & Hus & Hall); [|done|].
  2:{ intros u c Hin. apply Hck. by apply entry_elem. }
  assert (uuids s2 kept = bfilter (has clients) (uuids s l)) as Hkept.
  { unfold uuids. rewrite (obj_map_grows uuid s1 s2) by done. clear -Hf. revert kept Hf.
    induction l as [|i l IH]; csimpl; intros kept Hf; [by inversion_clear Hf|].
    destruct (has clients (uuid (obj s i))) eqn:Hh; [|by apply IH].
    apply Forall2_cons_inv_l in Hf as (i' & kept' & Hi & Hf & ->). csimpl.
    rewrite (merged_uuid _ _ _ _ _ _ Hi). f_equal. by apply IH. }
  assert (uuids s2 (kept ++ new) = bfilter (has clients) (uuids s l) ++ uuids s2 new) as Happ.
  { unfold uuids in *. by rewrite fmap_app, Hkept. }
  assert (∀ i, i ∈ kept ++ new → ∃ f, spec_merge clients statuses A (uuid (obj s2 i)) = Some f ∧
    view_same (view_of (obj s2 i)) f) as Hview.
  { intros i [Hi|Hi]%elem_of_app.
    - rewrite (grows_obj s1 s2) by auto. apply list_elem_of_lookup in Hi as [n Hn].
      destruct (Forall2_lookup_r _ _ _ _ _ Hf Hn) as (j & Hj%list_elem_of_lookup_2 & Hm).
      pose proof (merged_uuid _ _ _ _ _ _ Hm) as Hu. destruct Hm as (c & Hc & Hv).
      apply elem_of_bfilter in Hj as [_ Hj]. destruct (H4 j Hj) as (f & HA & Hf').
      unfold spec_merge. rewrite Hu, Hc, HA. eexists. split; [done|]. etrans; [exact Hv|].
      by apply spec_statuses_proper, spec_client_proper.
    - destruct (Hall i Hi) as (c & Hc & Hns & Hv). apply entry_elem in Hc; [|done].
      unfold spec_merge. rewrite Hc. cbn. eexists. split; [done|].
      replace (A (uuid (obj s2 i))) with (@None view); [done|]. symmetry.
      destruct (A (uuid (obj s2 i))) eqn:HA; [|done]. exfalso. apply Hns, elem_of_bfilter.
      split; [apply bool_decide_eq_true_2; eauto|]. apply H3. eauto. }
  assert (∀ u, u ∈ uuids s2 (kept ++ new) ↔ is_Some (entry clients u)) as Hdom.
  { intros u. rewrite Happ, elem_of_app, elem_of_bfilter, Hus, list_elem_of_fmap. unfold has.
    rewrite bool_decide_eq_true. split.
    - intros [[? _]|([u' c] & -> & [Hc Hin]%elem_of_bfilter)]; [done|]. cbn in *.
      apply andb_true_iff in Hc as [[c' ->]%bool_decide_eq_true_1 _]. exists c'. by apply entry_elem.
    - intros [c Hc]. destruct (decide (u ∈ uuids s l)); [eauto|right]. exists (u, Some c). split; [done|].
      apply elem_of_bfilter. split; [|by apply entry_elem]. cbn.
      apply negb_true_iff, bool_decide_eq_false_2.
      intros [_ ?]%elem_of_bfilter. done. }
  split.
  - intros i [Hi|Hi]%elem_of_app; [by eapply grows_valid|auto].
  - rewrite Happ. apply NoDup_app. split_and!.
    + by apply NoDup_bfilter.
    + intros u Hu Hu2. rewrite Hus in Hu2. apply list_elem_of_fmap in Hu2 as ([u' c] & -> & [Hc _]%elem_of_bfilter).
      cbn in Hc. reflect_bools. done.
    + rewrite Hus. by apply jm_wf_bfilter.
  - intros u. rewrite Hdom. unfold spec_merge. by rewrite fmap_is_Some.
  - done.
  - apply Forall_forall. intros i Hi. destruct (Hview i Hi) as (f & HA & Hv).
    unfold ordered. apply view_same_weight, same_num_nan in Hv.
    change (weight (obj s2 i)) with (weight_of (view_of (obj s2 i))). rewrite Hv.
    unfold spec_merge in HA. destruct (entry clients (uuid (obj s2 i))) as [c|] eqn:Hc; [|done].
    injection HA as <-. rewrite spec_statuses_weight.
    destruct (Hck _ _ Hc) as [_ Hw]. destruct (A _); [rewrite spec_client_weight|rewrite spec_create_weight]; exact Hw.
Qed.

(** A pointwise update of the abstract store that keeps identifiers and
    weights. *)
Record keeps (h : jsstring → view → view) : Prop := mkKeeps {
  keeps_uuid : ∀ u f, uuid_of (h u f) = uuid_of f;
  keeps_weight : ∀ u f, weight_of (h u f) = weight_of f;
  keeps_proper : ∀ u f g, view_same f g → view_same (h u f) (h u g);
}.

Lemma spec_statuses_keeps statuses : keeps (spec_statuses statuses).
Proof.
  split; [apply spec_statuses_uuid|apply spec_statuses_weight|apply spec_statuses_proper].
Qed.

Definition updated (h : jsstring → view → view) (f f' : fields) : Prop :=
  view_same (view_of f') (h (uuid f) (view_of f)).

Definition updates (h : jsstring → view → view) (f : nat → t → nat * t) : Prop :=
  ∀ i s i' s', (i < length (objects s))%nat → f i s = (i', s') →
    grows s s' ∧ (i' < length (objects s'))%nat ∧ updated h (obj s i) (obj s' i').

Lemma map_nodes_spec h f l s next s' :
  updates h f → valid s l → map_nodes f l s = (next, s') →
  grows s s' ∧ valid s' next ∧ Forall2 (λ i i', updated h (obj s i) (obj s' i')) l next.
Proof.
  intros Hf. revert s next s'. induction l as [|i l IH]; intros s next s' Hl; cbn.
  { intros [= <- <-]. split_and!; [apply grows_refl|done|done]. }
  assert (i < length (objects s))%nat as Hi by (apply Hl; set_solver).
  assert (valid s l) as Hl' by (intros j Hj; apply Hl; set_solver).
  destruct (f i s) as [i1 s1] eqn:H1. apply Hf in H1 as (Hg1 & Hi1 & Hu1); [|done].
  destruct (map_nodes f l s1) as [next1 s2] eqn:H2. intros [= <- <-].
  apply IH in H2 as (Hg2 & Hv2 & Hall); [|by eapply grows_valid]. split_and!.
  - by eapply grows_trans.
  - intros j [->|Hj]%elem_of_cons; [|by apply Hv2]. destruct Hg2 as [Hp%prefix_length _]. lia.
  - constructor; [by rewrite (grows_obj s1 s2)|].
    eapply Forall2_impl_elem; [exact Hall|]. intros j j' Hj Hj'. cbv beta.
    by rewrite (grows_obj s s1) by auto.
Qed.

Lemma updated_keys h s s' l next :
  keeps h → Forall2 (λ i i', updated h (obj s i) (obj s' i')) l next →
  uuids s' next = uuids s l ∧
  Forall2 (λ i i', same_num (weight (obj s i)) (weight (obj s' i'))) l next.
Proof.
  intros [Hu Hw _]. induction 1 as [|i i' l next Hi _ [IH1 IH2]]; [done|]. split.
  - unfold uuids in *. csimpl. rewrite IH1. f_equal. apply view_same_uuid in Hi. by rewrite Hu in Hi.
  - constructor; [|done]. apply view_same_weight in Hi. rewrite Hw in Hi. by symmetry.
Qed.

Lemma updated_holds h s s' l next A :
  keeps h → valid s' next → Forall2 (λ i i', updated h (obj s i) (obj s' i')) l next →
  holds s l A → holds s' next (λ u, h u <$> A u).
Proof.
  intros Hh Hv Hall [H1 H2 H3 H4 H5]. destruct (updated_keys _ _ _ _ _ Hh Hall) as [Hus Hws]. split.
  - done.
  - by rewrite Hus.
  - intros u. by rewrite Hus, H3, fmap_is_Some.
  - intros i' Hi'. apply list_elem_of_lookup in Hi' as [n Hn].
    destruct (Forall2_lookup_r _ _ _ _ _ Hall Hn) as (i & Hi%list_elem_of_lookup_2 & Hup).
    destruct (H4 i Hi) as (f & HA & Hf). pose proof (view_same_uuid _ _ Hup) as Hu.
    rewrite (keeps_uuid h Hh) in Hu. change (uuid (obj s' i') = uuid (obj s i)) in Hu.
    rewrite Hu, HA. eexists. split; [done|]. etrans; [exact Hup|]. by apply keeps_proper.
  - apply Forall_forall. intros i' Hi'. apply list_elem_of_lookup in Hi' as [n Hn].
    destruct (Forall2_lookup_r _ _ _ _ _ Hws Hn) as (i & Hi%list_elem_of_lookup_2 & Hw%same_num_nan).
    unfold ordered. rewrite <-Hw. rewrite Forall_forall in H5. by apply H5.
Qed.

Lemma sorted_same_weights s s' l next :
  Forall2 (λ i i', same_num (weight (obj s i)) (weight (obj s' i'))) l next →
  StronglySorted (num_le (λ i, weight (obj s i))) l →
  StronglySorted (num_le (λ i, weight (obj s' i))) next.
Proof.
  induction 1 as [|i i' l next Hi Hall IH]; intros Hs; [constructor|].
  apply StronglySorted_inv in Hs as [Hs Hf]. constructor; [by apply IH|].
  apply Forall_forall. intros j' Hj'. apply list_elem_of_lookup in Hj' as [n Hn].
  destruct (Forall2_lookup_r _ _ _ _ _ Hall Hn) as (j & Hj%list_elem_of_lookup_2 & Hw).
  unfold num_le. rewrite <-(same_num_leb _ _ _ _ Hi Hw).
  rewrite Forall_forall in Hf. by apply Hf.
Qed.

(** ** Patches *)

(** The patches of the application depend on the identifier only and do not
    change it, nor the weight. *)
Definition proper_patch (patch : fields → option fields) (g : jsstring → option fields) : Prop :=
  (∀ f, patch f = g (uuid f)) ∧
  ∀ u p, g u = Some p → jm_wf p ∧ jm_get "uuid" p = None ∧ jm_get "weight" p = None.

Definition spec_patch (g : jsstring → option fields) (u : jsstring) (f : view) : view :=
  match g u with Some p => overlay p f | None => f end.

Lemma spec_patch_keeps patch g : proper_patch patch g → keeps (spec_patch g).
Proof.
  intros [_ Hg]. split; unfold spec_patch.
  - intros u f. destruct (g u) as [p|] eqn:Hp; [|done]. destruct (Hg _ _ Hp) as (_ & Hu & _).
    unfold uuid_of, overlay. by rewrite Hu.
  - intros u f. destruct (g u) as [p|] eqn:Hp; [|done]. destruct (Hg _ _ Hp) as (_ & _ & Hu).
    unfold weight_of, overlay. by rewrite Hu.
  - intros u f f' Hf. destruct (g u); [by apply overlay_proper|done].
Qed.

Lemma prop_spread k o p : jm_wf p → prop k (spread o p) = overlay p (view_of o) k.
Proof.
  unfold spread. revert o. induction p as [|[k1 v] p IH]; intros o Hp; [done|].
  apply NoDup_cons in Hp as [Hk1 Hp]. cbn [foldl fst snd]. rewrite IH by done. unfold overlay.
  cbn [jm_get]. unfold view_of. rewrite prop_set. case_bool_decide; subst; [|done].
  replace (jm_get k1 p) with (@None value); [done|]. symmetry. by apply jm_get_None.
Qed.

Lemma spread_keys o p : ∃ extra, (spread o p).*1 = o.*1 ++ extra.
Proof.
  unfold spread. revert o. induction p as [|[k v] p IH]; intros o; cbn [foldl fst snd].
  - exists []. by rewrite app_nil_r.
  - destruct (IH (jm_set k v o)) as [extra ->]. rewrite jm_keys_set.
    case_match; [by eexists|]. rewrite <-(assoc_L (++)). by eexists.
Qed.

(** A patch that [shallowEqual] sees no effect of has none. *)
Lemma shallow_equal_spread o p :
  shallow_equal o (spread o p) = true → view_same (view_of o) (view_of (spread o p)).
Proof.
  unfold shallow_equal. intros [Hlen Hall]%andb_true_iff. apply bool_decide_eq_true in Hlen.
  rewrite every_true in Hall. intros k. apply field_same_same. unfold view_of.
  destruct (jm_get k o) as [v|] eqn:Hk.
  - apply same_object_is, (Hall (k, v)), jm_get_elem_of, Hk.
  - destruct (spread_keys o p) as [extra Hx]. assert (extra = []) as ->.
    { apply (f_equal length) in Hx. rewrite length_app, !length_fmap in Hx. destruct extra; [done|].
      cbn in Hx. lia. }
    rewrite app_nil_r in Hx. assert (jm_get k (spread o p) = None) as Hn.
    { apply jm_get_None. rewrite Hx. by apply jm_get_None. }
    unfold prop. by rewrite Hk, Hn.
Qed.

Lemma patch_updates patch g : proper_patch patch g → updates (spec_patch g) (patch_node patch).
Proof.
  intros [Hpatch Hg] i s i' s' Hi. unfold patch_node, updated, spec_patch. rewrite Hpatch.
  destruct (g (uuid (obj s i))) as [p|] eqn:Hp.
  2:{ intros [= <- <-]. split_and!; [apply grows_refl|done|reflexivity]. }
  destruct (Hg _ _ Hp) as (Hwf & _). assert (view_same (view_of (spread (obj s i) p))
    (overlay p (view_of (obj s i)))) as Hv.
  { intros k. unfold view_of at 1. by rewrite prop_spread. }
  destruct (shallow_equal _ _) eqn:Heq.
  - intros [= <- <-]. split_and!; [apply grows_refl|done|]. etrans; [|exact Hv].
    by apply shallow_equal_spread.
  - intros (? & ? & ->)%alloc_spec. done.
Qed.

(** ** Runs of the store *)

Inductive op :=
  | InitNodes (clients statuses : jsmap jsstring (option fields))
  | SortNodes
  | UpdateStatuses (statuses : jsmap jsstring (option fields))
  | UpdateClients (clients : jsmap jsstring (option fields))
  | PatchNodes (patch : fields → option fields)
  | UpdateWs (state : WsConnectionState) (attempts : option num)
  | ClearNodes
  | GetState (privateAllowed : bool).

Definition step (x : op) (s : t) : t :=
  match x with
  | InitNodes clients statuses => initNodes clients statuses s
  | SortNodes => sortNodesByWeight s
  | UpdateStatuses statuses => updateNodeStatuses statuses s
  | UpdateClients clients => updateNodeClients clients s
  | PatchNodes patch => patchNodes patch s
  | UpdateWs state attempts => updateWsState state attempts s
  | ClearNodes => clearNodes s
  | GetState privateAllowed => (derive privateAllowed s).2
  end.

(** References point into the heaps. *)
Record heap_ok (s : t) : Prop := mkHeapOk {
  ok_current : (current s < length (states s))%nat;
  ok_states : ∀ r, r ∈ states s → (nodes r < length (arrays s))%nat;
  ok_arrays : ∀ l, l ∈ arrays s → valid s l;
}.

Lemma initial_heap_ok : heap_ok initial.
Proof.
  split; cbn; [lia|intros r ->%list_elem_of_singleton; cbn; lia|].
  intros l ->%list_elem_of_singleton i Hi. by apply not_elem_of_nil in Hi.
Qed.

Lemma raw_elem s : heap_ok s → raw s ∈ states s.
Proof.
  intros [Hc _ _]. unfold raw. destruct (lookup_lt_is_Some_2 _ _ Hc) as [r Hr]. rewrite Hr.
  by eapply list_elem_of_lookup_2.
Qed.

Lemma elems_valid s r : heap_ok s → valid s (elems s r).
Proof.
  intros [_ _ Ha]. unfold elems. destruct (arrays s !! r) as [l|] eqn:Hl; cbn.
  - apply Ha. by eapply list_elem_of_lookup_2.
  - intros i Hi. by apply not_elem_of_nil in Hi.
Qed.

(** What every operation but [getState] does to the heaps. *)
Record later (s s' : t) : Prop := mkLater {
  later_objects : objects s `prefix_of` objects s';
  later_arrays : arrays s `prefix_of` arrays s';
  later_states : states s `prefix_of` states s';
  later_memo : memo s' = memo s;
}.

Lemma later_refl s : later s s.
Proof. done. Qed.

Lemma later_trans s1 s2 s3 : later s1 s2 → later s2 s3 → later s1 s3.
Proof. intros [? ? ? ?] [? ? ? ?]. split; by etrans. Qed.

Lemma grows_later s s' : grows s s' → later s s'.
Proof. intros [? ->]. done. Qed.

Lemma grows_heap_ok s s' : grows s s' → heap_ok s → heap_ok s'.
Proof.
  intros Hg [H1 H2 H3].
  assert (states s' = states s ∧ arrays s' = arrays s ∧ current s' = current s) as (E1 & E2 & E3)
    by (destruct Hg as [_ ->]; done).
  split; rewrite ?E1, ?E2, ?E3; [done..|]. intros l Hl. eapply grows_valid; [done|]. by apply H3.
Qed.

Lemma setState_nodes_spec r s :
  heap_ok s → (r < length (arrays s))%nat →
  let s' := setState (Some r) None None s in
  heap_ok s' ∧ nodes (raw s') = r ∧ objects s' = objects s ∧ arrays s' = arrays s ∧ later s s'.
Proof.
  intros Hok Hr s'. unfold s', setState. cbn [default from_option].
  case_bool_decide as Heq; [destruct Heq as [<- _]; done|]. pose proof (raw_elem s Hok) as Hraw.
  destruct Hok as [H1 H2 H3]. split_and!; try done.
  - split; cbn; [rewrite length_app; cbn; lia| |done].
    intros r' [?|Heq'%list_elem_of_singleton]%elem_of_app; [by apply H2|by subst r'].
  - unfold raw. cbn. by rewrite list_lookup_middle.
  - split; cbn; try done. by apply prefix_app_r.
Qed.

Lemma alloc_array_ok l s r s' :
  heap_ok s → valid s l → alloc_array l s = (r, s') →
  heap_ok s' ∧ (r < length (arrays s'))%nat ∧ elems s' r = l ∧ objects s' = objects s ∧ later s s'
  ∧ raw s' = raw s.
Proof.
  intros [H1 H2 H3] Hl [= <- <-]. split_and!; try done.
  - split; cbn; [done| |].
    + intros r Hr. rewrite length_app. specialize (H2 r Hr). cbn. lia.
    + intros l' [?|Heq%list_elem_of_singleton]%elem_of_app; [by apply H3|by subst l'].
  - cbn. rewrite length_app. cbn. lia.
  - unfold elems. cbn. by rewrite list_lookup_middle.
  - split; cbn; try done. by apply prefix_app_r.
Qed.

Lemma set_array_spec l s :
  heap_ok s → valid s l →
  let s' := (let '(r, s) := alloc_array l s in setState (Some r) None None s) in
  heap_ok s' ∧ list_of s' = l ∧ objects s' = objects s ∧ later s s'.
Proof.
  intros Hok Hl. destruct (alloc_array l s) as [r s1] eqn:Ha.
  apply alloc_array_ok in Ha as (Hok1 & Hr & He & Ho & Hlt & _); [|done..].
  destruct (setState_nodes_spec r s1 Hok1 Hr) as (Hok2 & Hn & Ho2 & Ha2 & Hlt2). split_and!.
  - done.
  - unfold list_of. rewrite Hn. unfold elems. by rewrite Ha2.
  - by rewrite Ho2.
  - by eapply later_trans.
Qed.

Lemma setNodes_spec l s :
  heap_ok s → valid s l →
  let s' := setNodes l s in
  heap_ok s' ∧ list_of s' = l ∧ objects s' = objects s ∧ later s s'.
Proof.
  intros Hok Hl s'. unfold s', setNodes. case_bool_decide; [done|]. by apply set_array_spec.
Qed.

Lemma obj_objects s s' i : objects s' = objects s → obj s' i = obj s i.
Proof. unfold obj. by intros ->. Qed.

Lemma sort_valid s s' l : valid s' l → valid s' (sortByWeight s l).
Proof. intros Hl i Hi. apply Hl. unfold sortByWeight in Hi. by rewrite sort_num_perm in Hi. Qed.

(** ** The refinement relation *)

Record refines (s : t) (A : spec) : Prop := mkRefines {
  ref_heap : heap_ok s;
  ref_holds : holds s (list_of s) A;
  ref_sorted : StronglySorted (num_le (λ i, weight (obj s i))) (list_of s);
}.

Lemma holds_objects s s' l A : objects s' = objects s → holds s l A → holds s' l A.
Proof.
  intros Ho. assert (∀ i, obj s' i = obj s i) as Hobj by (intros; by apply obj_objects).
  intros [H1 H2 H3 H4 H5]. unfold uuids, valid in *. split; unfold uuids, valid.
  - by rewrite Ho.
  - by setoid_rewrite Hobj.
  - by setoid_rewrite Hobj.
  - by setoid_rewrite Hobj.
  - eapply Forall_impl; [done|]. intros i. unfold ordered. by rewrite Hobj.
Qed.

(** Storing a list that is in order and holds what it should. *)
Lemma setNodes_refines l s A :
  heap_ok s → holds s l A → StronglySorted (num_le (λ i, weight (obj s i))) l →
  refines (setNodes l s) A.
Proof.
  intros Hok Hh Hs. destruct (setNodes_spec l s Hok (holds_valid _ _ _ Hh)) as (Hok' & Hl & Ho & _).
  split; [done| |].
  - rewrite Hl. by eapply holds_objects.
  - rewrite Hl. eapply sorted_same_weights; [|exact Hs]. apply Forall_Forall2_diag, Forall_true.
    intros i. by rewrite (obj_objects s (setNodes l s) i Ho).
Qed.

Lemma sort_refines l s A : heap_ok s → holds s l A → refines (setNodes (sortByWeight s l) s) A.
Proof.
  intros Hok Hh. apply setNodes_refines; [done| |].
  - unfold sortByWeight. by rewrite sort_num_perm.
  - apply sort_num_sorted. apply Hh.
Qed.

(** ** The derived state is what a fresh derivation computes *)

Definition visible (s : t) (privateAllowed : bool) (l : list nat) : list nat :=
  if privateAllowed then l else bfilter (λ i, negb (truthy (prop "hidden" (obj s i)))) l.

Record derived (s : t) (privateAllowed : bool) (d : NodesState) : Prop := mkDerived {
  der_nodes : (nodes (base d) < length (arrays s))%nat;
  der_bound : (visibleNodes d < length (arrays s))%nat;
  der_visible : elems s (visibleNodes d) = visible s privateAllowed (elems s (nodes (base d)));
  der_online : onlineCount d = Z.of_nat (length (bfilter (λ i, truthy (prop "online" (obj s i)))
                 (visible s privateAllowed (elems s (nodes (base d))))));
  der_total : totalCount d = Z.of_nat (length (visible s privateAllowed (elems s (nodes (base d)))));
  der_groups : groups d = group_set s (visible s privateAllowed (elems s (nodes (base d))));
  der_by_uuid : nodesByUuid d = uuid_map s (elems s (nodes (base d)));
  der_visible_by_uuid :
    visibleNodesByUuid d = uuid_map s (visible s privateAllowed (elems s (nodes (base d))));
}.

Definition memo_ok (s : t) : Prop :=
  ∀ m, memo s = Some m →
    states s !! lastRaw m = Some (base (lastState m)) ∧ derived s (lastPrivate m) (lastState m).

(** Derivations look at the nodes of the list only. *)
Lemma group_set_ext s s' l :
  (∀ i, i ∈ l → obj s' i = obj s i) → group_set s' l = group_set s l.
Proof.
  intros Hobj. unfold group_set. f_equal.
  induction l as [|i l IH]; csimpl; [done|]. rewrite Hobj by set_solver. rewrite IH by set_solver. done.
Qed.

Lemma uuid_map_ext s s' l :
  (∀ i, i ∈ l → obj s' i = obj s i) → uuid_map s' l = uuid_map s l.
Proof.
  intros Hobj. unfold uuid_map. generalize (@nil (jsstring * nat)) as m. revert Hobj.
  induction l as [|i l IH]; intros Hobj m; cbn; [done|].
  rewrite Hobj by set_solver. apply IH. set_solver.
Qed.

Lemma visible_sub s p l i : i ∈ visible s p l → i ∈ l.
Proof. unfold visible. destruct p; [done|]. by intros [_ ?]%elem_of_bfilter. Qed.

Lemma later_obj s s' i : later s s' → (i < length (objects s))%nat → obj s' i = obj s i.
Proof.
  intros [Hp _ _ _] Hi. unfold obj. destruct (lookup_lt_is_Some_2 _ _ Hi) as [f Hf].
  rewrite Hf. by rewrite (prefix_lookup_Some _ _ _ _ Hf Hp).
Qed.

Lemma later_elems s s' r : later s s' → (r < length (arrays s))%nat → elems s' r = elems s r.
Proof.
  intros [_ Hp _ _] Hi. unfold elems. destruct (lookup_lt_is_Some_2 _ _ Hi) as [f Hf].
  rewrite Hf. by rewrite (prefix_lookup_Some _ _ _ _ Hf Hp).
Qed.

Lemma later_derived s s' p d : later s s' → heap_ok s → derived s p d → derived s' p d.
Proof.
  intros Hl Hok [H1 H2 H3 H4 H5 H6 H7 H8].
  assert (∀ i, i ∈ elems s (nodes (base d)) → obj s' i = obj s i) as Hobj.
  { intros i Hi. apply later_obj; [done|]. by apply (elems_valid s (nodes (base d))). }
  assert (visible s' p (elems s (nodes (base d))) = visible s p (elems s (nodes (base d)))) as Hvis.
  { unfold visible. destruct p; [done|]. apply bfilter_ext. intros i Hi. by rewrite Hobj. }
  assert (∀ i, i ∈ visible s p (elems s (nodes (base d))) → obj s' i = obj s i) as Hobj'.
  { intros i Hi. eapply Hobj, visible_sub, Hi. }
  pose proof (prefix_length _ _ (later_arrays _ _ Hl)).
  split; rewrite ?(later_elems s s') by done; rewrite ?Hvis; [lia|lia|done| |done|..].
  - rewrite H4. do 2 f_equal. apply bfilter_ext. intros i Hi. by rewrite Hobj'.
  - rewrite H6. symmetry. by apply group_set_ext.
  - rewrite H7. symmetry. by apply uuid_map_ext.
  - rewrite H8. symmetry. by apply uuid_map_ext.
Qed.

Lemma later_memo_ok s s' : later s s' → heap_ok s → memo_ok s → memo_ok s'.
Proof.
  intros Hl Hok Hm m Hmemo. rewrite (later_memo _ _ Hl) in Hmemo. destruct (Hm m Hmemo) as [Hs Hd].
  split; [|by eapply later_derived]. eapply prefix_lookup_Some; [done|apply Hl].
Qed.

Lemma build_spec p s d s' :
  heap_ok s → build p s = (d, s') →
  heap_ok s' ∧ objects s' = objects s ∧ later s s' ∧ current s' = current s ∧ states s' = states s ∧
  base d = raw s ∧ derived s' p d.
Proof.
  intros Hok. unfold build. destruct p.
  - intros [= <- <-]. split_and!; try done.
    assert (nodes (raw s) < length (arrays s))%nat by by apply ok_states, raw_elem. by split.
  - destruct (alloc_array _ s) as [r s1] eqn:Ha. intros [= <- <-].
    assert (arrays s1 = arrays s ++ [bfilter (λ i, negb (truthy (prop "hidden" (obj s i))))
      (elems s (nodes (raw s)))] ∧ current s1 = current s ∧ states s1 = states s) as (Har & Hc & Hst).
    { by injection Ha as _ <-. }
    apply alloc_array_ok in Ha as (Hok1 & Hr & He & Ho & Hl & _); [|done|].
    2:{ intros i [_ Hi]%elem_of_bfilter. by eapply elems_valid. }
    assert (nodes (raw s) < length (arrays s))%nat as Hn by by apply ok_states, raw_elem.
    assert (bfilter (λ i, negb (truthy (prop "hidden" (obj s1 i)))) (elems s (nodes (raw s)))
      = bfilter (λ i, negb (truthy (prop "hidden" (obj s i)))) (elems s (nodes (raw s)))) as Hf.
    { apply bfilter_ext. intros i _. by rewrite (obj_objects s s1). }
    split_and!; try done.
    split; cbn [base visibleNodes onlineCount totalCount groups nodesByUuid visibleNodesByUuid];
      unfold visible; rewrite ?(later_elems s s1 (nodes (raw s)) Hl Hn), ?Hf, ?He; try done.
    rewrite Har, length_app. lia.
Qed.

(** Keeping the identity of an equal collection changes no content. *)
Lemma keep_identities_derived s p p' last next :
  derived s p' last → derived s p next → derived s p (keep_identities last next s).
Proof.
  intros [L1 L2 L3 L4 L5 L6 L7 L8] [H1 H2 H3 H4 H5 H6 H7 H8].
  unfold keep_identities. set (keep := bool_decide (elems s _ = _)).
  assert (elems s (if keep then visibleNodes last else visibleNodes next) = elems s (visibleNodes next))
    as Hvis by (unfold keep; by case_bool_decide).
  split; cbn [base visibleNodes onlineCount totalCount groups nodesByUuid visibleNodesByUuid].
  - done.
  - by destruct keep.
  - by rewrite Hvis.
  - done.
  - done.
  - unfold areStringArraysEqual. case_bool_decide; congruence.
  - case_bool_decide as Hn; [|done]. by rewrite L7, Hn.
  - case_bool_decide as Hv; [|done]. rewrite L8, <-L3, Hv, Hvis. by rewrite H3.
Qed.

Lemma with_id_derived s p n d : derived s p d → derived s p (with_id n d).
Proof. intros [? ? ? ? ? ? ? ?]. by split. Qed.

Lemma derive_spec p s d s' :
  heap_ok s → memo_ok s → derive p s = (d, s') →
  heap_ok s' ∧ memo_ok s' ∧ objects s' = objects s ∧ list_of s' = list_of s ∧ raw s' = raw s ∧
  base d = raw s ∧ derived s' p d ∧ derive p s' = (d, s').
Proof.
  intros Hok Hmemo. unfold derive at 1.
  destruct (match memo s with Some m => bool_decide (lastRaw m = current s) && bool_decide (lastPrivate m = p)
    | None => false end) eqn:Hhit.
  { destruct (memo s) as [m|] eqn:Hm; [|done]. pose proof Hhit as Hhit'. rewrite Hhit. intros [= <- <-].
    apply andb_true_iff in Hhit' as [Hc%bool_decide_eq_true Hp%bool_decide_eq_true].
    destruct (Hmemo m Hm) as [Hs Hd]. split_and!; try done.
    - unfold raw. by rewrite <-Hc, Hs.
    - by rewrite <-Hp.
    - unfold derive. by rewrite Hm, Hhit. }
  destruct (build p s) as [d0 s0] eqn:Hb.
  apply build_spec in Hb as (Hok0 & Ho & Hl & Hcur & Hst & Hbase & Hd0); [|done].
  pose proof (later_memo_ok _ _ Hl Hok Hmemo) as Hmemo0. rewrite <-(later_memo _ _ Hl) in *.
  set (d1 := with_id _ (match memo s0 with Some m => keep_identities (lastState m) d0 s0 | None => d0 end)).
  intros Heq. assert (derived s0 p d1) as Hd1.
  { apply with_id_derived. destruct (memo s0) as [m|] eqn:Hm; [|done].
    destruct (Hmemo0 m Hm) as [_ Hlast]. by eapply keep_identities_derived. }
  assert (base d1 = raw s) as Hbase1.
  { rewrite <-Hbase. unfold d1. by destruct (memo s0). }
  assert ((d1, mkStore (objects s0) (arrays s0) (states s0) (current s0)
    (Some (mkMemory (current s0) p d1)) (calls s0)) = (d, s')) as Hpair.
  { rewrite <-Heq. destruct (memo s0) as [m|]; [by rewrite Hhit|done]. }
  clear Heq. injection Hpair as <- <-. split_and!.
  - destruct Hok0 as [? ? ?]. by split.
  - intros m [= <-]. cbn [lastRaw lastState lastPrivate states]. split; [|by destruct Hd1; split].
    rewrite Hcur, Hst, Hbase1. unfold raw. by destruct (lookup_lt_is_Some_2 _ _ (ok_current s Hok)) as [r ->].
  - done.
  - unfold list_of, raw. cbn. rewrite Hcur, Hst. fold (raw s). apply (later_elems s s0); [done|].
    by apply ok_states, raw_elem.
  - unfold raw. cbn. by rewrite Hcur, Hst.
  - done.
  - by destruct Hd1; split.
  - unfold derive. cbn [memo lastRaw lastPrivate current]. by rewrite !bool_decide_eq_true_2 by done.
Qed.

(** ** Every operation keeps the heaps and the memory sound *)

Lemma append_new_grows statuses entries seen s next s' :
  append_new entries seen statuses s = (next, s') → grows s s' ∧ valid s' next.
Proof.
  revert s next s'. induction entries as [|[u [c|]] entries IH]; intros s next s'; cbn [append_new].
  - intros [= <- <-]. split; [apply grows_refl|]. intros i Hi. by apply not_elem_of_nil in Hi.
  - case_bool_decide; [apply IH|]. destruct (alloc _ s) as [i1 s1] eqn:H1.
    apply alloc_spec in H1 as (Hg1 & Hi1 & _).
    destruct (replace_status statuses u i1 s1) as [i2 s2] eqn:H2.
    apply replace_status_spec in H2 as (Hg2 & Hi2 & _); [|done].
    destruct (append_new entries seen statuses s2) as [next1 s3] eqn:H3. intros [= <- <-].
    apply IH in H3 as [Hg3 Hv]. split; [eapply grows_trans; [|done]; by eapply grows_trans|].
    intros j [->|Hj]%elem_of_cons; [|by apply Hv]. destruct Hg3 as [Hp%prefix_length _]. lia.
  - apply IH.
Qed.

Lemma map_nodes_grows f l s next s' :
  (∀ i s i' s', (i < length (objects s))%nat → f i s = (i', s') →
     grows s s' ∧ (i' < length (objects s'))%nat) →
  valid s l → map_nodes f l s = (next, s') → grows s s' ∧ valid s' next.
Proof.
  intros Hf. revert s next s'. induction l as [|i l IH]; intros s next s' Hl; cbn.
  { intros [= <- <-]. split; [apply grows_refl|done]. }
  destruct (f i s) as [i1 s1] eqn:H1. apply Hf in H1 as [Hg1 Hi1]; [|apply Hl; set_solver].
  destruct (map_nodes f l s1) as [next1 s2] eqn:H2. intros [= <- <-].
  apply IH in H2 as [Hg2 Hv]; [|eapply grows_valid; [done|]; intros j Hj; apply Hl; set_solver].
  split; [by eapply grows_trans|]. intros j [->|Hj]%elem_of_cons; [|by apply Hv].
  destruct Hg2 as [Hp%prefix_length _]. lia.
Qed.

Lemma patch_node_grows patch i s i' s' :
  (i < length (objects s))%nat → patch_node patch i s = (i', s') →
  grows s s' ∧ (i' < length (objects s'))%nat.
Proof.
  intros Hi. unfold patch_node. destruct (patch (obj s i)) as [p|]; [|by intros [= <- <-]; split; [apply grows_refl|]].
  case_match; [by intros [= <- <-]; split; [apply grows_refl|]|]. by intros (? & ? & _)%alloc_spec.
Qed.

Lemma list_valid s : heap_ok s → valid s (list_of s).
Proof. apply elems_valid. Qed.

(** A list made from objects allocated meanwhile is stored. *)
Lemma grow_setNodes_later s s1 l :
  heap_ok s → grows s s1 → valid s1 l → heap_ok (setNodes l s1) ∧ later s (setNodes l s1).
Proof.
  intros Hok Hg Hl. destruct (setNodes_spec l s1) as (Hok' & _ & _ & Hlt); [by eapply grows_heap_ok|done|].
  split; [done|]. eapply later_trans; [by apply grows_later|done].
Qed.

Lemma step_later x s :
  (∀ p, x ≠ GetState p) → heap_ok s → heap_ok (step x s) ∧ later s (step x s).
Proof.
  intros Hx Hok. pose proof (list_valid s Hok) as Hv.
  destruct x as [clients statuses| |statuses|clients|patch|ws att| |p]; cbn [step].
  - unfold initNodes. destruct (merge_existing _ _ _ _) as [[[kept seen] b] s1] eqn:H1.
    apply merge_existing_spec in H1 as (Hg1 & Hv1 & _); [|done].
    destruct (append_new _ _ _ _) as [new s2] eqn:H2. apply append_new_grows in H2 as [Hg2 Hv2].
    apply grow_setNodes_later; [done|by eapply grows_trans|]. apply sort_valid.
    intros i [?|?]%elem_of_app; [by eapply grows_valid|auto].
  - by apply (grow_setNodes_later s s); [|apply grows_refl|apply sort_valid].
  - unfold updateNodeStatuses. destruct (map_nodes _ _ _) as [next s1] eqn:H1.
    apply map_nodes_grows in H1 as [Hg1 Hv1]; [by apply grow_setNodes_later| |done].
    intros i s0 i' s0' Hi Hr. by apply replace_status_spec in Hr as (? & ? & _).
  - unfold updateNodeClients. destruct (merge_existing _ _ _ _) as [[[kept seen] b] s1] eqn:H1.
    apply merge_existing_spec in H1 as (Hg1 & Hv1 & _); [|done].
    destruct (append_new _ _ _ _) as [new s2] eqn:H2. apply append_new_grows in H2 as [Hg2 Hv2].
    assert (valid s2 (kept ++ new)) by (intros i [?|?]%elem_of_app; [by eapply grows_valid|auto]).
    apply grow_setNodes_later; [done|by eapply grows_trans|]. case_match; [by apply sort_valid|done].
  - unfold patchNodes. destruct (map_nodes _ _ _) as [next s1] eqn:H1.
    apply map_nodes_grows in H1 as [Hg1 Hv1]; [by apply grow_setNodes_later| |done].
    intros. by eapply patch_node_grows.
  - unfold updateWsState, setState. case_bool_decide; [done|]. pose proof (raw_elem s Hok) as Hraw.
    destruct Hok as [H1 H2 H3]. split.
    + split; cbn; [rewrite length_app; cbn; lia| |done].
      intros r [?|Heq%list_elem_of_singleton]%elem_of_app; [by apply H2|subst r; by apply (H2 (raw s))].
    + split; cbn; try done. by apply prefix_app_r.
  - destruct (set_array_spec [] s Hok) as (? & _ & _ & ?); [|done]. intros i Hi. by apply not_elem_of_nil in Hi.
  - by specialize (Hx p).
Qed.

Lemma step_sound x s : heap_ok s ∧ memo_ok s → heap_ok (step x s) ∧ memo_ok (step x s).
Proof.
  intros [Hok Hm]. assert ((∀ p, x ≠ GetState p) → heap_ok (step x s) ∧ memo_ok (step x s)) as Hother.
  { intros Hx. destruct (step_later x s Hx Hok). split; [done|by eapply later_memo_ok]. }
  destruct x as [| | | | | | |p]; try by apply Hother.
  cbn [step]. destruct (derive p s) as [d s'] eqn:Hd. by apply derive_spec in Hd as (? & ? & _).
Qed.

Lemma runs_sound es : heap_ok (runs step es initial) ∧ memo_ok (runs step es initial).
Proof. apply runs_invariant; [apply step_sound|]. split; [apply initial_heap_ok|done]. Qed.

(** ** Every operation refines its abstract counterpart *)

Definition spec_step (x : op) (A : spec) : spec :=
  match x with
  | InitNodes clients statuses => spec_merge clients statuses A
  | UpdateClients clients => spec_merge clients [] A
  | UpdateStatuses statuses => λ u, spec_statuses statuses u <$> A u
  | PatchNodes patch => λ u, spec_patch (λ u, patch [("uuid", VStr u)]) u <$> A u
  | ClearNodes => λ _, None
  | SortNodes | UpdateWs _ _ | GetState _ => A
  end.

Definition proper_op (x : op) : Prop :=
  match x with
  | InitNodes clients _ | UpdateClients clients => well_keyed clients
  | PatchNodes patch => proper_patch patch (λ u, patch [("uuid", VStr u)])
  | _ => True
  end.

Lemma update_refines h f s A next s1 :
  keeps h → updates h f → refines s A → map_nodes f (list_of s) s = (next, s1) →
  refines (setNodes next s1) (λ u, h u <$> A u).
Proof.
  intros Hk Hu [Hok Hh Hs] Hm. apply (map_nodes_spec h) in Hm as (Hg & Hv & Hall); [|done|by apply list_valid].
  apply setNodes_refines; [by eapply grows_heap_ok|by eapply updated_holds|].
  eapply sorted_same_weights; [|exact Hs]. by eapply updated_keys.
Qed.

Lemma merge_refines clients statuses s A :
  well_keyed clients → refines s A → refines (initNodes clients statuses s) (spec_merge clients statuses A).
Proof.
  intros Hk [Hok Hh Hs]. unfold initNodes.
  destruct (merge_existing _ _ _ _) as [[[kept seen] b] s1] eqn:H1.
  destruct (append_new _ _ _ _) as [new s2] eqn:H2.
  pose proof (merge_holds _ _ _ _ _ _ _ _ _ _ _ Hk Hh H1 H2) as Hm.
  apply merge_existing_spec in H1 as (Hg1 & _); [|by apply list_valid].
  apply append_new_grows in H2 as [Hg2 _]. apply sort_refines; [|done].
  by eapply grows_heap_ok, grows_heap_ok.
Qed.

Lemma clients_refines clients s A :
  well_keyed clients → refines s A → refines (updateNodeClients clients s) (spec_merge clients [] A).
Proof.
  intros Hk [Hok Hh Hs]. unfold updateNodeClients.
  destruct (merge_existing _ _ _ _) as [[[kept seen] b] s1] eqn:H1.
  destruct (append_new _ _ _ _) as [new s2] eqn:H2.
  pose proof (merge_holds _ _ _ _ _ _ _ _ _ _ _ Hk Hh H1 H2) as Hm.
  apply merge_existing_spec in H1 as (Hg1 & Hv1 & _ & _ & Hb); [|by apply list_valid].
  apply append_new_grows in H2 as [Hg2 _].
  assert (heap_ok s2) by (by eapply grows_heap_ok, grows_heap_ok).
  destruct (b || negb (bool_decide (new = []))) eqn:Hsort; [by apply sort_refines|].
  apply orb_false_iff in Hsort as [-> Hnew]. apply negb_false_iff, bool_decide_eq_true in Hnew as ->.
  destruct (Hb eq_refl) as [_ Hw]. apply setNodes_refines; [done|done|]. rewrite app_nil_r.
  eapply sorted_same_weights; [|exact Hs]. eapply Forall2_impl_elem; [exact Hw|].
  intros i i' _ Hi'. cbv beta. by rewrite (grows_obj s1 s2) by auto.
Qed.

Lemma refines_objects s s' A :
  heap_ok s' → objects s' = objects s → list_of s' = list_of s → refines s A → refines s' A.
Proof.
  intros Hok Ho Hl [_ Hh Hs]. split; [done|rewrite Hl; by eapply holds_objects|]. rewrite Hl.
  eapply sorted_same_weights; [|exact Hs]. apply Forall_Forall2_diag, Forall_true.
  intros i. by rewrite (obj_objects s s' i Ho).
Qed.

Lemma setState_ws ws att s :
  objects (setState None ws att s) = objects s ∧ list_of (setState None ws att s) = list_of s.
Proof.
  unfold setState. case_bool_decide; [done|]. split; [done|]. unfold list_of, elems. cbn [arrays].
  unfold raw at 1. cbn [states current]. by rewrite list_lookup_middle.
Qed.

Lemma step_refines x s A :
  proper_op x → memo_ok s → refines s A → refines (step x s) (spec_step x A).
Proof.
  intros Hx Hm Hr. destruct x as [clients statuses| |statuses|clients|patch|ws att| |p]; cbn [step spec_step].
  - by apply merge_refines.
  - apply sort_refines; apply Hr.
  - unfold updateNodeStatuses. destruct (map_nodes _ _ _) as [next s1] eqn:H1.
    eapply update_refines; [apply spec_statuses_keeps| |done|done].
    intros i s0 i' s0' Hi. by apply replace_status_spec.
  - by apply clients_refines.
  - unfold patchNodes. destruct (map_nodes _ _ _) as [next s1] eqn:H1.
    eapply update_refines; [by eapply spec_patch_keeps|by apply patch_updates|done|done].
  - destruct (step_later (UpdateWs ws att) s) as [Hok _]; [done|apply Hr|].
    destruct (setState_ws (Some ws) att s). by apply (refines_objects s).
  - destruct (set_array_spec [] s) as (Hok & Hl & Ho & _);
      [apply Hr|intros i Hi; by apply not_elem_of_nil in Hi|].
    split; [done|..]; unfold clearNodes; rewrite Hl; [|constructor].
    split; [by intros i ?%not_elem_of_nil|constructor| |by intros i ?%not_elem_of_nil|constructor].
    intros u. cbn. split; [by intros ?%not_elem_of_nil|by intros []].
  - destruct (derive p s) as [d s'] eqn:Hd. apply derive_spec in Hd as (? & _ & ? & ? & _); [|apply Hr|done].
    by apply (refines_objects s).
Qed.

Lemma initial_refines : refines initial (λ _, None).
Proof.
  split; [apply initial_heap_ok| |constructor]. change (list_of initial) with (@nil nat).
  split; [by intros i ?%not_elem_of_nil|constructor| |by intros i ?%not_elem_of_nil|constructor].
  intros u. split; [by intros ?%not_elem_of_nil|by intros []].
Qed.

Lemma runs_refines es :
  Forall proper_op es → refines (runs step es initial) (runs spec_step es (λ _, None)).
Proof.
  intros Hes. induction es as [|x es IH] using rev_ind; [apply initial_refines|].
  apply Forall_app in Hes as [Hes [Hx _]%Forall_cons]. rewrite !runs_snoc.
  apply step_refines; [exact Hx|apply runs_sound|by apply IH].
Qed.

(** ** Properties *)

(** Plain assignments, with no comparison of old and new values: a client
    overwrites its fields and the group text, a status its fields, a patch what
    it names. *)
Definition assign_client (client : fields) (f : view) : view := λ k,
  if decide (k = "group") then prop "group" client
  else match jm_get k (client_sets client) with Some v => v | None => f k end.

Definition assign_step (x : op) (B : spec) : spec :=
  let assign l f := λ k, match jm_get k l with Some v => v | None => f k end in
  let statused statuses u f :=
    match entry statuses u with Some status => assign (status_sets status) f | None => f end in
  let merged clients statuses := λ u,
    (λ client, statused statuses u
       (match B u with Some f => assign_client client f | None => view_of (createNodeFromClient 0 client) end))
    <$> entry clients u in
  match x with
  | InitNodes clients statuses => merged clients statuses
  | UpdateClients clients => merged clients []
  | UpdateStatuses statuses => λ u, statused statuses u <$> B u
  | PatchNodes patch => λ u,
      (λ f, match patch [("uuid", VStr u)] with Some p => assign p f | None => f end) <$> B u
  | ClearNodes => λ _, None
  | SortNodes | UpdateWs _ _ | GetState _ => B
  end.

(** The abstract store and the assignments agree on all but the groups. *)
Definition agree (A B : spec) : Prop :=
  ∀ u, option_Forall2 (λ f g, ∀ k, k ≠ "groups" → f k = g k) (A u) (B u).

Lemma overlay_agree l (f g : view) :
  (∀ k, k ≠ "groups" → f k = g k) → ∀ k, k ≠ "groups" → overlay l f k = overlay l g k.
Proof. intros Hfg k Hk. unfold overlay. destruct (jm_get k l); [done|by apply Hfg]. Qed.

Lemma statuses_agree statuses u (f g : view) :
  (∀ k, k ≠ "groups" → f k = g k) →
  ∀ k, k ≠ "groups" → spec_statuses statuses u f k = spec_statuses statuses u g k.
Proof. intros Hfg. unfold spec_statuses. destruct (entry statuses u); [by apply overlay_agree|done]. Qed.

Lemma merge_agree clients statuses A B :
  agree A B →
  agree (spec_merge clients statuses A) (λ u, (λ client, spec_statuses statuses u
    (match B u with Some f => assign_client client f | None => spec_create client end)) <$> entry clients u).
Proof.
  intros HAB u. unfold spec_merge. destruct (entry clients u) as [c|]; constructor. apply statuses_agree.
  intros k Hk. destruct (HAB u) as [f g Hfg|]; [|done]. unfold spec_client, assign_client.
  case_decide; [done|]. rewrite decide_False by done. unfold overlay. destruct (jm_get k (client_sets c)); [done|].
  by apply Hfg.
Qed.

Lemma step_agree x A B : agree A B → agree (spec_step x A) (assign_step x B).
Proof.
  intros HAB. destruct x as [clients statuses| |statuses|clients|patch|? ?| |?]; try done.
  - by apply merge_agree.
  - intros u. cbn. destruct (HAB u) as [f g Hfg|]; constructor. by apply statuses_agree.
  - by apply merge_agree.
  - intros u. cbn. destruct (HAB u) as [f g Hfg|]; constructor. unfold spec_patch.
    destruct (patch [("uuid", VStr u)]) as [p|]; [by apply overlay_agree|done].
  - intros u. constructor.
Qed.

Lemma runs_agree es : agree (runs spec_step es (λ _, None)) (runs assign_step es (λ _, None)).
Proof.
  induction es as [|x es IH] using rev_ind; [intros u; constructor|]. rewrite !runs_snoc. by apply step_agree.
Qed.

(** Patches that leave the groups to the clients. *)
Definition keeps_groups (x : op) : Prop :=
  match x with
  | PatchNodes patch => ∀ f p, patch f = Some p → jm_get "group" p = None ∧ jm_get "groups" p = None
  | _ => True
  end.

Definition grouped (A : spec) : Prop :=
  ∀ u f, A u = Some f → strings (f "groups") = parseNodeGroups (f "group").

Lemma parse_same v w : same v w → parseNodeGroups v = parseNodeGroups w.
Proof.
  destruct v, w; cbn [same]; try congruence. intros _. unfold parseNodeGroups. by repeat case_match.
Qed.

Lemma statuses_group statuses u f :
  spec_statuses statuses u f "groups" = f "groups" ∧ spec_statuses statuses u f "group" = f "group".
Proof. split; apply spec_statuses_keep; not_listed. Qed.

Lemma step_grouped x A : keeps_groups x → grouped A → grouped (spec_step x A).
Proof.
  intros Hx HA.
  assert (∀ clients statuses, grouped (spec_merge clients statuses A)) as Hmerge.
  { intros clients statuses u f. unfold spec_merge. intros (c & _ & ->)%fmap_Some.
    destruct (statuses_group statuses u
      (match A u with Some f => spec_client c f | None => spec_create c end)) as [-> ->].
    destruct (A u) as [g|] eqn:Hg; [|apply strings_array_of].
    unfold spec_client. rewrite decide_False, !decide_True by done.
    destruct (strict_eq (g "group") (prop "group" c)) eqn:He; [|apply strings_array_of].
    rewrite (HA u g Hg). by apply parse_same, same_strict_eq. }
  destruct x as [clients statuses| |statuses|clients|patch|? ?| |?]; try done; [apply Hmerge| |apply Hmerge|].
  - intros u f (g & Hg & ->)%fmap_Some. destruct (statuses_group statuses u g) as [-> ->]. by apply (HA u).
  - intros u f (g & Hg & ->)%fmap_Some. unfold spec_patch, overlay.
    destruct (patch [("uuid", VStr u)]) as [p|] eqn:Hp; [|by apply (HA u)].
    destruct (Hx _ _ Hp) as [-> ->]. by apply (HA u).
Qed.

Lemma runs_grouped es : Forall keeps_groups es → grouped (runs spec_step es (λ _, None)).
Proof.
  induction es as [|x es IH] using rev_ind; intros Hes; [by intros u f|].
  apply Forall_app in Hes as [Hes [Hx _]%Forall_cons]. rewrite runs_snoc. apply step_grouped; [done|by apply IH].
Qed.

(** C6: the store is a keyed collection in weight order.  For every sequence
    of refreshes, status updates, patches, sorts, clearings and reads, where
    clients are keyed by their identifiers and their weights are numbers (not
    NaN), and what a patch sets depends on the identifier of the node only
    and does not include identifier or weight: the list has one node per
    identifier of the abstract store, sorted by weight, and every property of a
    node other than [groups] is the one that plain assignments would have given
    it (up to the sign of zero), so that skipping unchanged fields, unchanged
    objects, unchanged lists and unneeded sorts is not visible in them.  The
    list [groups], which a client update parses anew only if the group text
    changed, is what the group text of the node parses to, as long as no
    patch sets [group] or [groups]. *)
Theorem store_refines_assignments (es : list op) :
  Forall proper_op es →
  let s := runs step es initial in
  let B := runs assign_step es (λ _, None) in
  NoDup (uuids s (list_of s)) ∧
  (∀ u, u ∈ uuids s (list_of s) ↔ is_Some (B u)) ∧
  (∀ i, i ∈ list_of s → ∃ f, B (uuid (obj s i)) = Some f ∧
     ∀ k, k ≠ "groups" → same (prop k (obj s i)) (f k)) ∧
  StronglySorted (num_le (λ i, weight (obj s i))) (list_of s) ∧
  (Forall keeps_groups es → ∀ i, i ∈ list_of s →
     strings (prop "groups" (obj s i)) = parseNodeGroups (prop "group" (obj s i))).
Proof.
  intros Hes s B. destruct (runs_refines es Hes) as [_ [_ H1 H2 H3 _] H4]. fold s in H1, H2, H3, H4.
  pose proof (runs_agree es) as Hag. fold B in Hag. split_and!; [done| | |done|].
  - intros u. rewrite H2. by destruct (Hag u).
  - intros i Hi. destruct (H3 i Hi) as (f & Hf & Hv). pose proof (Hag (uuid (obj s i))) as Hu. rewrite Hf in Hu.
    inversion Hu as [? g Hfg|]; subst. exists g. split; [done|]. intros k Hk. rewrite <-Hfg by done.
    specialize (Hv k). unfold field_same in Hv. by rewrite decide_False in Hv.
  - intros Hk i Hi. destruct (H3 i Hi) as (f & Hf & Hv). pose proof (runs_grouped es Hk _ _ Hf) as Hgr.
    pose proof (Hv "groups") as Hgs. pose proof (Hv "group") as Hg. unfold field_same in Hgs, Hg.
    rewrite decide_True in Hgs by done. rewrite decide_False in Hg by done.
    unfold view_of in *. rewrite Hgs, Hgr. symmetry. by apply parse_same.
Qed.

(** The memoised derivation is exact and stable: after any sequence of
    operations, [getState] returns the current raw state with the visible
    nodes, counts, groups and lookup maps that a derivation from scratch
    computes, and reading again without a change returns the same object. *)
Theorem derived_state_exact (es : list op) (privateAllowed : bool) :
  let s := runs step es initial in
  let '(d, s') := derive privateAllowed s in
  base d = raw s ∧
  elems s' (visibleNodes d) = visible s privateAllowed (list_of s) ∧
  onlineCount d = Z.of_nat (length (bfilter (λ i, truthy (prop "online" (obj s i)))
                    (visible s privateAllowed (list_of s)))) ∧
  totalCount d = Z.of_nat (length (visible s privateAllowed (list_of s))) ∧
  groups d = group_set s (visible s privateAllowed (list_of s)) ∧
  nodesByUuid d = uuid_map s (list_of s) ∧
  visibleNodesByUuid d = uuid_map s (visible s privateAllowed (list_of s)) ∧
  derive privateAllowed s' = (d, s').
Proof.
  intros s. destruct (derive privateAllowed s) as [d s'] eqn:Hd.
  apply derive_spec in Hd as (Hok & _ & Ho & Hl & Hr & Hb & [_ _ H1 H2 H3 H4 H5 H6] & Hagain);
    [|apply runs_sound|apply runs_sound].
  assert (∀ i, obj s' i = obj s i) as Hobj by (intros; by apply obj_objects).
  assert (∀ l, visible s' privateAllowed l = visible s privateAllowed l) as Hv.
  { intros l. unfold visible. destruct privateAllowed; [done|]. apply bfilter_ext. intros i _. by rewrite Hobj. }
  assert (elems s' (nodes (base d)) = list_of s) as He.
  { by rewrite Hb, <-Hr, <-Hl. }
  rewrite He, Hv in *. split_and!; [done|done| |done|..|done].
  - rewrite H2. do 2 f_equal. apply bfilter_ext. intros i _. by rewrite Hobj.
  - rewrite H4. by apply group_set_ext.
  - rewrite H5. by apply uuid_map_ext.
  - rewrite H6. by apply uuid_map_ext.
Qed.

(** ** Witnesses *)

Lemma well_keyed_check clients :
  jm_wf clients →
  every (λ kv, match kv.2 with
               | Some c => bool_decide (uuid c = kv.1) && negb (is_nan (weight c))
               | None => true
               end) clients = true →
  well_keyed clients.
Proof.
  intros Hwf Hall. split; [done|]. intros u c Hc. apply entry_elem in Hc; [|done].
  rewrite every_true in Hall. specialize (Hall _ Hc). cbn in Hall. by reflect_bools.
Qed.

Definition example_client (u w group : string) : fields :=
  [("uuid", VStr (js u)); ("name", VStr (js u)); ("weight", VNum (num_of_Z (if bool_decide (w = "light") then 1 else 2)));
   ("group", VStr (js group)); ("hidden", VBool false)].

Definition example_clients : jsmap jsstring (option fields) :=
  [(js "7", Some (example_client "7" "heavy" "eu; asia;eu")); (js "8", Some (example_client "8" "light" "eu"))].

Definition example_statuses : jsmap jsstring (option fields) :=
  [(js "8", Some [("online", VBool true); ("cpu", VNum (num_of_Z 3))])].

(** The patch of the application: a new [groups] array for every node. *)
Definition example_patch (f : fields) : option fields :=
  Some [("groups", VObj (Env 1) (JArr [JStr (js "eu")]))].

Definition example_ops : list op :=
  [InitNodes example_clients []; GetState false; UpdateStatuses example_statuses; GetState false;
   PatchNodes example_patch; UpdateClients [(js "8", Some (example_client "8" "light" "asia"))]].

Lemma store_refines_assignments_witness :
  let s := runs step example_ops initial in
  Forall proper_op example_ops ∧ uuids s (list_of s) = [js "8"] ∧ NoDup (uuids s (list_of s)).
Proof.
  assert (Forall proper_op example_ops) as Hes.
  { apply Forall_cons; split; [by apply well_keyed_check; [decide_closed|]|].
    do 3 (apply Forall_cons; split; [done|]).
    apply Forall_cons; split; [by split; [|intros u p [= <-]; split; [decide_closed|]]|].
    apply Forall_cons; split; [by apply well_keyed_check; [decide_closed|]|constructor]. }
  split_and!; [exact Hes|vm_compute; reflexivity|].
  apply (store_refines_assignments example_ops Hes).
Defined.

(** The application's patch allocates its [groups] array anew at every
    refresh, so every node object is replaced although no field changed. *)
Lemma patch_replaces_unchanged_nodes :
  let s := runs step [UpdateClients example_clients; PatchNodes example_patch] initial in
  let again f := (λ p : fields, [("groups", VObj (Env 2) (JArr [JStr (js "eu")]))]) <$> example_patch f in
  let s' := step (PatchNodes again) s in
  list_of s = [2; 3]%nat ∧ list_of s' = [4; 5]%nat ∧
  (strings ∘ prop "groups" ∘ obj s' <$> list_of s') = (strings ∘ prop "groups" ∘ obj s <$> list_of s).
Proof. vm_compute. done. Qed.
End NodesStore.
