(* ===== verification/LoadRecords.v ===== *)
(** * Load history

    [glass-shared/services/history.service.ts] (module [History]: request keys,
    normalisation and grouping of records) and
    [glass-shared/composables/loadRecords.ts] (module [LoadRecords]: the shared
    entry behind the load charts, with its refresh timer, its subscribers, the
    load of all nodes and the loads of single nodes).

    An entry is a record; promises are named by their position in the lists
    [fulls] and [node_loads].  The continuation of the full load after its
    [await] runs in one piece; the [then]/[catch] and the [finally] of a node
    load are two events.  Requests are the environment's: a request settles
    with an outcome that is an argument of the event. *)

From Stdlib Require Import SpecFloat.
From S2P Require Import Prelude JsMap JsString Json JsValue JsNumber Constants NodesStore.

Open Scope Z_scope.

Module History.
Import GpuHelper.

(** ** Request keys *)

(** [Math.floor] *)
Definition math_floor (x : num) : num :=
  match x with
  | S754_finite s m e =>
      if bool_decide (0 ≤ e) then x
      else num_of_Z ((if s then Zneg m else Zpos m) / 2 ^ (- e))
  | _ => x
  end.

Definition normalizeHours (hours : num) : num := math_max (num_of_Z 1) (math_floor hours).

(** The argument is [None] for [undefined] and for [null]. *)
Definition normalizeMaxCount (maxCount : option num) : option num :=
  match maxCount with
  | Some x => if negb (isFinite x) || num_leb x (num_of_Z 0) then None else Some (math_floor x)
  | None => None
  end.

Definition cachePart (v : option jsstring) : jsstring := default (js "all") v.

Definition getLoadRecordsRequestKey (uuid : option jsstring) (hours : num) (maxCount : option num)
    : jsstring :=
  js "history:load:" ++ cachePart uuid ++ js ":" ++ number_string (normalizeHours hours) ++ js ":"
  ++ cachePart (number_string <$> normalizeMaxCount maxCount).

Definition getNodeLoadRecordsRequestKey (uuid : jsstring) (hours : num) (maxCount : option num) : jsstring :=
  js "history:node-load:" ++ uuid ++ js ":" ++ number_string (normalizeHours hours) ++ js ":"
  ++ cachePart (number_string <$> normalizeMaxCount maxCount).

Definition getPingRecordsRequestKey (hours : num) (maxCount : option num) (uuid : option jsstring)
    : jsstring :=
  js "history:ping:" ++ cachePart uuid ++ js ":" ++ number_string (normalizeHours hours) ++ js ":"
  ++ cachePart (number_string <$> normalizeMaxCount maxCount).

(** The keys under which the loaders register their requests: they normalise
    their arguments first. *)
Definition loadLoadRecords_key (uuid : option jsstring) (hours : num) (maxCount : option num) : jsstring :=
  getLoadRecordsRequestKey uuid (normalizeHours hours) (normalizeMaxCount maxCount).
Definition loadNodeLoadRecords_key (uuid : jsstring) (hours : num) (maxCount : option num) : jsstring :=
  getNodeLoadRecordsRequestKey uuid (normalizeHours hours) (normalizeMaxCount maxCount).
Definition loadPingRecords_key (hours : num) (maxCount : option num) (uuid : option jsstring) : jsstring :=
  getPingRecordsRequestKey (normalizeHours hours) (normalizeMaxCount maxCount) uuid.

(** The keys that the abort functions pass to the request manager. *)
Definition abortLoadRecords (uuid : option jsstring) (hours : num) (maxCount : option num) : jsstring :=
  getLoadRecordsRequestKey uuid hours maxCount.
Definition abortNodeLoadRecords (uuid : jsstring) (hours : num) (maxCount : option num) : jsstring :=
  getNodeLoadRecordsRequestKey uuid hours maxCount.
Definition abortPingRecords (hours : num) (maxCount : option num) (uuid : option jsstring) : jsstring :=
  getPingRecordsRequestKey hours maxCount uuid.

(** ** Errors *)

Inductive history_error := RpcError (code : Z) | ApiError (code : Z) | OtherError.

Definition shouldRetryHistoryRequest (error : history_error) : bool :=
  match error with
  | RpcError code | ApiError code => negb (bool_decide (code = 401)) && negb (bool_decide (code = 403))
  | OtherError => true
  end.

(** ** Records *)

(** [numberOrZero]: what is not a finite number becomes NaN. *)
Definition numberOrZero (v : value) : value :=
  match v with VNum x => if isFinite x then v else VNum NaN | _ => VNum NaN end.

Definition or_else (v w : value) : value := match v with VUndefined | VNull => w | _ => v end.

Definition normalizeStatusRecord (record : fields) : option fields :=
  let get k := prop k record in
  let n k := (k, numberOrZero (get k)) in
  if negb (truthy (get "client")) || negb (truthy (get "time")) then None
  else Some ([("client", get "client"); ("time", get "time"); n "cpu";
              ("gpu", VNum (gpuUsageFromStatus record));
              ("gpu_average_usage", VNum (gpuUsageFromStatus record));
              ("gpu_detailed_info", get "gpu_detailed_info");
              n "ram"; n "ram_total"; n "swap"; n "swap_total"; n "load";
              ("load5", numberOrZero (or_else (get "load5") (get "load")));
              ("load15", numberOrZero (or_else (or_else (get "load15") (get "load5")) (get "load")));
              n "temp"; n "disk"; n "disk_total"; n "net_in"; n "net_out"; n "net_total_up";
              n "net_total_down"; n "traffic_up"; n "traffic_down"; n "process"; n "connections";
              n "connections_udp"])%string.

Section records.
(** [new Date(value).getTime()] *)
Context (getTime : value → num).

Definition time_key (r : fields) : num := getTime (prop "time" r).

Definition normalizeStatusRecords (records : list fields) : list fields :=
  sort_num time_key (omap normalizeStatusRecord records).

(** The payload: one list, or a list per client. *)
Inductive StatusRecordsPayload :=
  | PayloadList (records : list fields)
  | PayloadMap (records : jsmap jsstring (list fields)).

Definition normalizeStatusRecordsPayload (records : option StatusRecordsPayload) : list fields :=
  match records with
  | None => []
  | Some (PayloadList l) => normalizeStatusRecords l
  | Some (PayloadMap m) => jm_values m ≫= normalizeStatusRecords
  end.
End records.

Definition client_of (r : fields) : jsstring := match prop "client" r with VStr s => s | _ => [] end.

Definition buildRecordsByClient (records : list fields) : jsmap jsstring (list fields) :=
  foldl (λ grouped record,
    let clientRecords := default [] (jm_get (client_of record) grouped) in
    jm_set (client_of record) (clientRecords ++ [record]) grouped) [] records.

(** *** Grouping *)

Definition of_client (c : jsstring) (r : fields) : bool := bool_decide (client_of r = c).

Lemma buildRecordsByClient_get records c :
  jm_get c (buildRecordsByClient records)
  = match bfilter (of_client c) records with [] => None | l => Some l end.
Proof.
  unfold buildRecordsByClient. induction records as [|r records IH] using rev_ind; [done|].
  rewrite foldl_snoc, bfilter_app, jm_get_set. set (g := foldl _ _ _) in *. cbn [bfilter].
  unfold of_client at 2. case_bool_decide as Hc.
  - subst c. rewrite bool_decide_eq_true_2 by done. rewrite IH.
    destruct (bfilter _ records); [done|]. done.
  - rewrite bool_decide_eq_false_2 by congruence. by rewrite (right_id_L [] (++)), IH.
Qed.

Lemma normalized_time getTime r r' :
  normalizeStatusRecord r = Some r' → time_key getTime r' = time_key getTime r ∧ client_of r' = client_of r.
Proof.
  unfold normalizeStatusRecord. cbn zeta. case_match; [done|]. intros [= <-]. done.
Qed.

Lemma StronglySorted_bfilter {A} (R : relation A) f l : StronglySorted R l → StronglySorted R (bfilter f l).
Proof. apply StronglySorted_sublist, bfilter_sublist. Qed.

(** The series of a client is exactly its records: after normalisation and
    grouping, the chart of a client gets the records of the payload that have
    its identifier and a time, normalised, each once and in order of time, and
    a client without such records has no series. *)
Theorem history_grouped (getTime : value → num) (records : list fields) (c : jsstring) :
  Forall (λ r, is_nan (time_key getTime r) = false) records →
  let series := default [] (jm_get c (buildRecordsByClient (normalizeStatusRecords getTime records))) in
  series ≡ₚ omap normalizeStatusRecord (bfilter (of_client c) records) ∧
  StronglySorted (num_le (time_key getTime)) series ∧
  (jm_get c (buildRecordsByClient (normalizeStatusRecords getTime records)) = None ↔ series = []).
Proof.
  intros Hv. set (l := normalizeStatusRecords getTime records).
  assert (default [] (jm_get c (buildRecordsByClient l)) = bfilter (of_client c) l) as Hser.
  { rewrite buildRecordsByClient_get. by destruct (bfilter _ l). }
  cbn zeta. rewrite Hser. split_and!.
  - unfold l, normalizeStatusRecords. rewrite sort_num_perm. clear -getTime. induction records as [|r records IH]; [done|].
    cbn [omap list_omap bfilter]. destruct (normalizeStatusRecord r) as [r'|] eqn:Hr.
    + destruct (normalized_time getTime r r' Hr) as [_ Hc]. cbn [bfilter].
      assert (of_client c r' = of_client c r) as -> by (unfold of_client; by rewrite Hc).
      destruct (of_client c r); [|done]. rewrite IH. cbn [omap list_omap]. by rewrite Hr.
    + destruct (of_client c r); [|done]. cbn [omap list_omap]. by rewrite Hr.
  - apply StronglySorted_bfilter, sort_num_sorted, Forall_forall.
    intros r' (r & Hr & Hn)%list_elem_of_omap. rewrite Forall_forall in Hv.
    destruct (normalized_time getTime r r' Hn) as [Ht _]. unfold ordered. rewrite Ht. by apply Hv.
  - rewrite buildRecordsByClient_get. by destruct (bfilter _ l).
Qed.

Definition sample_records : list fields :=
  [[("client", VStr (js "a")); ("time", VNum (num_of_Z 2))];
   [("client", VStr (js "b")); ("time", VNum (num_of_Z 3))];
   [("client", VStr (js "a")); ("time", VNum (num_of_Z 1))]]%string.

Definition sample_time (v : value) : num := match v with VNum x => x | _ => NaN end.

Example history_grouped_witness :
  default [] (jm_get (js "a") (buildRecordsByClient (normalizeStatusRecords sample_time sample_records)))
  ≡ₚ omap normalizeStatusRecord (bfilter (of_client (js "a")) sample_records).
Proof.
  apply (history_grouped sample_time sample_records (js "a")). repeat constructor.
Defined.

(** *** Keys *)

(** Whole numbers of at most 53 bits are their own floor. *)
Lemma iter_xO_value d p : Zpos (Pos.iter xO p d) = Zpos p * 2 ^ Zpos d.
Proof.
  induction d as [|d IH] using Pos.peano_ind; [cbn; lia|].
  rewrite Pos.iter_succ, Pos2Z.inj_xO, IH, Pos2Z.inj_succ, Z.pow_succ_r by lia. lia.
Qed.

Lemma math_floor_int p : Zpos p < 2 ^ 53 → math_floor (num_of_Z (Zpos p)) = num_of_Z (Zpos p).
Proof.
  intros Hp. rewrite num_of_Z_pos by done. cbn [math_floor]. case_bool_decide as He; [done|].
  rewrite <-num_of_Z_pos by done. f_equal. unfold int_mantissa.
  destruct (prec - Zpos (digits2_pos p)) as [|d|d] eqn:Hd; [lia| |lia].
  replace (- (Zpos (digits2_pos p) - prec)) with (Zpos d) by lia.
  rewrite iter_xO_value. apply Z.div_mul. lia.
Qed.

(** A negative integer is a number with a sign. *)
Lemma num_of_Z_neg_sign p :
  match num_of_Z (Zneg p) with
  | S754_zero s | S754_infinity s | S754_finite s _ _ => s = true
  | S754_nan => True
  end.
Proof.
  unfold num_of_Z, binary_normalize, binary_round. destruct (shl_align _ _ _) as [m e].
  unfold binary_round_aux. destruct (shr_fexp _ _ _ _ _) as [r1 e1].
  destruct (shr_fexp _ _ _ _ _) as [r2 e2]. destruct (shr_m r2); [done|by destruct (_ <=? _)|done].
Qed.

Lemma num_of_Z_nonpos z : z ≤ 0 → num_ltb (num_of_Z 1) (num_of_Z z) = false.
Proof.
  intros Hz. destruct z as [|p|p]; [done|lia|]. pose proof (num_of_Z_neg_sign p) as Hs.
  by destruct (num_of_Z (Zneg p)) as [[]|[]| |[] m e].
Qed.

(** The significand of a binary64 number. *)
Definition is_binary64 (x : num) : bool :=
  match x with S754_finite _ m _ => bool_decide (Zpos m < 2 ^ 53) | _ => true end.

Lemma math_floor_idemp x :
  is_binary64 x = true → num_ltb (num_of_Z 1) (math_floor x) = true →
  math_floor (math_floor x) = math_floor x.
Proof.
  intros Hb Hlt. destruct x as [| | |s m e]; try done. cbn in Hb. reflect_bools. cbn [math_floor] in *.
  case_bool_decide as He; [by cbn; rewrite bool_decide_eq_true_2|].
  set (q := _ / _) in *. destruct q as [|p|p] eqn:Hq; [done| |].
  - apply math_floor_int. assert (0 < 2 ^ (- e)) by (apply Z.pow_pos_nonneg; lia). destruct s.
    + assert (q < 0); [|lia]. apply Z.div_lt_upper_bound; lia.
    + assert (q ≤ Zpos m); [|lia]. apply Z.div_le_upper_bound; nia.
  - by rewrite num_of_Z_nonpos in Hlt.
Qed.

Lemma normalizeHours_idemp hours :
  is_binary64 hours = true → normalizeHours (normalizeHours hours) = normalizeHours hours.
Proof.
  intros Hb. unfold normalizeHours at 2 3. unfold math_max. destruct (is_nan (math_floor hours)) eqn:Hn.
  { by rewrite orb_true_r. }
  rewrite orb_false_r. change (is_nan (num_of_Z 1)) with false. cbn iota.
  destruct (num_ltb (num_of_Z 1) (math_floor hours)) eqn:Hlt; [|vm_compute; reflexivity].
  unfold normalizeHours, math_max. rewrite math_floor_idemp by done. by rewrite Hn, Hlt.
Qed.

Lemma normalizeMaxCount_idemp (count : option Z) :
  (∀ z, count = Some z → z < 2 ^ 53) →
  normalizeMaxCount (normalizeMaxCount (num_of_Z <$> count)) = normalizeMaxCount (num_of_Z <$> count).
Proof.
  intros Hc. destruct count as [z|]; [|done]. specialize (Hc z eq_refl). cbn [fmap option_fmap option_map].
  unfold normalizeMaxCount at 2 3. destruct (negb _ || _) eqn:Hn; [done|]. cbn [normalizeMaxCount].
  destruct z as [|p|p]; [done| |].
  - rewrite !math_floor_int by done. by rewrite Hn.
  - pose proof (num_of_Z_neg_sign p) as Hs. by destruct (num_of_Z (Zneg p)) as [|[]| |[] m e].
Qed.

(** An abort reaches its request: for whole counts, the key that
    [abortLoadRecords], [abortNodeLoadRecords] and [abortPingRecords] pass to
    the request manager is the key under which the loader with the same
    arguments registers its request, although the loader normalises the
    arguments twice. *)
Theorem abort_reaches_request (uuid : jsstring) (all : option jsstring) (hours : num) (count : option Z) :
  is_binary64 hours = true → (∀ z, count = Some z → z < 2 ^ 53) →
  let maxCount := num_of_Z <$> count in
  abortLoadRecords all hours maxCount = loadLoadRecords_key all hours maxCount ∧
  abortNodeLoadRecords uuid hours maxCount = loadNodeLoadRecords_key uuid hours maxCount ∧
  abortPingRecords hours maxCount all = loadPingRecords_key hours maxCount all.
Proof.
  intros Hh Hc maxCount. unfold abortLoadRecords, abortNodeLoadRecords, abortPingRecords, loadLoadRecords_key,
    loadNodeLoadRecords_key, loadPingRecords_key, getLoadRecordsRequestKey, getNodeLoadRecordsRequestKey,
    getPingRecordsRequestKey.
  unfold maxCount. by rewrite normalizeHours_idemp, normalizeMaxCount_idemp.
Qed.

Example abort_reaches_request_witness :
  abortLoadRecords None (num_of_Z 24) (Some (num_of_Z 6000))
  = loadLoadRecords_key None (num_of_Z 24) (Some (num_of_Z 6000)).
Proof.
  apply (abort_reaches_request [] None (num_of_Z 24) (Some 6000)); [done|]. intros z [= <-]. done.
Defined.

End History.

Module LoadRecords.
Import History.

Definition LOAD_RECORD_REFRESH_INTERVAL_MS : Z := LOAD_CONFIG.records_refreshInterval.

Abbreviation records_map := (jsmap jsstring (list fields)).

(** ** The entry *)

(** A node load: running, its [then] or [catch] has run, its [finally] has run. *)
Inductive phase := Running | Settled | Finished.

#[global] Instance phase_eq_dec : EqDecision phase.
Proof. solve_decision. Defined.

(** [data] to [fullLoadRetryAt] are the fields of the source's entry; the rest
    is the heap: which full loads have not settled, the node loads with their
    phase, which closures returned by [retain] have run, and the requests that
    were aborted ([None] is the load of all nodes). *)
Record t := {
  data : option records_map;
  loading : bool;
  error : option jsstring;
  promise : option nat;
  nodePromises : jsmap jsstring nat;
  nodeFetchedAt : jsmap jsstring Z;
  refreshTimer : bool;
  subscribers : Z;
  lastFetchedAt : Z;
  fullLoadUnavailable : bool;
  fullLoadRetryAt : Z;
  fulls : list bool;
  node_loads : list (jsstring * phase);
  releasers : list bool;
  aborts : list (option jsstring);
}.

Definition createSharedLoadRecordsEntry : t :=
  {| data := None; loading := false; error := None; promise := None; nodePromises := [];
     nodeFetchedAt := []; refreshTimer := false; subscribers := 0; lastFetchedAt := 0;
     fullLoadUnavailable := false; fullLoadRetryAt := 0; fulls := []; node_loads := [];
     releasers := []; aborts := [] |}.

(** The map of entries: an entry is created once and never removed. *)
Definition getSharedLoadRecordsEntry (cache : jsmap jsstring t) (key : jsstring) : jsmap jsstring t * t :=
  match jm_get key cache with
  | Some entry => (cache, entry)
  | None => (jm_set key createSharedLoadRecordsEntry cache, createSharedLoadRecordsEntry)
  end.

Definition getSharedLoadRecordsKey (hours : num) (maxCount : option num) : jsstring :=
  number_string hours ++ js ":" ++ cachePart (number_string <$> maxCount).

(** *** Field updates *)

Definition with_data (d : option records_map) (s : t) : t :=
  {| data := d; loading := loading s; error := error s; promise := promise s;
     nodePromises := nodePromises s; nodeFetchedAt := nodeFetchedAt s; refreshTimer := refreshTimer s;
     subscribers := subscribers s; lastFetchedAt := lastFetchedAt s;
     fullLoadUnavailable := fullLoadUnavailable s; fullLoadRetryAt := fullLoadRetryAt s;
     fulls := fulls s; node_loads := node_loads s; releasers := releasers s; aborts := aborts s |}.
Definition with_full (l : bool) (e : option jsstring) (p : option nat) (f : list bool) (s : t) : t :=
  {| data := data s; loading := l; error := e; promise := p;
     nodePromises := nodePromises s; nodeFetchedAt := nodeFetchedAt s; refreshTimer := refreshTimer s;
     subscribers := subscribers s; lastFetchedAt := lastFetchedAt s;
     fullLoadUnavailable := fullLoadUnavailable s; fullLoadRetryAt := fullLoadRetryAt s;
     fulls := f; node_loads := node_loads s; releasers := releasers s; aborts := aborts s |}.
Definition with_retry (last : Z) (u : bool) (at_ : Z) (s : t) : t :=
  {| data := data s; loading := loading s; error := error s; promise := promise s;
     nodePromises := nodePromises s; nodeFetchedAt := nodeFetchedAt s; refreshTimer := refreshTimer s;
     subscribers := subscribers s; lastFetchedAt := last;
     fullLoadUnavailable := u; fullLoadRetryAt := at_;
     fulls := fulls s; node_loads := node_loads s; releasers := releasers s; aborts := aborts s |}.
Definition with_nodes (m : jsmap jsstring nat) (f : jsmap jsstring Z) (l : list (jsstring * phase)) (s : t) : t :=
  {| data := data s; loading := loading s; error := error s; promise := promise s;
     nodePromises := m; nodeFetchedAt := f; refreshTimer := refreshTimer s;
     subscribers := subscribers s; lastFetchedAt := lastFetchedAt s;
     fullLoadUnavailable := fullLoadUnavailable s; fullLoadRetryAt := fullLoadRetryAt s;
     fulls := fulls s; node_loads := l; releasers := releasers s; aborts := aborts s |}.
Definition with_subscribers (timer : bool) (n : Z) (r : list bool) (a : list (option jsstring)) (s : t) : t :=
  {| data := data s; loading := loading s; error := error s; promise := promise s;
     nodePromises := nodePromises s; nodeFetchedAt := nodeFetchedAt s; refreshTimer := timer;
     subscribers := n; lastFetchedAt := lastFetchedAt s;
     fullLoadUnavailable := fullLoadUnavailable s; fullLoadRetryAt := fullLoadRetryAt s;
     fulls := fulls s; node_loads := node_loads s; releasers := r; aborts := a |}.

(** ** The load of all nodes *)

(** What a call of [loadSharedLoadRecords] gives its caller. *)
Inductive load_result := Skipped | Joined (id : nat) | Started (id : nat).

Definition loadSharedLoadRecords (now : Z) (s : t) : t * load_result :=
  if fullLoadUnavailable s && bool_decide (now < fullLoadRetryAt s) then (s, Skipped)
  else match promise s with
    | Some id => (s, Joined id)
    | None =>
        let id := length (fulls s) in
        (with_full true None (Some id) (fulls s ++ [true]) s, Started id)
    end.

Inductive full_outcome := Loaded (records : list fields) | Aborted | Failed (message : jsstring).

(** The continuation of full load [id] after its [await]; [now] is the reading
    of the clock in the [try] or [catch] block. *)
Definition full_settled (id : nat) (now : Z) (outcome : full_outcome) (s : t) : t :=
  match fulls s !! id with
  | Some true =>
      let s1 := match outcome with
        | Loaded records =>
            with_retry now false 0 (with_data (Some (buildRecordsByClient records)) s)
        | Aborted => s
        | Failed _ => with_retry (lastFetchedAt s) true (now + LOAD_RECORD_REFRESH_INTERVAL_MS) s
        end in
      let e := match outcome with Failed message => Some message | _ => error s end in
      with_full false e (if bool_decide (promise s = Some id) then None else promise s)
        (<[id := false]> (fulls s)) s1
  | _ => s
  end.

(** [!entry.data.value || Date.now() - entry.lastFetchedAt >= ...] *)
Definition shouldLoadRecords (now : Z) (s : t) : bool :=
  match data s with
  | None => true
  | Some _ => bool_decide (LOAD_RECORD_REFRESH_INTERVAL_MS ≤ now - lastFetchedAt s)
  end.

Definition loadSharedNodeLoadRecords (now now' : Z) (s : t) : t :=
  if shouldLoadRecords now s then (loadSharedLoadRecords now' s).1 else s.

(** ** The load of one node *)

Definition setNodeRecords (uuid : jsstring) (records : list fields) (now : Z) (s : t) : t :=
  let current := default [] (data s) in
  with_nodes (nodePromises s) (jm_set uuid now (nodeFetchedAt s)) (node_loads s)
    (with_data (Some (jm_set uuid records current)) s).

Definition loadNodeRecordsIntoEntry (uuid : jsstring) (s : t) : t :=
  match jm_get uuid (nodePromises s) with
  | Some _ => s
  | None =>
      with_nodes (jm_set uuid (length (node_loads s)) (nodePromises s)) (nodeFetchedAt s)
        (node_loads s ++ [(uuid, Running)]) s
  end.

(** [if (entry.nodePromises.get(uuid) === promise) entry.nodePromises.delete(uuid)] *)
Definition drop_node (uuid : jsstring) (id : nat) (m : jsmap jsstring nat) : jsmap jsstring nat :=
  if bool_decide (jm_get uuid m = Some id) then jm_delete uuid m else m.

(** The [then] ([Some records]) or the [catch] ([None]) of node load [id]. *)
Definition node_settled (id : nat) (now : Z) (outcome : option (list fields)) (s : t) : t :=
  match node_loads s !! id with
  | Some (uuid, Running) =>
      let s1 := with_nodes (nodePromises s) (nodeFetchedAt s) (<[id := (uuid, Settled)]> (node_loads s)) s in
      match outcome with
      | Some records => setNodeRecords uuid records now s1
      | None => with_nodes (drop_node uuid id (nodePromises s1)) (nodeFetchedAt s1) (node_loads s1) s1
      end
  | _ => s
  end.

(** The [finally] of node load [id]. *)
Definition node_finally (id : nat) (s : t) : t :=
  match node_loads s !! id with
  | Some (uuid, Settled) =>
      with_nodes (drop_node uuid id (nodePromises s)) (nodeFetchedAt s)
        (<[id := (uuid, Finished)]> (node_loads s)) s
  | _ => s
  end.

(** ** Subscribers *)

(** [retainSharedLoadRecordsEntry], with [startSharedLoadRecordsRefresh] *)
Definition retain (s : t) : t :=
  with_subscribers true (subscribers s + 1) (releasers s ++ [false]) (aborts s) s.

(** [abortSharedLoadRecordsEntry] *)
Definition abort_all (s : t) : list (option jsstring) := None :: (Some <$> jm_keys (nodePromises s)).

(** The closure that [retain] has returned as its [n]th, with
    [stopSharedLoadRecordsRefresh]. *)
Definition release (n : nat) (s : t) : t :=
  match releasers s !! n with
  | Some false =>
      let m := Z.max 0 (subscribers s - 1) in
      if bool_decide (m = 0)
      then with_subscribers false m (<[n := true]> (releasers s)) (aborts s ++ abort_all s) s
      else with_subscribers (refreshTimer s) m (<[n := true]> (releasers s)) (aborts s) s
  | _ => s
  end.

(** ** Events *)

Inductive event :=
  | ERetain
  | ERelease (n : nat)
  | ELoad (now : Z)
  | ELoadShared (now now' : Z)
  | ETick (now : Z)
  | EFullSettled (id : nat) (now : Z) (outcome : full_outcome)
  | ENodeLoad (uuid : jsstring)
  | ENodeSettled (id : nat) (now : Z) (outcome : option (list fields))
  | ENodeFinally (id : nat).

Definition step (e : event) (s : t) : t :=
  match e with
  | ERetain => retain s
  | ERelease n => release n s
  | ELoad now => (loadSharedLoadRecords now s).1
  | ELoadShared now now' => loadSharedNodeLoadRecords now now' s
  | ETick now => if refreshTimer s then (loadSharedLoadRecords now s).1 else s
  | EFullSettled id now outcome => full_settled id now outcome s
  | ENodeLoad uuid => loadNodeRecordsIntoEntry uuid s
  | ENodeSettled id now outcome => node_settled id now outcome s
  | ENodeFinally id => node_finally id s
  end.

Definition reached (es : list event) : t := runs step es createSharedLoadRecordsEntry.

(** ** Invariants *)

(** The full load in flight is the one that the entry holds. *)
Record full_ok (s : t) : Prop := {
  fo_one : ∀ id, fulls s !! id = Some true ↔ promise s = Some id;
  fo_loading : loading s = bool_decide (is_Some (promise s));
}.

(** The node loads that the entry holds are the running ones, up to those
    whose [finally] is still to run. *)
Record nodes_ok (s : t) : Prop := {
  no_running : ∀ id uuid, node_loads s !! id = Some (uuid, Running) → jm_get uuid (nodePromises s) = Some id;
  no_held : ∀ id uuid, jm_get uuid (nodePromises s) = Some id →
    ∃ p, node_loads s !! id = Some (uuid, p) ∧ p ≠ Finished;
}.

Definition live_releasers (s : t) : Z := Z.of_nat (length (bfilter negb (releasers s))).

Record subscribers_ok (s : t) : Prop := {
  so_count : subscribers s = live_releasers s;
  so_timer : refreshTimer s = bool_decide (0 < subscribers s);
}.

Lemma full_ok_load now s : full_ok s → full_ok (loadSharedLoadRecords now s).1.
Proof.
  intros Hok. unfold loadSharedLoadRecords. case_match; [done|].
  destruct (promise s) as [id|] eqn:Hp; [done|]. destruct Hok as [Hone Hl].
  split; cbn; [|done]. intros id.
  rewrite lookup_app_Some, list_lookup_singleton_Some. split.
  - intros [Hid|[? [? _]]]; [apply Hone in Hid; congruence|f_equal; lia].
  - intros [= <-]. right. lia.
Qed.

Lemma full_ok_settled id now o s : full_ok s → full_ok (full_settled id now o s).
Proof.
  intros [Hone Hl]. unfold full_settled. destruct (fulls s !! id) as [[]|] eqn:Hid; [|done..].
  apply Hone in Hid as Hp. rewrite bool_decide_eq_true_2 by done. split; cbn; [|done].
  intros id'. split; [|done]. intros [[_ [? _]]|[Hne Hid']]%list_lookup_insert_Some; [done|].
  apply Hone in Hid'. congruence.
Qed.

(** Events that do not concern the full load. *)
Lemma full_ok_eq s s' :
  fulls s' = fulls s → promise s' = promise s → loading s' = loading s → full_ok s → full_ok s'.
Proof. intros Hf Hp Hl [Hone Hload]. split; by rewrite ?Hf, ?Hp, ?Hl. Qed.

Lemma nodes_ok_eq s s' :
  nodePromises s' = nodePromises s → node_loads s' = node_loads s → nodes_ok s → nodes_ok s'.
Proof. intros Hm Hl [Hr Hh]. split; by rewrite ?Hm, ?Hl. Qed.

Lemma subscribers_ok_eq s s' :
  subscribers s' = subscribers s → releasers s' = releasers s → refreshTimer s' = refreshTimer s →
  subscribers_ok s → subscribers_ok s'.
Proof.
  intros Hs Hr Ht [Hc Htm]. split; unfold live_releasers; rewrite ?Hs, ?Hr, ?Ht; done.
Qed.

Lemma drop_node_get uuid id m u :
  jm_get u (drop_node uuid id m)
  = if bool_decide (u = uuid) && bool_decide (jm_get uuid m = Some id) then None else jm_get u m.
Proof.
  unfold drop_node. destruct (bool_decide (jm_get uuid m = Some id)) eqn:Hb; rewrite ?andb_false_r; [|done].
  by rewrite jm_get_delete, andb_true_r.
Qed.

Lemma drop_node_Some uuid id m u i : jm_get u (drop_node uuid id m) = Some i → jm_get u m = Some i ∧ (u, i) ≠ (uuid, id).
Proof.
  rewrite drop_node_get. destruct (bool_decide (u = uuid)) eqn:Hu, (bool_decide (jm_get uuid m = Some id)) eqn:Hg;
    cbn; reflect_bools; subst; try done; intros; split; try done; congruence.
Qed.

(** A phase change of node load [id], with its map entry dropped or not. *)
Lemma nodes_ok_phase id uuid p p' m s s' :
  node_loads s !! id = Some (uuid, p) → p' ≠ Running →
  node_loads s' = <[id := (uuid, p')]> (node_loads s) → nodePromises s' = m →
  m = drop_node uuid id (nodePromises s) ∨ m = nodePromises s ∧ p' ≠ Finished →
  nodes_ok s → nodes_ok s'.
Proof.
  intros Hid Hp' Hl Hm Hcase [Hr Hh]. split; rewrite Hl, Hm; intros i u.
  - intros [(-> & [= _ ?] & _)|[Hne Hi]]%list_lookup_insert_Some; [done|]. specialize (Hr i u Hi).
    destruct Hcase as [->|[-> _]]; [|done]. rewrite drop_node_get.
    destruct (bool_decide (u = uuid)) eqn:Hu; [|done]. reflect_bools. subst u. rewrite Hr.
    rewrite bool_decide_eq_false_2; [done|congruence].
  - intros Hi. assert (jm_get u (nodePromises s) = Some i) as Hi0.
    { destruct Hcase as [->|[-> _]]; [by apply drop_node_Some in Hi as []|done]. }
    destruct (Hh i u Hi0) as (q & Hq & Hqf). destruct (decide (i = id)) as [->|Hne].
    + rewrite Hid in Hq. injection Hq as <- <-. destruct Hcase as [->|[_ Hf]].
      * by apply drop_node_Some in Hi as [_ []].
      * exists p'. split; [|done]. apply list_lookup_insert_eq. by eapply lookup_lt_Some.
    + exists q. by rewrite list_lookup_insert_ne.
Qed.

Lemma nodes_ok_load uuid s : nodes_ok s → nodes_ok (loadNodeRecordsIntoEntry uuid s).
Proof.
  intros Hok. unfold loadNodeRecordsIntoEntry. destruct (jm_get uuid (nodePromises s)) eqn:Hg; [done|].
  destruct Hok as [Hr Hh]. split; cbn; intros i u; rewrite jm_get_set.
  - rewrite lookup_app_Some, list_lookup_singleton_Some. intros [Hi|(Hge & Hi & [= <-])].
    + specialize (Hr i u Hi). case_bool_decide; congruence.
    + rewrite bool_decide_eq_true_2 by done. f_equal. lia.
  - case_bool_decide as Hu.
    + intros [= <-]. subst u. exists Running. split; [|done].
      rewrite lookup_app_r by done. by rewrite Nat.sub_diag.
    + intros (p & Hp & ?)%Hh. exists p. split; [|done]. by apply lookup_app_l_Some.
Qed.

Lemma nodes_ok_settled id now o s : nodes_ok s → nodes_ok (node_settled id now o s).
Proof.
  unfold node_settled. destruct (node_loads s !! id) as [[uuid []]|] eqn:Hid; try done.
  destruct o; eapply nodes_ok_phase; eauto; cbn; by auto.
Qed.

Lemma nodes_ok_finally id s : nodes_ok s → nodes_ok (node_finally id s).
Proof.
  unfold node_finally. destruct (node_loads s !! id) as [[uuid []]|] eqn:Hid; try done.
  eapply nodes_ok_phase; eauto; cbn; by auto.
Qed.

Lemma subscribers_ok_retain s : subscribers_ok s → subscribers_ok (retain s).
Proof.
  intros [Hc Ht]. split; cbn; unfold live_releasers in *; cbn.
  - rewrite bfilter_app, length_app. cbn. lia.
  - rewrite bool_decide_eq_true_2; [done|lia].
Qed.

Lemma subscribers_ok_release n s : subscribers_ok s → subscribers_ok (release n s).
Proof.
  intros Hok. unfold release. destruct (releasers s !! n) as [[]|] eqn:Hn; try done.
  destruct Hok as [Hc Ht]. pose proof (length_bfilter_insert negb _ n false true Hn) as Hlen. cbn in Hlen.
  unfold live_releasers in *. destruct (bool_decide (Z.max 0 _ = 0)) eqn:Hm; reflect_bools;
    split; unfold live_releasers; cbn; try lia.
  - rewrite bool_decide_eq_false_2; [done|lia].
  - rewrite Ht. rewrite !bool_decide_eq_true_2; [done|lia..].
Qed.

Record inv (s : t) : Prop := { i_full : full_ok s; i_nodes : nodes_ok s; i_subs : subscribers_ok s }.

Lemma load_other now s :
  let s' := (loadSharedLoadRecords now s).1 in
  nodePromises s' = nodePromises s ∧ node_loads s' = node_loads s ∧ subscribers s' = subscribers s ∧
  releasers s' = releasers s ∧ refreshTimer s' = refreshTimer s.
Proof. unfold loadSharedLoadRecords. by repeat case_match. Qed.

Lemma inv_load now s : inv s → inv (loadSharedLoadRecords now s).1.
Proof.
  intros [Hf Hn Hs]. destruct (load_other now s) as (? & ? & ? & ? & ?).
  split; [by apply full_ok_load|by apply (nodes_ok_eq s)|by apply (subscribers_ok_eq s)].
Qed.

(** A part of the invariant whose fields an event leaves alone. *)
Ltac unchanged s :=
  first [done | by apply (full_ok_eq s) | by apply (nodes_ok_eq s) | by apply (subscribers_ok_eq s)].

Lemma inv_step e s : inv s → inv (step e s).
Proof.
  intros Hinv. pose proof Hinv as [Hf Hn Hs]. destruct e; cbn [step]; try by apply inv_load.
  - split; [..|by apply subscribers_ok_retain]; unchanged s.
  - split; [..|by apply subscribers_ok_release]; unfold release; repeat case_match; unchanged s.
  - unfold loadSharedNodeLoadRecords. case_match; [by apply inv_load|done].
  - case_match; [by apply inv_load|done].
  - split; [by apply full_ok_settled|..]; unfold full_settled; repeat case_match; unchanged s.
  - split; [|by apply nodes_ok_load|]; unfold loadNodeRecordsIntoEntry; repeat case_match; unchanged s.
  - split; [|by apply nodes_ok_settled|]; unfold node_settled; repeat case_match; unchanged s.
  - split; [|by apply nodes_ok_finally|]; unfold node_finally; repeat case_match; unchanged s.
Qed.

Lemma inv_init : inv createSharedLoadRecordsEntry.
Proof. split; split; done. Qed.

Lemma inv_reached es : inv (reached es).
Proof. unfold reached. apply runs_invariant; [intros; by apply inv_step|apply inv_init]. Qed.

(** ** Waiting after a failure *)

(** The clock readings at which an event may start a full load. *)
Definition load_before (deadline : Z) (e : event) : Prop :=
  match e with
  | ELoad now | ELoadShared _ now | ETick now => now < deadline
  | _ => True
  end.

(** No full load is in flight, and none may start before the deadline. *)
Record waiting (deadline : Z) (f : list bool) (s : t) : Prop := {
  w_inv : inv s;
  w_idle : promise s = None;
  w_unavailable : fullLoadUnavailable s = true;
  w_deadline : fullLoadRetryAt s = deadline;
  w_fulls : fulls s = f;
}.

Lemma waiting_load deadline f now s : waiting deadline f s → now < deadline → loadSharedLoadRecords now s = (s, Skipped).
Proof.
  intros [_ _ Hu Hd _] Hlt. unfold loadSharedLoadRecords. by rewrite Hu, Hd, bool_decide_eq_true_2.
Qed.

Lemma waiting_step deadline f e s :
  load_before deadline e → waiting deadline f s → waiting deadline f (step e s).
Proof.
  intros Hb Hw. pose proof Hw as [Hinv Hp Hu Hd Hf]. pose proof (inv_step e s Hinv) as Hi.
  destruct e; cbn [step load_before] in *.
  - by split.
  - unfold release in *. repeat case_match; try done; by split.
  - by rewrite (waiting_load deadline f) in *.
  - unfold loadSharedNodeLoadRecords in *. by rewrite (waiting_load deadline f) in *; case_match.
  - by rewrite (waiting_load deadline f) in *; case_match.
  - unfold full_settled in *. destruct (fulls s !! id) as [[]|] eqn:Hid; [|done..].
    apply (fo_one _ (i_full _ Hinv)) in Hid. congruence.
  - unfold loadNodeRecordsIntoEntry in *. case_match; [done|]. by split.
  - unfold node_settled in *. repeat case_match; try done; by split.
  - unfold node_finally in *. repeat case_match; try done; by split.
Qed.

(** ** Theorems *)

(** C5: the shared load entry is consistent under every interleaving of views,
    timers and responses: at most one load of all nodes is in flight, it is the
    one that [promise] holds, and [loading] says so; a node has at most one
    running load, which later callers join; and the refresh timer runs exactly
    while some subscription has not been released. *)
Theorem load_entry_consistent (es : list event) :
  let s := reached es in
  (∀ id, fulls s !! id = Some true ↔ promise s = Some id) ∧
  (loading s = true ↔ is_Some (promise s)) ∧
  (∀ uuid id id', node_loads s !! id = Some (uuid, Running) →
     node_loads s !! id' = Some (uuid, Running) → id = id') ∧
  (refreshTimer s = true ↔ ∃ n, releasers s !! n = Some false).
Proof.
  intros s. destruct (inv_reached es) as [[Hone Hl] [Hr Hh] [Hc Ht]]. fold s in Hone, Hl, Hr, Hh, Hc, Ht.
  split_and!; [done| | |].
  - rewrite Hl. by rewrite bool_decide_eq_true.
  - intros uuid id id' H1%Hr H2%Hr. congruence.
  - rewrite Ht, bool_decide_eq_true, Hc. unfold live_releasers. split.
    + intros Hpos. destruct (bfilter negb (releasers s)) as [|b l] eqn:Hb; [cbn in Hpos; lia|].
      assert (b ∈ bfilter negb (releasers s)) as Hin by (rewrite Hb; by left).
      apply elem_of_bfilter in Hin as [Hneg [n Hn]%list_elem_of_lookup]. apply negb_true_iff in Hneg as ->.
      by exists n.
    + intros [n Hn]. assert (false ∈ bfilter negb (releasers s)) as Hin.
      { apply elem_of_bfilter. split; [done|]. by eapply list_elem_of_lookup_2. }
      destruct (bfilter negb (releasers s)); [by apply elem_of_nil in Hin|cbn; lia].
Qed.

(** C33: after a failed load of all nodes at time [t0] the server is left alone
    for one refresh interval: whatever views, timers and node loads do, no load
    of all nodes starts at a clock reading before [t0] plus the interval, and
    the first call from then on starts one. *)
Theorem load_backs_off (es1 es2 : list event) (id : nat) (t0 : Z) (message : jsstring) :
  fulls (reached es1) !! id = Some true →
  Forall (load_before (t0 + LOAD_RECORD_REFRESH_INTERVAL_MS)) es2 →
  let failed := es1 ++ [EFullSettled id t0 (Failed message)] in
  let s := reached (failed ++ es2) in
  fulls s = fulls (reached failed) ∧
  ∀ now, t0 + LOAD_RECORD_REFRESH_INTERVAL_MS ≤ now →
    (loadSharedLoadRecords now s).2 = Started (length (fulls s)).
Proof.
  intros Hid Hb failed s. set (deadline := t0 + LOAD_RECORD_REFRESH_INTERVAL_MS) in *.
  assert (waiting deadline (fulls (reached failed)) (reached failed)) as Hw.
  { pose proof (inv_reached failed) as Hi. pose proof (fo_one _ (i_full _ (inv_reached es1)) id) as Hp.
    apply Hp in Hid as Hpr. unfold failed, reached in *. rewrite runs_snoc in *.
    cbn [step] in *. unfold full_settled in *. rewrite Hid in *.
    rewrite bool_decide_eq_true_2 in * by done. by split. }
  assert (waiting deadline (fulls (reached failed)) s) as [_ Hp _ Hd Hf].
  { assert (s = runs step es2 (reached failed)) as -> by apply runs_app.
    apply (runs_invariant_cond step (load_before deadline)); [|done|done]. intros e s0. apply waiting_step. }
  split; [done|]. intros now Hnow. unfold loadSharedLoadRecords. rewrite Hd, Hp.
  rewrite bool_decide_eq_false_2, andb_false_r by lia. done.
Qed.

Example load_backs_off_witness :
  fulls (reached [ERetain; ELoad 0; EFullSettled 0 10 (Failed []); ETick 299000; ELoad 299500]) = [false].
Proof.
  destruct (load_backs_off [ERetain; ELoad 0] [ETick 299000; ELoad 299500] 0 10 []) as [H _].
  - reflexivity.
  - repeat constructor.
  - etrans; [exact H|reflexivity].
Defined.

(** A view that subscribes after the last one has left, while the aborted load
    has not settled yet, joins the aborted load: nothing is loaded for it and
    nothing is in flight until the next tick of the timer. *)
Theorem resubscribe_joins_aborted_load :
  let s := reached [ERetain; ELoad 0; ERelease 0; ERetain] in
  aborts s = [None] ∧ (loadSharedLoadRecords 1 s).2 = Joined 0 ∧
  let s' := runs step [ELoad 1; EFullSettled 0 2 Aborted] s in
  data s' = None ∧ promise s' = None ∧ subscribers s' = 1.
Proof. done. Qed.

End LoadRecords.
