(* ===== verification/AuthSession.v ===== *)
(** * Sign-in state of the status page

    [glass-shared/services/auth.service.ts].  The two module variables are the
    fields [authSession] and [verifyPromise]; every request [getMe] is named by
    its position in [requests].  The [then]/[catch] of a request and its
    [finally] are two events.  [MeInfo] is an arbitrary type with the test
    [logged_in]. *)

From S2P Require Import Prelude JsMap JsString Constants.

Open Scope Z_scope.

Module AuthSession.

(** [SECURITY_CONFIG.auth.verifyTtl] *)
Definition verifyTtl : Z := TIME_MS.minute.

Inductive AuthStatus := unknown | guest | authenticated_ | error_.

#[global] Instance AuthStatus_eq_dec : EqDecision AuthStatus.
Proof. solve_decision. Defined.

Section auth.
Context {MeInfo : Type} (logged_in : MeInfo → bool).

Record session := {
  status : AuthStatus;
  authenticated : bool;
  user : option MeInfo;
  lastVerifiedAt : Z;
  errorMessage : option jsstring;
}.

(** A request: sent; its [then] or [catch] has run and gave this session; its
    [finally] has run. *)
Inductive request := Sent | Answered (s : session) | Finished (s : session).

(** [answers] is the list of what the server has said, by request. *)
Record t := {
  authSession : session;
  verifyPromise : option nat;
  requests : list request;
}.

Definition initial : t :=
  {| authSession := {| status := unknown; authenticated := false; user := None; lastVerifiedAt := 0;
                       errorMessage := None |};
     verifyPromise := None; requests := [] |}.

Definition createSessionFromMe (u : MeInfo) (now : Z) : session :=
  {| status := if logged_in u then authenticated_ else guest; authenticated := logged_in u;
     user := if logged_in u then Some u else None; lastVerifiedAt := now; errorMessage := None |}.

Definition error_session (message : jsstring) (now : Z) : session :=
  {| status := error_; authenticated := false; user := None; lastVerifiedAt := now;
     errorMessage := Some message |}.

Definition setAuthSessionFromLogin (loggedIn : bool) (u : option MeInfo) (now : Z) (s : t) : t :=
  {| authSession := {| status := if loggedIn then authenticated_ else guest; authenticated := loggedIn;
                       user := if loggedIn then u else None; lastVerifiedAt := now; errorMessage := None |};
     verifyPromise := verifyPromise s; requests := requests s |}.

(** What [verifyLogin] returns: the cached session or the promise of a request. *)
Inductive verification := Cached (s : session) | Promised (id : nat).

Definition verifyLogin (force : bool) (now : Z) (s : t) : t * verification :=
  let freshEnough := bool_decide (now - lastVerifiedAt (authSession s) < verifyTtl) in
  if negb force && negb (bool_decide (status (authSession s) = unknown)) && freshEnough
  then (s, Cached (authSession s))
  else match verifyPromise s with
    | Some id => (s, Promised id)
    | None =>
        let id := length (requests s) in
        ({| authSession := authSession s; verifyPromise := Some id; requests := requests s ++ [Sent] |},
         Promised id)
    end.

(** The answer of [getMe]: a user, or an error with its message. *)
Definition answer_session (answer : MeInfo + jsstring) (now : Z) : session :=
  match answer with inl u => createSessionFromMe u now | inr message => error_session message now end.

Definition answered (id : nat) (answer : MeInfo + jsstring) (now : Z) (s : t) : t :=
  match requests s !! id with
  | Some Sent =>
      {| authSession := answer_session answer now; verifyPromise := verifyPromise s;
         requests := <[id := Answered (answer_session answer now)]> (requests s) |}
  | _ => s
  end.

Definition finally (id : nat) (s : t) : t :=
  match requests s !! id with
  | Some (Answered r) =>
      {| authSession := authSession s; verifyPromise := None; requests := <[id := Finished r]> (requests s) |}
  | _ => s
  end.

(** The value of a promise, once its request is answered. *)
Definition promise_value (id : nat) (s : t) : option session :=
  match requests s !! id with Some (Answered r | Finished r) => Some r | _ => None end.

(** [requirePermission], on the session that [verifyLogin] resolves to. *)
Record PermissionResult := { granted : bool; result_session : session; reason : option jsstring }.

Definition requirePermission (permission : jsstring) (r : session) : PermissionResult :=
  if authenticated r then {| granted := true; result_session := r; reason := None |}
  else {| granted := false; result_session := r;
          reason := Some (permission ++ js " requires a verified login session") |}.

Inductive event :=
  | ELogin (loggedIn : bool) (u : option MeInfo) (now : Z)
  | EVerify (force : bool) (now : Z)
  | EAnswer (id : nat) (answer : MeInfo + jsstring) (now : Z)
  | EFinally (id : nat).

Definition step (e : event) (s : t) : t :=
  match e with
  | ELogin loggedIn u now => setAuthSessionFromLogin loggedIn u now s
  | EVerify force now => (verifyLogin force now s).1
  | EAnswer id answer now => answered id answer now s
  | EFinally id => finally id s
  end.

Definition reached (es : list event) : t := runs step es initial.

(** ** Invariants *)

(** The fields of a session agree. *)
Definition session_ok (r : session) : Prop :=
  (authenticated r = true ↔ status r = authenticated_) ∧ (is_Some (user r) → authenticated r = true) ∧
  (is_Some (errorMessage r) ↔ status r = error_).

(** The request in flight is the one that [verifyPromise] holds. *)
Record inv (s : t) : Prop := {
  i_session : session_ok (authSession s);
  i_flight : ∀ id r, requests s !! id = Some r → (∀ x, r ≠ Finished x) → verifyPromise s = Some id;
  i_held : ∀ id, verifyPromise s = Some id → ∃ r, requests s !! id = Some r ∧ ∀ x, r ≠ Finished x;
}.

Lemma session_ok_answer answer now : session_ok (answer_session answer now).
Proof using.
  unfold session_ok. destruct answer as [u|m]; cbn; [|naive_solver].
  destruct (logged_in u); rewrite ?is_Some_alt; naive_solver.
Qed.

Lemma session_ok_login loggedIn u now s : session_ok (authSession (setAuthSessionFromLogin loggedIn u now s)).
Proof using. unfold session_ok. cbn. destruct loggedIn; rewrite ?is_Some_alt; naive_solver. Qed.

Lemma auth_inv_step e s : inv s → inv (step e s).
Proof using.
  intros Hinv. pose proof Hinv as [Hs Hf Hh].
  destruct e as [loggedIn u now|force now|id answer now|id]; cbn [step].
  - split; [apply session_ok_login|done|done].
  - unfold verifyLogin. cbn zeta. case_match; [done|].
    destruct (verifyPromise s) as [id|] eqn:Hp; [done|].
    split; cbn; [done| |].
    + intros id r. rewrite lookup_app_Some, list_lookup_singleton_Some. intros [Hr|(? & ? & <-)] Hnf.
      * by specialize (Hf id r Hr Hnf).
      * f_equal. lia.
    + intros id [= <-]. exists Sent. split; [|done]. rewrite lookup_app_r by done. by rewrite Nat.sub_diag.
  - unfold answered. destruct (requests s !! id) as [[]|] eqn:Hid; try done.
    split; cbn; [apply session_ok_answer| |].
    + intros i r [(-> & <- & _)|[_ Hr]]%list_lookup_insert_Some Hnf; [by eapply Hf|by eapply Hf].
    + intros i Hi. destruct (Hh i Hi) as (r & Hr & Hnf). destruct (decide (i = id)) as [->|].
      * eexists. split; [apply list_lookup_insert_eq; by eapply lookup_lt_Some|done].
      * exists r. by rewrite list_lookup_insert_ne.
  - unfold finally. destruct (requests s !! id) as [[]|] eqn:Hid; try done.
    split; cbn; [done| |done].
    intros i r [(-> & <- & _)|[Hne Hr]]%list_lookup_insert_Some Hnf; [by destruct (Hnf s0)|].
    pose proof (Hf i r Hr Hnf). pose proof (Hf id _ Hid ltac:(done)). congruence.
Qed.

Lemma auth_inv_reached es : inv (reached es).
Proof using.
  unfold reached. apply runs_invariant; [intros; by apply auth_inv_step|].
  split; cbn; [|done|done]. unfold session_ok. cbn. rewrite !is_Some_alt. naive_solver.
Qed.

(** An answered request keeps its value. *)
Lemma promise_value_step e id r s : promise_value id s = Some r → promise_value id (step e s) = Some r.
Proof using.
  unfold promise_value. intros Hv.
  assert (∃ q, requests s !! id = Some q ∧ q ≠ Sent) as (q & Hq & Hqs).
  { destruct (requests s !! id) as [[]|]; naive_solver. }
  rewrite Hq in Hv. destruct e as [loggedIn u now|force now|i answer now|i]; cbn [step].
  - cbn. by rewrite Hq.
  - unfold verifyLogin. cbn zeta. destruct (negb force && _ && _); [cbn; by rewrite Hq|].
    destruct (verifyPromise s); cbn; [by rewrite Hq|]. by rewrite (lookup_app_l_Some _ _ _ _ Hq).
  - unfold answered. destruct (requests s !! i) as [[]|] eqn:Hi; cbn; rewrite ?Hq; try done.
    rewrite list_lookup_insert_ne by congruence. by rewrite Hq.
  - unfold finally. destruct (requests s !! i) as [[]|] eqn:Hi; cbn; rewrite ?Hq; try done.
    destruct (decide (i = id)) as [->|]; [|by rewrite list_lookup_insert_ne, Hq].
    rewrite list_lookup_insert_eq by (by eapply lookup_lt_Some). rewrite Hi in Hq. by simplify_eq.
Qed.
End auth.

(** The sign-in state is coherent in every interleaving of sign-ins, checks
    and answers: the session says authenticated exactly when its status does,
    has a user only then and a message only after an error; at most one request
    is waiting for its answer, and later checks join it. *)
Theorem auth_coherent {MeInfo} (logged_in : MeInfo → bool) (es : list event) :
  let s := reached logged_in es in
  session_ok (authSession s) ∧
  (∀ id id', requests s !! id = Some Sent → requests s !! id' = Some Sent → id = id') ∧
  ∀ id now, requests s !! id = Some Sent → (verifyLogin true now s).2 = Promised id.
Proof.
  intros s. pose proof (auth_inv_reached logged_in es) as [Hs Hf Hh]. fold s in Hs, Hf, Hh.
  split_and!; [done| |].
  - intros id id' H1 H2. pose proof (Hf id _ H1 ltac:(done)). pose proof (Hf id' _ H2 ltac:(done)). congruence.
  - intros id now Hid. unfold verifyLogin. cbn. by rewrite (Hf id _ Hid ltac:(done)).
Qed.

(** A permission is granted on the word of the server only: once the
    request behind a forced check is answered, the check is granted exactly
    when the answer names a signed-in user, whatever happens to the session
    before the caller looks. *)
Theorem permission_reflects_answer {MeInfo} (logged_in : MeInfo → bool) (es1 es2 : list event) (id : nat)
    (answer : MeInfo + jsstring) (now : Z) (permission : jsstring) :
  requests (reached logged_in es1) !! id = Some Sent →
  let s := reached logged_in (es1 ++ EAnswer id answer now :: es2) in
  ∃ r, promise_value id s = Some r ∧
    (granted (requirePermission permission r) = true ↔ ∃ u, answer = inl u ∧ logged_in u = true).
Proof.
  intros Hid s. exists (answer_session logged_in answer now). split.
  - assert (s = runs (step logged_in) es2 (step logged_in (EAnswer id answer now) (reached logged_in es1))) as ->
      by (unfold s, reached; by rewrite runs_app).
    apply (runs_invariant _ (λ s, promise_value id s = Some (answer_session logged_in answer now))).
    + intros e s0. apply promise_value_step.
    + cbn [step]. unfold answered. rewrite Hid. unfold promise_value. cbn.
      by rewrite list_lookup_insert_eq by (by eapply lookup_lt_Some).
  - unfold requirePermission. destruct answer as [u|m]; cbn [answer_session createSessionFromMe error_session authenticated].
    + destruct (logged_in u) eqn:Hu; cbn [granted]; (split; [try discriminate; by exists u|]); [done|].
      intros (v & [= <-] & Hv). congruence.
    + cbn [granted]. split; [discriminate|]. intros (v & Hv & _). discriminate.
Qed.

Example permission_reflects_answer_witness :
  ∃ r, promise_value 0 (reached (λ b : bool, b) [EVerify true 5; EAnswer 0 (inl true) 6; ELogin false None 7]) = Some r.
Proof.
  destruct (permission_reflects_answer (λ b : bool, b) [EVerify true 5] [ELogin false None 7] 0 (inl true) 6 [])
    as (r & Hr & _); [reflexivity|]. by exists r.
Defined.

End AuthSession.
