(* ===== verification/Csv.v ===== *)
(** * Export of snapshots as CSV

    [glass-shared/utils/csv.ts] and the CSV half of
    [glass-shared/services/snapshot.service.ts].  A spreadsheet reads the
    exported text with the reader of RFC 4180, which is written down here
    ([Csv.read]); the theorems say what it finds in the text. *)

From S2P Require Import Prelude JsMap JsString Json JsValue JsNumber.

Open Scope Z_scope.

Module Csv.

(** ** The writer *)

(** [CSV_FORMULA_INJECTION_REGEX]: white space, then one of [=+-@|]. *)
Definition is_formula (text : jsstring) : bool :=
  match trimStart text with
  | u :: _ => bool_decide (u ∈ [61; 43; 45; 64; 124])
  | [] => false
  end.

(** [CSV_ESCAPE_NEEDED_REGEX]: a quote, a comma or a line break. *)
Definition escape_needed (text : jsstring) : bool := some (λ u, bool_decide (u ∈ [34; 44; 10; 13])) text.

Definition sanitizeCsvCell (v : value) : jsstring :=
  let text := value_string (or_empty v) in
  if is_formula text then 39 :: text else text.

Definition sanitizeCsvValue (v : value) : jsstring := sanitizeCsvCell v.

(** [text.replace(CSV_QUOTE_REGEX, ...)]: every quote becomes two. *)
Definition double_quotes (text : jsstring) : jsstring :=
  text ≫= λ u, if bool_decide (u = 34) then [34; 34] else [u].

Definition escapeCsvCell (v : value) : jsstring :=
  let text := sanitizeCsvCell v in
  if escape_needed text then [34] ++ double_quotes text ++ [34] else text.

Definition toCsvRows (rows : list (list value)) : jsstring :=
  join [13; 10] ((λ row, join [44] (escapeCsvCell <$> row)) <$> rows).

(** ** Snapshots *)

Section snapshot.
Context {T : Type}.

Record SnapshotCsvColumn := { label : jsstring; cell_of : T → value }.

Definition buildSnapshotCsv (columns : list SnapshotCsvColumn) (rows : list T) : jsstring :=
  toCsvRows (((λ c, VStr (label c)) <$> columns)
             :: ((λ row, (λ c, cell_of c row) <$> columns) <$> rows)).

(** The asynchronous loop: the rows from [index] on, the lines so far and the
    number of times it has handed control to the browser.  [falsy] is the test
    [!row]. *)
Fixpoint csv_lines (falsy : T → bool) (columns : list SnapshotCsvColumn) (chunkSize : Z)
    (rows : list T) (index : Z) (csvRows : list jsstring) (yields : nat) : list jsstring * nat :=
  match rows with
  | [] => (csvRows, yields)
  | row :: rows =>
      if falsy row then csv_lines falsy columns chunkSize rows (index + 1) csvRows yields
      else csv_lines falsy columns chunkSize rows (index + 1)
             (csvRows ++ [join [44] ((λ c, escapeCsvCell (cell_of c row)) <$> columns)])
             (if bool_decide ((index + 1) mod chunkSize = 0) then S yields else yields)
  end.

Definition buildSnapshotCsvAsync (falsy : T → bool) (columns : list SnapshotCsvColumn) (rows : list T)
    (chunkSize : Z) : jsstring * nat :=
  let header := join [44] ((λ c, escapeCsvCell (VStr (label c))) <$> columns) in
  let '(csvRows, yields) := csv_lines falsy columns chunkSize rows 0 [header] 0 in
  (join [13; 10] csvRows, yields).
End snapshot.
#[global] Arguments SnapshotCsvColumn : clear implicits.

(** ** The reader of RFC 4180

    [Start] is the start of a cell, [Plain] an unquoted cell, [Quoted] inside
    quotes, [Closed] after a quote inside a quoted cell.  [cur] is the cell
    and [row] the cells of the record so far, both in reverse. *)

Inductive mode := Start | Plain | Quoted | Closed.

Fixpoint read (m : mode) (cur : jsstring) (row : list jsstring) (s : jsstring) : list (list jsstring) :=
  match s with
  | [] => [reverse (reverse cur :: row)]
  | u :: s' =>
      match m with
      | Quoted => if bool_decide (u = 34) then read Closed cur row s' else read Quoted (u :: cur) row s'
      | _ =>
          if bool_decide (u = 34) then
            match m with
            | Start => read Quoted [] row s'
            | Closed => read Quoted (34 :: cur) row s'
            | _ => read Plain (34 :: cur) row s'
            end
          else if bool_decide (u = 44) then read Start [] (reverse cur :: row) s'
          else match s' with
            | v :: s'' =>
                if bool_decide (u = 13) && bool_decide (v = 10)
                then reverse (reverse cur :: row) :: read Start [] [] s''
                else read Plain (u :: cur) row s'
            | [] => read Plain (u :: cur) row s'
            end
      end
  end.

(** What the document shows: the sanitised cells; an empty record, and an empty
    document, show one empty cell. *)
Definition shown_row (row : list value) : list jsstring :=
  match row with [] => [[]] | _ => sanitizeCsvCell <$> row end.
Definition shown (rows : list (list value)) : list (list jsstring) :=
  match rows with [] => [[[]]] | _ => shown_row <$> rows end.

(** ** Reading one cell *)

(** What follows a cell, and what the reader does there. *)
Inductive terminator : jsstring → Prop :=
  | term_end : terminator []
  | term_comma s : terminator (44 :: s)
  | term_crlf s : terminator (13 :: 10 :: s).

Definition finish (cell : jsstring) (row : list jsstring) (rest : jsstring) : list (list jsstring) :=
  match rest with
  | [] => [reverse (cell :: row)]
  | u :: s => if bool_decide (u = 44) then read Start [] (cell :: row) s
              else reverse (cell :: row) :: read Start [] [] (drop 1 s)
  end.

Lemma read_terminator m cur row rest :
  terminator rest → m ≠ Quoted → read m cur row rest = finish (reverse cur) row rest.
Proof. intros [| |] Hm; destruct m; done. Qed.

Lemma read_plain_step m u cur row s :
  m ≠ Quoted → u ∉ [34; 44; 10; 13] → read m cur row (u :: s) = read Plain (u :: cur) row s.
Proof.
  intros Hm Hu. cbn [read].
  rewrite (bool_decide_eq_false_2 (u = 34)), (bool_decide_eq_false_2 (u = 44)),
    (bool_decide_eq_false_2 (u = 13)) by set_solver. cbn [andb].
  destruct m, s; done.
Qed.

Lemma read_plain text m cur row rest :
  escape_needed text = false → terminator rest → m ≠ Quoted →
  read m cur row (text ++ rest) = finish (reverse cur ++ text) row rest.
Proof.
  revert m cur. induction text as [|u text IH]; intros m cur Ht Hrest Hm; cbn [app].
  - by rewrite (right_id_L [] (++)), read_terminator.
  - unfold escape_needed in Ht. rewrite some_false in Ht.
    assert (u ∉ [34; 44; 10; 13]) as Hu.
    { intros Hin. specialize (Ht u ltac:(by left)). by rewrite bool_decide_eq_true_2 in Ht. }
    rewrite read_plain_step, IH; [|apply some_false; intros; apply Ht; by right|done..].
    by rewrite reverse_cons, <-(assoc_L (++)).
Qed.

Lemma read_quoted text cur row rest :
  terminator rest →
  read Quoted cur row (double_quotes text ++ 34 :: rest) = finish (reverse cur ++ text) row rest.
Proof.
  intros Hrest. revert cur. induction text as [|u text IH]; intros cur; cbn.
  - rewrite (right_id_L [] (++)), read_terminator; done.
  - case_bool_decide as Hu; cbn.
    + subst u. rewrite IH. by rewrite reverse_cons, <-(assoc_L (++)).
    + rewrite (bool_decide_eq_false_2 (u = 34)) by done. rewrite IH.
      by rewrite reverse_cons, <-(assoc_L (++)).
Qed.

Lemma read_cell v row rest :
  terminator rest → read Start [] row (escapeCsvCell v ++ rest) = finish (sanitizeCsvCell v) row rest.
Proof.
  intros Hrest. unfold escapeCsvCell. cbn zeta.
  destruct (escape_needed (sanitizeCsvCell v)) eqn:He.
  - rewrite <-!(assoc_L (++)). cbn. by rewrite read_quoted.
  - by rewrite (read_plain _ Start [] row rest).
Qed.

(** ** Reading a record *)

Lemma join_cons_ne sep x l : l ≠ [] → join sep (x :: l) = x ++ sep ++ join sep l.
Proof. by destruct l. Qed.

Definition line_end (rest : jsstring) : Prop := rest = [] ∨ ∃ s, rest = 13 :: 10 :: s.

Lemma line_end_terminator rest : line_end rest → terminator rest.
Proof. intros [->|[s ->]]; constructor. Qed.

Definition finish_row (row : list jsstring) (rest : jsstring) : list (list jsstring) :=
  match rest with [] => [row] | _ => row :: read Start [] [] (drop 2 rest) end.

Lemma finish_line cell row rest :
  line_end rest → finish cell row rest = finish_row (reverse (cell :: row)) rest.
Proof. by intros [->|[s ->]]. Qed.

Lemma read_cells vs row rest :
  vs ≠ [] → line_end rest →
  read Start [] row (join [44] (escapeCsvCell <$> vs) ++ rest)
  = finish_row (reverse row ++ (sanitizeCsvCell <$> vs)) rest.
Proof.
  intros Hne Hrest. revert row Hne. induction vs as [|v [|w vs] IH]; intros row Hne; [done|..].
  - cbn. rewrite read_cell, finish_line by auto using line_end_terminator. by rewrite reverse_cons.
  - change (join [44] (escapeCsvCell <$> v :: w :: vs))
      with (escapeCsvCell v ++ 44 :: join [44] (escapeCsvCell <$> w :: vs)).
    rewrite <-(assoc_L (++)), <-app_comm_cons, read_cell by constructor. cbn [finish].
    rewrite bool_decide_eq_true_2, IH by done. f_equal. by rewrite reverse_cons, <-(assoc_L (++)).
Qed.

Lemma read_row vs rest :
  line_end rest →
  read Start [] [] (join [44] (escapeCsvCell <$> vs) ++ rest) = finish_row (shown_row vs) rest.
Proof.
  intros Hrest. destruct vs as [|v vs].
  - cbn. by destruct Hrest as [->|[s ->]].
  - by rewrite read_cells.
Qed.

(** The first character of what the writer shows is not that of a formula. *)
Lemma sanitized_not_formula v : is_formula (sanitizeCsvCell v) = false.
Proof. unfold sanitizeCsvCell. cbn zeta. by destruct (is_formula (value_string (or_empty v))) eqn:Hf. Qed.

(** ** Reading a document *)

Lemma csv_read (rows : list (list value)) : read Start [] [] (toCsvRows rows) = shown rows.
Proof.
  unfold toCsvRows. destruct rows as [|row rows]; [done|]. cbn [shown].
  revert row. induction rows as [|row' rows IH]; intros row.
  - cbn [fmap list_fmap join]. rewrite <-(right_id_L [] (++) (join _ _)). rewrite read_row by by left.
    done.
  - change (join [13; 10] ((λ row, join [44] (escapeCsvCell <$> row)) <$> row :: row' :: rows))
      with (join [44] (escapeCsvCell <$> row)
            ++ 13 :: 10 :: join [13; 10] ((λ row, join [44] (escapeCsvCell <$> row)) <$> row' :: rows)).
    rewrite read_row by (right; eauto). unfold finish_row. rewrite (fmap_cons shown_row row). f_equal. apply IH.
Qed.

(** ** The asynchronous export *)

Lemma csv_lines_spec {T} (falsy : T → bool) columns chunkSize rows index csvRows yields :
  (csv_lines falsy columns chunkSize rows index csvRows yields).1
  = csvRows ++ ((λ row, join [44] (escapeCsvCell <$> ((λ c, cell_of c row) <$> columns)))
                <$> bfilter (λ row, negb (falsy row)) rows).
Proof.
  revert index csvRows yields. induction rows as [|row rows IH]; intros index csvRows yields; cbn.
  - by rewrite (right_id_L [] (++)).
  - destruct (falsy row); cbn; rewrite IH; [done|].
    rewrite <-(assoc_L (++)). cbn. by rewrite <-list_fmap_compose.
Qed.

Lemma csv_lines_yields {T} (falsy : T → bool) columns chunkSize rows index csvRows yields :
  0 < chunkSize → 0 ≤ index → (∀ row, row ∈ rows → falsy row = false) →
  Z.of_nat (csv_lines falsy columns chunkSize rows index csvRows yields).2
  = Z.of_nat yields + (index + Z.of_nat (length rows)) / chunkSize - index / chunkSize.
Proof.
  intros Hc. revert index csvRows yields.
  induction rows as [|row rows IH]; intros index csvRows yields Hi Hall; cbn.
  - rewrite Z.add_0_r. lia.
  - rewrite Hall by set_solver. rewrite IH; [|lia|set_solver].
    replace (index + 1 + Z.of_nat (length rows)) with (index + Z.of_nat (S (length rows))) by lia.
    case_bool_decide as Hmod.
    + assert ((index + 1) / chunkSize = index / chunkSize + 1); [|lia].
      apply Z.div_exact in Hmod; [|lia]. set (q := (index + 1) / chunkSize) in *.
      enough (index / chunkSize = q - 1) by lia.
      symmetry. apply Z.div_unique with (r := chunkSize - 1); nia.
    + assert ((index + 1) / chunkSize = index / chunkSize); [|lia].
      pose proof (Z.div_mod index chunkSize ltac:(lia)).
      pose proof (Z.mod_pos_bound index chunkSize Hc).
      destruct (decide (index mod chunkSize = chunkSize - 1)).
      * destruct Hmod. replace (index + 1) with ((index / chunkSize + 1) * chunkSize) by nia.
        apply Z.mod_mul. lia.
      * symmetry. apply Z.div_unique with (r := index mod chunkSize + 1); lia.
Qed.

(** ** Theorems *)

(** A text that a spreadsheet evaluates: white space, then one of the
    characters "=", "+", "-", "@" and "|". *)
Definition risky (text : jsstring) : Prop :=
  ∃ white c rest, text = white ++ c :: rest ∧ (∀ u, u ∈ white → is_space u = true) ∧
    c ∈ [61; 43; 45; 64; 124].

Lemma is_formula_risky text : is_formula text = true ↔ risky text.
Proof.
  unfold is_formula. split.
  - induction text as [|u text IH]; [done|]. cbn [trimStart]. destruct (is_space u) eqn:Hu.
    + intros (white & c & rest & -> & Hw & Hc)%IH. exists (u :: white), c, rest. split_and!; [done| |done].
      intros v [->|Hv]%elem_of_cons; [done|by apply Hw].
    + intros Hc%bool_decide_eq_true. exists [], u, text. split_and!; [done|by intros ? ?%not_elem_of_nil|done].
  - intros (white & c & rest & -> & Hw & Hc). induction white as [|u white IH]; cbn [app trimStart].
    + assert (is_space c = false) as ->; [|by apply bool_decide_eq_true].
      repeat (apply elem_of_cons in Hc as [->|Hc]; [done|]). by apply not_elem_of_nil in Hc.
    + rewrite Hw by (by left). apply IH. intros v Hv. apply Hw. by right.
Qed.

(** The text of a cell: nothing for [null] and [undefined]. *)
Definition plain_text (v : value) : jsstring :=
  match v with VUndefined | VNull => [] | _ => value_string v end.

(** The cell that shows the value. *)
Definition shows_value (v : value) (cell : jsstring) : Prop :=
  (risky (plain_text v) → cell = 39 :: plain_text v) ∧ (¬ risky (plain_text v) → cell = plain_text v).

Lemma sanitize_shows v : shows_value v (sanitizeCsvCell v).
Proof.
  unfold shows_value, sanitizeCsvCell. cbn zeta. rewrite <-is_formula_risky.
  replace (value_string (or_empty v)) with (plain_text v) by (by destruct v).
  destruct (is_formula (plain_text v)); by split.
Qed.

(** C27: a spreadsheet that opens the exported text finds exactly the records
    and cells that were written, whatever quotes, commas and line breaks the
    cells contain.  The reader of RFC 4180 finds one record per row and one
    cell per value (one empty cell for an empty row, and for no rows at all);
    the cell of a value is its text (empty for null and undefined), with an
    apostrophe before it exactly if the text is risky, that is starts, after
    any white space, with "=", "+", "-", "@" or "|"; and no cell it finds
    is risky. *)
Theorem csv_roundtrip (rows : list (list value)) :
  let records := read Start [] [] (toCsvRows rows) in
  (rows = [] → records = [[[]]]) ∧
  (rows ≠ [] → Forall2 (λ row record,
     (row = [] → record = [[]]) ∧ (row ≠ [] → Forall2 shows_value row record)) rows records) ∧
  Forall (Forall (λ cell, ¬ risky cell)) records.
Proof.
  cbn zeta. rewrite csv_read. split_and!; [by intros ->| |].
  - intros Hne. destruct rows as [|row0 rows]; [done|]. cbn [shown]. apply Forall2_fmap_r, Forall_Forall2_diag, Forall_forall.
    intros row _. split; [by intros ->|]. intros Hrow. destruct row as [|v row]; [done|]. cbn [shown_row].
    apply Forall2_fmap_r, Forall_Forall2_diag, Forall_forall. intros w _. apply sanitize_shows.
  - assert (¬ risky []) as Hnil by by rewrite <-is_formula_risky.
    assert (∀ v, ¬ risky (sanitizeCsvCell v)) as Hv.
    { intros v. rewrite <-is_formula_risky. by rewrite sanitized_not_formula. }
    destruct rows as [|row0 rows]; cbn [shown]; [by repeat constructor|]. apply Forall_fmap, Forall_forall.
    intros [|v row] _; cbn; [by repeat constructor|]. constructor; [apply Hv|]. apply Forall_fmap, Forall_forall.
    intros w _. apply Hv.
Qed.

(** The export that yields to the browser between chunks writes the text of
    the synchronous export, for every chunk size, and on rows that are objects
    it yields once per full chunk. *)
Theorem snapshot_async_same {T} (falsy : T → bool) (columns : list (SnapshotCsvColumn T)) (rows : list T)
    (chunkSize : Z) :
  (∀ row, row ∈ rows → falsy row = false) → 0 < chunkSize →
  (buildSnapshotCsvAsync falsy columns rows chunkSize).1 = buildSnapshotCsv columns rows ∧
  Z.of_nat (buildSnapshotCsvAsync falsy columns rows chunkSize).2 = Z.of_nat (length rows) / chunkSize.
Proof.
  intros Hall Hc. unfold buildSnapshotCsvAsync. set (header := join _ _).
  pose proof (csv_lines_spec falsy columns chunkSize rows 0 [header] 0) as Hl.
  pose proof (csv_lines_yields falsy columns chunkSize rows 0 [header] 0 Hc ltac:(lia) Hall) as Hy.
  destruct (csv_lines _ _ _ _ _ _ _) as [csvRows yields]. cbn in Hl, Hy. cbn [fst snd]. split.
  - rewrite Hl, bfilter_all by (intros; by rewrite Hall). unfold buildSnapshotCsv, toCsvRows, header.
    rewrite fmap_cons, <-!list_fmap_compose. done.
  - rewrite Hy, Z.div_0_l by lia. change (Z.of_nat 0) with 0. by rewrite !Z.add_0_l, Z.sub_0_r.
Qed.

Example snapshot_async_same_witness :
  let columns := [{| label := js "a"; cell_of := λ n : nat, VNum (num_of_Z (Z.of_nat n)) |}] in
  (buildSnapshotCsvAsync (λ _, false) columns [1; 2; 3]%nat 2).1 = buildSnapshotCsv columns [1; 2; 3]%nat.
Proof. intros columns. apply (snapshot_async_same (λ _, false) columns [1; 2; 3]%nat 2); [done|lia]. Defined.

End Csv.
