(* ===== verification/Markdown.v ===== *)
(** * HTML escaping and the Markdown of the alert banner

    [glass-shared/utils/html.ts] and [glass-shared/utils/markdown.ts].  The
    regular expressions of the parser have at most one way to match (each
    repeated class excludes the delimiter that follows it), so each is a
    deterministic function that returns the groups and the rest of the text. *)

From S2P Require Import Prelude JsMap JsString.

Open Scope Z_scope.

Module Html.

(** [escapeHTML] *)
Definition escape_char (u : Z) : jsstring :=
  if bool_decide (u = 38) then js "&amp;"
  else if bool_decide (u = 60) then js "&lt;"
  else if bool_decide (u = 62) then js "&gt;"
  else if bool_decide (u = 34) then js "&quot;"
  else if bool_decide (u = 39) then js "&#39;"
  else [u].

Definition escapeHTML (value : jsstring) : jsstring := value ≫= escape_char.

(** What a browser shows for text with these character references. *)
Fixpoint shown_fuel (fuel : nat) (s : jsstring) : jsstring :=
  match fuel, s with
  | S fuel, u :: s' =>
      let references := [(js "&amp;", 38); (js "&lt;", 60); (js "&gt;", 62);
                         (js "&quot;", 34); (js "&#39;", 39)] in
      match list_find_first (λ r, startsWith s r.1) references with
      | Some (r, c) => c :: shown_fuel fuel (drop (length r) s)
      | None => u :: shown_fuel fuel s'
      end
  | _, _ => []
  end.
Definition shown (s : jsstring) : jsstring := shown_fuel (length s) s.

(** Evaluates the string literals of the goal and the hypotheses. *)
Ltac eval_js :=
  repeat match goal with
  | |- context [js ?s] => let v := eval vm_compute in (js s) in change (js s) with v
  | H : context [js ?s] |- _ => let v := eval vm_compute in (js s) in change (js s) with v in H
  end.

Lemma shown_fuel_char u rest fuel :
  shown_fuel (S fuel) (escape_char u ++ rest) = u :: shown_fuel fuel rest.
Proof.
  unfold escape_char. eval_js. repeat case_bool_decide; subst; try (by destruct rest).
  cbn [app shown_fuel]. eval_js. cbn. by rewrite (bool_decide_eq_false_2 (38 = u)).
Qed.

Lemma shown_fuel_escape s fuel :
  (length (escapeHTML s) ≤ fuel)%nat → shown_fuel fuel (escapeHTML s) = s.
Proof.
  revert fuel. induction s as [|u s IH]; intros fuel Hf; [by destruct fuel|].
  unfold escapeHTML in *. rewrite bind_cons in *. rewrite length_app in Hf.
  assert (1 ≤ length (escape_char u))%nat by (unfold escape_char; eval_js; repeat case_bool_decide; cbn; lia).
  destruct fuel as [|fuel]; [lia|]. rewrite shown_fuel_char. f_equal. apply IH. lia.
Qed.

(** Text that is inserted into markup with [escapeHTML] cannot open a tag,
    end an attribute value or start a character reference of its own, and the
    browser shows the text as it was. *)
Theorem escape_html_safe (value : jsstring) :
  (∀ u, u ∈ escapeHTML value → u ∉ [60; 62; 34; 39]) ∧ shown (escapeHTML value) = value.
Proof.
  split; [|by apply shown_fuel_escape].
  intros u (v & Hv & _)%list_elem_of_bind. revert Hv. unfold escape_char. eval_js.
  repeat case_bool_decide; set_solver by lia.
Qed.

End Html.

Module Markdown.

Inductive Token :=
  | Text (content : jsstring)
  | Bold (content : jsstring)
  | Italic (content : jsstring)
  | Link (content url : jsstring)
  | Image (alt url : jsstring)
  | Code (content : jsstring)
  | Br.

(** ** The regular expressions *)

(** A literal at the start of the text: the rest. *)
Definition strip (p s : jsstring) : option jsstring :=
  if startsWith s p then Some (drop (length p) s) else None.

(** [\[^c\]*]: everything up to the first [c]. *)
Fixpoint run (c : Z) (s : jsstring) : jsstring * jsstring :=
  match s with
  | [] => ([], [])
  | u :: s' => if bool_decide (u = c) then ([], s) else let '(a, r) := run c s' in (u :: a, r)
  end.

(** [\[^c\]+] *)
Definition run1 (c : Z) (s : jsstring) : option (jsstring * jsstring) :=
  match run c s with ([], _) => None | p => Some p end.

(** [(\[^)\]+)], with its parentheses. *)
Definition target (s : jsstring) : option (jsstring * jsstring) :=
  s ← strip (js "(") s; '(url, s) ← run1 41 s; s ← strip (js ")") s; Some (url, s).

Definition IMAGE (s : jsstring) : option (Token * jsstring) :=
  s ← strip (js "![") s; let '(alt, s) := run 93 s in
  s ← strip (js "]") s; '(url, s) ← target s; Some (Image alt url, s).

Definition LINK (s : jsstring) : option (Token * jsstring) :=
  s ← strip (js "[") s; '(content, s) ← run1 93 s;
  s ← strip (js "]") s; '(url, s) ← target s; Some (Link content url, s).

(** A run without [c] between two delimiters. *)
Definition delimited (d : jsstring) (c : Z) (s : jsstring) : option (jsstring * jsstring) :=
  s ← strip d s; '(content, s) ← run1 c s; s ← strip d s; Some (content, s).

Definition or_else {A} (x y : option A) : option A := match x with Some _ => x | None => y end.

Definition BOLD (s : jsstring) : option (Token * jsstring) :=
  '(content, s) ← or_else (delimited (js "**") 42 s) (delimited (js "__") 95 s); Some (Bold content, s).

Definition ITALIC (s : jsstring) : option (Token * jsstring) :=
  '(content, s) ← or_else (delimited (js "*") 42 s) (delimited (js "_") 95 s); Some (Italic content, s).

Definition CODE (s : jsstring) : option (Token * jsstring) :=
  '(content, s) ← delimited (js "`") 96 s; Some (Code content, s).

(** [NEXT_SPECIAL_REGEX]: the text before and from the first special character. *)
Definition is_special (u : Z) : bool := bool_decide (u ∈ [33; 91; 42; 95; 96; 10]).

Fixpoint search (s : jsstring) : jsstring * jsstring :=
  match s with
  | [] => ([], [])
  | u :: s' => if is_special u then ([], s) else let '(a, r) := search s' in (u :: a, r)
  end.

(** ** Escaping and parsing *)

Definition replace (c : Z) (by_ : jsstring) (s : jsstring) : jsstring :=
  s ≫= λ u, if bool_decide (u = c) then by_ else [u].

Definition escapeHtml (text : jsstring) : jsstring :=
  replace 62 (js "&gt;") (replace 60 (js "&lt;") (replace 38 (js "&amp;") text)).

(** The end of the loop body: a line break or plain text.  When no special
    character is left the rest of the text is one token and the loop ends. *)
Definition plain (s : jsstring) : Token * jsstring :=
  match s with
  | 10 :: s => (Br, s)
  | u :: s' =>
      match search s with
      | ([], _) => (Text (escapeHtml [u]), s')
      | (a, r) => (Text (escapeHtml a), r)
      end
  | [] => (Text [], [])
  end.

(** One turn of the loop. *)
Definition token (s : jsstring) : Token * jsstring :=
  match or_else (IMAGE s) (or_else (LINK s) (or_else (BOLD s) (or_else (ITALIC s) (CODE s)))) with
  | Some p => p
  | None => plain s
  end.

Fixpoint parse (fuel : nat) (remaining : jsstring) : list Token :=
  match fuel, remaining with
  | S fuel, _ :: _ => let '(t, s) := token remaining in t :: parse fuel s
  | _, _ => []
  end.

Definition parseMarkdown (text : jsstring) : list Token := parse (length text) text.

(** [sanitizeMarkdownUrl]: [protocol] is [new URL(url, origin).protocol], or
    [None] when the constructor throws. *)
Inductive url_type := link | image.

Definition sanitizeMarkdownUrl (protocol : jsstring → option jsstring) (url : option jsstring)
    (type : url_type) : option jsstring :=
  match url with
  | None | Some [] => None
  | Some url =>
      let normalized := trim url in
      if bool_decide (normalized = []) then None
      else if startsWith normalized (js "/") || startsWith normalized (js "./")
           || startsWith normalized (js "../") || startsWith normalized (js "#")
      then Some normalized
      else match protocol normalized with
        | None => None
        | Some p =>
            let allowed := match type with
              | image => [js "http:"; js "https:"; js "data:"]
              | link => [js "http:"; js "https:"; js "mailto:"; js "tel:"]
              end in
            if bool_decide (p ∈ allowed) then Some normalized else None
        end
  end.

(** ** What the regular expressions match *)

Lemma strip_Some p s r : strip p s = Some r → s = p ++ r.
Proof.
  unfold strip. case_match eqn:Hp; [|done]. intros [= <-].
  apply startsWith_prefix in Hp as [k ->]. by rewrite drop_app_length.
Qed.

Lemma run_app c s a r : run c s = (a, r) → s = a ++ r.
Proof.
  revert a r. induction s as [|u s IH]; cbn; intros a r; [by intros [= <- <-]|].
  case_bool_decide; [by intros [= <- <-]|]. destruct (run c s) as [a' r'].
  intros [= <- <-]. cbn. f_equal. by apply IH.
Qed.

Lemma run1_Some c s a r : run1 c s = Some (a, r) → s = a ++ r ∧ a ≠ [].
Proof.
  unfold run1. destruct (run c s) as [[|u a'] r'] eqn:Hr; [done|]. intros [= <- <-].
  by apply run_app in Hr as ->.
Qed.

(** The source text a token may stand for. *)
Definition spelled (t : Token) (piece : jsstring) : Prop :=
  match t with
  | Text c => c = escapeHtml piece ∧ piece ≠ []
  | Bold c => c ≠ [] ∧ (piece = js "**" ++ c ++ js "**" ∨ piece = js "__" ++ c ++ js "__")
  | Italic c => c ≠ [] ∧ (piece = js "*" ++ c ++ js "*" ∨ piece = js "_" ++ c ++ js "_")
  | Link c url => c ≠ [] ∧ url ≠ [] ∧ piece = js "[" ++ c ++ js "](" ++ url ++ js ")"
  | Image alt url => url ≠ [] ∧ piece = js "![" ++ alt ++ js "](" ++ url ++ js ")"
  | Code c => c ≠ [] ∧ piece = js "`" ++ c ++ js "`"
  | Br => piece = [10]
  end.

(** A matcher that returns a token has consumed its spelling. *)
Definition consumes (s : jsstring) (o : option (Token * jsstring)) : Prop :=
  ∀ t r, o = Some (t, r) → ∃ piece, s = piece ++ r ∧ spelled t piece.

Lemma delimited_Some d c s a r : delimited d c s = Some (a, r) → s = (d ++ a ++ d) ++ r ∧ a ≠ [].
Proof.
  unfold delimited. intros Hs.
  destruct (strip d s) as [s1|] eqn:H1; [|done]; cbn [mbind option_bind] in Hs. apply strip_Some in H1 as ->.
  destruct (run1 c s1) as [[a' s2]|] eqn:H2; [|done]; cbn [mbind option_bind] in Hs. apply run1_Some in H2 as [-> ?].
  destruct (strip d s2) as [s3|] eqn:H3; [|done]; cbn [mbind option_bind] in Hs. apply strip_Some in H3 as ->.
  injection Hs as <- <-. by rewrite <-!(assoc_L (++)).
Qed.

Lemma target_Some s url r : target s = Some (url, r) → s = js "(" ++ url ++ js ")" ++ r ∧ url ≠ [].
Proof.
  unfold target. intros Hs.
  destruct (strip (js "(") s) as [s1|] eqn:H1; [|done]; cbn [mbind option_bind] in Hs. apply strip_Some in H1 as ->.
  destruct (run1 41 s1) as [[a' s2]|] eqn:H2; [|done]; cbn [mbind option_bind] in Hs. apply run1_Some in H2 as [-> ?].
  destruct (strip _ s2) as [s3|] eqn:H3; [|done]; cbn [mbind option_bind] in Hs. apply strip_Some in H3 as ->.
  by injection Hs as <- <-.
Qed.

Lemma consumes_or s x y : consumes s x → consumes s y → consumes s (or_else x y).
Proof. intros Hx Hy t r. destruct x; cbn; eauto. Qed.

Lemma IMAGE_consumes s : consumes s (IMAGE s).
Proof.
  intros t r Hs. unfold IMAGE in Hs.
  destruct (strip (js "![") s) as [s1|] eqn:H1; [|done]; cbn [mbind option_bind] in Hs. apply strip_Some in H1 as ->.
  destruct (run 93 s1) as [alt s2] eqn:H2. apply run_app in H2 as ->.
  destruct (strip (js "]") s2) as [s3|] eqn:H3; [|done]; cbn [mbind option_bind] in Hs. apply strip_Some in H3 as ->.
  destruct (target s3) as [[url s4]|] eqn:H4; [|done]; cbn [mbind option_bind] in Hs. apply target_Some in H4 as [-> ?].
  injection Hs as <- <-.
  eexists. split; [|split; [done|reflexivity]]. by rewrite <-!(assoc_L (++)).
Qed.

Lemma LINK_consumes s : consumes s (LINK s).
Proof.
  intros t r Hs. unfold LINK in Hs.
  destruct (strip (js "[") s) as [s1|] eqn:H1; [|done]; cbn [mbind option_bind] in Hs. apply strip_Some in H1 as ->.
  destruct (run1 93 s1) as [[c s2]|] eqn:H2; [|done]; cbn [mbind option_bind] in Hs. apply run1_Some in H2 as [-> ?].
  destruct (strip (js "]") s2) as [s3|] eqn:H3; [|done]; cbn [mbind option_bind] in Hs. apply strip_Some in H3 as ->.
  destruct (target s3) as [[url s4]|] eqn:H4; [|done]; cbn [mbind option_bind] in Hs. apply target_Some in H4 as [-> ?].
  injection Hs as <- <-.
  eexists. split; [|split; [done|split; [done|reflexivity]]]. by rewrite <-!(assoc_L (++)).
Qed.

(** A construct with one of two delimiters. *)
Lemma emphasis_Some d1 c1 d2 c2 s a r :
  or_else (delimited d1 c1 s) (delimited d2 c2 s) = Some (a, r) →
  ∃ piece, s = piece ++ r ∧ a ≠ [] ∧ (piece = d1 ++ a ++ d1 ∨ piece = d2 ++ a ++ d2).
Proof.
  destruct (delimited d1 c1 s) as [[]|] eqn:H1; cbn; intros Hs.
  - injection Hs as <- <-. apply delimited_Some in H1 as [-> ?]. eauto 10.
  - apply delimited_Some in Hs as [-> ?]. eauto 10.
Qed.

Lemma BOLD_consumes s : consumes s (BOLD s).
Proof.
  intros t r Hs. unfold BOLD in Hs. destruct (or_else _ _) as [[]|] eqn:He; [|done]; injection Hs as <- <-.
  apply emphasis_Some in He as (piece & -> & ? & ?). exists piece. done.
Qed.

Lemma ITALIC_consumes s : consumes s (ITALIC s).
Proof.
  intros t r Hs. unfold ITALIC in Hs. destruct (or_else _ _) as [[]|] eqn:He; [|done]; injection Hs as <- <-.
  apply emphasis_Some in He as (piece & -> & ? & ?). exists piece. done.
Qed.

Lemma CODE_consumes s : consumes s (CODE s).
Proof.
  intros t r Hs. unfold CODE in Hs. destruct (delimited _ _ _) as [[]|] eqn:He; [|done]; injection Hs as <- <-.
  apply delimited_Some in He as [-> ?]. eexists. split; [reflexivity|]. done.
Qed.

Lemma search_app s a r : search s = (a, r) → s = a ++ r.
Proof.
  revert a r. induction s as [|u s IH]; cbn; intros a r; [by intros [= <- <-]|].
  case_match; [by intros [= <- <-]|]. destruct (search s) as [a' r'].
  intros [= <- <-]. cbn. f_equal. by apply IH.
Qed.

Lemma plain_consumes s : s ≠ [] → consumes s (Some (plain s)).
Proof.
  intros Hs t r Ht. destruct s as [|u s]; [done|].
  destruct (decide (u = 10)) as [->|Hu].
  - injection Ht as <- <-. by exists [10].
  - assert (plain (u :: s) = match search (u :: s) with
      | ([], _) => (Text (escapeHtml [u]), s) | (a, r) => (Text (escapeHtml a), r) end) as Heq.
    { unfold plain. repeat (case_match; try done). }
    rewrite Heq in Ht. destruct (search (u :: s)) as [[|v a] r'] eqn:Hr; injection Ht as <- <-.
    + by exists [u].
    + apply search_app in Hr. by exists (v :: a).
Qed.

#[local] Hint Resolve consumes_or IMAGE_consumes LINK_consumes BOLD_consumes ITALIC_consumes
  CODE_consumes : js.

Lemma token_consumes s : s ≠ [] → consumes s (Some (token s)).
Proof.
  intros Hs. unfold token. destruct (or_else _ _) as [p|] eqn:Hp; [|by apply plain_consumes].
  rewrite <-Hp. eauto 10 with js.
Qed.

Lemma spelled_ne t piece : spelled t piece → piece ≠ [].
Proof. destruct t; cbn [spelled]; intros Hs ->; Html.eval_js; intuition (try done). Qed.

(** ** Theorems *)

(** Parsing loses nothing and always ends: the text is the concatenation of
    the spellings of the tokens, in order, and plain text is the only part that
    is escaped. *)
Theorem markdown_lossless (text : jsstring) :
  ∃ pieces, text = concat pieces ∧ Forall2 spelled (parseMarkdown text) pieces.
Proof.
  unfold parseMarkdown. assert (length text ≤ length text)%nat as Hf by done. revert Hf.
  generalize (length text) at 2 3; intros fuel. revert text.
  induction fuel as [|fuel IH]; intros [|u text] Hf; try (by exists []); [cbn in Hf; lia|].
  cbn [parse]. destruct (token (u :: text)) as [t s] eqn:Ht.
  destruct (token_consumes (u :: text) ltac:(done) t s ltac:(by rewrite Ht)) as (piece & Heq & Hsp).
  destruct (IH s) as (pieces & -> & Hall).
  - apply spelled_ne in Hsp. apply (f_equal length) in Heq. rewrite length_app in Heq.
    destruct piece; [done|]. cbn in *. lia.
  - exists (piece :: pieces). split; [done|]. by constructor.
Qed.

(** Plain text is escaped by the parser, and once more by the view, which
    renders it as text: an ampersand is shown as five characters. *)
Theorem plain_text_escaped_twice :
  parseMarkdown (js "Q&A **Q&A**") = [Text (js "Q&amp;A "); Bold (js "Q&A")].
Proof. vm_compute. reflexivity. Qed.

End Markdown.
