(* ===== verification/RecordHelper.v ===== *)
(** * Records for charts

    [glass-shared/utils/recordHelper.ts]: records on a regular time grid
    ([fillMissingTimePoints]), linear interpolation ([interpolateNullsLinear])
    and the smoothing of the latency chart ([cutPeakValues]).  A record is a
    JSON object.  [dayjs] is a parameter: the time stamp in milliseconds of a
    value, or [None] for an invalid date, whose [valueOf] is NaN.  The interval,
    the length of the window and the tolerance are whole numbers of seconds;
    the source accepts any number. *)

From Stdlib Require Import SpecFloat.
From S2P Require Import Prelude JsMap JsString Json JsValue.

Open Scope Z_scope.

Module RecordHelper.

Abbreviation AnyRecord := (jsmap string json).

(** ** Null template *)

Fixpoint createNullTemplate (obj : json) : json :=
  match obj with
  | JNull | JNum _ => JNull
  | JStr _ | JBool _ => obj
  | JArr l => JArr (createNullTemplate <$> l)
  | JObj m =>
      JObj ((fix fields m := match m with
        | [] => []
        | (k, v) :: m =>
            if bool_decide (k ∈ ["updated_at"; "time"]%string) then fields m
            else (k, createNullTemplate v) :: fields m
        end) m)
  end.

(** ** Time grid *)

Section grid.
Context (dayjs : json → option Z) (toISOString : Z → jsstring).

(** [r.time ?? r.updated_at ?? ''] *)
Definition time_value (r : AnyRecord) : json :=
  match jm_get "time"%string r with
  | Some JNull | None =>
      match jm_get "updated_at"%string r with Some JNull | None => JStr [] | Some v => v end
  | Some v => v
  end.

Definition getTime (r : AnyRecord) : option Z := dayjs (time_value r).

(** [timedData.sort((a, b) => a.timeMs - b.timeMs)]; a difference that is NaN
    counts as equal. *)
Definition time_ltb (a b : AnyRecord) : bool :=
  match getTime a, getTime b with Some s, Some t => bool_decide (s < t) | _, _ => false end.

Fixpoint insert_time (x : AnyRecord) (l : list AnyRecord) : list AnyRecord :=
  match l with
  | [] => [x]
  | y :: l' => if time_ltb y x then y :: insert_time x l' else x :: l
  end.

Definition sort_times (l : list AnyRecord) : list AnyRecord := foldr insert_time [] l.

(** [for (let t = start; t <= end; t += interval)]: [None] when the fuel runs
    out, as it does when the interval is not positive. *)
Fixpoint time_points (fuel : nat) (t end_ interval : Z) : option (list Z) :=
  if bool_decide (t ≤ end_) then
    match fuel with
    | O => None
    | S fuel => cons t <$> time_points fuel (t + interval) end_ interval
    end
  else Some [].

(** The inner [while]: skips what is too old.  [rest] is [timedData] from
    [dataIdx] on. *)
Fixpoint skip_old (bound : Z) (rest : list AnyRecord) : list AnyRecord :=
  match rest with
  | d :: rest' =>
      match getTime d with
      | Some time => if bool_decide (time < bound) then skip_old bound rest' else rest
      | None => rest
      end
  | [] => []
  end.

Definition matching (tolerance t : Z) (d : AnyRecord) : bool :=
  match getTime d with Some time => bool_decide (Z.abs (time - t) ≤ tolerance) | None => false end.

Definition filled_point (tolerance : Z) (template : AnyRecord) (t : Z) (current : option AnyRecord)
    : AnyRecord :=
  match current with
  | Some d => if matching tolerance t d then jm_set "time"%string (JStr (toISOString t)) d
              else jm_set "time"%string (JStr (toISOString t)) template
  | None => jm_set "time"%string (JStr (toISOString t)) template
  end.

Fixpoint fill_points (tolerance : Z) (template : AnyRecord) (rest : list AnyRecord) (points : list Z)
    : list AnyRecord :=
  match points with
  | [] => []
  | t :: points =>
      let rest := skip_old (t - tolerance) rest in
      filled_point tolerance template t (head rest) :: fill_points tolerance template rest points
  end.

Definition template_fields (v : json) : AnyRecord := match v with JObj m => m | _ => [] end.

(** Where the grid starts: [None] is NaN. *)
Definition grid_start (first_ : option Z) (end_ interval : Z) (totalSeconds : option Z) : option Z :=
  match totalSeconds with
  | Some total => if bool_decide (0 < total) then Some (end_ - total * 1000 + interval) else first_
  | None => first_
  end.

Definition fillMissingTimePoints (data : list AnyRecord) (intervalSec : Z) (totalSeconds : option Z)
    (matchToleranceSec : option Z) : option (list AnyRecord) :=
  let timedData := sort_times data in
  match head timedData, last timedData with
  | Some firstItem, Some lastItem =>
      let interval := intervalSec * 1000 in
      match getTime lastItem with
      | Some end_ =>
          match grid_start (getTime firstItem) end_ interval totalSeconds with
          | Some start =>
              let template := template_fields (createNullTemplate (JObj lastItem)) in
              let tolerance := default intervalSec matchToleranceSec * 1000 in
              fill_points tolerance template timedData
                <$> time_points (Z.to_nat (end_ - start + 1)) start end_ interval
          | None => Some []
          end
      | None => Some []
      end
  | _, _ => Some []
  end.

(** *** The grid *)

Lemma time_points_spec fuel t end_ interval :
  0 < interval → (Z.to_nat (end_ - t + 1) ≤ fuel)%nat →
  ∃ l, time_points fuel t end_ interval = Some l ∧
    (∀ i x, l !! i = Some x → x = t + Z.of_nat i * interval ∧ x ≤ end_) ∧
    (t + Z.of_nat (length l) * interval > end_).
Proof using.
  intros Hi. revert t. induction fuel as [|fuel IH]; intros t Hf; cbn [time_points];
    (case_bool_decide as Ht; [|exists []; cbn; split_and!; [done|by intros ?|lia]]); [lia|].
  destruct (IH (t + interval)) as (l & -> & Hl & Hend); [lia|].
  exists (t :: l). cbn. split_and!; [done| |lia].
  intros [|i] x; cbn; [intros [= ->]; lia|]. intros Hx. apply Hl in Hx as [-> ?]. lia.
Qed.

(** *** Sorted data *)

Definition stamp (d : AnyRecord) : Z := default 0 (getTime d).

Lemma insert_time_on x l :
  is_Some (getTime x) → Forall (λ d, is_Some (getTime d)) l → insert_time x l = insert_on stamp x l.
Proof using.
  intros [tx Hx] Hl. induction Hl as [|y l [ty Hy] Hl IH]; [done|]. cbn.
  unfold time_ltb, stamp. rewrite Hx, Hy. cbn. by rewrite IH.
Qed.

Lemma sort_times_on l : Forall (λ d, is_Some (getTime d)) l → sort_times l = sort_on stamp l.
Proof using.
  induction 1 as [|x l Hx Hl IH]; [done|].
  change (insert_time x (sort_times l) = insert_on stamp x (sort_on stamp l)). rewrite IH.
  apply insert_time_on; [done|].
  by rewrite sort_on_perm.
Qed.

(** Skipping for a later point can start where an earlier point stopped. *)
Lemma skip_old_twice b1 b2 rest :
  b1 ≤ b2 → skip_old b2 (skip_old b1 rest) = skip_old b2 rest.
Proof using.
  intros Hb. induction rest as [|d rest IH]; [done|]. cbn.
  destruct (getTime d) as [td|] eqn:Hd; [|cbn; by rewrite Hd].
  case_bool_decide; cbn; [|by rewrite Hd]. rewrite IH. by rewrite bool_decide_eq_true_2 by lia.
Qed.

(** The two-pointer pass is a search from the start for every point. *)
Lemma fill_points_search tolerance template rest points :
  Sorted Z.le points →
  fill_points tolerance template rest points
  = (λ t, filled_point tolerance template t (head (skip_old (t - tolerance) rest))) <$> points.
Proof using.
  intros Hs%Sorted_StronglySorted; [|intros ???; lia]. revert rest.
  induction Hs as [|t points Hs IH Hall]; intros rest; [done|]. cbn [fill_points fmap list_fmap].
  cbn zeta. rewrite IH. f_equal. apply list_fmap_ext. intros i t' Ht'.
  rewrite skip_old_twice; [done|]. rewrite Forall_forall in Hall.
  apply list_elem_of_lookup_2, Hall in Ht'. lia.
Qed.

Definition within (tolerance t : Z) (d : AnyRecord) : Prop := Z.abs (stamp d - t) ≤ tolerance.

(** In sorted data the first record that is not too old is in the tolerance
    when any record is. *)
Lemma first_in_tolerance tolerance t rest :
  StronglySorted (on_le stamp) rest → Forall (λ d, is_Some (getTime d)) rest →
  match head (skip_old (t - tolerance) rest) with
  | Some d => d ∈ rest ∧ (matching tolerance t d = true ∧ within tolerance t d
              ∨ matching tolerance t d = false ∧ ∀ d', d' ∈ rest → ¬ within tolerance t d')
  | None => ∀ d', d' ∈ rest → ¬ within tolerance t d'
  end.
Proof using.
  clear toISOString. intros Hs Hv. induction Hs as [|d rest Hs IH Hall]; [cbn; set_solver|].
  apply Forall_cons in Hv as [[td Hd] Hv]. specialize (IH Hv). cbn. rewrite Hd.
  assert (stamp d = td) as Hst by (unfold stamp; by rewrite Hd).
  case_bool_decide as Hlt.
  - assert (¬ within tolerance t d) by (unfold within; lia).
    destruct (head _); [destruct IH as [? [[]|[]]]|]; set_solver.
  - cbn. split; [set_solver|]. unfold matching. rewrite Hd. case_bool_decide as Hm.
    + left. unfold within. by rewrite Hst.
    + right. split; [done|]. intros d' [->|Hd']%elem_of_cons; unfold within; [lia|].
      rewrite Forall_forall in Hall. specialize (Hall d' Hd'). unfold on_le in Hall. lia.
Qed.

Lemma grid_sorted (l : list Z) t interval :
  0 < interval → (∀ i x, l !! i = Some x → x = t + Z.of_nat i * interval) → Sorted Z.le l.
Proof using.
  intros Hi. revert t. induction l as [|x l IH]; intros t Hl; constructor.
  - apply (IH (t + interval)). intros i y Hy. specialize (Hl (S i) y Hy). lia.
  - destruct l as [|y l]; constructor. pose proof (Hl 0%nat x eq_refl). pose proof (Hl 1%nat y eq_refl). lia.
Qed.

(** What a point of the grid may hold. *)
Definition point_ok (tolerance : Z) (template : AnyRecord) (data : list AnyRecord) (t : Z) (r : AnyRecord)
    : Prop :=
  (∃ d, d ∈ data ∧ within tolerance t d ∧ r = jm_set "time"%string (JStr (toISOString t)) d) ∨
  ((∀ d, d ∈ data → ¬ within tolerance t d) ∧ r = jm_set "time"%string (JStr (toISOString t)) template).

Lemma filled_point_ok tolerance template rest t :
  StronglySorted (on_le stamp) rest → Forall (λ d, is_Some (getTime d)) rest →
  point_ok tolerance template rest t
    (filled_point tolerance template t (head (skip_old (t - tolerance) rest))).
Proof using.
  intros Hs Hv. pose proof (first_in_tolerance tolerance t rest Hs Hv) as Hf. unfold filled_point.
  destruct (head _) as [d|]; [|by right]. destruct Hf as [Hd [[-> Hw]|[-> Hw]]]; [left; eauto|by right].
Qed.

Lemma point_ok_perm tolerance template data data' t r :
  data ≡ₚ data' → point_ok tolerance template data t r → point_ok tolerance template data' t r.
Proof using. unfold point_ok. intros Hp. by setoid_rewrite Hp. Qed.

(** The ends of sorted data. *)
Lemma sorted_ends (l : list AnyRecord) first_ last_ :
  StronglySorted (on_le stamp) l → head l = Some first_ → last l = Some last_ →
  first_ ∈ l ∧ last_ ∈ l ∧ ∀ d, d ∈ l → stamp first_ ≤ stamp d ≤ stamp last_.
Proof using.
  clear toISOString. intros Hs Hh Hl. destruct l as [|x l]; [done|]. injection Hh as ->.
  pose proof (last_Some_elem_of _ _ Hl) as Hin. split_and!; [by left|done|].
  intros d Hd. split.
  - apply StronglySorted_inv in Hs as [_ Hall]. rewrite Forall_forall in Hall.
    apply elem_of_cons in Hd as [->|Hd]; [done|]. by apply Hall.
  - apply last_Some in Hl as [l' Hl]. rewrite Hl in Hs, Hd.
    apply elem_of_app in Hd as [Hd|Hd%list_elem_of_singleton]; [|by subst].
    exact (StronglySorted_app_1_elem_of _ _ _ d last_ Hs Hd ltac:(by left)).
Qed.

(** What the grid starts from. *)
Definition starts_at (data : list AnyRecord) (end_ interval : Z) (totalSeconds : option Z) (start : Z) : Prop :=
  match totalSeconds with
  | Some total => if bool_decide (0 < total) then start = end_ - total * 1000 + interval
                  else (∃ d, d ∈ data ∧ stamp d = start) ∧ ∀ d, d ∈ data → start ≤ stamp d
  | None => (∃ d, d ∈ data ∧ stamp d = start) ∧ ∀ d, d ∈ data → start ≤ stamp d
  end.

Lemma grid_start_spec data first_ end_ interval totalSeconds :
  first_ ∈ data → (∀ d, d ∈ data → stamp first_ ≤ stamp d) → is_Some (getTime first_) →
  ∃ start, grid_start (getTime first_) end_ interval totalSeconds = Some start ∧
    starts_at data end_ interval totalSeconds start.
Proof using.
  clear toISOString. intros Hin Hmin [t Ht].
  assert (stamp first_ = t) as Hst by (unfold stamp; by rewrite Ht). rewrite Ht, Hst in *.
  unfold grid_start, starts_at. destruct totalSeconds as [total|]; [case_bool_decide|]; naive_solver.
Qed.

Lemma starts_at_perm data data' end_ interval totalSeconds start :
  data ≡ₚ data' → starts_at data end_ interval totalSeconds start →
  starts_at data' end_ interval totalSeconds start.
Proof using.
  unfold starts_at. intros Hp. destruct totalSeconds as [total|]; [case_bool_decide; [done|]|];
    by setoid_rewrite Hp.
Qed.

End grid.

(** C35: filling a series puts it on the whole grid.  For records with valid
    times and a positive interval the loop ends; the result has one point for
    each multiple of the interval from the start of the window to the last
    record, stamped with its grid time; a point holds a record that is within
    the tolerance when there is one, and the null template when there is none. *)
Theorem fill_exact (dayjs : json → option Z) (toISOString : Z → jsstring) (data : list AnyRecord)
    (intervalSec : Z) (totalSeconds matchToleranceSec : option Z) :
  data ≠ [] → Forall (λ d, is_Some (getTime dayjs d)) data → 0 < intervalSec →
  let interval := intervalSec * 1000 in
  let tolerance := default intervalSec matchToleranceSec * 1000 in
  ∃ (start : Z) (last_ : AnyRecord) (filled : list AnyRecord),
    fillMissingTimePoints dayjs toISOString data intervalSec totalSeconds matchToleranceSec = Some filled ∧
    last_ ∈ data ∧ (∀ d, d ∈ data → stamp dayjs d ≤ stamp dayjs last_) ∧
    starts_at dayjs data (stamp dayjs last_) interval totalSeconds start ∧
    (∀ i : nat, (i < length filled)%nat ↔ start + Z.of_nat i * interval ≤ stamp dayjs last_) ∧
    ∀ i r, filled !! i = Some r →
      point_ok dayjs toISOString tolerance (template_fields (createNullTemplate (JObj last_))) data
        (start + Z.of_nat i * interval) r.
Proof.
  intros Hne Hv Hi interval tolerance. assert (0 < interval) as Hint by (unfold interval; lia).
  unfold fillMissingTimePoints. rewrite sort_times_on by done.
  pose proof (sort_on_perm (stamp dayjs) data) as Hp.
  pose proof (sort_on_sorted (stamp dayjs) data) as Hs.
  set (timed := sort_on (stamp dayjs) data) in *.
  assert (Forall (λ d, is_Some (getTime dayjs d)) timed) as Hvt by by rewrite Hp.
  destruct (head timed) as [first_|] eqn:Hh.
  2: { destruct timed; [|done]. by apply Permutation_nil_l in Hp. }
  destruct (last timed) as [last_|] eqn:Hl.
  2: { apply last_None in Hl. by rewrite Hl in Hh. }
  destruct (sorted_ends dayjs timed first_ last_ Hs Hh Hl) as (Hf & Hlast & Hends).
  assert (stamp dayjs last_ = default 0 (getTime dayjs last_)) as Hst by done.
  rewrite Forall_forall in Hvt. destruct (Hvt last_ Hlast) as [end_ He]. rewrite He in Hst |- *.
  destruct (grid_start_spec dayjs timed first_ end_ interval totalSeconds) as (start & Hstart & Hsa);
    [done|naive_solver|by apply Hvt|].
  fold interval tolerance. rewrite Hstart.
  destruct (time_points_spec (Z.to_nat (end_ - start + 1)) start end_ interval Hint ltac:(done))
    as (l & -> & Hgrid & Hend).
  exists start, last_. eexists. cbn in Hst. rewrite Hst. split; [reflexivity|].
  split; [by rewrite <-Hp|]. split; [setoid_rewrite <-Hp; intros; rewrite <-Hst; by apply Hends|].
  split; [by eapply starts_at_perm|].
  rewrite fill_points_search by (by eapply grid_sorted, Hgrid).
  split.
  - intros i. rewrite length_fmap. split.
    + intros [x Hx]%lookup_lt_is_Some. by destruct (Hgrid i x Hx) as [-> ?].
    + intros Hle. nia.
  - intros i r Hr. apply list_lookup_fmap_Some in Hr as (t & -> & Ht).
    destruct (Hgrid i t Ht) as [-> _]. eapply point_ok_perm; [done|].
    apply filled_point_ok; [done|by apply Forall_forall].
Qed.
(** Two records, one of them off the grid, and a gap between them. *)
Definition sample_data : list AnyRecord :=
  [[("time", JNum (num_of_Z 31000)); ("cpu", JNum (num_of_Z 7))];
   [("time", JNum (num_of_Z 0)); ("cpu", JNum (num_of_Z 5))]]%string.
Definition sample_dayjs (v : json) : option Z := match v with JNum x => num_to_Z x | _ => None end.

Example fill_sample :
  fillMissingTimePoints sample_dayjs (λ t, [t]) sample_data 10 None (Some 2)
  = Some [[("time", JStr [0]); ("cpu", JNum (num_of_Z 5))]; [("cpu", JNull); ("time", JStr [10000])];
          [("cpu", JNull); ("time", JStr [20000])];
          [("time", JStr [30000]); ("cpu", JNum (num_of_Z 7))]]%string.
Proof. vm_compute. reflexivity. Qed.

Example fill_exact_witness :
  ∃ filled, fillMissingTimePoints sample_dayjs (λ t, [t]) sample_data 10 None (Some 2) = Some filled.
Proof.
  destruct (fill_exact sample_dayjs (λ t, [t]) sample_data 10 None (Some 2)) as (? & ? & filled & Hf & _);
    [done| |lia|by exists filled].
  repeat constructor; eexists; vm_compute; reflexivity.
Defined.

(** ** Linear interpolation *)

Section interpolate.
Context (dayjs : json → option Z).

(** [dayjs(...).valueOf()] as a number. *)
Definition time_num (r : AnyRecord) : num :=
  match getTime dayjs r with Some t => num_of_Z t | None => NaN end.

Record InterpolateOptions := {
  maxGapMs : option num;
  maxGapMultiplier : option num;
  minCapMs : option num;
  maxCapMs : option num;
}.

(** [options]: a number stands for [{ maxGapMs }]. *)
Definition number_options (n : num) : InterpolateOptions :=
  {| maxGapMs := Some n; maxGapMultiplier := None; minCapMs := None; maxCapMs := None |}.
Definition no_options : InterpolateOptions :=
  {| maxGapMs := None; maxGapMultiplier := None; minCapMs := None; maxCapMs := None |}.

Definition clamp (v lo hi : num) : num := math_max lo (math_min hi v).

(** [typeof v === 'number' && Number.isFinite(v)] *)
Definition valid_value (key : string) (r : AnyRecord) : option num :=
  match jm_get key r with Some (JNum x) => if isFinite x then Some x else None | _ => None end.

(** Consecutive elements. *)
Definition neighbours {A} (l : list A) : list (A * A) := zip l (tail l).

(** The valid points of a column, with their index, time and value. *)
Record valid_point := { at_ : nat; time_ : num; value_ : num }.

Fixpoint valid_points_from (i : nat) (rows : list AnyRecord) (key : string) : list valid_point :=
  match rows with
  | [] => []
  | r :: rows =>
      match valid_value key r with
      | Some x => {| at_ := i; time_ := time_num r; value_ := x |} :: valid_points_from (S i) rows key
      | None => valid_points_from (S i) rows key
      end
  end.

Definition valid_points (rows : list AnyRecord) (key : string) : list valid_point :=
  valid_points_from 0 rows key.

(** The gap of two neighbours, when their times are finite and in order. *)
Definition gap_of (p : valid_point * valid_point) : option num :=
  if isFinite (time_ p.1) && isFinite (time_ p.2) && num_ltb (time_ p.1) (time_ p.2)
  then Some (num_sub (time_ p.2) (time_ p.1)) else None.

(** [perKeyMaxGap]: [None] is [continue], that is, the column is left alone. *)
Definition perKeyMaxGap (opts : InterpolateOptions) (points : list valid_point) : option num :=
  match maxGapMs opts with
  | Some g => Some g
  | None =>
      let gaps := sort_num id (omap gap_of (neighbours points)) in
      median ← gaps !! (length gaps / 2)%nat;
      Some (clamp (num_mul median (default (num_of_Z 6) (maxGapMultiplier opts)))
                  (default (num_of_Z (2 * 60000)) (minCapMs opts))
                  (default (num_of_Z (30 * 60000)) (maxCapMs opts)))
  end.

(** [v0 + (v1 - v0) * ratio] at the time of row [j]. *)
Definition interpolated (p q : valid_point) (tj : num) : num :=
  let ratio := num_div (num_sub tj (time_ p)) (num_sub (time_ q) (time_ p)) in
  num_add (value_ p) (num_mul (num_sub (value_ q) (value_ p)) ratio).

(** [for (let j = i0 + 1; j < i1; j++)] *)
Definition fill_between (rows : list AnyRecord) (key : string) (p q : valid_point)
    (out : list AnyRecord) : list AnyRecord :=
  foldl (λ out j, match rows !! j with
         | Some r => alter (jm_set key (JNum (interpolated p q (time_num r)))) j out
         | None => out
         end) out (seq (S (at_ p)) (at_ q - S (at_ p))).

(** One pair of neighbours; a gap above the maximum stays a gap. *)
Definition fill_pair (rows : list AnyRecord) (key : string) (maxGap : num) (out : list AnyRecord)
    (p : valid_point * valid_point) : list AnyRecord :=
  match gap_of p with
  | Some gap => if num_truthy maxGap && num_ltb maxGap gap then out
                else fill_between rows key p.1 p.2 out
  | None => out
  end.

Definition interpolate_key (opts : InterpolateOptions) (rows out : list AnyRecord) (key : string)
    : list AnyRecord :=
  let points := valid_points rows key in
  if bool_decide (length points < 2)%nat then out
  else match perKeyMaxGap opts points with
    | Some maxGap => foldl (fill_pair rows key maxGap) out (neighbours points)
    | None => out
    end.

Definition interpolateNullsLinear (rows : list AnyRecord) (keys : list string) (opts : InterpolateOptions)
    : list AnyRecord := foldl (interpolate_key opts rows) rows keys.

(** *** Neighbouring valid points *)

(** Point [p] is row [at_ p - n], which is valid. *)
Definition points_to (n : nat) (rows : list AnyRecord) (key : string) (p : valid_point) : Prop :=
  (n ≤ at_ p)%nat ∧ ∃ r, rows !! (at_ p - n)%nat = Some r ∧ valid_value key r = Some (value_ p) ∧
    time_ p = time_num r.

(** No row between the positions is valid. *)
Definition none_between (n : nat) (rows : list AnyRecord) (key : string) (i j : nat) : Prop :=
  ∀ m r, (i ≤ m < j)%nat → rows !! (m - n)%nat = Some r → valid_value key r = None.

Lemma points_to_cons n r rows key p : points_to (S n) rows key p → points_to n (r :: rows) key p.
Proof using.
  intros [Hle (r0 & Hr & Hv)]. split; [lia|]. exists r0. split; [|done].
  by replace (at_ p - n)%nat with (S (at_ p - S n)) by lia.
Qed.

Lemma none_between_cons n r rows key i j :
  (n < i)%nat → none_between (S n) rows key i j → none_between n (r :: rows) key i j.
Proof using.
  intros Hi Hn m r0 Hm Hr. apply (Hn m r0 Hm).
  replace (m - n)%nat with (S (m - S n)) in Hr by lia. done.
Qed.

Lemma valid_points_head n rows key p :
  head (valid_points_from n rows key) = Some p →
  points_to n rows key p ∧ none_between n rows key n (at_ p).
Proof using.
  revert n. induction rows as [|r rows IH]; intros n; [done|]. cbn.
  destruct (valid_value key r) as [x|] eqn:Hr.
  - intros [= <-]. split; [|intros m r0 Hm; cbn in Hm; lia].
    split; [done|]. exists r. cbn. by rewrite Nat.sub_diag.
  - intros [Hp Hn]%IH. split; [by apply points_to_cons|].
    intros m r0 Hm Hr0. destruct (decide (m = n)) as [->|].
    + rewrite Nat.sub_diag in Hr0. by injection Hr0 as <-.
    + apply (none_between_cons n r rows key (S n) (at_ p) ltac:(lia) Hn m r0); [lia|done].
Qed.

Lemma neighbours_cons {A} (x : A) l :
  neighbours (x :: l) = match head l with Some y => (x, y) :: neighbours l | None => [] end.
Proof using. by destruct l. Qed.

Lemma valid_points_neighbours n rows key p q :
  (p, q) ∈ neighbours (valid_points_from n rows key) →
  points_to n rows key p ∧ points_to n rows key q ∧ none_between n rows key (S (at_ p)) (at_ q).
Proof using.
  revert n. induction rows as [|r rows IH]; intros n; [by intros ?%elem_of_nil|].
  cbn [valid_points_from]. destruct (valid_value key r) as [x|] eqn:Hr.
  - rewrite neighbours_cons. destruct (head _) as [y|] eqn:Hy; [|by intros ?%elem_of_nil].
    intros [[= -> ->]|Hpq]%elem_of_cons.
    + apply valid_points_head in Hy as [Hy Hn]. split_and!.
      * split; [done|]. exists r. cbn. by rewrite Nat.sub_diag.
      * by apply points_to_cons.
      * apply none_between_cons; [cbn; lia|done].
    + apply IH in Hpq as (Hp & Hq & Hn). destruct Hp as [? ?]. split_and!.
      * by apply points_to_cons.
      * by apply points_to_cons.
      * apply none_between_cons; [lia|done].
  - intros Hpq. apply IH in Hpq as (Hp & Hq & Hn). pose proof Hp as [? ?]. split_and!.
    + by apply points_to_cons.
    + by apply points_to_cons.
    + apply none_between_cons; [lia|done].
Qed.

(** *** What interpolation writes *)

(** The records that interpolation of [key] may write: those between two
    neighbouring valid records whose times are in order. *)
Definition in_gap (rows : list AnyRecord) (key : string) (j : nat) : Prop :=
  ∃ i0 i1 r0 r1, (i0 < j < i1)%nat ∧ rows !! i0 = Some r0 ∧ rows !! i1 = Some r1 ∧
    is_Some (valid_value key r0) ∧ is_Some (valid_value key r1) ∧
    num_ltb (time_num r0) (time_num r1) = true ∧
    ∀ m r, (i0 < m < i1)%nat → rows !! m = Some r → valid_value key r = None.

(** [out'] is [out] except for numbers under [key] at the positions [P]. *)
Definition frame (key : string) (P : nat → Prop) (out out' : list AnyRecord) : Prop :=
  ∀ j, match out !! j, out' !! j with
       | Some r, Some r' => (∀ k, k ≠ key → jm_get k r' = jm_get k r) ∧
           (jm_get key r' = jm_get key r ∨ P j ∧ ∃ x, jm_get key r' = Some (JNum x))
       | None, None => True
       | _, _ => False
       end.

Lemma frame_refl key P out : frame key P out out.
Proof using. intros j. destruct (out !! j); auto. Qed.

Lemma frame_trans key P o1 o2 o3 : frame key P o1 o2 → frame key P o2 o3 → frame key P o1 o3.
Proof using.
  intros H12 H23 j. specialize (H12 j). specialize (H23 j).
  destruct (o1 !! j), (o2 !! j), (o3 !! j); try done.
  destruct H12 as [Hk1 H1], H23 as [Hk2 H2]. split; [intros; by rewrite Hk2, Hk1|].
  destruct H2 as [->|?]; [done|by right].
Qed.

Lemma frame_foldl {B} key P (f : list AnyRecord → B → list AnyRecord) l out :
  (∀ b out, b ∈ l → frame key P out (f out b)) → frame key P out (foldl f out l).
Proof using.
  revert out. induction l as [|b l IH]; intros out Hf; [apply frame_refl|]. cbn.
  apply (frame_trans _ _ _ (f out b)); [apply Hf; by left|]. apply IH. intros. apply Hf. by right.
Qed.

Lemma frame_alter key P x j out : P j → frame key P out (alter (jm_set key (JNum x)) j out).
Proof using.
  intros Hj i. destruct (decide (i = j)) as [->|].
  - rewrite list_lookup_alter_eq. destruct (out !! j); cbn; [|done]. split.
    + intros. by apply jm_get_set_ne.
    + right. rewrite jm_get_set_eq. eauto.
  - rewrite list_lookup_alter_ne by done. destruct (out !! i); auto.
Qed.

Lemma fill_pair_frame rows key maxGap out p :
  p ∈ neighbours (valid_points rows key) → frame key (in_gap rows key) out (fill_pair rows key maxGap out p).
Proof using.
  destruct p as [p q]. intros (Hp & Hq & Hn)%valid_points_neighbours. unfold fill_pair, gap_of.
  destruct (isFinite _ && isFinite _ && num_ltb _ _) eqn:Hg; [|apply frame_refl].
  case_match; [apply frame_refl|]. apply frame_foldl. intros j o [Hj1 Hj2]%elem_of_seq.
  case_match; [|apply frame_refl]. apply frame_alter.
  destruct Hp as [_ (r0 & Hr0 & Hv0 & Ht0)], Hq as [_ (r1 & Hr1 & Hv1 & Ht1)].
  rewrite Nat.sub_0_r in *. exists (at_ p), (at_ q), r0, r1. cbn in *. rewrite <-Ht0, <-Ht1, Hv0, Hv1.
  reflect_bools. split_and!; eauto; [lia..|]. intros m r' Hm Hr'. apply (Hn m r'); [lia|].
  by rewrite Nat.sub_0_r.
Qed.

Lemma interpolate_key_frame opts rows out key :
  frame key (in_gap rows key) out (interpolate_key opts rows out key).
Proof using.
  unfold interpolate_key. case_bool_decide; [apply frame_refl|].
  destruct (perKeyMaxGap _ _); [|apply frame_refl]. apply frame_foldl. intros. by apply fill_pair_frame.
Qed.

Lemma interpolate_changes rows keys opts j :
  match rows !! j, interpolateNullsLinear rows keys opts !! j with
  | Some r, Some r' => ∀ k, jm_get k r' = jm_get k r ∨
      (k ∈ keys ∧ in_gap rows k j ∧ ∃ x, jm_get k r' = Some (JNum x))
  | None, None => True
  | _, _ => False
  end.
Proof using.
  unfold interpolateNullsLinear. induction keys as [|key keys IH] using rev_ind.
  - cbn. destruct (rows !! j); [by left|done].
  - rewrite foldl_snoc. set (o := foldl _ _ _) in *.
    pose proof (interpolate_key_frame opts rows o key j) as Hf.
    destruct (rows !! j) as [r|], (o !! j) as [r1|], (interpolate_key _ _ _ _ !! j) as [r2|]; try done.
    intros k. destruct Hf as [Hne Heq]. destruct (decide (k = key)) as [->|Hk].
    + destruct Heq as [->|[? ?]]; [|right; set_solver]. destruct (IH key) as [?|(? & ? & ?)]; [by left|].
      right. set_solver.
    + rewrite Hne by done. destruct (IH k) as [?|(? & ? & ?)]; [by left|]. right. set_solver.
Qed.

End interpolate.

(** Interpolation only adds: every record stays at its place, columns that
    were not asked for and values that were valid are untouched, and what is
    written is a number, at a position strictly between two neighbouring valid
    records with increasing times, so nothing is extrapolated. *)
Theorem interpolation_only_fills (dayjs : json → option Z) (rows : list AnyRecord) (keys : list string)
    (opts : InterpolateOptions) :
  let out := interpolateNullsLinear dayjs rows keys opts in
  length out = length rows ∧
  ∀ j r r' k, rows !! j = Some r → out !! j = Some r' →
    jm_get k r' = jm_get k r ∨
    (k ∈ keys ∧ valid_value k r = None ∧ in_gap dayjs rows k j ∧ ∃ x, jm_get k r' = Some (JNum x)).
Proof.
  intros out.
  assert (∀ j, match rows !! j, out !! j with
    | Some r, Some r' => ∀ k, jm_get k r' = jm_get k r ∨
        (k ∈ keys ∧ in_gap dayjs rows k j ∧ ∃ x, jm_get k r' = Some (JNum x))
    | None, None => True | _, _ => False end) as Hall by apply interpolate_changes.
  split.
  - apply Nat.le_antisymm; apply Nat.nlt_ge; intros [x Hx]%lookup_lt_is_Some.
    + specialize (Hall (length rows)). by rewrite Hx, (lookup_ge_None_2 rows) in Hall.
    + specialize (Hall (length out)). by rewrite Hx, (lookup_ge_None_2 out) in Hall.
  - intros j r r' k Hr Hr'. specialize (Hall j). rewrite Hr, Hr' in Hall.
    destruct (Hall k) as [?|(Hk & Hg & Hx)]; [by left|right]. split_and!; try done.
    destruct Hg as (i0 & i1 & r0 & r1 & Hj & _ & _ & _ & _ & _ & Hn). by apply (Hn j).
Qed.
(** ** Peak cutting *)

Definition math_abs (x : num) : num :=
  match x with
  | S754_zero _ => S754_zero false
  | S754_infinity _ => S754_infinity false
  | S754_finite _ m e => S754_finite false m e
  | S754_nan => S754_nan
  end.

(** A value that is a number. *)
Definition number_at (key : string) (r : AnyRecord) : option num :=
  match jm_get key r with Some (JNum x) => Some x | _ => None end.

(** The numbers in the window around [i], without [i]; [column !! j] is the
    number at row [j], if it is one. *)
Definition neighborValues (column : nat → option num) (n halfWindow i : nat) : list num :=
  let from := (i - halfWindow)%nat in
  let upto := Nat.min (n - 1) (i + halfWindow) in
  omap (λ j, if bool_decide (j = i) then None else column j) (seq from (S upto - from)).

Definition is_spike (spikeThreshold current : num) (neighbors : list num) : bool :=
  bool_decide (2 ≤ length neighbors)%nat &&
  let neighborSum := foldl num_add (num_of_Z 0) neighbors in
  let neighborMean := num_div neighborSum (num_of_Z (Z.of_nat (length neighbors))) in
  if num_ltb (num_of_Z 0) neighborMean
  then num_ltb spikeThreshold (num_div (math_abs (num_sub current neighborMean)) neighborMean)
  else num_ltb (num_of_Z 10) (math_abs current).

(** The first pass over a column, in place: a removed spike no longer counts as
    a neighbour. *)
Definition despike_at (key : string) (halfWindow : nat) (spikeThreshold : num) (result : list AnyRecord)
    (i : nat) : list AnyRecord :=
  match result !! i with
  | Some row =>
      match number_at key row with
      | Some current =>
          let neighbors :=
            neighborValues (λ j, result !! j ≫= number_at key) (length result) halfWindow i in
          if is_spike spikeThreshold current neighbors then <[i := jm_set key JNull row]> result else result
      | None => result
      end
  | None => result
  end.

Definition despike (key : string) (halfWindow : nat) (spikeThreshold : num) (result : list AnyRecord)
    : list AnyRecord :=
  foldl (despike_at key halfWindow spikeThreshold) result (seq 0 (length result)).

(** [ewma === null ? current : alpha * current + (1 - alpha) * ewma] *)
Definition ewma_next (alpha : num) (ewma : option num) (current : num) : num :=
  match ewma with
  | None => current
  | Some e => num_add (num_mul alpha current) (num_mul (num_sub (num_of_Z 1) alpha) e)
  end.

(** The second pass. *)
Fixpoint smooth (key : string) (alpha : num) (ewma : option num) (result : list AnyRecord)
    : list AnyRecord :=
  match result with
  | [] => []
  | row :: result =>
      match number_at key row with
      | Some current =>
          let e := ewma_next alpha ewma current in
          jm_set key (JNum e) row :: smooth key alpha (Some e) result
      | None =>
          match ewma with
          | Some e => jm_set key (JNum e) row
          | None => row
          end :: smooth key alpha ewma result
      end
  end.

Definition cutPeakValues (data : list AnyRecord) (keys : list string) (alpha : num) (windowSize : nat)
    (spikeThreshold : num) : list AnyRecord :=
  foldl (λ result key, smooth key alpha None (despike key (windowSize / 2) spikeThreshold result)) data keys.

(** *** One column at a time *)

Definition column (key : string) (rows : list AnyRecord) : list (option num) := number_at key <$> rows.

(** The reference: the two passes on a list of optional numbers. *)
Definition despike_column_at (halfWindow : nat) (spikeThreshold : num) (c : list (option num)) (i : nat)
    : list (option num) :=
  match mjoin (c !! i) with
  | Some current =>
      if is_spike spikeThreshold current (neighborValues (λ j, mjoin (c !! j)) (length c) halfWindow i)
      then <[i := None]> c else c
  | None => c
  end.

Definition despike_column (halfWindow : nat) (spikeThreshold : num) (c : list (option num))
    : list (option num) :=
  foldl (despike_column_at halfWindow spikeThreshold) c (seq 0 (length c)).

Fixpoint ewma_column (alpha : num) (ewma : option num) (c : list (option num)) : list (option num) :=
  match c with
  | [] => []
  | Some x :: c => let e := ewma_next alpha ewma x in Some e :: ewma_column alpha (Some e) c
  | None :: c => ewma :: ewma_column alpha ewma c
  end.

Lemma number_at_set key k v r :
  number_at key (jm_set k v r)
  = if bool_decide (key = k) then match v with JNum x => Some x | _ => None end else number_at key r.
Proof. unfold number_at. rewrite jm_get_set. by case_bool_decide. Qed.

Lemma column_lookup key rows j : mjoin (column key rows !! j) = rows !! j ≫= number_at key.
Proof. unfold column. rewrite list_lookup_fmap. by destruct (rows !! j). Qed.

Lemma length_column key rows : length (column key rows) = length rows.
Proof. apply length_fmap. Qed.

Lemma neighborValues_ext c1 c2 n h i :
  (∀ j, c1 j = c2 j) → neighborValues c1 n h i = neighborValues c2 n h i.
Proof.
  intros Hc. unfold neighborValues. cbn zeta. induction (seq _ _) as [|j l IH]; [done|]. cbn.
  rewrite Hc. by rewrite IH.
Qed.

Lemma column_despike_at key h thr rows i :
  column key (despike_at key h thr rows i) = despike_column_at h thr (column key rows) i.
Proof.
  unfold despike_at, despike_column_at. rewrite column_lookup.
  destruct (rows !! i) as [row|] eqn:Hrow; [|done]. cbn [mbind option_bind].
  destruct (number_at key row) as [current|]; [|done]. cbn zeta.
  rewrite (neighborValues_ext (λ j, mjoin (column key rows !! j)) (λ j, rows !! j ≫= number_at key))
    by apply column_lookup.
  rewrite length_column. case_match; [|done].
  unfold column. rewrite list_fmap_insert, number_at_set. by rewrite bool_decide_eq_true_2.
Qed.

Lemma length_despike_at key h thr rows i : length (despike_at key h thr rows i) = length rows.
Proof. unfold despike_at. repeat (case_match; try done). apply length_insert. Qed.

Lemma column_despike key h thr rows :
  column key (despike key h thr rows) = despike_column h thr (column key rows).
Proof.
  unfold despike, despike_column. rewrite length_column.
  generalize (seq 0 (length rows)); intros l. revert rows.
  induction l as [|i l IH]; intros rows; [done|]. cbn [foldl]. by rewrite IH, column_despike_at.
Qed.

Lemma column_smooth key alpha ewma rows :
  column key (smooth key alpha ewma rows) = ewma_column alpha ewma (column key rows).
Proof.
  revert ewma. induction rows as [|row rows IH]; intros ewma; [done|]. cbn.
  destruct (number_at key row) as [x|] eqn:Hx; cbn.
  - rewrite number_at_set, bool_decide_eq_true_2 by done. f_equal. apply IH.
  - f_equal; [|apply IH]. destruct ewma; [|done].
    rewrite number_at_set, bool_decide_eq_true_2 by done. done.
Qed.

(** *** The other columns *)

(** Two lists of records that agree outside one property. *)
Definition agree (key : string) (r r' : AnyRecord) : Prop := ∀ k, k ≠ key → jm_get k r' = jm_get k r.

Lemma agree_set key v r : agree key r (jm_set key v r).
Proof. intros k Hk. by apply jm_get_set_ne. Qed.

Lemma despike_agree key h thr rows : Forall2 (agree key) rows (despike key h thr rows).
Proof.
  unfold despike. generalize (seq 0 (length rows)); intros l.
  induction l as [|i l IH] using rev_ind; [apply Forall_Forall2_diag, Forall_forall; done|].
  rewrite foldl_snoc. unfold despike_at at 1. set (o := foldl _ _ _) in *.
  destruct (o !! i) as [row|] eqn:Hrow; [|done]. destruct (number_at key row); [|done].
  case_match; [|done]. apply Forall2_lookup. intros j. pose proof (Forall2_lookup_r _ _ _ _ _ IH Hrow).
  destruct (decide (j = i)) as [->|].
  - destruct (Forall2_lookup_r _ _ _ _ _ IH Hrow) as (r & -> & Hr).
    rewrite list_lookup_insert_eq by (by eapply lookup_lt_Some). constructor.
    intros k Hk. rewrite agree_set by done. by apply Hr.
  - rewrite list_lookup_insert_ne by done. rewrite Forall2_lookup in IH. apply IH.
Qed.

Lemma smooth_agree key alpha ewma rows : Forall2 (agree key) rows (smooth key alpha ewma rows).
Proof.
  revert ewma. induction rows as [|row rows IH]; intros ewma; [constructor|]. cbn.
  repeat case_match; constructor; auto using agree_set; done.
Qed.

Lemma column_agree key k rows rows' : k ≠ key → Forall2 (agree key) rows rows' → column k rows' = column k rows.
Proof.
  intros Hk. induction 1 as [|r r' rows rows' Hr Hrs IH]; [done|]. unfold column in *. cbn. rewrite IH.
  f_equal. unfold number_at. by rewrite Hr.
Qed.

Lemma pass_agree key alpha h thr rows :
  Forall2 (agree key) rows (smooth key alpha None (despike key h thr rows)).
Proof.
  eapply Forall2_compose; [|apply despike_agree|apply smooth_agree].
  intros x y z Hxy Hyz k Hk. by rewrite Hyz, Hxy.
Qed.

(** Once there is a number, there is one in every later row. *)
Lemma ewma_column_some alpha e c j :
  (j < length c)%nat → is_Some (mjoin (ewma_column alpha (Some e) c !! j)).
Proof.
  revert e j. induction c as [|[x|] c IH]; intros e [|j] Hj; cbn in *; try lia; try (by eexists);
    apply IH; lia.
Qed.

Lemma ewma_column_filled alpha ewma c i j :
  is_Some (mjoin (ewma_column alpha ewma c !! i)) → (i ≤ j < length c)%nat →
  is_Some (mjoin (ewma_column alpha ewma c !! j)).
Proof.
  destruct ewma as [e|]; [intros; apply ewma_column_some; lia|].
  revert i j. induction c as [|[x|] c IH]; intros i j Hi Hj; [cbn in *; lia|..]; cbn in *.
  - destruct j as [|j]; [by eexists|]. apply ewma_column_some. lia.
  - destruct i as [|i]; [by destruct Hi|]. destruct j as [|j]; [lia|]. apply (IH i); [done|lia].
Qed.

Lemma length_despike_column h thr c : length (despike_column h thr c) = length c.
Proof.
  unfold despike_column. generalize (seq 0 (length c)); intros l. revert c.
  induction l as [|i l IH]; intros c; [done|]. cbn [foldl]. rewrite IH. unfold despike_column_at.
  repeat (case_match; try done). apply length_insert.
Qed.

Lemma cutPeak_other data keys alpha w thr k :
  k ∉ keys → column k (cutPeakValues data keys alpha w thr) = column k data.
Proof.
  unfold cutPeakValues. revert data. induction keys as [|key keys IH]; intros data Hk; [done|]. cbn [foldl].
  rewrite IH by set_solver. apply (column_agree key); [set_solver|apply pass_agree].
Qed.

Lemma cutPeak_agree data keys alpha w thr :
  Forall2 (λ r r', ∀ k, k ∉ keys → jm_get k r' = jm_get k r) data (cutPeakValues data keys alpha w thr).
Proof.
  unfold cutPeakValues. revert data. induction keys as [|key keys IH]; intros data.
  - apply Forall_Forall2_diag, Forall_forall. done.
  - cbn [foldl]. eapply Forall2_compose; [|apply pass_agree|apply IH].
    intros x y z Hxy Hyz k Hk. rewrite Hyz, Hxy by set_solver. done.
Qed.

(** Cutting peaks works column by column and leaves no gap.  The loops
    that overwrite records in place compute, for each key, the smoothing of the
    column without its spikes; every other property of every record is kept;
    and from the first number of a column on, every record has one. *)
Theorem cut_peak_columns (data : list AnyRecord) (keys : list string) (alpha : num) (windowSize : nat)
    (spikeThreshold : num) :
  NoDup keys →
  let out := cutPeakValues data keys alpha windowSize spikeThreshold in
  Forall2 (λ r r', ∀ k, k ∉ keys → jm_get k r' = jm_get k r) data out ∧
  ∀ key, key ∈ keys →
    column key out
    = ewma_column alpha None (despike_column (windowSize / 2) spikeThreshold (column key data)) ∧
    ∀ i j r, is_Some (out !! i ≫= number_at key) → (i ≤ j)%nat → out !! j = Some r →
      is_Some (number_at key r).
Proof.
  intros Hnd out. split; [apply cutPeak_agree|]. intros key Hkey.
  assert (column key out
    = ewma_column alpha None (despike_column (windowSize / 2) spikeThreshold (column key data))) as Hcol.
  { apply list_elem_of_split in Hkey as (l1 & l2 & ->). apply NoDup_app in Hnd as (_ & Hd & Hnd).
    apply NoDup_cons in Hnd as [Hni _]. unfold out, cutPeakValues. rewrite foldl_app. cbn [foldl].
    pose proof (cutPeak_other) as Ho. unfold cutPeakValues in Ho. rewrite Ho by done.
    rewrite column_smooth, column_despike. rewrite Ho; [done|]. intros Hin. apply (Hd key Hin). by left. }
  split; [done|]. intros i j r Hi Hij Hr. rewrite <-column_lookup, Hcol in Hi.
  assert (number_at key r = mjoin (column key out !! j)) as -> by by rewrite column_lookup, Hr.
  rewrite Hcol. apply (ewma_column_filled _ _ _ i); [done|]. rewrite length_despike_column, length_column.
  pose proof (cutPeak_agree data keys alpha windowSize spikeThreshold) as Hlen%Forall2_length.
  apply lookup_lt_Some in Hr. fold out in Hlen. lia.
Qed.

Example cut_peak_columns_witness :
  let data := (λ z, [("7", JNum (num_of_Z z))]%string) <$> [20; 20; 20; 40; 20; 20; 20] in
  column "7" (cutPeakValues data ["7"%string] (num_div (num_of_Z 3) (num_of_Z 10)) 15
                (num_div (num_of_Z 3) (num_of_Z 10)))
  = replicate 7 (Some (num_of_Z 20)).
Proof.
  intros data.
  destruct (cut_peak_columns data ["7"%string] (num_div (num_of_Z 3) (num_of_Z 10)) 15
    (num_div (num_of_Z 3) (num_of_Z 10))) as [_ H]; [apply NoDup_singleton|].
  destruct (H "7"%string) as [-> _]; [by left|]. vm_compute. reflexivity.
Defined.

End RecordHelper.
