(* ===== verification/NodeCost.v ===== *)
(** * Costs of nodes

    [probe/src/lib/node-cost.ts]: the monthly and remaining cost of a node from
    its price, billing cycle and expiry date, the sums per currency and their
    conversion.  Dates are day numbers ([Calendar]); the current time is a
    number of milliseconds, or [None] for an invalid date.  Amounts and rates
    are binary64 numbers. *)

From Stdlib Require Import SpecFloat.
From S2P Require Import Prelude JsMap JsString Json JsValue JsNumber Calendar.

Open Scope Z_scope.

Module NodeCost.
Import Calendar.

Definition day_ms : Z := 86400000.

Record Money := { m_amount : num; m_currency : jsstring }.

(** [NodeCost] of [node-price.ts]; [None] is what is not a string. *)
Record Billing := {
  amount : option jsstring;
  currency : option jsstring;
  cycle : jsstring;
  years : option jsstring;
}.

Record CostInfo := {
  billing : option Billing;
  price : option jsstring;
  expires_at : option jsstring;
  anchor_date : option jsstring;
  anchor_day : option num;
}.

Inductive RemainingCostReason := missing_price | legacy_price | missing_expiry | unsupported_cycle | invalid.

Record CalculatedNodeCost := {
  monthly : option Money;
  remaining : option Money;
  remainingReason : option RemainingCostReason;
}.

(** ** Text *)

Definition is_digit (u : Z) : bool := bool_decide (48 ≤ u ≤ 57).

Definition all_digits (s : jsstring) : bool := every is_digit s.

Definition digit_values (s : jsstring) : list Z := (λ u, u - 48) <$> s.

(** [/^(0|\[1-9\]\[0-9\]{0,k})(\.\[0-9\]{1,4})?$/] *)
Definition decimal_pattern (k : nat) (s : jsstring) : bool :=
  let whole p := match p with
    | [48] => true
    | u :: _ => bool_decide (49 ≤ u ≤ 57) && all_digits p && bool_decide (length p ≤ S k)%nat
    | [] => false
    end in
  match split_char 46 s [] with
  | [w] => whole w
  | [w; f] => whole w && all_digits f && bool_decide (1 ≤ length f ≤ 4)%nat
  | _ => false
  end.

Definition amountPattern : jsstring → bool := decimal_pattern 11.
Definition yearsPattern : jsstring → bool := decimal_pattern 2.

(** [Number(text)] of a text with this pattern. *)
Definition parse_decimal (s : jsstring) : num :=
  let parts := split_char 46 s [] in
  let frac := default [] (parts !! 1%nat) in
  match digits_value (digit_values (default [] (head parts) ++ frac)) with
  | Zpos p => decimal p (- Z.of_nat (length frac))
  | _ => num_of_Z 0
  end.

(** [/^\[A-Z\]{3}$/] *)
Definition currency_pattern (s : jsstring) : bool :=
  bool_decide (length s = 3%nat) && every (λ u, bool_decide (65 ≤ u ≤ 90)) s.

Definition reserved_currency (s : jsstring) : bool := bool_decide (s ∈ [js "XXX"; js "XTS"]).

(** ** Dates *)

(** [/^\d{4}-\d{2}-\d{2}$/] with the three numbers. *)
Definition parse_date (s : jsstring) : option (Z * Z * Z) :=
  match split_char 45 s [] with
  | [y; m; d] =>
      if all_digits y && all_digits m && all_digits d
         && bool_decide (length y = 4%nat) && bool_decide (length m = 2%nat) && bool_decide (length d = 2%nat)
      then Some (digits_value (digit_values y), digits_value (digit_values m), digits_value (digit_values d))
      else None
  | _ => None
  end.

Definition utcDate (y m d : Z) : Z := make_day y m d.

Definition expiryDate (value : jsstring) : option Z :=
  match parse_date value with
  | Some (y, m, d) =>
      let date := utcDate y (m - 1) d in
      let c := civil_of date in
      if bool_decide (1 ≤ y) && bool_decide (year c = y) && bool_decide (month c = m - 1) && bool_decide (mday c = d)
      then Some date else None
  | None => None
  end.

Definition previousCycle (expiry months day : Z) : Z :=
  let e := civil_of expiry in
  let first := civil_of (utcDate (year e) (month e - months) 1) in
  let lastDay := mday (civil_of (utcDate (year first) (month first + 1) 0)) in
  utcDate (year first) (month first) (Z.min day lastDay).

Definition explicitRenewalDay (info : CostInfo) : option Z :=
  match anchor_day info with
  | Some x => match num_to_Z x with
              | Some day => if bool_decide (1 ≤ day ≤ 31) then Some day else None
              | None => None
              end
  | None => None
  end.

Definition renewalDay (info : CostInfo) (expiry : Z) (months : num) : option Z :=
  match anchor_date info, num_to_Z months with
  | Some ((_ :: _) as value), Some months =>
      match expiryDate value with
      | Some anchor =>
          if bool_decide (expiry < anchor) then None
          else
            let e := civil_of expiry in
            let a := civil_of anchor in
            let delta := (year e - year a) * 12 + month e - month a in
            let last := mday (civil_of (utcDate (year e) (month e + 1) 0)) in
            let day := default (mday a) (explicitRenewalDay info) in
            if bool_decide (Z.rem delta months = 0) && bool_decide (mday e = Z.min day last)
            then Some day else None
      | None => None
      end
  | _, _ => None
  end.

(** ** Cost of a node *)

Definition cycleMonths (c : jsstring) : option Z :=
  if bool_decide (c = js "monthly") then Some 1
  else if bool_decide (c = js "quarterly") then Some 3
  else if bool_decide (c = js "semiannual") then Some 6
  else if bool_decide (c = js "annual") then Some 12 else None.

Definition is_custom (b : Billing) : bool := bool_decide (cycle b = js "custom").

Definition billing_months (b : Billing) : num :=
  if is_custom b then
    match years b with
    | Some y => if yearsPattern y then num_mul (parse_decimal y) (num_of_Z 12) else num_of_Z 0
    | None => num_of_Z 0
    end
  else num_of_Z (default 0 (cycleMonths (cycle b))).

Definition unknown (r : RemainingCostReason) : CalculatedNodeCost :=
  {| monthly := None; remaining := None; remainingReason := Some r |}.

Definition calculateNodeCost (info : CostInfo) (now : option Z) : CalculatedNodeCost :=
  match billing info with
  | None =>
      unknown (match price info with
               | Some p => if bool_decide (trim p = []) then missing_price else legacy_price
               | None => missing_price
               end)
  | Some b =>
      match amount b, currency b with
      | Some [], _ => unknown missing_price
      | Some a, Some cur =>
          if negb (amountPattern a) || negb (currency_pattern cur) || reserved_currency cur then unknown invalid
          else
            let x := parse_decimal a in
            let months := billing_months b in
            if negb (isFinite months) || num_leb months (num_of_Z 0) then unknown invalid
            else
              let money v := {| m_amount := v; m_currency := cur |} in
              let known r reason :=
                {| monthly := Some (money (num_div x months)); remaining := r; remainingReason := reason |} in
              if num_eqb x (num_of_Z 0) then known (Some (money (num_of_Z 0))) None
              else match expires_at info with
                | None | Some [] => known None (Some missing_expiry)
                | Some e =>
                    match expiryDate e, now with
                    | Some expiry, Some now =>
                        if bool_decide (expiry * day_ms ≤ now) then known (Some (money (num_of_Z 0))) None
                        else
                          let anchorDay := renewalDay info expiry months in
                          if (is_custom b || bool_decide (is_Some (explicitRenewalDay info)))
                             && negb (bool_decide (is_Some anchorDay))
                          then known None (Some unsupported_cycle)
                          else
                            let start := previousCycle expiry (default 0 (num_to_Z months))
                                           (default (mday (civil_of expiry)) anchorDay) in
                            let duration := expiry * day_ms - start * day_ms in
                            let r := num_mul x (num_div (num_of_Z (expiry * day_ms - now)) (num_of_Z duration)) in
                            known (Some (money r)) None
                    | _, _ => known None (Some invalid)
                    end
                end
      | _, _ => unknown invalid
      end
  end.

(** ** Sums *)

Inductive cost_kind := monthly_kind | yearly_kind | remaining_kind.

(** A stable sort by a comparison ([localeCompare], or code units). *)
Section sort.
Context {A : Type} (leb : A → A → bool).

Fixpoint insert_leb (x : A) (l : list A) : list A :=
  match l with
  | [] => [x]
  | y :: l' => if leb x y then x :: l else y :: insert_leb x l'
  end.
Definition sort_leb (l : list A) : list A := foldr insert_leb [] l.

Lemma insert_leb_perm x l : insert_leb x l ≡ₚ x :: l.
Proof using. induction l as [|y l IH]; cbn; [done|]. case_match; [done|]. rewrite IH. constructor. Qed.
Lemma sort_leb_perm l : sort_leb l ≡ₚ l.
Proof using. induction l as [|x l IH]; cbn; [done|]. by rewrite insert_leb_perm, IH. Qed.
End sort.

(** The order of code units, the default order of [sort]. *)
Fixpoint units_leb (s t : jsstring) : bool :=
  match s, t with
  | [], _ => true
  | _, [] => false
  | u :: s, v :: t => if bool_decide (u = v) then units_leb s t else bool_decide (u < v)
  end.

Definition cost_of (kind : cost_kind) (c : CalculatedNodeCost) : option Money :=
  match kind with remaining_kind => remaining c | _ => monthly c end.

Definition scaled (kind : cost_kind) (x : num) : num :=
  num_mul x (num_of_Z match kind with yearly_kind => 12 | _ => 1 end).

Definition add_cost (kind : cost_kind) (now : option Z) (totals : jsmap jsstring num) (info : CostInfo)
    : jsmap jsstring num :=
  match cost_of kind (calculateNodeCost info now) with
  | Some v =>
      jm_set (m_currency v)
        (num_add (default (num_of_Z 0) (jm_get (m_currency v) totals)) (scaled kind (m_amount v))) totals
  | None => totals
  end.

Record cost_summary := { amounts : list Money; included : nat; total : nat }.

Definition summarizeNodeCosts (locale_leb : jsstring → jsstring → bool) (infos : list CostInfo)
    (kind : cost_kind) (now : option Z) : cost_summary :=
  let totals := foldl (add_cost kind now) [] infos in
  {| amounts := (λ p, {| m_amount := p.2; m_currency := p.1 |})
                <$> sort_leb (λ a b, locale_leb a.1 b.1) totals;
     included := length (bfilter (λ i, bool_decide (is_Some (cost_of kind (calculateNodeCost i now)))) infos);
     total := length infos |}.

(** ** Conversion *)

Record ExchangeRates := {
  base : jsstring;
  rates : jsmap jsstring json;
  dates : jsmap jsstring jsstring;
  fetched_at : num;
  stale : bool;
  source : jsstring;
}.

Record ConvertedCostSummary := {
  money : option Money;
  missingCurrencies : list jsstring;
  rateDate : option jsstring;
  is_stale : bool;
}.

(** The rate and the date of a usable quote. *)
Definition usable_quote (exchange : option ExchangeRates) (now : option Z) (code : jsstring)
    : option (num * jsstring) :=
  match exchange with
  | Some x =>
      match jm_get code (rates x), jm_get code (dates x) with
      | Some (JNum rate), Some ((_ :: _) as date) =>
          match expiryDate date with
          | Some parsed =>
              if bool_decide (base x = js "USD") && bool_decide (source x = js "Frankfurter")
                 && isFinite rate && num_ltb (num_of_Z 0) rate
                 && negb match now with Some t => bool_decide (t + 2 * day_ms < parsed * day_ms) | None => false end
              then Some (rate, date) else None
          | None => None
          end
      | _, _ => None
      end
  | None => None
  end.

(** The variables of the loop. *)
Record conversion := { c_total : num; c_dates : list jsstring; c_missing : list jsstring }.

(** [quote(code)]: notes the date, or the missing currency (a [Set]). *)
Definition quote (exchange : option ExchangeRates) (now : option Z) (code : jsstring) (c : conversion)
    : conversion * option num :=
  match usable_quote exchange now code with
  | Some (rate, date) =>
      ({| c_total := c_total c; c_dates := c_dates c ++ [date]; c_missing := c_missing c |}, Some rate)
  | None =>
      ({| c_total := c_total c; c_dates := c_dates c;
          c_missing := if bool_decide (code ∈ c_missing c) then c_missing c else c_missing c ++ [code] |}, None)
  end.

Definition convert_one (exchange : option ExchangeRates) (now : option Z) (target : jsstring) (c : conversion)
    (m : Money) : conversion :=
  let add x c := {| c_total := num_add (c_total c) x; c_dates := c_dates c; c_missing := c_missing c |} in
  if num_eqb (m_amount m) (num_of_Z 0) || bool_decide (m_currency m = target) then add (m_amount m) c
  else
    let '(c, s) := quote exchange now (m_currency m) c in
    let '(c, t) := quote exchange now target c in
    match s, t with
    | Some s, Some t => add (num_mul (m_amount m) (num_div t s)) c
    | _, _ => c
    end.

Definition no_summary : ConvertedCostSummary :=
  {| money := None; missingCurrencies := []; rateDate := None; is_stale := false |}.

Definition convert_all (exchange : option ExchangeRates) (now : option Z) (target : jsstring) (ms : list Money)
    : conversion :=
  foldl (convert_one exchange now target) {| c_total := num_of_Z 0; c_dates := []; c_missing := [] |} ms.

Definition quotes_stale (exchange : option ExchangeRates) (now : option Z) (date : jsstring) : bool :=
  let t := match now with Some t => num_of_Z t | None => NaN end in
  match exchange with
  | Some x =>
      stale x || negb (isFinite (fetched_at x))
      || num_leb (num_of_Z (2 * day_ms)) (num_sub t (num_mul (fetched_at x) (num_of_Z 1000)))
      || match expiryDate date with
         | Some d => num_leb (num_of_Z (7 * day_ms)) (num_sub t (num_of_Z (d * day_ms)))
         | None => false
         end
  | None => true
  end.

Definition summarizeConvertedNodeCosts (locale_leb : jsstring → jsstring → bool) (infos : list CostInfo)
    (kind : cost_kind) (target : jsstring) (exchange : option ExchangeRates) (now : option Z)
    : ConvertedCostSummary :=
  let summary := summarizeNodeCosts locale_leb infos kind now in
  if bool_decide (amounts summary = []) || negb (currency_pattern target) || reserved_currency target
  then no_summary
  else
    let c := convert_all exchange now target (amounts summary) in
    if negb (bool_decide (c_missing c = []))
    then {| money := None; missingCurrencies := sort_leb units_leb (c_missing c); rateDate := None;
            is_stale := false |}
    else if negb (isFinite (c_total c)) || num_ltb (c_total c) (num_of_Z 0) then no_summary
    else
      let first_date := head (sort_leb units_leb (c_dates c)) in
      {| money := Some {| m_amount := c_total c; m_currency := target |}; missingCurrencies := [];
         rateDate := first_date;
         is_stale := match first_date with Some d => quotes_stale exchange now d | None => false end |}.

(** ** Dates of the text *)

(** A text is an expiry date exactly when it names a date of the calendar. *)
Lemma expiryDate_exact value date :
  expiryDate value = Some date ↔
  ∃ y m d, parse_date value = Some (y, m, d) ∧ 1 ≤ y ∧
    let c := {| year := y; month := m - 1; mday := d |} in valid c ∧ date = day_of c.
Proof.
  unfold expiryDate. destruct (parse_date value) as [[[y m] d]|]; [|naive_solver].
  set (c := {| year := y; month := m - 1; mday := d |}).
  assert (utcDate y (m - 1) d = day_of c) as -> by done. cbn zeta.
  assert (bool_decide (1 ≤ y) && bool_decide (year (civil_of (day_of c)) = y)
    && bool_decide (month (civil_of (day_of c)) = m - 1) && bool_decide (mday (civil_of (day_of c)) = d) = true
    ↔ 1 ≤ y ∧ valid c) as Hiff.
  { rewrite !andb_true_iff, !bool_decide_eq_true, valid_iff. split.
    - intros [[[Hy H1] H2] H3]. split; [done|]. destruct (civil_of (day_of c)). cbn in *. by subst.
    - intros [Hy Hc]. by rewrite Hc. }
  split.
  - intros Hd. assert (1 ≤ y ∧ valid c) as Hv by (apply Hiff; revert Hd; clear; by case_match).
    rewrite (proj2 Hiff Hv) in Hd. injection Hd as <-. destruct Hv. by exists y, m, d.
  - intros (y' & m' & d' & [= <- <- <-] & Hy & Hv & ->). by rewrite (proj2 Hiff (conj Hy Hv)).
Qed.

(** ** The cycle before an expiry *)

Lemma civil_first y m :
  civil_of (utcDate y m 1) = {| year := (y * 12 + m) / 12; month := (y * 12 + m) mod 12; mday := 1 |}.
Proof.
  unfold utcDate. rewrite <-month_day_index. set (i := y * 12 + m).
  pose proof (Z.div_mod i 12 ltac:(lia)). pose proof (Z.mod_pos_bound i 12 ltac:(lia)).
  replace (month_day i) with (day_of {| year := i / 12; month := i mod 12; mday := 1 |}).
  - apply civil_of_day_of. unfold valid. cbn [year month mday].
    pose proof (month_start_step (i / 12) (i mod 12)). lia.
  - unfold day_of. cbn [year month mday]. rewrite <-month_day_index. f_equal. lia.
Qed.

Lemma last_day y m : 0 ≤ m < 12 → mday (civil_of (utcDate y (m + 1) 0)) = month_length y m.
Proof.
  intros Hm. pose proof (month_start_step y m Hm).
  replace (utcDate y (m + 1) 0) with (day_of {| year := y; month := m; mday := month_length y m |}).
  - rewrite civil_of_day_of; [done|]. unfold valid. cbn [year month mday]. lia.
  - unfold day_of, utcDate. cbn [year month mday]. pose proof (next_month y m Hm) as Hn.
    unfold make_day in *. lia.
Qed.

Lemma previousCycle_exact expiry months day :
  0 < months → 1 ≤ day →
  let start := previousCycle expiry months day in
  start < expiry ∧
  month_index (civil_of start) = month_index (civil_of expiry) - months ∧
  mday (civil_of start) = Z.min day (month_length (year (civil_of start)) (month (civil_of start))).
Proof.
  intros Hm Hd. unfold previousCycle. cbn zeta. rewrite civil_first. cbn [year month].
  set (e := civil_of expiry). set (i := year e * 12 + (month e - months)).
  pose proof (Z.div_mod i 12 ltac:(lia)). pose proof (Z.mod_pos_bound i 12 ltac:(lia)).
  rewrite last_day by lia. pose proof (month_start_step (i / 12) (i mod 12) ltac:(lia)).
  set (c := {| year := i / 12; month := i mod 12; mday := Z.min day (month_length (i / 12) (i mod 12)) |}).
  assert (valid c) as Hc by (unfold valid, c; cbn [year month mday]; lia).
  assert (utcDate (i / 12) (i mod 12) (Z.min day (month_length (i / 12) (i mod 12))) = day_of c) as ->
    by reflexivity.
  rewrite civil_of_day_of by done.
  assert (month_index c = month_index e - months) as Hi by (unfold month_index, c, i in *; cbn [year month]; lia).
  split_and!; [|done|done]. rewrite <-(day_of_civil_of expiry). fold e.
  apply month_order; [done|apply civil_of_valid|lia].
Qed.

(** ** Cost of a node *)

(** A positive finite number that is an integer is a positive integer. *)
Lemma num_pos_to_Z x z :
  isFinite x = true → num_leb x (num_of_Z 0) = false → num_to_Z x = Some z → 0 < z.
Proof.
  intros Hf Hle. change (num_of_Z 0) with (S754_zero false) in Hle.
  destruct x as [[]|[]| |[] m e]; try done. cbn [num_to_Z]. case_bool_decide as He.
  - intros [= <-]. assert (0 < 2 ^ e) by (apply Z.pow_pos_nonneg; lia). lia.
  - case_bool_decide as Hm; [|done]. intros [= <-].
    assert (0 < 2 ^ (- e)) by (apply Z.pow_pos_nonneg; lia).
    pose proof (Z.div_mod (Zpos m) (2 ^ (- e)) ltac:(lia)). nia.
Qed.

Lemma mday_pos day : 1 ≤ mday (civil_of day).
Proof. apply (civil_of_valid day). Qed.

Lemma explicitRenewalDay_range info d : explicitRenewalDay info = Some d → 1 ≤ d.
Proof.
  unfold explicitRenewalDay. destruct (anchor_day info) as [x|]; [|done].
  destruct (num_to_Z x) as [z|]; [|done]. destruct (bool_decide (1 ≤ z ≤ 31)) eqn:Hz; [|done]. reflect_bools. intros [= <-]. lia.
Qed.

Lemma renewalDay_range info expiry months d : renewalDay info expiry months = Some d → 1 ≤ d.
Proof.
  unfold renewalDay. destruct (anchor_date info) as [[|u s]|]; try done.
  destruct (num_to_Z months); [|done]. destruct (expiryDate _) as [anchor|]; [|done].
  case_bool_decide; [done|]. cbn zeta. case_match; [|done]. intros [= <-].
  destruct (explicitRenewalDay info) eqn:He; [by eapply explicitRenewalDay_range|apply mday_pos].
Qed.

(** The billing cycle is a whole number of months whenever it is used. *)
Lemma cycle_months_int b info expiry :
  isFinite (billing_months b) = true → num_leb (billing_months b) (num_of_Z 0) = false →
  (is_custom b || bool_decide (is_Some (explicitRenewalDay info)))
    && negb (bool_decide (is_Some (renewalDay info expiry (billing_months b)))) = false →
  ∃ months, num_to_Z (billing_months b) = Some months ∧ 0 < months.
Proof.
  intros Hf Hle Hren. enough (is_Some (num_to_Z (billing_months b))) as [z Hz].
  { exists z. split; [done|]. by eapply num_pos_to_Z. }
  destruct (is_custom b) eqn:Hc.
  - cbn in Hren. apply negb_false_iff, bool_decide_eq_true_1 in Hren as [d Hd].
    unfold renewalDay in Hd. destruct (anchor_date info) as [[|u s]|]; try done.
    by destruct (num_to_Z (billing_months b)).
  - unfold billing_months, cycleMonths in *. rewrite Hc in *.
    repeat case_bool_decide; cbn; eexists; vm_compute; reflexivity.
Qed.

(** ** What the remaining cost is *)

(** The text names the day, as year, month and day of month. *)
Definition names_day (s : jsstring) (day : Z) : Prop :=
  ∃ y m d, parse_date s = Some (y, m, d) ∧ 1 ≤ y ∧
    let c := {| year := y; month := m - 1; mday := d |} in valid c ∧ day = day_of c.

(** The length of the billing cycle in months. *)
Definition cycle_length (b : Billing) (months : Z) : Prop :=
  (cycle b, months) ∈ [(js "monthly", 1); (js "quarterly", 3); (js "semiannual", 6); (js "annual", 12)] ∨
  cycle b = js "custom" ∧ ∃ y, years b = Some y ∧ yearsPattern y = true ∧
    num_to_Z (num_mul (parse_decimal y) (num_of_Z 12)) = Some months.

Definition explicit_day (info : CostInfo) (day : Z) : Prop :=
  ∃ x, anchor_day info = Some x ∧ num_to_Z x = Some day ∧ 1 ≤ day ≤ 31.

(** A renewal anchor from which the expiry is reached in whole cycles. *)
Definition anchored (info : CostInfo) (expiry months day : Z) : Prop :=
  ∃ value anchor, anchor_date info = Some value ∧ names_day value anchor ∧ anchor ≤ expiry ∧
    (months | month_index (civil_of expiry) - month_index (civil_of anchor)) ∧
    (explicit_day info day ∨ (∀ d, ¬ explicit_day info d) ∧ day = mday (civil_of anchor)) ∧
    mday (civil_of expiry) = Z.min day (month_length (year (civil_of expiry)) (month (civil_of expiry))).

(** The day of month on which cycles start: that of the anchor, or without one
    that of the expiry. *)
Definition cycle_day (info : CostInfo) (b : Billing) (expiry months day : Z) : Prop :=
  anchored info expiry months day ∨
  (∀ d, ¬ anchored info expiry months d) ∧ cycle b ≠ js "custom" ∧ (∀ d, ¬ explicit_day info d) ∧
  day = mday (civil_of expiry).

Inductive left_over (info : CostInfo) (now : option Z) : Money → Prop :=
| left_free b a cur :
    billing info = Some b → amount b = Some a → currency b = Some cur →
    num_eqb (parse_decimal a) (num_of_Z 0) = true →
    left_over info now {| m_amount := num_of_Z 0; m_currency := cur |}
| left_expired b a cur e expiry t :
    billing info = Some b → amount b = Some a → currency b = Some cur →
    num_eqb (parse_decimal a) (num_of_Z 0) = false →
    expires_at info = Some e → names_day e expiry → now = Some t → expiry * 86400000 ≤ t →
    left_over info now {| m_amount := num_of_Z 0; m_currency := cur |}
| left_share b a cur e expiry t months day start :
    billing info = Some b → amount b = Some a → currency b = Some cur →
    num_eqb (parse_decimal a) (num_of_Z 0) = false →
    expires_at info = Some e → names_day e expiry → now = Some t → t < expiry * 86400000 →
    cycle_length b months → 0 < months → cycle_day info b expiry months day → start < expiry →
    month_index (civil_of start) = month_index (civil_of expiry) - months →
    mday (civil_of start) = Z.min day (month_length (year (civil_of start)) (month (civil_of start))) →
    left_over info now
      {| m_amount := num_mul (parse_decimal a)
           (num_div (num_of_Z (expiry * 86400000 - t)) (num_of_Z (expiry * 86400000 - start * 86400000)));
         m_currency := cur |}.

Lemma explicitRenewalDay_spec info day : explicitRenewalDay info = Some day ↔ explicit_day info day.
Proof.
  unfold explicitRenewalDay, explicit_day. destruct (anchor_day info) as [x|]; [|naive_solver].
  destruct (num_to_Z x) as [z|] eqn:Hz; [|naive_solver]. case_bool_decide as Hr.
  - split; [intros [= <-]; by exists x|]. intros (? & [= <-] & E & _). congruence.
  - split; [done|]. intros (? & [= <-] & E & ?). rewrite Hz in E. by injection E as ->.
Qed.

Lemma explicitRenewalDay_none info : explicitRenewalDay info = None ↔ ∀ d, ¬ explicit_day info d.
Proof.
  setoid_rewrite <-explicitRenewalDay_spec. destruct (explicitRenewalDay info) as [d|]; [|by split].
  split; [done|]. intros Hd. by destruct (Hd d).
Qed.

Lemma renewalDay_spec info expiry x months day :
  num_to_Z x = Some months → 0 < months →
  renewalDay info expiry x = Some day ↔ anchored info expiry months day.
Proof.
  intros Hx Hpos. unfold renewalDay, anchored. rewrite Hx.
  destruct (anchor_date info) as [[|u value]|]; [|..|naive_solver].
  { split; [done|]. intros (? & anchor & [= <-] & (? & ? & ? & Hp & _) & _). discriminate Hp. }
  assert (∀ anchor, names_day (u :: value) anchor ↔ expiryDate (u :: value) = Some anchor) as Hdate
    by (intros; symmetry; apply expiryDate_exact).
  destruct (expiryDate (u :: value)) as [anchor|] eqn:Ha.
  2:{ split; [done|]. intros (? & anchor & [= <-] & Hn & _). apply Hdate in Hn. congruence. }
  cbn zeta. rewrite last_day by apply civil_of_valid.
  set (day' := default (mday (civil_of anchor)) (explicitRenewalDay info)).
  assert (∀ d, (explicit_day info d ∨ (∀ d', ¬ explicit_day info d') ∧ d = mday (civil_of anchor)) ↔ d = day') as Hday.
  { intros d. unfold day'. rewrite <-explicitRenewalDay_none, <-explicitRenewalDay_spec.
    destruct (explicitRenewalDay info); cbn; naive_solver. }
  assert (Z.rem ((year (civil_of expiry) - year (civil_of anchor)) * 12 + month (civil_of expiry)
    - month (civil_of anchor)) months = 0 ↔ (months | month_index (civil_of expiry) - month_index (civil_of anchor))) as Hrem.
  { rewrite Z.rem_divide by lia. unfold month_index. by replace ((year (civil_of expiry) - year (civil_of anchor)) * 12
      + month (civil_of expiry) - month (civil_of anchor)) with (year (civil_of expiry) * 12 + month (civil_of expiry)
      - (year (civil_of anchor) * 12 + month (civil_of anchor))) by lia. }
  split.
  - case_bool_decide; [done|]. case_match eqn:Hc; [|done]. intros [= <-].
    apply andb_true_iff in Hc as [H1 H2]. apply bool_decide_eq_true in H1, H2.
    exists (u :: value), anchor. split_and!; [done|by apply Hdate|lia|by apply Hrem|by apply Hday|done].
  - intros (? & anchor' & [= <-] & Hn & Hle & Hdiv & Hd & Hm). apply Hdate in Hn. injection Hn as <-.
    apply Hday in Hd. subst day. rewrite bool_decide_eq_false_2 by lia.
    by rewrite !bool_decide_eq_true_2 by (done || by apply Hrem).
Qed.

Lemma billing_months_spec b months :
  isFinite (billing_months b) = true → num_leb (billing_months b) (num_of_Z 0) = false →
  num_to_Z (billing_months b) = Some months ↔ cycle_length b months.
Proof.
  intros Hf Hp. unfold cycle_length. rewrite !elem_of_cons. setoid_rewrite elem_of_nil.
  unfold billing_months, is_custom in *. destruct (bool_decide (cycle b = js "custom")) eqn:Hc; reflect_bools.
  - rewrite Hc. split.
    + intros Hm. right. split; [done|]. destruct (years b) as [y|]; [|done]. destruct (yearsPattern y) eqn:Hy; [|done].
      by exists y.
    + intros [Hm|(_ & y & -> & Hy & Hm)]; [|by rewrite Hy].
      exfalso. destruct Hm as [Hm|[Hm|[Hm|[Hm|[]]]]]; apply (f_equal fst) in Hm; by vm_compute in Hm.
  - unfold cycleMonths in *. repeat case_bool_decide; cbn [default] in *; try done;
      (match goal with E : cycle b = _ |- _ => rewrite E in * end);
      (split; [intros Hm; vm_compute in Hm; injection Hm as <-; tauto|]);
      (intros [Hm|[? _]]; [|done]); destruct Hm as [Hm|[Hm|[Hm|[Hm|[]]]]];
      (pose proof (f_equal fst Hm) as Hk; pose proof (f_equal snd Hm) as Hv; cbn [fst snd] in Hk, Hv); subst;
      first [by vm_compute in Hk|by vm_compute].
Qed.

(** A day is determined by its month and its day of month. *)
Lemma day_unique a b :
  month_index (civil_of a) = month_index (civil_of b) → mday (civil_of a) = mday (civil_of b) → a = b.
Proof.
  intros Hi Hd. rewrite <-(day_of_civil_of a), <-(day_of_civil_of b). f_equal.
  destruct (civil_of_valid a) as [Ha _], (civil_of_valid b) as [Hb _]. unfold month_index in Hi.
  destruct (civil_of a), (civil_of b). cbn in *. f_equal; lia.
Qed.

(** The share that is left, in the code and in the specification. *)
Lemma share_exact info b expiry :
  isFinite (billing_months b) = true → num_leb (billing_months b) (num_of_Z 0) = false →
  let anchorDay := renewalDay info expiry (billing_months b) in
  (is_custom b || bool_decide (is_Some (explicitRenewalDay info))) && negb (bool_decide (is_Some anchorDay)) = false →
  ∃ months day, cycle_length b months ∧ 0 < months ∧ cycle_day info b expiry months day ∧
    day = default (mday (civil_of expiry)) anchorDay ∧
    previousCycle expiry (default 0 (num_to_Z (billing_months b))) day = previousCycle expiry months day ∧ 1 ≤ day.
Proof.
  intros Hfin Hpos anchorDay Hren. destruct (cycle_months_int b info expiry Hfin Hpos Hren) as (months & Hmo & Hmp).
  exists months, (default (mday (civil_of expiry)) anchorDay). rewrite Hmo.
  pose proof (λ d, renewalDay_spec info expiry _ months d Hmo Hmp) as Hspec. fold anchorDay in Hspec.
  split_and!; [by apply billing_months_spec|done| |done|done|].
  - destruct anchorDay as [d|]; cbn; [left; by apply Hspec|right].
    rewrite andb_true_r, orb_false_iff in Hren. destruct Hren as [Hcus Hexp]. split_and!; [|..|done].
    + intros d Hd%Hspec. done.
    + unfold is_custom in Hcus. by apply bool_decide_eq_false in Hcus.
    + apply bool_decide_eq_false in Hexp. rewrite <-explicitRenewalDay_none.
      destruct (explicitRenewalDay info); [by destruct Hexp|done].
  - destruct anchorDay as [d|] eqn:Hd; [by eapply renewalDay_range|apply mday_pos].
Qed.

(** A custom cycle or an explicit day needs a matching anchor. *)
Lemma share_supported info b expiry months day :
  num_to_Z (billing_months b) = Some months → 0 < months → cycle_day info b expiry months day →
  (is_custom b || bool_decide (is_Some (explicitRenewalDay info)))
    && negb (bool_decide (is_Some (renewalDay info expiry (billing_months b)))) = false ∧
  day = default (mday (civil_of expiry)) (renewalDay info expiry (billing_months b)).
Proof.
  intros Hmo Hmp. pose proof (λ d, renewalDay_spec info expiry _ months d Hmo Hmp) as Hspec.
  intros [Ha%Hspec|(Hn & Hcus & He%explicitRenewalDay_none & ->)].
  - rewrite Ha, (bool_decide_eq_true_2 (is_Some (Some day))) by eauto. by rewrite andb_false_r.
  - rewrite He. unfold is_custom. rewrite bool_decide_eq_false_2 by done. cbn.
    destruct (renewalDay info expiry (billing_months b)) as [d|]; [by destruct (Hn d); apply Hspec|done].
Qed.

#[local] Strategy opaque [num_mul num_div num_of_Z parse_decimal previousCycle civil_of num_to_Z billing_months].

Lemma day_ms_eq : day_ms = 86400000.
Proof. reflexivity. Qed.

Lemma known_share info b a cur e expiry t :
  billing info = Some b → amount b = Some a → currency b = Some cur →
  num_eqb (parse_decimal a) (num_of_Z 0) = false → expires_at info = Some e → expiryDate e = Some expiry →
  isFinite (billing_months b) = true → num_leb (billing_months b) (num_of_Z 0) = false →
  ∀ m, (if bool_decide (expiry * day_ms ≤ t) then Some {| m_amount := num_of_Z 0; m_currency := cur |}
        else if (is_custom b || bool_decide (is_Some (explicitRenewalDay info)))
                && negb (bool_decide (is_Some (renewalDay info expiry (billing_months b))))
        then None
        else Some {| m_amount := num_mul (parse_decimal a) (num_div (num_of_Z (expiry * day_ms - t))
               (num_of_Z (expiry * day_ms - previousCycle expiry (default 0 (num_to_Z (billing_months b)))
                 (default (mday (civil_of expiry)) (renewalDay info expiry (billing_months b))) * day_ms)));
               m_currency := cur |}) = Some m ↔ left_over info (Some t) m.
Proof.
  intros Hb Ha Hcur Hzero He Hx Hfin Hpos m. rewrite day_ms_eq. pose proof (proj1 (expiryDate_exact _ _) Hx) as Hday. split.
  - destruct (bool_decide (expiry * 86400000 ≤ t)) eqn:Hexp; reflect_bools.
    { intros Hm. apply (inj Some) in Hm as <-. by apply (left_expired info (Some t) b a cur e expiry t). }
    destruct (_ && _) eqn:Hren; [done|]. intros Hm. apply (inj Some) in Hm as <-.
    destruct (share_exact info b expiry Hfin Hpos Hren) as (months & day & Hlen & Hmp & Hcd & <- & -> & Hd1).
    destruct (previousCycle_exact expiry months day Hmp Hd1) as (Hlt & Hidx & Hmd).
    apply (left_share info (Some t) b a cur e expiry t months day); done || lia.
  - intros Hl. destruct Hl as [b' a' cur' Hb' Ha' Hcur' Hz|b' a' cur' e' expiry' t' Hb' Ha' Hcur' Hz He' Hx' Ht Hle
      |b' a' cur' e' expiry' t' months day start Hb' Ha' Hcur' Hz He' Hx' Ht Hlt Hlen Hmp Hcd Hst Hidx Hmd];
      rewrite Hb in Hb'; injection Hb' as <-; rewrite Ha in Ha'; injection Ha' as <-;
      rewrite Hcur in Hcur'; injection Hcur' as <-; [congruence|..];
      rewrite He in He'; injection He' as <-; apply expiryDate_exact in Hx'; rewrite Hx in Hx'; injection Hx' as <-;
      injection Ht as <-.
    + by rewrite bool_decide_eq_true_2 by lia.
    + rewrite bool_decide_eq_false_2 by lia.
      pose proof (proj2 (billing_months_spec b months Hfin Hpos) Hlen) as Hmo.
      destruct (share_supported info b expiry months day Hmo Hmp Hcd) as [-> Hdd]. rewrite <-Hdd, Hmo.
      change (default 0 (Some months)) with months.
      assert (1 ≤ day) as Hd1.
      { rewrite Hdd. destruct (renewalDay info expiry (billing_months b)) eqn:Hd; [by eapply renewalDay_range|apply mday_pos]. }
      destruct (previousCycle_exact expiry months day Hmp Hd1) as (_ & Hidx' & Hmd').
      replace (previousCycle expiry months day) with start; [done|]. apply day_unique; [congruence|].
      assert (year (civil_of start) = year (civil_of (previousCycle expiry months day)) ∧
        month (civil_of start) = month (civil_of (previousCycle expiry months day))) as [Hy Hmm].
      { destruct (civil_of_valid start) as [? _], (civil_of_valid (previousCycle expiry months day)) as [? _].
        unfold month_index in *. lia. }
      by rewrite Hmd, Hmd', Hy, Hmm.
Qed.

(** C36: the remaining cost of a node is exact.  It is unknown exactly when a
    reason is given; and it is known, with a given value, exactly if the price
    is valid (the monthly cost is known) and the value is one of these: zero
    for a price of zero; zero when the expiry, a valid date, has passed; and
    otherwise the price times the share that is left of the calendar cycle
    ending at the expiry, (expiry - now) / (expiry - start).  That cycle is 1,
    3, 6 or 12 months, or twelve times the years of a custom cycle when that
    is a whole number; its start lies before the expiry, in the month that many
    months before it, on the cycle's day of month or the last day of a shorter
    month.  The cycle's day is the one of the renewal anchor (its explicit day
    from 1 to 31, else that of the anchor date), if the anchor is not after the
    expiry, a whole number of cycles before it, and agrees with the expiry's
    day; without such an anchor it is the expiry's own day, and then a custom
    cycle or an explicit day leaves the value unknown. *)
Theorem remaining_cost_prorated (info : CostInfo) (now : option Z) :
  let c := calculateNodeCost info now in
  (remaining c = None ↔ is_Some (remainingReason c)) ∧
  ∀ m, remaining c = Some m ↔ is_Some (monthly c) ∧ left_over info now m.
Proof.
  unfold calculateNodeCost.
  assert (∀ r, let c := unknown r in (remaining c = None ↔ is_Some (remainingReason c)) ∧
    ∀ m, remaining c = Some m ↔ is_Some (monthly c) ∧ left_over info now m) as Hunknown.
  { intros r. cbn. split; [by split; eauto|]. intros m. split; [done|]. by intros [[? ?] _]. }
  destruct (billing info) as [b|] eqn:Hb; [|apply Hunknown].
  destruct (amount b) as [[|u a]|] eqn:Ha; [apply Hunknown| |apply Hunknown].
  destruct (currency b) as [cur|] eqn:Hcur; [|apply Hunknown].
  case_match; [apply Hunknown|]. cbn zeta. case_match eqn:Hmon; [apply Hunknown|].
  apply orb_false_iff in Hmon as [Hfin%negb_false_iff Hpos]. clear Hunknown.
  set (x := parse_decimal (u :: a)).
  assert (∀ r mm P, (∀ m, r = Some m ↔ P m) → (∀ reason, (r = None ↔ is_Some reason) →
    let c := {| monthly := Some mm; remaining := r; remainingReason := reason |} in
    (remaining c = None ↔ is_Some (remainingReason c)) ∧ ∀ m, remaining c = Some m ↔ is_Some (monthly c) ∧ P m)) as Hknown.
  { intros r mm P Hr reason Hreason. cbn. split; [done|]. intros m. rewrite Hr. split; [by eauto|by intros [_ ?]]. }
  destruct (num_eqb x (num_of_Z 0)) eqn:Hzero.
  { apply Hknown; [|by split; [|intros []]]. intros m. split.
    - intros [= <-]. by apply (left_free info now b (u :: a)).
    - intros Hl. destruct Hl; simplify_eq; unfold x in *; congruence. }
  assert (∀ e m, left_over info now m → expires_at info = Some e → ∃ expiry t, expiryDate e = Some expiry ∧ now = Some t) as Hdate.
  { intros e m Hl He. destruct Hl; simplify_eq; [unfold x in *; congruence|..];
      (eexists _, _; split; [by apply expiryDate_exact|done]). }
  assert (∀ m, left_over info now m → is_Some (expires_at info)) as Hexpires.
  { intros m Hl. destruct Hl; simplify_eq; [unfold x in *; congruence|by eauto..]. }
  destruct (expires_at info) as [[|v e]|] eqn:He.
  1, 3: apply Hknown; [|by split; [eauto|]]; intros m; split; [done|]; intros Hl.
  { destruct (Hdate [] m Hl eq_refl) as (? & ? & Hx & _). discriminate Hx. }
  { by destruct (Hexpires m Hl). }
  destruct (expiryDate (v :: e)) as [expiry|] eqn:Hx.
  2:{ apply Hknown; [|by split; [eauto|]]. intros m. split; [done|]. intros Hl.
      destruct (Hdate _ m Hl eq_refl) as (? & ? & E & _). congruence. }
  destruct now as [t|].
  2:{ apply Hknown; [|by split; [eauto|]]. intros m. split; [done|]. intros Hl.
      destruct (Hdate _ m Hl eq_refl) as (? & ? & _ & E). congruence. }
  pose proof (known_share info b (u :: a) cur (v :: e) expiry t Hb Ha Hcur Hzero He Hx Hfin Hpos) as Hr.
  destruct (bool_decide (expiry * day_ms ≤ t)); [apply Hknown; [exact Hr|by split; [|intros []]]|].
  destruct (_ && _); (apply Hknown; [exact Hr|]); [by split; eauto|by split; [|intros []]].
Qed.

(** A node of 365 USD a year that expires on 2027-01-01: on 2026-01-02 at noon
    363.5 USD are left, and nothing at the expiry. *)
Definition sample_info : CostInfo :=
  {| billing := Some {| amount := Some (js "365"); currency := Some (js "USD"); cycle := js "annual"; years := None |};
     price := None; expires_at := Some (js "2027-01-01"); anchor_date := None; anchor_day := None |}.

Example sample_remaining :
  remaining (calculateNodeCost sample_info (Some (20455 * day_ms + 43200000)))
    = Some {| m_amount := parse_decimal (js "363.5"); m_currency := js "USD" |} ∧
  remaining (calculateNodeCost sample_info (Some (20819 * day_ms)))
    = Some {| m_amount := num_of_Z 0; m_currency := js "USD" |}.
Proof. split; vm_compute; reflexivity. Qed.

(** ** Conversion *)

Section conversion.
Context (exchange : option ExchangeRates) (now : option Z) (target : jsstring).

(** An amount that needs exchange rates. *)
Definition foreign (m : Money) : bool :=
  negb (num_eqb (m_amount m) (num_of_Z 0) || bool_decide (m_currency m = target)).

(** The currencies whose quotes an amount needs. *)
Definition needed (m : Money) : list jsstring := if foreign m then [m_currency m; target] else [].

Definition quotable (code : jsstring) : Prop := is_Some (usable_quote exchange now code).

(** An amount in the target currency. *)
Definition converted (m : Money) : num :=
  if foreign m then
    match usable_quote exchange now (m_currency m), usable_quote exchange now target with
    | Some (s, _), Some (t, _) => num_mul (m_amount m) (num_div t s)
    | _, _ => num_of_Z 0
    end
  else m_amount m.

Lemma quote_missing code c x :
  x ∈ c_missing (quote exchange now code c).1 ↔ x ∈ c_missing c ∨ (x = code ∧ ¬ quotable x).
Proof using.
  unfold quote, quotable. destruct (usable_quote exchange now code) as [[r d]|] eqn:Hq; cbn [fst c_missing].
  - split; [by left|]. intros [?|[-> Hx]]; [done|]. rewrite Hq in Hx. by destruct Hx.
  - assert (¬ is_Some (usable_quote exchange now code)) as Hn by (rewrite Hq; apply is_Some_None).
    case_bool_decide; set_solver.
Qed.

Lemma convert_one_missing c m x :
  x ∈ c_missing (convert_one exchange now target c m) ↔ x ∈ c_missing c ∨ (x ∈ needed m ∧ ¬ quotable x).
Proof using.
  unfold convert_one, needed, foreign. destruct (num_eqb _ _ || _); cbn [negb c_missing]; [set_solver|].
  pose proof (quote_missing (m_currency m) c x) as H1.
  destruct (quote exchange now (m_currency m) c) as [c1 s]. cbn [fst] in H1.
  pose proof (quote_missing target c1 x) as H2.
  destruct (quote exchange now target c1) as [c2 t]. cbn [fst] in H2.
  destruct s, t; cbn [c_missing]; set_solver.
Qed.

Lemma convert_fold_missing ms c x :
  x ∈ c_missing (foldl (convert_one exchange now target) c ms) ↔
  x ∈ c_missing c ∨ ∃ m, m ∈ ms ∧ x ∈ needed m ∧ ¬ quotable x.
Proof using.
  revert c. induction ms as [|m ms IH]; intros c; cbn; [set_solver|].
  rewrite IH, convert_one_missing. set_solver.
Qed.

Lemma quote_total code c :
  c_total (quote exchange now code c).1 = c_total c ∧
  (quote exchange now code c).2 = fst <$> usable_quote exchange now code.
Proof using. unfold quote. by destruct (usable_quote exchange now code) as [[]|]. Qed.

Lemma convert_one_total c m :
  Forall quotable (needed m) →
  c_total (convert_one exchange now target c m) = num_add (c_total c) (converted m).
Proof using.
  unfold convert_one, needed, converted, foreign. destruct (num_eqb _ _ || _); cbn [negb c_total]; [done|].
  rewrite !Forall_cons. intros ([[s d] Hs] & [[t d'] Ht] & _).
  pose proof (quote_total (m_currency m) c) as [H1 H1'].
  destruct (quote exchange now (m_currency m) c) as [c1 s']. cbn [fst snd] in H1, H1'.
  pose proof (quote_total target c1) as [H2 H2'].
  destruct (quote exchange now target c1) as [c2 t']. cbn [fst snd] in H2, H2'.
  rewrite Hs in *. rewrite Ht in *. subst s' t'. cbn. by rewrite H2, H1.
Qed.

Lemma convert_fold_total ms c :
  (∀ m, m ∈ ms → Forall quotable (needed m)) →
  c_total (foldl (convert_one exchange now target) c ms) = foldl (λ x m, num_add x (converted m)) (c_total c) ms.
Proof using.
  revert c. induction ms as [|m ms IH]; intros c Hms; cbn; [done|].
  rewrite IH by set_solver. rewrite convert_one_total by set_solver. done.
Qed.

Lemma quotable_dec code : ¬ ¬ quotable code → quotable code.
Proof using. unfold quotable. destruct (usable_quote exchange now code); [eauto|]. intros []. by intros []. Qed.

End conversion.

(** A converted total is never partial.  When a total is given, every
    amount that needs exchange rates had usable ones, the total is the sum of
    all the converted amounts in the target currency, and it is finite.  A
    currency is reported as missing exactly when some amount needs it and its
    quote is not usable, and then no total is given. *)
Theorem converted_never_partial (locale_leb : jsstring → jsstring → bool) (infos : list CostInfo)
    (kind : cost_kind) (target : jsstring) (exchange : option ExchangeRates) (now : option Z) :
  let s := summarizeConvertedNodeCosts locale_leb infos kind target exchange now in
  let ms := amounts (summarizeNodeCosts locale_leb infos kind now) in
  (∀ m, money s = Some m →
     missingCurrencies s = [] ∧ m_currency m = target ∧ isFinite (m_amount m) = true ∧
     (∀ x, x ∈ ms → Forall (quotable exchange now) (needed target x)) ∧
     m_amount m = foldl (λ t x, num_add t (converted exchange now target x)) (num_of_Z 0) ms) ∧
  (∀ code, code ∈ missingCurrencies s ↔
     currency_pattern target = true ∧ reserved_currency target = false ∧
     ∃ x, x ∈ ms ∧ code ∈ needed target x ∧ ¬ quotable exchange now code).
Proof.
  cbn zeta. unfold summarizeConvertedNodeCosts.
  set (ms := amounts _). set (c := convert_all exchange now target ms).
  assert (∀ code, code ∈ c_missing c ↔ ∃ x, x ∈ ms ∧ code ∈ needed target x ∧ ¬ quotable exchange now code)
    as Hmiss by (intros code; unfold c, convert_all; rewrite convert_fold_missing; cbn [c_missing]; set_solver).
  destruct (bool_decide (ms = [])) eqn:Hnil; cbn [orb].
  { reflect_bools. rewrite Hnil. cbn. split; [done|]. set_solver. }
  clear Hnil.
  destruct (currency_pattern target); cbn [negb orb]; [|cbn; split; [done|]; naive_solver set_solver].
  destruct (reserved_currency target); [cbn; split; [done|]; naive_solver set_solver|].
  case_bool_decide as Hc; cbn [negb].
  2:{ cbn [money missingCurrencies]. split; [done|]. intros code. rewrite sort_leb_perm, Hmiss. naive_solver. }
  rewrite Hc in Hmiss.
  destruct (negb (isFinite (c_total c)) || _) eqn:Hf.
  { cbn. split; [done|]. naive_solver. }
  apply orb_false_iff in Hf as [Hf%negb_false_iff _]. cbn [money missingCurrencies].
  assert (∀ x, x ∈ ms → Forall (quotable exchange now) (needed target x)) as Hall.
  { intros x Hx. apply Forall_forall. intros code Hcode. apply quotable_dec. intros Hn.
    apply (not_elem_of_nil code), Hmiss. eauto. }
  split; [|naive_solver].
  intros m [= <-]. cbn [m_amount m_currency]. split_and!; try done.
  by apply (convert_fold_total exchange now target ms {| c_total := num_of_Z 0; c_dates := []; c_missing := [] |}).
Qed.

(** The year of the sample costs 365 USD, 730 at two units for a dollar; with no
    quote for the target there is no total and the target is missing. *)
Example sample_converted :
  let rates r := Some {| base := js "USD"; rates := (js "USD", JNum (num_of_Z 1)) :: r;
    dates := [(js "USD", js "2026-01-01"); (js "EUR", js "2026-01-01")]; fetched_at := num_of_Z 1767225600;
    stale := false; source := js "Frankfurter" |} in
  let sum r := summarizeConvertedNodeCosts units_leb [sample_info] remaining_kind (js "EUR") (rates r)
                 (Some (20454 * day_ms)) in
  money (sum [(js "EUR", JNum (num_of_Z 2))]) = Some {| m_amount := num_of_Z 730; m_currency := js "EUR" |} ∧
  rateDate (sum [(js "EUR", JNum (num_of_Z 2))]) = Some (js "2026-01-01") ∧
  is_stale (sum [(js "EUR", JNum (num_of_Z 2))]) = false ∧
  money (sum []) = None ∧ missingCurrencies (sum []) = [js "EUR"].
Proof. cbn zeta. split_and!; vm_compute; reflexivity. Qed.

End NodeCost.
