(* ===== verification/TagHelper.v ===== *)
(** * Tags, prices and expiry of nodes

    [glass-shared/utils/tagHelper.ts] and [glass-shared/expiry-label.ts].  The
    dictionary [t] and the date library [dayjs] are parameters; [dayjs] gives
    the time stamp of a value in milliseconds, or nothing for an invalid date.
    Every function that reads the clock gets the readings as arguments, one per
    call of [Date.now].  The quotients of time stamps are taken over [Z]: below
    2^53 milliseconds, the rounded quotient of the code has the same floor and
    ceiling. *)

From Stdlib Require Import SpecFloat.
From S2P Require Import Prelude JsMap JsString Json JsValue JsNumber.

Open Scope Z_scope.

Module TagHelper.

(** ** Billing cycles *)

Inductive BillingCycleType :=
  | monthly | quarterly | semi_annual | annual | biennial | triennial | quinquennial | once | custom.

#[global] Instance BillingCycleType_eq_dec : EqDecision BillingCycleType.
Proof. solve_decision. Defined.

Definition BILLING_CYCLE_RANGES : list (BillingCycleType * Z * Z) :=
  [(monthly, 27, 32); (quarterly, 87, 95); (semi_annual, 175, 185); (annual, 360, 370);
   (biennial, 720, 750); (triennial, 1080, 1150); (quinquennial, 1800, 1850)].

Definition in_range (x : num) (r : BillingCycleType * Z * Z) : bool :=
  num_leb (num_of_Z r.1.2) x && num_leb x (num_of_Z r.2).

Definition parseBillingCycleType (billingCycle : num) : BillingCycleType :=
  if num_eqb billingCycle (num_of_Z (-1)) then once
  else match list_find_first (in_range billingCycle) BILLING_CYCLE_RANGES with
       | Some r => r.1.1
       | None => custom
       end.

Inductive lang := zh_CN | en_US.

Definition getBillingCycleText (billingCycle : num) (l : lang) : jsstring :=
  let text zh en := match l with zh_CN => js zh | en_US => js en end in
  match parseBillingCycleType billingCycle with
  | monthly => text "月" "Month"
  | quarterly => text "季" "Quarter"
  | semi_annual => text "半年" "Semi-Annual"
  | annual => text "年" "Year"
  | biennial => text "两年" "Biennial"
  | triennial => text "三年" "Triennial"
  | quinquennial => text "五年" "Quinquennial"
  | once => text "一次性" "Once"
  | custom => number_string billingCycle ++ text " 天" " Days"
  end.

(** ** Expiry *)

Inductive ExpireStatus := unknown | expired | critical | warning | normal | long_term.

#[global] Instance ExpireStatus_eq_dec : EqDecision ExpireStatus.
Proof. solve_decision. Defined.

Definition MS_PER_DAY : Z := 24 * 60 * 60 * 1000.
Definition threshold_critical : Z := 5.
Definition threshold_warning : Z := 10.
Definition threshold_long_term : Z := 36500.

(** [Math.ceil(a / b)] *)
Definition ceil_div (a b : Z) : Z := - (- a / b).

Inductive status_color := color_error | color_warning | color_success | color_default.

Definition getExpireStatusColor (status : ExpireStatus) : status_color :=
  match status with
  | expired | critical => color_error
  | warning => color_warning
  | normal | long_term => color_success
  | unknown => color_default
  end.

(** [s.replace(p, r)] with a text [p]: the first occurrence. *)
Fixpoint replace_first (p r s : jsstring) : jsstring :=
  if startsWith s p then r ++ drop (length p) s
  else match s with [] => [] | u :: s => u :: replace_first p r s end.

Section expiry.
Context (dayjs : value → option Z) (t : jsstring → jsstring).

Definition getExpiryDiffMs (expiredAt : value) (now : Z) : option Z :=
  if negb (truthy expiredAt) then None
  else match dayjs expiredAt with Some date => Some (date - now) | None => None end.

Definition getDaysUntilExpired (expiredAt : value) (now : Z) : Z :=
  match getExpiryDiffMs expiredAt now with
  | None => 0
  | Some diffMs => if bool_decide (diffMs ≤ 0) then diffMs / MS_PER_DAY else ceil_div diffMs MS_PER_DAY
  end.

Definition getExpireStatus (expiredAt : value) (now : Z) : ExpireStatus :=
  match getExpiryDiffMs expiredAt now with
  | None => unknown
  | Some diffMs =>
      if bool_decide (diffMs ≤ 0) then expired
      else
        let days := ceil_div diffMs MS_PER_DAY in
        if bool_decide (days ≤ threshold_critical) then critical
        else if bool_decide (days ≤ threshold_warning) then warning
        else if bool_decide (days > threshold_long_term) then long_term
        else normal
  end.

Definition expiryLabel (status : ExpireStatus) (days : Z) (translate : jsstring → jsstring) (remaining : bool)
    : jsstring :=
  match status with
  | unknown => js "-"
  | expired => translate (js "已过期")
  | long_term => translate (js "长期")
  | _ =>
      if negb remaining && bool_decide (days = 1) then translate (js "1 天")
      else
        let key := if remaining then if bool_decide (days = 1) then js "expiry.remainingDay"
                                     else js "expiry.remainingDays"
                   else js "expiry.days" in
        replace_first (js "{days}") (int_string days) (translate key)
  end.

(** The clock is read for the days and then for the status. *)
Definition getExpireText (expiredAt : value) (remaining : bool) (now1 now2 : Z) : jsstring :=
  let days := getDaysUntilExpired expiredAt now1 in
  let status := getExpireStatus expiredAt now2 in
  expiryLabel status days t remaining.

(** The clock is read for the status and then for the days. *)
Definition getRemainingValue (price billingCycle : num) (expiredAt : value) (now1 now2 : Z) : num :=
  if negb (num_truthy price) || num_leb price (num_of_Z 0) then num_of_Z 0
  else match getExpireStatus expiredAt now1 with
    | unknown | expired => num_of_Z 0
    | long_term => price
    | _ =>
        let days := getDaysUntilExpired expiredAt now2 in
        if num_leb billingCycle (num_of_Z 0) then price
        else num_mul price (num_div (num_of_Z days) billingCycle)
    end.

(** ** Prices *)

Definition isFreePrice (price : num) : bool := num_eqb price (num_of_Z (-1)).

Definition formatPrice (price : num) (currency : jsstring) (l : lang) : jsstring :=
  if num_eqb price (num_of_Z 0) || isFreePrice price
  then match l with zh_CN => t (js "免费") | en_US => js "Free" end
  else currency ++ number_string price.

Definition formatPriceWithCycle (price billingCycle : num) (currency : jsstring) (l : lang) : jsstring :=
  if isFreePrice price then formatPrice price currency l
  else formatPrice price currency l ++ js " / " ++ getBillingCycleText billingCycle l.
End expiry.

(** ** Tags *)

Inductive TagColor :=
  | ruby | gray | gold | bronze | brown | yellow | amber | orange | tomato | red | crimson | pink | plum
  | purple | violet | iris | indigo | blue | cyan | teal | jade | green | grass | lime | mint | sky.

#[global] Instance TagColor_eq_dec : EqDecision TagColor.
Proof. solve_decision. Defined.

Definition TAG_COLORS : list TagColor :=
  [ruby; gray; gold; bronze; brown; yellow; amber; orange; tomato; red; crimson; pink; plum;
   purple; violet; iris; indigo; blue; cyan; teal; jade; green; grass; lime; mint; sky].

(** The spelling of a colour. *)
Definition color_name (c : TagColor) : jsstring :=
  js match c with
  | ruby => "ruby" | gray => "gray" | gold => "gold" | bronze => "bronze" | brown => "brown"
  | yellow => "yellow" | amber => "amber" | orange => "orange" | tomato => "tomato" | red => "red"
  | crimson => "crimson" | pink => "pink" | plum => "plum" | purple => "purple" | violet => "violet"
  | iris => "iris" | indigo => "indigo" | blue => "blue" | cyan => "cyan" | teal => "teal"
  | jade => "jade" | green => "green" | grass => "grass" | lime => "lime" | mint => "mint" | sky => "sky"
  end.

Definition TAG_COLOR_HEX_MAP (c : TagColor) : jsstring :=
  js match c with
  | ruby => "#E5484D" | gray => "#8D8D8D" | gold => "#E5C00D" | bronze => "#C2853C" | brown => "#AA6A38"
  | yellow => "#F9D400" | amber => "#F5B21A" | orange => "#F97316" | tomato => "#E54D2E" | red => "#E5484D"
  | crimson => "#E93D82" | pink => "#E24D8C" | plum => "#A855C2" | purple => "#8E4EC6" | violet => "#7C5DFA"
  | iris => "#5B5BD6" | indigo => "#6366F1" | blue => "#0090FF" | cyan => "#00A2C7" | teal => "#12A594"
  | jade => "#29A383" | green => "#30A46C" | grass => "#46A358" | lime => "#84CC16" | mint => "#4FD1C5"
  | sky => "#00A6ED"
  end.

Definition getExpireStatusHexColor (status : ExpireStatus) : jsstring :=
  TAG_COLOR_HEX_MAP match status with
  | expired | critical => tomato
  | warning => orange
  | normal => green
  | long_term | unknown => gray
  end.

Definition getTagColorHex (color : TagColor) : jsstring := TAG_COLOR_HEX_MAP color.

(** [\w] *)
Definition is_word (u : Z) : bool :=
  bool_decide (48 ≤ u ≤ 57) || bool_decide (65 ≤ u ≤ 90) || bool_decide (97 ≤ u ≤ 122) || bool_decide (u = 95).

(** The longest prefix of word characters, in reverse before [acc], and the rest. *)
Fixpoint word_run (s acc : jsstring) : jsstring * jsstring :=
  match s with
  | u :: s' => if is_word u then word_run s' (u :: acc) else (acc, s)
  | [] => (acc, [])
  end.

(** [TAG_COLOR_SUFFIX_REGEX] and [TAG_COLOR_SUFFIX_REMOVE_REGEX]: what is before
    the suffix, and its word.  The text is scanned from its end; a word has no
    angle bracket, so there is one match at most. *)
Definition color_suffix (s : jsstring) : option (jsstring * jsstring) :=
  match reverse s with
  | 62 :: r =>
      match word_run r [] with
      | ((_ :: _) as word, 60 :: before) => Some (reverse before, word)
      | _ => None
      end
  | _ => None
  end.

Section tags.
Context `{CaseMapping}.

Definition parseTagWithColor (tag : jsstring) : jsstring * option TagColor :=
  let normalizedTag := trim tag in
  match color_suffix normalizedTag with
  | Some (before, word) =>
      match list_find_first (λ c, bool_decide (color_name c = toLowerCase word)) TAG_COLORS with
      | Some c => (trim before, Some c)
      | None => (normalizedTag, None)
      end
  | None => (normalizedTag, None)
  end.

Record tag := { text : jsstring; color : TagColor; hex : jsstring }.

Definition defaultColor (index : nat) : TagColor :=
  default blue (TAG_COLORS !! (index `mod` length TAG_COLORS)%nat).

Definition resolve_tag (index : nat) (s : jsstring) : tag :=
  let '(x, c) := parseTagWithColor s in
  let resolvedColor := default (defaultColor index) c in
  {| text := x; color := resolvedColor; hex := getTagColorHex resolvedColor |}.

(** The argument is [None] for [undefined]. *)
Definition parseTags (tags : option jsstring) : list tag :=
  match tags with
  | None | Some [] => []
  | Some tags =>
      if bool_decide (trim tags = []) then []
      else imap resolve_tag (bfilter (λ s, negb (bool_decide (s = []))) (trim <$> split_char 59 tags []))
  end.

Definition hasFreeNodeTag (tags : option jsstring) : bool :=
  some (λ x, bool_decide (text x = js "白嫖中")) (parseTags tags).

Definition isFreeNode (price : num) (tags : option jsstring) : bool := isFreePrice price || hasFreeNodeTag tags.
End tags.

(** [hasIPv4] and [hasIPv6] *)
Definition hasIP (ip : option jsstring) : bool :=
  match ip with
  | None | Some [] => false
  | Some s => negb (bool_decide (trim s = []))
  end.

(** ** Billing cycles are told apart *)

Lemma ranges_apart :
  every (λ r, every (λ r', bool_decide (r = r') || negb (num_leb (num_of_Z r'.1.2) (num_of_Z r.2))
                             || negb (num_leb (num_of_Z r.1.2) (num_of_Z r'.2))) BILLING_CYCLE_RANGES)
    BILLING_CYCLE_RANGES = true.
Proof. vm_compute. reflexivity. Qed.

Lemma in_range_unique x r r' :
  r ∈ BILLING_CYCLE_RANGES → r' ∈ BILLING_CYCLE_RANGES →
  in_range x r = true → in_range x r' = true → r = r'.
Proof.
  intros Hr Hr' [H1 H2]%andb_true_iff [H1' H2']%andb_true_iff.
  pose proof ranges_apart as Ha. rewrite every_true in Ha. specialize (Ha r Hr).
  rewrite every_true in Ha. specialize (Ha r' Hr').
  apply orb_true_iff in Ha as [[Ha|Ha]%orb_true_iff|Ha]; [by reflect_bools| |].
  - by rewrite (num_leb_trans _ _ _ H1' H2) in Ha.
  - by rewrite (num_leb_trans _ _ _ H1 H2') in Ha.
Qed.

(** The ranges may be tried in any order. *)
Lemma billing_cycle_exact x r :
  r ∈ BILLING_CYCLE_RANGES → in_range x r = true → parseBillingCycleType x = r.1.1.
Proof.
  intros Hr Hx. unfold parseBillingCycleType.
  assert (num_eqb x (num_of_Z (-1)) = false) as ->.
  { apply not_true_is_false. intros He. apply andb_true_iff in Hx as [Hx _].
    assert (num_leb x (num_of_Z (-1)) = true) as Hle.
    { revert He. unfold num_eqb, num_leb, SFeqb, SFleb. by destruct (SFcompare _ _) as [[]|]. }
    pose proof (num_leb_trans _ _ _ Hx Hle) as Hc. revert Hc. unfold BILLING_CYCLE_RANGES in Hr.
    repeat (apply elem_of_cons in Hr as [->|Hr]; [vm_compute; done|]). by apply not_elem_of_nil in Hr. }
  destruct (list_find_first (in_range x) BILLING_CYCLE_RANGES) as [r'|] eqn:Hf.
  - apply list_find_first_Some in Hf as [Hin Hx']. by rewrite (in_range_unique x r r').
  - rewrite list_find_first_None in Hf. specialize (Hf r Hr). congruence.
Qed.

(** ** The time left *)

Lemma ceil_div_le a b n : 0 < b → ceil_div a b ≤ n ↔ a ≤ n * b.
Proof.
  intros Hb. unfold ceil_div. pose proof (Z.div_mod (- a) b ltac:(lia)).
  pose proof (Z.mod_pos_bound (- a) b Hb). split; nia.
Qed.

(** How much time a status leaves. *)
Definition leisure (s : ExpireStatus) : Z :=
  match s with unknown | expired => 0 | critical => 1 | warning => 2 | normal => 3 | long_term => 4 end.

(** The statuses for which the number of days is shown. *)
Definition shows_days (s : ExpireStatus) : bool :=
  match s with critical | warning | normal => true | _ => false end.

Section expiry_theorems.
Context (dayjs : value → option Z).

Lemma status_of_left expiredAt date now :
  truthy expiredAt = true → dayjs expiredAt = Some date →
  let left := date - now in
  let status := getExpireStatus dayjs expiredAt now in
  (left ≤ 0 ∧ status = expired) ∨
  (0 < left ≤ 5 * MS_PER_DAY ∧ status = critical) ∨
  (5 * MS_PER_DAY < left ≤ 10 * MS_PER_DAY ∧ status = warning) ∨
  (10 * MS_PER_DAY < left ≤ 36500 * MS_PER_DAY ∧ status = normal) ∨
  (36500 * MS_PER_DAY < left ∧ status = long_term).
Proof using.
  intros Ht Hd. cbn zeta. unfold getExpireStatus, getExpiryDiffMs. rewrite Ht, Hd. cbn [negb].
  assert (0 < MS_PER_DAY) as Hp by (unfold MS_PER_DAY; lia).
  pose proof (ceil_div_le (date - now) MS_PER_DAY threshold_critical Hp) as H5.
  pose proof (ceil_div_le (date - now) MS_PER_DAY threshold_warning Hp) as H10.
  pose proof (ceil_div_le (date - now) MS_PER_DAY threshold_long_term Hp) as H100.
  unfold threshold_critical, threshold_warning, threshold_long_term in *.
  repeat case_bool_decide; naive_solver lia.
Qed.

(** With time left the days are the time left, rounded up. *)
Lemma days_of_left expiredAt date now :
  truthy expiredAt = true → dayjs expiredAt = Some date → now < date →
  let days := getDaysUntilExpired dayjs expiredAt now in
  1 ≤ days ∧ (days - 1) * MS_PER_DAY < date - now ≤ days * MS_PER_DAY.
Proof using.
  intros Ht Hd Hlt. cbn zeta. unfold getDaysUntilExpired, getExpiryDiffMs. rewrite Ht, Hd. cbn [negb].
  rewrite bool_decide_eq_false_2 by lia. set (n := ceil_div _ _).
  assert (0 < MS_PER_DAY) as Hp by (unfold MS_PER_DAY; lia).
  pose proof (proj1 (ceil_div_le (date - now) MS_PER_DAY n Hp) ltac:(unfold n; lia)).
  pose proof (ceil_div_le (date - now) MS_PER_DAY (n - 1) Hp).
  assert (¬ n ≤ n - 1) as Hn by lia. unfold n in Hn at 1. split; [|lia].
  destruct (decide (1 ≤ n)) as [|Hno]; [done|]. nia.
Qed.

End expiry_theorems.

(** The expiry status of a node is exact and only gets worse.  A date is
    expired from its own millisecond on, critical in the last five days before
    it, a warning in the five days before those, and long-term beyond 36500
    days; a later look never finds a status that leaves more time; and when a
    number of days is shown, it is at least one, even though the clock is read
    once for the days and again, later, for the status. *)
Theorem expiry_status_exact (dayjs : value → option Z) (expiredAt : value) (date now : Z) :
  truthy expiredAt = true → dayjs expiredAt = Some date →
  let left := date - now in
  let status := getExpireStatus dayjs expiredAt in
  (status now = expired ↔ left ≤ 0) ∧
  (status now = critical ↔ 0 < left ≤ 5 * MS_PER_DAY) ∧
  (status now = warning ↔ 5 * MS_PER_DAY < left ≤ 10 * MS_PER_DAY) ∧
  (status now = normal ↔ 10 * MS_PER_DAY < left ≤ 36500 * MS_PER_DAY) ∧
  (status now = long_term ↔ 36500 * MS_PER_DAY < left) ∧
  (∀ later, now ≤ later → leisure (status later) ≤ leisure (status now)) ∧
  (∀ earlier, earlier ≤ now → shows_days (status now) = true →
     1 ≤ getDaysUntilExpired dayjs expiredAt earlier).
Proof.
  intros Ht Hd. cbn zeta. assert (0 < MS_PER_DAY) as Hp by (unfold MS_PER_DAY; lia).
  pose proof (status_of_left dayjs expiredAt date now Ht Hd) as Hs. cbn zeta in Hs.
  split_and!.
  1-5: destruct Hs as [[? ->]|[[? ->]|[[? ->]|[[? ->]|[? ->]]]]]; split; (done || lia).
  - intros later Hl. pose proof (status_of_left dayjs expiredAt date later Ht Hd) as Hs'. cbn zeta in Hs'.
    destruct Hs as [[? ->]|[[? ->]|[[? ->]|[[? ->]|[? ->]]]]];
      destruct Hs' as [[? ->]|[[? ->]|[[? ->]|[[? ->]|[? ->]]]]]; cbn [leisure]; lia.
  - intros earlier He Hsh. apply (days_of_left dayjs expiredAt date); [done..|].
    destruct Hs as [[? Hx]|[[? _]|[[? _]|[[? _]|[? Hx]]]]]; [by rewrite Hx in Hsh|lia..].
Qed.

Lemma expiry_status_exact_witness :
  let dayjs v := match v with VNum x => num_to_Z x | _ => None end in
  getExpireStatus dayjs (VNum (num_of_Z 1767225600000)) 1767225599999 = critical.
Proof.
  intros dayjs.
  apply (expiry_status_exact dayjs (VNum (num_of_Z 1767225600000)) 1767225600000 1767225599999);
    [vm_compute; reflexivity|vm_compute; reflexivity|unfold MS_PER_DAY; lia].
Defined.

(** The value that is left is computed with two readings of the clock, the
    status first: when the date passes in between, the days are -1 and the
    value is negative. *)
Example remaining_value_negative :
  let dayjs v := match v with VNum x => num_to_Z x | _ => None end in
  num_ltb (getRemainingValue dayjs (num_of_Z 30) (num_of_Z 30) (VNum (num_of_Z 1000)) 999 1001) (num_of_Z 0) = true.
Proof. vm_compute. reflexivity. Qed.

(** ** Tags are read as they are written *)

(** A tag as an operator writes it. *)
Definition render_tag (x : jsstring * option TagColor) : jsstring :=
  match x.2 with Some c => x.1 ++ [60] ++ color_name c ++ [62] | None => x.1 end.

Lemma color_name_word c :
  every is_word (color_name c) = true ∧ every lower_covered (color_name c) = true ∧
  (lower_unit <$> color_name c) = color_name c ∧ color_name c ≠ [] ∧ (59 ∉ color_name c) ∧
  list_find_first (λ d, bool_decide (color_name d = color_name c)) TAG_COLORS = Some c.
Proof.
  destruct c; (split_and!; [vm_compute; reflexivity..|done|by apply (bool_decide_unpack _)|vm_compute; reflexivity]).
Qed.

Lemma word_run_app l r acc :
  every is_word l = true → word_run (l ++ 60 :: r) acc = (reverse l ++ acc, 60 :: r).
Proof.
  revert acc. induction l as [|u l IH]; intros acc; cbn [app word_run every forallb]; [done|].
  intros [Hu Hl]%andb_true_iff. rewrite Hu, IH by done. by rewrite reverse_cons, <-app_assoc.
Qed.

Lemma color_suffix_app p w :
  every is_word w = true → w ≠ [] → color_suffix (p ++ [60] ++ w ++ [62]) = Some (p, w).
Proof.
  intros Hw Hne. unfold color_suffix. rewrite !reverse_app. cbn [reverse]. rewrite !reverse_singleton.
  change (([62] ++ reverse w) ++ [60]) with (62 :: (reverse w ++ [60])). cbn [app].
  rewrite <-app_assoc. change ([60] ++ reverse p) with (60 :: reverse p).
  rewrite word_run_app.
  - rewrite reverse_involutive, app_nil_r. destruct w; [done|]. by rewrite reverse_involutive.
  - rewrite every_true in *. intros u. rewrite elem_of_reverse. apply Hw.
Qed.

Lemma trimmed_head u s : trimmed (u :: s) = true → is_space u = false.
Proof.
  unfold trimmed. destruct (reverse (u :: s)) eqn:Hr.
  - apply (f_equal length) in Hr. by rewrite length_reverse in Hr.
  - intros [Hu _]%andb_true_iff. by apply negb_true_iff.
Qed.

Lemma trimmed_suffix p q v : trimmed p = true → is_space v = false →
  (p = [] → ∃ u q', q = u :: q' ∧ is_space u = false) → trimmed (p ++ q ++ [v]) = true.
Proof.
  intros Hp Hv Hq. destruct p as [|u p].
  - destruct (Hq eq_refl) as (u & q' & -> & Hu). unfold trimmed. cbn [app].
    rewrite (app_comm_cons q' [v] u), reverse_snoc. by rewrite Hu, Hv.
  - apply trimmed_head in Hp. unfold trimmed. cbn [app].
    rewrite app_assoc, (app_comm_cons _ [v] u), reverse_snoc. by rewrite Hp, Hv.
Qed.

Section roundtrip.
Context `{CaseMapping}.

(** A tag that says what it means: a trimmed text without a semicolon, with a
    colour, or neither empty nor ending in what reads as a colour. *)
Definition readable (x : jsstring * option TagColor) : Prop :=
  trimmed x.1 = true ∧ (59 ∉ x.1) ∧
  match x.2 with
  | Some _ => True
  | None => x.1 ≠ [] ∧ ∀ before word, color_suffix x.1 = Some (before, word) →
      list_find_first (λ c, bool_decide (color_name c = toLowerCase word)) TAG_COLORS = None
  end.

Lemma render_trimmed x : readable x → trimmed (render_tag x) = true.
Proof using.
  intros (Ht & _ & _). unfold render_tag. destruct x.2 as [c|]; [|done].
  rewrite (app_assoc [60]). apply trimmed_suffix; [done|reflexivity|]. intros _. by exists 60, (color_name c).
Qed.

Lemma render_ne x : readable x → render_tag x ≠ [].
Proof using.
  intros (_ & _ & Hx). unfold render_tag. destruct x.2; [|by destruct Hx].
  intros [_ ?]%app_eq_nil. done.
Qed.

Lemma render_no_separator x : readable x → 59 ∉ render_tag x.
Proof using.
  intros (_ & Hs & _). unfold render_tag. destruct x.2 as [c|]; [|done].
  pose proof (color_name_word c) as (_ & _ & _ & _ & Hc & _).
  rewrite !elem_of_app, !list_elem_of_singleton. naive_solver.
Qed.

Lemma parse_render x : readable x → parseTagWithColor (render_tag x) = x.
Proof using.
  intros Hr. pose proof (render_trimmed x Hr) as Ht. unfold parseTagWithColor. rewrite trim_trimmed by done.
  destruct x as [s [c|]], Hr as (Hs & _ & Hx); cbn [fst snd render_tag] in *; unfold render_tag; cbn [fst snd].
  - pose proof (color_name_word c) as (Hw & Hl & Hlow & Hne & _ & Hf).
    rewrite color_suffix_app by done. rewrite toLowerCase_covered, Hlow by done.
    rewrite Hf. by rewrite trim_trimmed.
  - destruct Hx as [_ Hx]. destruct (color_suffix s) as [[b w]|]; [|done]. by rewrite (Hx b w).
Qed.

End roundtrip.

(** Tags are read as they are written.  A list of tags, each a text with an
    optional colour in angle brackets, joined by semicolons, parses into these
    tags in order, with the written colours; a tag without one gets the colour
    of its position in the palette, and every tag gets the hex value of its
    colour. *)
Theorem tags_roundtrip `{CaseMapping} (l : list (jsstring * option TagColor)) :
  Forall readable l →
  parseTags (Some (join [59] (render_tag <$> l)))
  = imap (λ i x, let c := default (defaultColor i) x.2 in
                 {| text := x.1; color := c; hex := TAG_COLOR_HEX_MAP c |}) l.
Proof.
  intros Hl. destruct l as [|x l]; [done|].
  assert (split_char 59 (join [59] (render_tag <$> x :: l)) [] = render_tag <$> x :: l) as Hsplit.
  { apply split_char_join; [done|]. apply Forall_fmap. by eapply Forall_impl, render_no_separator. }
  assert (trim <$> (render_tag <$> x :: l) = render_tag <$> x :: l) as Htrim.
  { rewrite <-list_fmap_compose. apply list_fmap_ext. intros i y Hy.
    apply trim_trimmed, render_trimmed. by eapply Forall_lookup_1. }
  assert (trim (join [59] (render_tag <$> x :: l)) ≠ []) as Hne.
  { apply Forall_cons in Hl as [Hx _]. pose proof (render_ne x Hx). pose proof (render_trimmed x Hx) as Ht.
    rewrite fmap_cons. destruct (render_tag x) as [|u s] eqn:Hr; [done|].
    apply trimmed_head in Ht.
    destruct l; cbn [fmap list_fmap join app]; by apply trim_cons_ne. }
  unfold parseTags. destruct (join [59] (render_tag <$> x :: l)) as [|u s]; [done|].
  rewrite bool_decide_eq_false_2 by done. rewrite Hsplit, Htrim, bfilter_all.
  - rewrite imap_fmap. apply imap_ext. intros i y Hy. cbn [compose]. unfold resolve_tag.
    rewrite parse_render by by eapply Forall_lookup_1. by destruct y.
  - intros y (z & -> & Hz)%list_elem_of_fmap. rewrite bool_decide_eq_false_2; [done|].
    apply render_ne. by eapply Forall_forall in Hl.
Qed.

Lemma tags_roundtrip_witness :
  parseTags (Some (join [59] (render_tag <$> [(js "CN2 GIA", Some red); (js "a<b>", None)])))
  = [{| text := js "CN2 GIA"; color := red; hex := js "#E5484D" |};
     {| text := js "a<b>"; color := gray; hex := js "#8D8D8D" |}].
Proof.
  refine (eq_trans (tags_roundtrip [(js "CN2 GIA", Some red); (js "a<b>", None)] _) _).
  - repeat apply Forall_cons_2; [| |apply Forall_nil_2].
    + split; [vm_compute; reflexivity|]. by split; [apply (bool_decide_unpack _)|].
    + split; [vm_compute; reflexivity|]. split; [by apply (bool_decide_unpack _)|].
      split; [vm_compute; discriminate|].
      intros before word Hs. vm_compute in Hs. injection Hs as <- <-. vm_compute. reflexivity.
  - vm_compute. reflexivity.
Defined.

End TagHelper.
