(* ===== verification/Ping.v ===== *)
(** * Ping sources and their summaries

    [glass-shared/ping-selection.ts] (module [PingSelection]) and
    [glass-shared/ping-summary.ts] (module [PingSummary]).  Task numbers, time
    stamps, counts and hours are integers; latencies are binary64 numbers. *)

From Stdlib Require Import SpecFloat.
From S2P Require Import Prelude JsMap JsString Json JsValue JsNumber.

Open Scope Z_scope.

Module PingSelection.

Inductive CarrierKey := CU | CT | CM.

#[global] Instance CarrierKey_eq_dec : EqDecision CarrierKey.
Proof. solve_decision. Defined.

(** [PublicPingTask] of [src/lib/api.ts]; the province and the reason, which
    are only shown, are left out. *)
Record PublicPingTask := {
  id : Z;
  name : jsstring;
  series : option jsstring;
  family : option jsstring;
  type : option jsstring;
  state : option jsstring;
}.

#[global] Instance PublicPingTask_eq_dec : EqDecision PublicPingTask.
Proof. solve_decision. Defined.

(** A measured sample ([NetworkSample] of [src/lib/network.ts]). *)
Record Ping := {
  task_id : Z;
  p_name : jsstring;
  p_series : option jsstring;
  p_family : option jsstring;
  p_type : option jsstring;
  outcome : option jsstring;
}.

(** What is used of a node: its configured tasks, if any, and its samples. *)
Record Node := { ping_tasks : option (list PublicPingTask); pings : list Ping }.

Definition carriers : list (CarrierKey * jsstring * jsstring) :=
  [(CU, js "联通", js "bg-rose-500"); (CT, js "电信", js "bg-blue-500"); (CM, js "移动", js "bg-emerald-500")].

Definition carrier_names : list (CarrierKey * list jsstring) :=
  [(CU, [js "CU"; js "CUCC"; js "UNICOM"; js "CHINA UNICOM"; js "联通"; js "聯通"; js "中国联通"; js "中國聯通"]);
   (CT, [js "CT"; js "CTCC"; js "TELECOM"; js "CHINA TELECOM"; js "电信"; js "電信"; js "中国电信"; js "中國電信"]);
   (CM, [js "CM"; js "CMCC"; js "MOBILE"; js "CHINA MOBILE"; js "移动"; js "移動"; js "中国移动"; js "中國移動"])].

Section selection.
Context `{CaseMapping}.

Definition carrierKey (name : jsstring) : option CarrierKey :=
  let value := toUpperCase (trim name) in
  fst <$> list_find_first (λ kn, bool_decide (value ∈ kn.2)) carrier_names.

Definition task_of_ping (p : Ping) : PublicPingTask :=
  {| id := task_id p; name := p_name p; series := p_series p; family := p_family p; type := p_type p;
     state := None |}.

Definition tasks_of (node : option Node) : list PublicPingTask :=
  match node with
  | Some n => match ping_tasks n with Some l => l | None => task_of_ping <$> pings n end
  | None => []
  end.

Record carrier := {
  key : CarrierKey;
  label : jsstring;
  dotClass : jsstring;
  source : option PublicPingTask;
  sources : list (option PublicPingTask);
}.

Record selection := {
  threeNetwork : bool;
  selected : list carrier;
  first : option PublicPingTask;
  families : list (option jsstring);
  dual : bool;
}.

Definition known_families (carrierTasks : list PublicPingTask) : list jsstring :=
  bfilter (λ f, some (λ p, bool_decide (family p = Some f)) carrierTasks) [js "ipv4"; js "ipv6"].

(** [undefined] is the only slot when no task names a family. *)
Definition slots (carrierTasks : list PublicPingTask) : list (option jsstring) :=
  match known_families carrierTasks with [] => [None] | l => Some <$> l end.

Definition fits (k : CarrierKey) (f : option jsstring) (p : PublicPingTask) : bool :=
  bool_decide (carrierKey (name p) = Some k) && bool_decide (family p = f).

Definition select_carrier (carrierTasks : list PublicPingTask) (c : CarrierKey * jsstring * jsstring) : carrier :=
  let sources := (λ f, list_find_first (fits c.1.1 f) carrierTasks) <$> slots carrierTasks in
  {| key := c.1.1; label := c.1.2; dotClass := c.2; source := mjoin (head sources); sources := sources |}.

Definition selectPings (node : option Node) (carrierPing : bool) : selection :=
  let tasks := tasks_of node in
  let carrierTasks := if carrierPing then bfilter (λ p, bool_decide (id p = 0)) tasks else [] in
  let selected := select_carrier carrierTasks <$> carriers in
  {| threeNetwork := carrierPing && every (λ c, some (λ p, bool_decide (is_Some p)) (sources c)) selected;
     selected := selected;
     first := match head (sort_on id (bfilter (λ p, bool_decide (id p > 0)) tasks)) with
              | Some p => Some p
              | None => head carrierTasks
              end;
     families := slots carrierTasks;
     dual := bool_decide (length (known_families carrierTasks) = 2%nat) |}.

End selection.

(** The point is given by its task, name and series. *)
Definition matchesPing (point : Z * jsstring * option jsstring) (source : PublicPingTask) : bool :=
  bool_decide (point.1.1 = id source) && bool_decide (point.1.2 = name source)
  && bool_decide (default [] point.2 = default [] (series source)).

Definition carrierUnavailable (source : option PublicPingTask) (sample : option Ping) : bool :=
  match source with
  | Some s =>
      bool_decide (id s = 0)
      && (bool_decide (state s = Some (js "unsupported"))
          || match sample with
             | Some p => bool_decide (outcome p = Some (js "permission"))
                         || bool_decide (outcome p = Some (js "unreachable"))
             | None => false
             end)
  | None => false
  end.

(** ** What is selected *)

Section selection_theorems.
Context `{CaseMapping}.

(** The tasks among which the carriers are looked for. *)
Definition carrier_tasks (node : option Node) (carrierPing : bool) : list PublicPingTask :=
  if carrierPing then bfilter (λ p, bool_decide (id p = 0)) (tasks_of node) else [].

Lemma elem_of_carrier_tasks node carrierPing p :
  p ∈ carrier_tasks node carrierPing ↔ carrierPing = true ∧ p ∈ tasks_of node ∧ id p = 0.
Proof using.
  unfold carrier_tasks. destruct carrierPing; [|set_solver].
  rewrite elem_of_bfilter, bool_decide_eq_true. naive_solver.
Qed.

Lemma fits_true k f p : fits k f p = true ↔ carrierKey (name p) = Some k ∧ family p = f.
Proof using. unfold fits. by rewrite andb_true_iff, !bool_decide_eq_true. Qed.

Lemma head_sorted l p :
  head (sort_on id l) = Some p → p ∈ l ∧ ∀ q, q ∈ l → id p ≤ id q.
Proof using.
  intros Hp. pose proof (sort_on_sorted id l) as Hs. destruct (sort_on id l) as [|x k] eqn:Hk; [done|].
  injection Hp as ->. apply StronglySorted_inv in Hs as [_ Hle]. rewrite Forall_forall in Hle.
  split; [apply (elem_of_sort_on id); rewrite Hk; set_solver|].
  intros q Hq. apply (elem_of_sort_on id) in Hq. rewrite Hk in Hq.
  apply elem_of_cons in Hq as [->|Hq]; [lia|]. by apply Hle.
Qed.

Lemma head_sort_None l : head (sort_on id l) = None → l = [].
Proof using.
  intros Hh. destruct (sort_on id l) eqn:Hs; [|done]. apply (f_equal length) in Hs.
  rewrite length_sort_on in Hs. by apply length_zero_iff_nil.
Qed.

Lemma head_elem {A} (l : list A) x : head l = Some x → x ∈ l.
Proof using. destruct l; [done|]. intros [= ->]. set_solver. Qed.

(** What a slot of a carrier may show. *)
Definition slot_ok (node : option Node) (carrierPing : bool) (k : CarrierKey) (f : option jsstring)
    (src : option PublicPingTask) : Prop :=
  let good p := carrierPing = true ∧ p ∈ tasks_of node ∧ id p = 0 ∧ carrierKey (name p) = Some k ∧ family p = f in
  match src with Some p => good p | None => ∀ p, ¬ good p end.

Lemma find_slot_ok node carrierPing k f :
  slot_ok node carrierPing k f (list_find_first (fits k f) (carrier_tasks node carrierPing)).
Proof using.
  unfold slot_ok. destruct (list_find_first _ _) as [p|] eqn:Hf.
  - apply list_find_first_Some in Hf as [Hin Hfit]. apply elem_of_carrier_tasks in Hin.
    apply fits_true in Hfit. naive_solver.
  - rewrite list_find_first_None in Hf. intros p (Hc & Hp & Hid & Hk & Hfam).
    assert (fits k f p = true) as Ht by by apply fits_true.
    rewrite Hf in Ht; [done|]. by apply elem_of_carrier_tasks.
Qed.

End selection_theorems.

(** A ping source is never substituted.  Every carrier has one source per
    address family shown; a source is a configured carrier task of exactly that
    carrier and that family, and is missing only when no such task exists; the
    three-network view is offered exactly when every carrier has a source; and
    the single source shown otherwise is the custom task with the smallest
    number or, without custom tasks, a carrier task. *)
Theorem ping_selection_exact `{CaseMapping} (node : option Node) (carrierPing : bool) :
  let s := selectPings node carrierPing in
  (key <$> selected s) = [CU; CT; CM] ∧
  (∀ c, c ∈ selected s → Forall2 (slot_ok node carrierPing (key c)) (families s) (sources c)) ∧
  (threeNetwork s = true ↔
     carrierPing = true ∧ ∀ k, ∃ p, p ∈ tasks_of node ∧ id p = 0 ∧ carrierKey (name p) = Some k ∧
                                   family p ∈ families s) ∧
  (∀ p, first s = Some p →
     p ∈ tasks_of node ∧
     ((id p > 0 ∧ ∀ q, q ∈ tasks_of node → id q > 0 → id p ≤ id q) ∨
      (carrierPing = true ∧ id p = 0 ∧ ∀ q, q ∈ tasks_of node → id q ≤ 0))).
Proof.
  cbn zeta. unfold selectPings. fold (carrier_tasks node carrierPing).
  set (ct := carrier_tasks node carrierPing). cbn [selected families threeNetwork first].
  assert (∀ c, c ∈ select_carrier ct <$> carriers →
    Forall2 (slot_ok node carrierPing (key c)) (slots ct) (sources c)) as Hslots.
  { intros c (c0 & -> & _)%list_elem_of_fmap. cbn [select_carrier key sources].
    apply Forall2_fmap_r, Forall_Forall2_diag, Forall_forall. intros f _. apply find_slot_ok. }
  split_and!; [reflexivity|exact Hslots| |].
  - rewrite andb_true_iff, every_true. split; (intros [Hcp Hall]; split; [done|]).
    + intros k. assert (∃ c, c ∈ select_carrier ct <$> carriers ∧ key c = k) as (c & Hc & <-).
      { exists (select_carrier ct (default (CU, [], []) (list_find_first (λ c, bool_decide (c.1.1 = k)) carriers))).
        destruct k; (split; [|reflexivity]); apply list_elem_of_fmap_2; unfold carriers; set_solver. }
      specialize (Hall c Hc). apply some_true in Hall as (src & Hsrc & Hsome).
      apply bool_decide_eq_true in Hsome as [p ->]. specialize (Hslots c Hc).
      apply list_elem_of_lookup in Hsrc as [i Hi].
      destruct (Forall2_lookup_r _ _ _ _ _ Hslots Hi) as (f & Hf & Hok). exists p.
      destruct Hok as (? & ? & ? & ? & <-). split_and!; try done. by eapply list_elem_of_lookup_2.
    + intros c Hc. destruct (Hall (key c)) as (p & Hp & Hid & Hk & Hfam).
      specialize (Hslots c Hc). apply list_elem_of_lookup in Hfam as [i Hi].
      destruct (Forall2_lookup_l _ _ _ _ _ Hslots Hi) as (src & Hsrc & Hok).
      apply some_true. exists src. split; [by eapply list_elem_of_lookup_2|].
      apply bool_decide_eq_true. destruct src as [q|]; [eauto|].
      exfalso. by apply (Hok p).
  - intros p. case_match eqn:Hh.
    + intros [= <-]. apply head_sorted in Hh as [Hin Hmin].
      apply elem_of_bfilter in Hin as [Hpos%bool_decide_eq_true Hin]. split; [done|]. left. split; [done|].
      intros q Hq Hqp. apply Hmin, elem_of_bfilter. by rewrite bool_decide_eq_true.
    + intros Hp%head_elem%elem_of_carrier_tasks. destruct Hp as (Hc & Hp & Hid).
      split; [done|]. right. split_and!; [done..|]. intros q Hq. apply head_sort_None in Hh.
      destruct (decide (id q > 0)); [|lia]. exfalso. apply (not_elem_of_nil q). rewrite <-Hh.
      apply elem_of_bfilter. by rewrite bool_decide_eq_true.
Qed.

End PingSelection.

Module PingSummary.
Import PingSelection.

(** What is used of [NetworkPoint] and [NetworkHistory]. *)
Record NetworkPoint := {
  identity : Z * jsstring * option jsstring;
  ts : Z;
  n : Z;
  lost : Z;
  avg_ms : num;
}.

Record NetworkHistory := { points : list NetworkPoint; to : Z }.

Definition selectedHistory (history : NetworkHistory) (source : option PublicPingTask) : NetworkHistory :=
  {| points := match source with
               | Some s => bfilter (λ p, matchesPing (identity p) s) (points history)
               | None => []
               end;
     to := to history |}.

Record bucket := { b_total : Z; b_lost : Z; b_sum : num }.

Definition empty_bucket : bucket := {| b_total := 0; b_lost := 0; b_sum := num_of_Z 0 |}.

Definition add_point (p : NetworkPoint) (b : bucket) : bucket :=
  {| b_total := b_total b + n p;
     b_lost := b_lost b + lost p;
     b_sum := num_add (b_sum b)
                (num_mul (num_of_Z (Z.max 0 (n p - lost p)))
                   (if bool_decide (n p > lost p) then avg_ms p else num_of_Z 0)) |}.

Definition in_window (from to : Z) (p : NetworkPoint) : bool :=
  negb (bool_decide (ts p < from) || bool_decide (ts p > to) || bool_decide (n p ≤ 0)).

(** [Math.min(19, Math.floor((p.ts - from) / width))]; the rounded quotient has
    the floor of the exact one below 2^53. *)
Definition bucket_index (from width : Z) (p : NetworkPoint) : Z := Z.min 19 ((ts p - from) / width).

(** One round of the loop; [None] when there is no such bucket. *)
Definition put_point (from to width : Z) (buckets : option (list bucket)) (p : NetworkPoint) : option (list bucket) :=
  match buckets with
  | None => None
  | Some bs =>
      if in_window from to p then
        let i := bucket_index from width p in
        if bool_decide (0 ≤ i) then
          match bs !! Z.to_nat i with
          | Some b => Some (<[Z.to_nat i := add_point p b]> bs)
          | None => None
          end
        else None
      else buckets
  end.

Definition sum_of (f : bucket → Z) (bs : list bucket) : Z := foldl (λ a b, a + f b) 0 bs.

Record NodePingHistoryPoint := { time : jsstring; latency : option num; loss : option num }.

Record NodePingStatsState := {
  avgLatency : num;
  avgLoss : num;
  avgVolatility : num;
  history : list NodePingHistoryPoint;
  hasData : bool;
}.

Section summary.
Context (toISOString : Z → jsstring).

Definition latency_of (total lost : Z) (sum : num) : option num :=
  if bool_decide (total > lost) then Some (num_div sum (num_of_Z (total - lost))) else None.

Definition loss_of (total lost : Z) : option num :=
  if bool_decide (total = 0) then None
  else Some (num_mul (num_div (num_of_Z lost) (num_of_Z total)) (num_of_Z 100)).

Definition history_point (from width : Z) (i : nat) (b : bucket) : NodePingHistoryPoint :=
  {| time := toISOString ((from + Z.of_nat i * width) * 1000);
     latency := latency_of (b_total b) (b_lost b) (b_sum b);
     loss := loss_of (b_total b) (b_lost b) |}.

Definition fill_buckets (history : NetworkHistory) (hours : Z) : option (list bucket) :=
  let from := to history - hours * 3600 in
  let width := hours * 180 in
  foldl (put_point from (to history) width) (Some (replicate 20 empty_bucket)) (points history).

(** [None] is an exception. *)
Definition summarizePings (history : NetworkHistory) (hours : Z) : option NodePingStatsState :=
  let from := to history - hours * 3600 in
  let width := hours * 180 in
  match fill_buckets history hours with
  | None => None
  | Some buckets =>
      let total := sum_of b_total buckets in
      let lost := sum_of b_lost buckets in
      let sum := foldl (λ a b, num_add a (b_sum b)) (num_of_Z 0) buckets in
      Some {| hasData := bool_decide (total > 0);
              avgLatency := default NaN (latency_of total lost sum);
              avgLoss := default NaN (loss_of total lost);
              avgVolatility := num_of_Z 0;
              history := if bool_decide (total = 0) then [] else imap (history_point from width) buckets |}
  end.
End summary.

(** ** What is summed *)

(** The points of a bucket. *)
Definition here (from to width i : Z) (p : NetworkPoint) : bool :=
  in_window from to p && bool_decide (bucket_index from width p = i).

Definition total_of (f : NetworkPoint → Z) (l : list NetworkPoint) : Z := foldr (λ p a, f p + a) 0 l.

Section buckets.
Context (from to width : Z) (Hw : 0 < width) (Hto : to = from + 20 * width).

Lemma index_range p : in_window from to p = true → 0 ≤ bucket_index from width p ≤ 19.
Proof using Hw Hto.
  unfold in_window, bucket_index. rewrite negb_true_iff, !orb_false_iff. intros [[H1 _] _]. reflect_bools.
  pose proof (Z.div_pos (ts p - from) width ltac:(lia) Hw). lia.
Qed.

Lemma put_point_spec bs p :
  length bs = 20%nat →
  ∃ bs', put_point from to width (Some bs) p = Some bs' ∧ length bs' = 20%nat ∧
    (∀ (i : nat) b, bs !! i = Some b →
       bs' !! i = Some (if here from to width (Z.of_nat i) p then add_point p b else b)).
Proof using Hw Hto.
  intros Hl. unfold put_point, here. destruct (in_window from to p) eqn:Hin; [|by exists bs].
  pose proof (index_range p Hin) as Hi. set (k := bucket_index from width p) in *.
  rewrite bool_decide_eq_true_2 by lia.
  destruct (lookup_lt_is_Some_2 bs (Z.to_nat k)) as [b0 Hb0]; [lia|]. rewrite Hb0.
  eexists. split; [done|]. split; [by rewrite length_insert|]. intros i b Hb. cbn [andb].
  case_bool_decide as Hk.
  - subst k. rewrite Hk, Nat2Z.id in *. simplify_eq. apply list_lookup_insert_eq. by eapply lookup_lt_Some.
  - rewrite list_lookup_insert_ne by lia. done.
Qed.

Lemma fold_points l bs :
  length bs = 20%nat →
  ∃ bs', foldl (put_point from to width) (Some bs) l = Some bs' ∧ length bs' = 20%nat ∧
    (∀ (i : nat) b, bs !! i = Some b →
       bs' !! i = Some (foldl (λ b p, add_point p b) b (bfilter (here from to width (Z.of_nat i)) l))).
Proof using Hw Hto.
  revert bs. induction l as [|p l IH]; intros bs Hl.
  - exists bs. by split_and!.
  - destruct (put_point_spec bs p Hl) as (bs1 & Hp & Hl1 & H1). cbn [foldl]. rewrite Hp.
    destruct (IH bs1 Hl1) as (bs' & Hf & Hl' & H'). exists bs'. split_and!; [done|done|].
    intros i b Hb. specialize (H1 i b Hb). rewrite (H' i _ H1). cbn [bfilter]. by destruct (here _ _ _ _ p).
Qed.

End buckets.

Lemma fold_totals l b :
  b_total (foldl (λ b p, add_point p b) b l) = b_total b + total_of n l ∧
  b_lost (foldl (λ b p, add_point p b) b l) = b_lost b + total_of lost l.
Proof.
  unfold total_of. revert b. induction l as [|p l IH]; intros b; cbn; [lia|].
  destruct (IH (add_point p b)) as [-> ->]. cbn. lia.
Qed.

Lemma sum_of_cons f b bs : sum_of f (b :: bs) = f b + sum_of f bs.
Proof.
  unfold sum_of. cbn [foldl].
  assert (∀ z, foldl (λ a b, a + f b) z bs = z + foldl (λ a b, a + f b) 0 bs) as Hs.
  { induction bs as [|c bs IH]; intros z; cbn; [lia|]. rewrite IH, (IH (0 + f c)). lia. }
  rewrite Hs. lia.
Qed.

Lemma sum_of_insert f bs (i : nat) b b' :
  bs !! i = Some b → sum_of f (<[i := b']> bs) = sum_of f bs + f b' - f b.
Proof.
  revert i. induction bs as [|c bs IH]; intros [|i]; cbn [lookup list_lookup insert list_insert]; try done.
  - intros [= ->]. rewrite !sum_of_cons. lia.
  - intros Hb. rewrite !sum_of_cons. change (list_insert i b' bs) with (<[i := b']> bs). rewrite IH by done. lia.
Qed.

Lemma put_sums from to width bs p bs' :
  put_point from to width (Some bs) p = Some bs' →
  sum_of b_total bs' = sum_of b_total bs + (if in_window from to p then n p else 0) ∧
  sum_of b_lost bs' = sum_of b_lost bs + (if in_window from to p then lost p else 0).
Proof.
  unfold put_point. destruct (in_window from to p); [|intros [= <-]; lia].
  case_bool_decide; [|done]. destruct (bs !! _) as [b|] eqn:Hb; [|done]. intros [= <-].
  rewrite !(sum_of_insert _ _ _ b) by done. cbn [b_total b_lost add_point]. lia.
Qed.

Lemma fold_None from to width l : foldl (put_point from to width) None l = None.
Proof. by induction l. Qed.

Lemma fold_sums from to width l bs bs' :
  foldl (put_point from to width) (Some bs) l = Some bs' →
  sum_of b_total bs' = sum_of b_total bs + total_of n (bfilter (in_window from to) l) ∧
  sum_of b_lost bs' = sum_of b_lost bs + total_of lost (bfilter (in_window from to) l).
Proof.
  revert bs. induction l as [|p l IH]; intros bs; cbn [foldl bfilter]; [intros [= <-]; cbn; lia|].
  destruct (put_point from to width (Some bs) p) as [bs1|] eqn:Hp; [|by rewrite fold_None].
  intros [Ht Hl]%IH. apply put_sums in Hp as [Ht' Hl'].
  unfold total_of in *. destruct (in_window from to p); cbn [foldr]; lia.
Qed.

(** The points of a bucket are those of its part of the window; the last part
    includes the end of the window. *)
Lemma here_interval from to width i p :
  0 < width → to = from + 20 * width → 0 ≤ i ≤ 19 →
  here from to width i p = true ↔
  in_window from to p = true ∧ from + i * width ≤ ts p ∧ (ts p < from + (i + 1) * width ∨ i = 19).
Proof.
  intros Hw Hto Hi. unfold here. rewrite andb_true_iff, bool_decide_eq_true. apply and_iff_compat_l.
  unfold bucket_index. pose proof (Z.div_mod (ts p - from) width ltac:(lia)).
  pose proof (Z.mod_pos_bound (ts p - from) width Hw). split; [intros Hk; split; nia|].
  intros [H1 H2]. assert (i ≤ (ts p - from) / width) by (apply Z.div_le_lower_bound; lia).
  destruct H2 as [H2| ->]; [|lia]. assert ((ts p - from) / width < i + 1) by (apply Z.div_lt_upper_bound; lia). lia.
Qed.

Lemma window_total from to l :
  (0 < total_of n (bfilter (in_window from to) l) ↔ bfilter (in_window from to) l ≠ []) ∧
  (total_of n (bfilter (in_window from to) l) = 0 ↔ bfilter (in_window from to) l = []).
Proof.
  assert (∀ k, (∀ p, p ∈ k → 0 < n p) → 0 ≤ total_of n k ∧ (k ≠ [] → 0 < total_of n k)) as Hk.
  { induction k as [|p k IH]; intros Hp; cbn; [done|]. fold (total_of n k).
    pose proof (Hp p ltac:(set_solver)). destruct IH as [IH _]; [set_solver|]. lia. }
  set (k := bfilter _ l). destruct (Hk k) as [H0 H1].
  { intros p [Hw _]%elem_of_bfilter. unfold in_window in Hw. rewrite negb_true_iff, !orb_false_iff in Hw.
    destruct Hw as [_ Hw]. reflect_bools. lia. }
  destruct k; cbn in *; [by split; split; (done || lia)|]. specialize (H1 ltac:(done)).
  split; split; (done || lia).
Qed.



End PingSummary.
