(* ===== verification/Network.v ===== *)
(** * Carrier provinces and the names of network probes

    [web/shared/carrier-provinces.ts] (module [CarrierProvinces]) and the
    identities and labels of [web/probe/src/lib/network.ts] (module
    [Network]).  [names\[locale\]] also finds the properties that an object
    literal inherits; none of them has elements. *)

From S2P Require Import Prelude JsMap JsString JsNumber JsText.

Open Scope Z_scope.

Module CarrierProvinces.

Definition carrierProvinceCodes : list jsstring :=
  js <$> [
    "he"; "sx"; "ln"; "jl"; "hl"; "js"; "zj"; "ah"; "fj"; "jx"; "sd"; "ha"; "hb"; "hn"; "gd"; "hi"; "sc";
    "gz"; "yn"; "sn"; "gs"; "qh"; "nm"; "gx"; "xz"; "nx"; "xj"; "bj"; "tj"; "sh"; "cq"]%string.

Definition names_en : list jsstring :=
  js <$> [
    "Hebei"; "Shanxi"; "Liaoning"; "Jilin"; "Heilongjiang"; "Jiangsu"; "Zhejiang"; "Anhui"; "Fujian";
    "Jiangxi"; "Shandong"; "Henan"; "Hubei"; "Hunan"; "Guangdong"; "Hainan"; "Sichuan"; "Guizhou"; "Yunnan";
    "Shaanxi"; "Gansu"; "Qinghai"; "Inner Mongolia"; "Guangxi"; "Tibet"; "Ningxia"; "Xinjiang"; "Beijing";
    "Tianjin"; "Shanghai"; "Chongqing"]%string.

Definition names_zh_CN : list jsstring :=
  js <$> [
    "河北"; "山西"; "辽宁"; "吉林"; "黑龙江"; "江苏"; "浙江"; "安徽"; "福建"; "江西"; "山东"; "河南"; "湖北"; "湖南"; "广东"; "海南"; "四川";
    "贵州"; "云南"; "陕西"; "甘肃"; "青海"; "内蒙古"; "广西"; "西藏"; "宁夏"; "新疆"; "北京"; "天津"; "上海"; "重庆"]%string.

Definition names_zh_TW : list jsstring :=
  js <$> [
    "河北"; "山西"; "遼寧"; "吉林"; "黑龍江"; "江蘇"; "浙江"; "安徽"; "福建"; "江西"; "山東"; "河南"; "湖北"; "湖南"; "廣東"; "海南"; "四川";
    "貴州"; "雲南"; "陝西"; "甘肅"; "青海"; "內蒙古"; "廣西"; "西藏"; "寧夏"; "新疆"; "北京"; "天津"; "上海"; "重慶"]%string.

Definition names_ja : list jsstring :=
  js <$> [
    "河北"; "山西"; "遼寧"; "吉林"; "黒竜江"; "江蘇"; "浙江"; "安徽"; "福建"; "江西"; "山東"; "河南"; "湖北"; "湖南"; "広東"; "海南"; "四川";
    "貴州"; "雲南"; "陝西"; "甘粛"; "青海"; "内モンゴル"; "広西"; "チベット"; "寧夏"; "新疆"; "北京"; "天津"; "上海"; "重慶"]%string.

Definition names_ko : list jsstring :=
  js <$> [
    "허베이"; "산시"; "랴오닝"; "지린"; "헤이룽장"; "장쑤"; "저장"; "안후이"; "푸젠"; "장시"; "산둥"; "허난"; "후베이"; "후난"; "광둥"; "하이난";
    "쓰촨"; "구이저우"; "윈난"; "산시(陝西)"; "간쑤"; "칭하이"; "내몽골"; "광시"; "티베트"; "닝샤"; "신장"; "베이징"; "톈진"; "상하이"; "충칭"]%string.

Definition names_ru : list jsstring :=
  js <$> [
    "Хэбэй"; "Шаньси"; "Ляонин"; "Цзилинь"; "Хэйлунцзян"; "Цзянсу"; "Чжэцзян"; "Аньхой"; "Фуцзянь"; "Цзянси";
    "Шаньдун"; "Хэнань"; "Хубэй"; "Хунань"; "Гуандун"; "Хайнань"; "Сычуань"; "Гуйчжоу"; "Юньнань"; "Шэньси";
    "Ганьсу"; "Цинхай"; "Внутренняя Монголия"; "Гуанси"; "Тибет"; "Нинся"; "Синьцзян"; "Пекин"; "Тяньцзинь";
    "Шанхай"; "Чунцин"]%string.

Definition names : list (jsstring * list jsstring) :=
  [(js "en", names_en); (js "zh-CN", names_zh_CN); (js "zh-TW", names_zh_TW); (js "ja", names_ja); (js "ko", names_ko); (js "ru", names_ru)].

(** The regular expressions that start at the beginning and ignore case; their
    letters are ASCII. *)
Definition starts_ci (s : jsstring) (p : string) : bool :=
  startsWith (upper_unit <$> s) (upper_unit <$> js p).

Definition locale_of (language : jsstring) : jsstring :=
  if starts_ci language "zh-TW" || starts_ci language "zh-HK" || starts_ci language "zh-Hant" then js "zh-TW"
  else if starts_ci language "zh" then js "zh-CN"
  else default [] (head (split_char 45 language [])).

(** [names\[locale\] ?? names.en]; what is inherited has no elements. *)
Definition names_in (locale : jsstring) : list jsstring :=
  match jm_get locale names with
  | Some l => l
  | None => if bool_decide (locale ∈ inherited_keys) then [] else names_en
  end.

Definition carrierProvinceName (code : option jsstring) (language : jsstring) : jsstring :=
  match code with
  | Some c =>
      match list_find (eq c) carrierProvinceCodes with
      | Some (index, _) => default [] (names_in (locale_of language) !! index)
      | None => []
      end
  | None => []
  end.

Definition carrierProvinceOptions (language : jsstring) : list (jsstring * jsstring) :=
  (λ value, (value, carrierProvinceName (Some value) language)) <$> carrierProvinceCodes.

(** ** Every province has its own name *)

Definition complete (l : list jsstring) : bool :=
  bool_decide (length l = length carrierProvinceCodes) && every (λ x, negb (bool_decide (x = []))) l.

Lemma tables_complete : every (λ t, complete t.2) names = true.
Proof. vm_compute. reflexivity. Qed.

Lemma codes_NoDup : NoDup carrierProvinceCodes.
Proof. decide_closed. Qed.

Lemma names_in_complete locale : locale ∉ inherited_keys → complete (names_in locale) = true.
Proof.
  intros Hl. unfold names_in. pose proof tables_complete as Ht. rewrite every_true in Ht.
  destruct (jm_get locale names) as [l|] eqn:Hg.
  - by apply (Ht (locale, l)), jm_get_elem_of.
  - rewrite bool_decide_eq_false_2 by done. vm_compute. reflexivity.
Qed.

(** A code of the list has the name at its place, in every language that is
    not the name of an inherited property, and no other text has a name. *)
Lemma province_name_exact (language code : jsstring) :
  locale_of language ∉ inherited_keys →
  (carrierProvinceName (Some code) language ≠ [] ↔ code ∈ carrierProvinceCodes) ∧
  (∀ i, carrierProvinceCodes !! i = Some code →
     names_in (locale_of language) !! i = Some (carrierProvinceName (Some code) language)).
Proof.
  intros Hl. apply names_in_complete, andb_true_iff in Hl as [Hlen%bool_decide_eq_true Hne].
  set (l := names_in (locale_of language)) in *.
  assert (∀ i, carrierProvinceCodes !! i = Some code →
    l !! i = Some (carrierProvinceName (Some code) language)) as Hi.
  { intros i Hi. unfold carrierProvinceName.
    assert (list_find (eq code) carrierProvinceCodes = Some (i, code)) as ->.
    { apply list_find_Some. split; [done|split; [done|]]. intros j y Hj Hlt <-.
      assert (j = i) by (eapply NoDup_lookup; [apply codes_NoDup|done|done]). lia. }
    destruct (lookup_lt_is_Some_2 l i) as [x Hx]; [apply lookup_lt_Some in Hi; lia|].
    rewrite Hx. f_equal. symmetry. exact (f_equal (default []) Hx). }
  split; [|exact Hi]. split.
  - unfold carrierProvinceName. destruct (list_find _ _) as [[i c]|] eqn:Hf; [|done].
    apply list_find_Some in Hf as (Hc & <- & _). intros _. by eapply list_elem_of_lookup_2.
  - intros [i Hc]%list_elem_of_lookup. specialize (Hi i Hc). intros He. rewrite He in Hi.
    apply list_elem_of_lookup_2 in Hi. rewrite every_true in Hne. by specialize (Hne [] Hi).
Qed.

End CarrierProvinces.

Module Network.
Import CarrierProvinces.

(** What identifies a point of a history: [task_id], [name] and [series]. *)
Record Identity := { task_id : Z; name : jsstring; series : option jsstring }.

(** [JSON.stringify(\[p.task_id, p.name, p.series ?? ''\])] *)
Definition networkIdentity (p : Identity) : jsstring :=
  91 :: int_string (task_id p) ++ [44] ++ quote (name p) ++ [44] ++ quote (default [] (series p)) ++ [93].

Section labels.
Context `{CaseMapping}.

(** [s.replace(p, r)]: the first occurrence. *)
Fixpoint replace_first (s p r : jsstring) : jsstring :=
  if startsWith s p then r ++ drop (length p) s
  else match s with [] => [] | u :: s => u :: replace_first s p r end.

(** [type] is [p.type ?? p.quality?.type]. *)
Definition networkLabel (name : jsstring) (province family type : option jsstring) (language : jsstring) : jsstring :=
  join (js " · ") (bfilter (λ x, negb (bool_decide (x = [])))
    [name;
     match type with
     | Some t => if startsWith t (js "tcp") then carrierProvinceName province language else []
     | None => []
     end;
     if bool_decide (family = Some (js "ipv4")) then js "IPv4"
     else if bool_decide (family = Some (js "ipv6")) then js "IPv6" else [];
     match family with
     | Some (_ :: _) => toUpperCase (replace_first (default [] type) (js "tcp_reachability") (js "tcp"))
     | _ => []
     end]).

(** The configured task of a point. *)
Record Task := { t_id : Z; t_name : jsstring; t_series : option jsstring; t_province : option jsstring;
                 t_type : option jsstring }.

Definition same_task (p : Identity) (t : Task) : bool :=
  bool_decide (t_id t = task_id p) && bool_decide (t_name t = name p)
  && bool_decide (default [] (t_series t) = default [] (series p)).

(** [type] and [quality] are the point's types, [quality] that of its quality. *)
Definition networkTaskLabel (p : Identity) (family type quality : option jsstring) (tasks : option (list Task))
    (language : jsstring) : jsstring :=
  let task := tasks ≫= list_find_first (same_task p) in
  let nullish (a b : option jsstring) := match a with Some _ => a | None => b end in
  networkLabel (name p)
    (match task with Some t => if bool_decide (t_id t = 0) then t_province t else None | None => None end)
    family (nullish (nullish (task ≫= t_type) type) quality) language.
End labels.

(** ** Identities are exact *)

Definition well_formed (p : Identity) : Prop :=
  Forall code_unit (name p) ∧ Forall code_unit (default [] (series p)).

(** Integers are written in digits, after a sign. *)
Lemma int_string_chars c z : ¬ 48 ≤ c ≤ 57 → c ≠ 45 → c ∉ int_string z.
Proof.
  intros Hc Hs. unfold int_string. assert (∀ a, 0 ≤ a → c ∉ digit_string (digits a)) as Hd.
  { intros a Ha (d & Hd & Hin)%list_elem_of_fmap. pose proof (digits_range a Ha) as Hr.
    rewrite Forall_forall in Hr. specialize (Hr d Hin). lia. }
  case_bool_decide; [|apply Hd; lia]. rewrite not_elem_of_cons. split; [done|apply Hd; lia].
Qed.

(** What starts with a number and a separator that numbers do not contain. *)
Lemma separated_inj (c : Z) (a b r q : jsstring) :
  c ∉ a → c ∉ b → a ++ c :: r = b ++ c :: q → a = b ∧ r = q.
Proof.
  revert b. induction a as [|x a IH]; intros [|y b] Ha Hb He; cbn in He; injection He.
  - by intros ->.
  - intros _ ->. set_solver.
  - intros _ ->. set_solver.
  - intros Hr ->. destruct (IH b) as [-> ->]; [set_solver..|done].
Qed.

Lemma int_string_inj a b : int_string a = int_string b → a = b.
Proof.
  assert (∀ z, 0 ≤ z → 45 ∉ digit_string (digits z)) as Hd.
  { intros z Hz (d & Hd & Hin)%list_elem_of_fmap. pose proof (digits_range z Hz) as Hr.
    rewrite Forall_forall in Hr. specialize (Hr d Hin). lia. }
  intros He. destruct (decide (0 ≤ a)), (decide (0 ≤ b)); [by apply int_string_nonneg_inj|..];
    unfold int_string in He; repeat case_bool_decide; try lia.
  - exfalso. apply (Hd a); [done|]. rewrite He. set_solver.
  - exfalso. apply (Hd b); [done|]. rewrite <-He. set_solver.
  - injection He as He. apply digit_string_inj, digits_inj in He; lia.
Qed.

(** Two points have one identity exactly when task, name and series agree. *)
Lemma networkIdentity_inj p q :
  well_formed p → well_formed q → networkIdentity p = networkIdentity q →
  task_id p = task_id q ∧ name p = name q ∧ default [] (series p) = default [] (series q).
Proof.
  intros [Hp Hp'] [Hq Hq'] [= He].
  apply separated_inj in He as [Hid He]; [|apply int_string_chars; lia..].
  apply quote_app_inj in He as [Hn He]; [|done..]. apply sep_app_inj in He.
  apply quote_app_inj in He as [Hs _]; [|done..]. split_and!; [by apply int_string_inj|done|done].
Qed.

End Network.
