(* ===== verification/NodeFacts.v ===== *)
(** * What a node shows of itself

    The small modules of [web/probe/src/lib] that write a node's hardware and
    price: [cpu-spec.ts] (module [CpuSpec]), [node-bandwidth.ts] (module
    [NodeBandwidth]), [node-price.ts] (module [NodePrice]), [storage.ts]
    (module [Storage]) and [storage-history.ts] (module [StorageHistory]).

    [Intl.NumberFormat] and the dictionary [translate] are parameters.  In
    tables of labels a locale is looked up as in [table\[locale\]], which also
    finds inherited properties: they have no labels, and [None] stands for the
    [undefined] that is then returned. *)

From Stdlib Require Import SpecFloat.
From S2P Require Import Prelude JsMap JsString Json JsValue FloatFacts JsNumber JsText NodeCost.

Open Scope Z_scope.

(** [table\[locale\] ?? table\[locale.split('-')\[0\]\] ?? table.en]; [None] is
    an inherited property. *)
Definition localized {A} (table : list (jsstring * A)) (en : A) (locale : jsstring) : option A :=
  let hit k := match jm_get k table with
               | Some l => Some (Some l)
               | None => if bool_decide (k ∈ inherited_keys) then Some None else None
               end in
  match hit locale with
  | Some r => r
  | None => match hit (default [] (head (split_char 45 locale []))) with Some r => r | None => Some en end
  end.

Module CpuSpec.

Record CPUInfo := {
  cpu_cores : option num;
  cpu_physical_cores : option num;
  cpu_sockets : option num;
  virtualization_role : option jsstring;
}.

Definition logicalCPU : list (jsstring * jsstring) :=
  [(js "en", js "logical CPU"); (js "zh-CN", js "逻辑 CPU"); (js "zh-TW", js "邏輯 CPU");
   (js "ja", js "論理 CPU"); (js "ko", js "논리 CPU"); (js "ru", js "логич. CPU")].

(** The number, if it is a positive safe integer. *)
Definition count_of_cpus (n : option num) : option Z :=
  match n with
  | Some x => if isSafeInteger x then match num_to_Z x with Some z => if bool_decide (0 < z) then Some z else None
                                      | None => None end else None
  | None => None
  end.

Definition physical_role (r : option jsstring) : bool :=
  bool_decide (r = Some (js "none")) || bool_decide (r = Some (js "host")).

Definition cpuSpec (info : option CPUInfo) (locale : jsstring) : jsstring :=
  match info ≫= (λ i, count_of_cpus (cpu_cores i)), info with
  | Some threads, Some i =>
      let logical := int_string threads ++ js " "
                     ++ default (js "undefined") (localized logicalCPU (js "logical CPU") locale) in
      if bool_decide (virtualization_role i = Some (js "guest")) then int_string threads ++ js " vCPU"
      else if physical_role (virtualization_role i) then
        match count_of_cpus (cpu_physical_cores i), count_of_cpus (cpu_sockets i) with
        | Some cores, Some sockets =>
            if bool_decide (sockets ≤ cores) && bool_decide (cores ≤ threads)
            then (if bool_decide (1 < sockets) then int_string sockets ++ js "S · " else [])
                 ++ int_string cores ++ js "C / " ++ int_string threads ++ js "T"
            else logical
        | _, _ => logical
        end
      else logical
  | _, _ => js "—"
  end.

Example cpuSpec_examples :
  let info c p s r := Some {| cpu_cores := num_of_Z <$> c; cpu_physical_cores := num_of_Z <$> p;
                              cpu_sockets := num_of_Z <$> s; virtualization_role := js <$> r |} in
  cpuSpec (info (Some 8) (Some 4) (Some 1) (Some "none"%string)) (js "en") = js "4C / 8T" ∧
  cpuSpec (info (Some 32) (Some 16) (Some 2) (Some "host"%string)) (js "en") = js "2S · 16C / 32T" ∧
  cpuSpec (info (Some 2) (Some 2) (Some 1) (Some "guest"%string)) (js "en") = js "2 vCPU" ∧
  cpuSpec (info (Some 8) None None None) (js "ru-RU") = js "8 логич. CPU" ∧
  cpuSpec (info (Some 0) None None None) (js "en") = js "—".
Proof. vm_compute. repeat split; reflexivity. Qed.

(** Physical cores are claimed only of a machine that says it is no guest. *)
Lemma guest_has_no_cores i locale threads :
  count_of_cpus (cpu_cores i) = Some threads → virtualization_role i = Some (js "guest") →
  cpuSpec (Some i) locale = int_string threads ++ js " vCPU".
Proof.
  intros Ht Hr. unfold cpuSpec. change (Some i ≫= λ i, count_of_cpus (cpu_cores i)) with (count_of_cpus (cpu_cores i)).
  rewrite Ht, Hr. by rewrite bool_decide_eq_true_2.
Qed.

End CpuSpec.

Module NodeBandwidth.

Record NodeBandwidth := { inbound_mbps : num; outbound_mbps : num; public : bool }.

Definition known (v : num) : bool := isFinite v && num_ltb (num_of_Z 0) v.

Section bandwidth.
(** [new Intl.NumberFormat(locale, ...).format] *)
Context (formatNumber : jsstring → num → jsstring).

Definition rate (locale : jsstring) (v : num) : jsstring :=
  if negb (known v) then js "—"
  else if num_leb (num_of_Z 1000) v
  then formatNumber locale (num_div v (num_of_Z 1000)) ++ js " Gbps"
  else formatNumber locale v ++ js " Mbps".

Definition nodeBandwidth (b : option NodeBandwidth) (locale : jsstring) : jsstring :=
  match b with
  | Some b =>
      if negb (public b) then []
      else if negb (known (inbound_mbps b)) && negb (known (outbound_mbps b)) then []
      else if num_eqb (inbound_mbps b) (outbound_mbps b) then rate locale (inbound_mbps b)
      else js "RX " ++ rate locale (inbound_mbps b) ++ js " · TX " ++ rate locale (outbound_mbps b)
  | None => []
  end.
End bandwidth.

End NodeBandwidth.

Module NodePrice.
Import NodeCost.

Definition words : list (jsstring * list jsstring) :=
  [(js "en", js <$> ["Free"; "month"; "quarter"; "6 months"; "year"; "years"]%string);
   (js "zh-CN", js <$> ["免费"; "月"; "季度"; "半年"; "年"; "年"]%string);
   (js "zh-TW", js <$> ["免費"; "月"; "季度"; "半年"; "年"; "年"]%string);
   (js "ja", js <$> ["無料"; "月"; "四半期"; "半年"; "年"; "年"]%string);
   (js "ko", js <$> ["무료"; "월"; "분기"; "반년"; "년"; "년"]%string);
   (js "ru", js <$> ["Бесплатно"; "месяц"; "квартал"; "полгода"; "год"; "лет"]%string)].

(** The keys of [cycles], each with its label. *)
Definition cycles : list (jsstring * nat) :=
  [(js "monthly", 1%nat); (js "quarterly", 2%nat); (js "semiannual", 3%nat); (js "annual", 4%nat)].

(** [String(undefined)] *)
Definition shown (s : option jsstring) : jsstring := default (js "undefined") s.

(** [cycles\[b.cycle\] ?? b.cycle] in a template; cycles are not the names of
    inherited properties. *)
Definition cycle_label (labels : option (list jsstring)) (cycle : jsstring) : jsstring :=
  match jm_get cycle cycles ≫= (λ i, labels ≫= (λ l, l !! i)) with
  | Some l => l
  | None => cycle
  end.

(** [None] is [undefined]. *)
Definition nodePrice (price : option jsstring) (billing : option Billing) (locale : jsstring) : option jsstring :=
  match billing with
  | None => Some (default [] price)
  | Some b =>
      match amount b with
      | None | Some [] => Some []
      | Some a =>
          let labels := localized words (default [] (jm_get (js "en") words)) locale in
          if num_eqb (string_number a) (num_of_Z 0) then labels ≫= head
          else
            let c := if bool_decide (cycle b = js "custom")
                     then shown (years b) ++ js " " ++ shown (labels ≫= (λ l, l !! 5%nat))
                     else cycle_label labels (cycle b) in
            Some (shown (currency b) ++ js " " ++ a ++ js " / " ++ c)
      end
  end.

Example nodePrice_examples :
  let b a c y := Some {| amount := Some (js a); currency := Some (js "USD"); cycle := js c; years := js <$> y |} in
  nodePrice None (b "12.50" "monthly" None) (js "de") = Some (js "USD 12.50 / month") ∧
  nodePrice None (b "0.00" "monthly" None) (js "zh-CN") = Some (js "免费") ∧
  nodePrice None (b "90" "custom" (Some "3")) (js "en-GB") = Some (js "USD 90 / 3 years") ∧
  nodePrice (Some (js "$5/mo")) None (js "en") = Some (js "$5/mo") ∧
  nodePrice None (b "5" "weekly" None) (js "en") = Some (js "USD 5 / weekly").
Proof. vm_compute. repeat split; reflexivity. Qed.

End NodePrice.

Module Storage.

Record StorageVolume := {
  id : jsstring;
  name : option jsstring;
  kind : jsstring;
  total : option num;
  used : option num;
}.

Record StorageItem := { volume : StorageVolume; label : jsstring; detailLabel : jsstring; percent : option num }.

(** [None] for what is not a number. *)
Definition count (v : option num) : option num :=
  match v with
  | Some x => if isFinite x && num_leb (num_of_Z 0) x then Some x else None
  | None => None
  end.

(** What is read of a host: its validity of the disk, [disk_total] and
    [disk_used]. *)
Record HostDisk := { valid_disk : option bool; disk_total : option num; disk_used : option num }.

Inductive projection := Missing | NotAnArray | Volumes (l : list StorageVolume).

Record Node := { storage : projection; host : option HostDisk }.

Definition legacy_volume (h : option HostDisk) : StorageVolume :=
  let valid := match h with Some h => negb (bool_decide (valid_disk h = Some false)) | None => false end in
  {| id := js "legacy-root"; name := Some []; kind := js "system";
     total := if valid then count (h ≫= disk_total) else None;
     used := if valid then count (Some (default (num_of_Z 0) (h ≫= disk_used))) else None |}.

Definition storageVolumes (node : option Node) : list StorageVolume :=
  match node with
  | None => []
  | Some n => match storage n with
              | Volumes l => l
              | NotAnArray => []
              | Missing => [legacy_volume (host n)]
              end
  end.

Section items.
Context (translate : jsstring → jsstring).

Definition is_system (v : StorageVolume) : bool := bool_decide (kind v = js "system").

Definition known_kind (k : jsstring) : jsstring :=
  if bool_decide (k = js "system") || bool_decide (k = js "pool") then k else js "volume".

(** [many] is [volumes.length !== 1]. *)
Definition name_of (v : StorageVolume) (many : bool) (system data : jsstring) (suffix : jsstring) : jsstring :=
  match trim (default [] (name v)) with
  | [] => if many then translate (if is_system v then system else data) ++ suffix
          else translate (js "storage.disk")
  | customName => customName
  end.

Definition percent_of (used total : option num) : option num :=
  match used, total with
  | Some u, Some t => if num_ltb (num_of_Z 0) t
                      then Some (math_min (num_of_Z 100) (num_mul (num_div u t) (num_of_Z 100))) else None
  | _, _ => None
  end.

Definition item (many : bool) (dataCount dataOrdinal : Z) (v : StorageVolume) : StorageItem :=
  let suffix := if negb (is_system v) && bool_decide (1 < dataCount) then js " " ++ int_string dataOrdinal else [] in
  let t := count (total v) in
  let u := count (used v) in
  {| volume := {| id := id v; name := name v; kind := known_kind (kind v); total := t; used := u |};
     label := name_of v many (js "storage.system") (js "storage.data") suffix;
     detailLabel := name_of v many (js "storage.systemDisk") (js "storage.dataDisk") suffix;
     percent := percent_of u t |}.

(** The [map] with its counter [dataOrdinal]. *)
Fixpoint items_from (many : bool) (dataCount dataOrdinal : Z) (l : list StorageVolume) : list StorageItem :=
  match l with
  | [] => []
  | v :: l =>
      let dataOrdinal := if is_system v then dataOrdinal else dataOrdinal + 1 in
      item many dataCount dataOrdinal v :: items_from many dataCount dataOrdinal l
  end.

Definition storageItems (node : option Node) : list StorageItem :=
  let volumes := storageVolumes node in
  items_from (negb (bool_decide (length volumes = 1%nat)))
    (Z.of_nat (length (bfilter (λ v, negb (is_system v)) volumes))) 0 volumes.
End items.

(** [while (size >= 1024 && unit < units.length - 1)]: at most six rounds. *)
Fixpoint scale (rounds : nat) (size : num) (unit : nat) : num * nat :=
  match rounds with
  | O => (size, unit)
  | S rounds => if num_leb (num_of_Z 1024) size then scale rounds (num_div size (num_of_Z 1024)) (S unit)
              else (size, unit)
  end.

Definition short_units : list jsstring := js <$> ["B"; "K"; "M"; "G"; "T"; "P"; "E"]%string.
Definition long_units : list jsstring := js <$> ["B"; "KiB"; "MiB"; "GiB"; "TiB"; "PiB"; "EiB"]%string.

(** [String(Number(x.toFixed(f)))] *)
Definition compact (x : num) (f : Z) : jsstring :=
  number_string (string_number (default [] (toFixed x f))).

Definition unit_text (units : list jsstring) (unit : nat) : jsstring := default (js "undefined") (units !! unit).

Definition storageBytes (v : option num) (dense : bool) : jsstring :=
  match count v with
  | None => js "—"
  | Some x =>
      let '(size, unit) := scale 6 x 0 in
      if dense && num_leb (decimal 9995 (-1)) size && bool_decide (unit < 6)%nat
      then compact (num_div size (num_of_Z 1024)) 2 ++ unit_text short_units (S unit)
      else compact size (if num_ltb size (num_of_Z 10) then if dense then 1 else 2
                         else if num_ltb size (num_of_Z 100) then 1 else 0)
           ++ unit_text short_units unit
  end.

Definition storagePercent (v : option num) : jsstring :=
  match v with None => js "—" | Some x => default [] (toFixed x 1) ++ js "%" end.

(** [/^\d{4}/] *)
Definition four_digits (s : jsstring) : bool :=
  bool_decide (4 ≤ length s)%nat && every is_ascii_digit (take 4 s).

(** [s.replace(/^\[0-9\]+\.\[0-9\]+/, value => String(Math.round(Number(value))))] *)
Definition round_decimal (s : jsstring) : jsstring :=
  let '(w, r) := span_digits s in
  match w, r with
  | _ :: _, 46 :: r =>
      let '(f, r) := span_digits r in
      match f with
      | [] => s
      | _ => number_string (math_round (string_number (w ++ [46] ++ f))) ++ r
      end
  | _, _ => s
  end.

Definition storageCapacity (vused vtotal : option num) (dense : bool) : jsstring :=
  let total := storageBytes vtotal false in
  let used := storageBytes vused dense in
  let total := if dense && four_digits total then storageBytes vtotal true else total in
  let used := if dense && negb (bool_decide (used = js "—")) && bool_decide (last used = last total)
              then take (length used - 1) used else used in
  let used := if dense && bool_decide (9 < length (used ++ js "/" ++ total))%nat then round_decimal used else used in
  used ++ (if dense then js "/" else js " / ") ++ total.

Definition full_bytes (v : option num) : jsstring :=
  match count v with
  | None => js "—"
  | Some x =>
      let '(size, unit) := scale 6 x 0 in
      (if bool_decide (unit = 0%nat) then number_string size else default [] (toFixed size 2))
      ++ js " " ++ unit_text long_units unit
  end.

Definition storageFullCapacity (vused vtotal : option num) : jsstring :=
  full_bytes vused ++ js " / " ++ full_bytes vtotal.

(** The values that the tests of the repository expect. *)
Example storage_texts :
  let gib := 2 ^ 30 in
  let b z := Some (num_of_Z z) in
  storageCapacity (b 0) (b 1024) false = js "0B / 1K" ∧
  storageCapacity None (b 1024) false = js "— / 1K" ∧
  storageBytes (Some (num_mul (decimal 11 (-1)) (num_of_Z (2 ^ 40)))) false = js "1.1T" ∧
  storageBytes (b (463 * gib)) false = js "463G" ∧
  storageCapacity (Some (num_mul (decimal 817 (-2)) (num_of_Z (2 ^ 20))))
    (Some (num_mul (decimal 1432 (-2)) (num_of_Z (2 ^ 40)))) true = js "8M/14.3T" ∧
  storageCapacity (b (463 * gib)) (b (463 * gib)) true = js "463/463G" ∧
  storageCapacity (b (1023 * gib)) (b (1023 * gib)) true = js "1/1T" ∧
  storagePercent (b 0) = js "0.0%" ∧
  storageFullCapacity (b 512) (b (3 * 2 ^ 29)) = js "512 B / 1.50 GiB".
Proof. vm_compute. repeat split; reflexivity. Qed.

(** ** What is shown *)

Lemma count_Some v x : count v = Some x → isFinite x = true ∧ nonneg x = true.
Proof.
  destruct v as [y|]; [|done]. unfold count. destruct (isFinite y) eqn:Hf; [|done]. rewrite nonneg_leb.
  cbn [andb]. destruct (nonneg y) eqn:Hn; [|done]. by intros [= <-].
Qed.

Lemma percent_of_range u t p :
  percent_of (count u) (count t) = Some p → is_percentage p.
Proof.
  unfold percent_of. destruct (count u) as [x|] eqn:Hu; [|done]. destruct (count t) as [y|] eqn:Ht; [|done].
  apply count_Some in Hu as [Hfx Hx], Ht as [Hfy Hy]. rewrite positive_ltb. destruct (is_positive y) eqn:Hp; [|done].
  intros [= <-]. apply percentage_min, num_mul_nonneg_r; [by apply num_div_nonneg|done|done].
Qed.

(** Each volume has one item, in order, that keeps its identifier; what is
    not a finite count is unknown, and a share is one between 0 and 100, shown
    only where both counts are known and the total is positive. *)
Definition item_of (v : StorageVolume) (i : StorageItem) : Prop :=
  id (volume i) = id v ∧ used (volume i) = count (used v) ∧ total (volume i) = count (total v) ∧
  (∀ p, percent i = Some p → is_percentage p) ∧
  (is_Some (percent i) ↔ ∃ u t, count (used v) = Some u ∧ count (total v) = Some t ∧ is_positive t = true).

Lemma item_exact translate many dataCount n v : item_of v (item translate many dataCount n v).
Proof.
  unfold item. split_and!; [done..| |]; cbn [percent].
  - intros p. apply percent_of_range.
  - unfold percent_of. destruct (count (used v)) as [u|]; [|split; [by intros []|by intros (? & ? & ? & _)]].
    destruct (count (total v)) as [t|]; [|split; [by intros []|by intros (? & ? & _ & ? & _)]].
    rewrite positive_ltb. destruct (is_positive t) eqn:Hp; [naive_solver|].
    split; [by intros []|intros (? & ? & _ & [= <-] & Hc); congruence].
Qed.

Lemma storage_items_exact translate (node : option Node) :
  Forall2 item_of (storageVolumes node) (storageItems translate node).
Proof.
  unfold storageItems. generalize (negb (bool_decide (length (storageVolumes node) = 1%nat))).
  generalize (Z.of_nat (length (bfilter (λ v, negb (is_system v)) (storageVolumes node)))). generalize 0.
  induction (storageVolumes node) as [|v l IH]; intros n k b; cbn [items_from]; constructor;
    [apply item_exact|apply IH].
Qed.

End Storage.

Module StorageHistory.

Record StorageHistoryPoint := { ts : num; used : option num; total : option num }.

Inductive StorageHistoryRange := Range (r : option jsstring) | FromTo (from to : num).

(** [Math.floor]: of a finite number; others stay. *)
Definition floor_num (x : num) : num := match floor_Z x with Some z => num_of_Z z | None => x end.

(** [None] is the error 404.  Times below 10^21 are written in digits, which
    [URLSearchParams] does not encode. *)
Definition storageHistoryURL (uuid : jsstring) (range : StorageHistoryRange) : option jsstring :=
  if bool_decide (uuid = []) || negb (every is_ascii_digit uuid) then None
  else
    let query := match range with
      | FromTo from to => js "from=" ++ number_string (floor_num from) ++ js "&to=" ++ number_string (floor_num to)
      | Range r => js "range=" ++ default (js "1h") r
      end in
    Some (js "/api/probe/nodes/" ++ uuid ++ js "/storage-history?" ++ query).

Definition formatMetricCount (v : option num) : jsstring :=
  match v with
  | Some x => if isFinite x then Storage.compact x 1 else js "—"
  | None => js "—"
  end.

Definition finite_or_none (v : option num) : bool := match v with Some x => isFinite x | None => false end.

Definition usable (oldest to : num) (p : StorageHistoryPoint) : bool :=
  num_leb oldest (ts p) && num_leb (ts p) to && finite_or_none (used p) && finite_or_none (total p).

(** [findLast] *)
Definition latestStoragePoint (points : list StorageHistoryPoint) (to step : num) : option StorageHistoryPoint :=
  if negb (isFinite to) || negb (isFinite step) || num_leb step (num_of_Z 0) then None
  else
    let oldest := num_sub (num_mul (floor_num (num_div to step)) step) step in
    list_find_first (usable oldest to) (reverse points).

(** The point is a measured pair of the window and the last such point. *)
Lemma latest_point_exact points to step p :
  latestStoragePoint points to step = Some p →
  p ∈ points ∧ num_leb (ts p) to = true ∧ is_Some (used p) ∧ is_Some (total p).
Proof.
  unfold latestStoragePoint. destruct (_ || _); [done|].
  intros [Hin Hu]%list_find_first_Some. rewrite elem_of_reverse in Hin. unfold usable in Hu. reflect_bools.
  split_and!; [done..|by destruct (used p)|by destruct (total p)].
Qed.

End StorageHistory.
