(* ===== verification/Format.v ===== *)
(** * Sizes, durations and percentages as text

    [glass-shared/utils/helper.ts].  [Math.log] is a parameter: [unit_index] is
    [Math.floor(Math.log(x) / Math.log(1024))] of a number that is finite and
    not zero ([None] is [NaN]), and its laws are stated only where an error of
    a few units in the last place of the quotient cannot matter.  The
    dictionary [t] is a parameter too. *)

From Stdlib Require Import SpecFloat.
From S2P Require Import Prelude JsMap JsString Json JsValue JsNumber.

Open Scope Z_scope.

Module Format.

(** ** Bytes *)

Class ByteIndex := {
  unit_index : num → option Z;
  unit_index_Z : ∀ z, 0 < z < 2 ^ 40 → unit_index (num_of_Z z) = Some (Z.log2 z / 10);
  unit_index_small : ∀ x, valid_binary prec emax x = true → num_ltb (num_of_Z 0) x = true → num_ltb x (num_of_Z 1) = true →
    ∃ i, unit_index x = Some i ∧ i < 0;
}.

Definition BYTE_UNITS : list jsstring := [js "B"; js "KB"; js "MB"; js "GB"; js "TB"; js "PB"].
Definition LAST_BYTE_UNIT : jsstring := js "PB".

(** Digits after the point per unit, -1 for a unit that is not to be used;
    [None] is an absent property. *)
Record ByteDecimalsConfig := {
  cB : option Z; cKB : option Z; cMB : option Z; cGB : option Z; cTB : option Z;
}.

Record decimals := { dB : Z; dKB : Z; dMB : Z; dGB : Z; dTB : Z }.

Definition DEFAULT_BYTE_DECIMALS : decimals := {| dB := 0; dKB := 0; dMB := 1; dGB := 1; dTB := 2 |}.

(** [{ ...DEFAULT_BYTE_DECIMALS, ...config }] *)
Definition merged (config : option ByteDecimalsConfig) : decimals :=
  let d := DEFAULT_BYTE_DECIMALS in
  match config with
  | None => d
  | Some c => {| dB := default (dB d) (cB c); dKB := default (dKB d) (cKB c); dMB := default (dMB d) (cMB c);
                 dGB := default (dGB d) (cGB c); dTB := default (dTB d) (cTB c) |}
  end.

(** [BYTE_UNITS[i]], nothing outside the list. *)
Definition unit_at (i : option Z) : option jsstring :=
  match i with Some i => if bool_decide (0 ≤ i) then BYTE_UNITS !! Z.to_nat i else None | None => None end.

Definition unit_or_last (i : option Z) : jsstring := default LAST_BYTE_UNIT (unit_at i).

(** [mergedConfig[unitKey]], with the entry of [TB] for [PB] too; [None] is
    [undefined], for an index that names no unit. *)
Definition decimals_at (d : decimals) (i : option Z) : option Z :=
  match i with
  | Some 0 => Some (dB d) | Some 1 => Some (dKB d) | Some 2 => Some (dMB d) | Some 3 => Some (dGB d)
  | Some 4 | Some 5 => Some (dTB d)
  | _ => None
  end.

(** [1024 ** i] *)
Definition power (i : option Z) : num :=
  match i with
  | Some i => if bool_decide (0 ≤ i) then num_of_Z (1024 ^ i) else num_div (num_of_Z 1) (num_of_Z (1024 ^ (- i)))
  | None => NaN
  end.

Definition scaled (bytes : num) (i : option Z) : num := num_div bytes (power i).

(** [toFixed(undefined)] is [toFixed(0)]. *)
Definition fixed (x : num) (f : option Z) : option jsstring := toFixed x (default 0 f).

(** The first unit after [i] that is in use. *)
Definition next_unit (d : decimals) (i : option Z) : option Z :=
  match i with
  | Some i => list_find_first (λ j, bool_decide (i < j) && negb (bool_decide (decimals_at d (Some j) = Some (-1))))
                [0; 1; 2; 3; 4; 5]
  | None => None
  end.

Section bytes.
Context `{ByteIndex}.

Definition formatBytes (bytes : num) (digits : Z) : option jsstring :=
  if negb (isFinite bytes) then Some (js "—")
  else if num_eqb bytes (num_of_Z 0) then Some (js "0 B")
  else
    let i := unit_index bytes in
    v ← toFixed (scaled bytes i) digits; Some (v ++ js " " ++ unit_or_last i).

Definition formatBytesWithConfig (bytes : num) (config : option ByteDecimalsConfig) : option jsstring :=
  if negb (isFinite bytes) then Some (js "—")
  else
    let mergedConfig := merged config in
    if num_eqb bytes (num_of_Z 0) then Some (if bool_decide (dB mergedConfig = -1) then js "0 KB" else js "0 B")
    else
      let i := unit_index bytes in
      let digits := decimals_at mergedConfig i in
      if bool_decide (digits = Some (-1)) then
        match next_unit mergedConfig i with
        | Some j =>
            v ← fixed (scaled bytes (Some j)) (decimals_at mergedConfig (Some j));
            Some (v ++ js " " ++ unit_or_last (Some j))
        | None => v ← toFixed (scaled bytes i) 1; Some (v ++ js " " ++ unit_or_last i)
        end
      else v ← fixed (scaled bytes i) digits; Some (v ++ js " " ++ unit_or_last i).

Record split := { value : jsstring; unit : jsstring }.

Definition formatBytesSplit (bytes : num) (config : option ByteDecimalsConfig) : option split :=
  if negb (isFinite bytes) then Some {| value := js "—"; unit := [] |}
  else
    let mergedConfig := merged config in
    if num_eqb bytes (num_of_Z 0)
    then Some {| value := js "0"; unit := if bool_decide (dB mergedConfig = -1) then js "KB" else js "B" |}
    else
      let i := unit_index bytes in
      let digits := decimals_at mergedConfig i in
      if bool_decide (digits = Some (-1)) then
        match next_unit mergedConfig i with
        | Some j =>
            v ← fixed (scaled bytes (Some j)) (decimals_at mergedConfig (Some j));
            Some {| value := v; unit := unit_or_last (Some j) |}
        | None => v ← toFixed (scaled bytes i) 1; Some {| value := v; unit := unit_or_last i |}
        end
      else v ← fixed (scaled bytes i) digits; Some {| value := v; unit := unit_or_last i |}.

Definition formatBytesPerSecondSplit (bytes : num) (config : option ByteDecimalsConfig) : option split :=
  result ← formatBytesSplit bytes config; Some {| value := value result; unit := unit result ++ js "/s" |}.

Definition formatBytesPerSecond (bytes : num) : option jsstring :=
  s ← formatBytes bytes 1; Some (s ++ js "/s").

Definition formatBytesPerSecondWithConfig (bytes : num) (config : option ByteDecimalsConfig) : option jsstring :=
  if negb (isFinite bytes) then Some (js "—")
  else s ← formatBytesWithConfig bytes config; Some (s ++ js "/s").
End bytes.

(** ** Durations *)

Definition SECONDS_PER_DAY : Z := 86400.

Definition getUptimeDays (seconds : num) : Z :=
  if negb (isFinite seconds) || num_leb seconds (num_of_Z 0) then 0
  else default 0 (floor_Z seconds) / SECONDS_PER_DAY.

Inductive UptimeFormat := day | hour | minute | second.

Definition FORMAT_MAX_UNIT_INDEX_MAP (f : UptimeFormat) : nat :=
  match f with day => 0 | hour => 1 | minute => 2 | second => 3 end.

Section uptime.
Context (t : jsstring → jsstring).

Definition TIME_UNITS : list (Z * jsstring) :=
  [(SECONDS_PER_DAY, t (js "天")); (3600, t (js "小时")); (60, t (js "分钟")); (1, t (js "秒"))].

(** The loop over the units that the format allows: the amounts with their
    units, and what remains. *)
Fixpoint uptime_parts (units : list (Z * jsstring)) (remaining : Z) : list (Z * (Z * jsstring)) * Z :=
  match units with
  | [] => ([], remaining)
  | (v, label) :: units =>
      let amount := remaining / v in
      if bool_decide (0 < amount) then
        let '(parts, rest) := uptime_parts units (remaining mod v) in ((amount, (v, label)) :: parts, rest)
      else uptime_parts units remaining
  end.

Definition part_text (p : Z * (Z * jsstring)) : jsstring := int_string p.1 ++ js " " ++ p.2.2.

(** The number is taken to its floor at the start; quotients and remainders of
    integers below 2^53 are exact. *)
Definition formatUptimeWithFormat (seconds : num) (format : UptimeFormat) : jsstring :=
  if negb (isFinite seconds) then js "—"
  else
    let maxUnitIndex := FORMAT_MAX_UNIT_INDEX_MAP format in
    if num_leb seconds (num_of_Z 0) then js "0 秒"
    else
      match (uptime_parts (take (S maxUnitIndex) TIME_UNITS) (default 0 (floor_Z seconds))).1 with
      | [] => js "不足 1 " ++ default (t (js "秒")) (snd <$> TIME_UNITS !! maxUnitIndex)
      | parts => join (js " ") (part_text <$> parts)
      end.
End uptime.

(** ** Percentages *)

Definition calcPercentage (used total : num) : num :=
  if num_eqb total (num_of_Z 0) then num_of_Z 0 else num_mul (num_div used total) (num_of_Z 100).

Inductive usage_status := success | warning | error.

Definition getStatus (percentage : num) : usage_status :=
  if num_ltb percentage (num_of_Z 60) then success
  else if num_ltb percentage (num_of_Z 80) then warning
  else error.

Definition formatNumber (value : num) (digits : Z) : option jsstring :=
  if isFinite value then toFixed value digits else Some (js "—").

(** [formatDateTime]: [print] is the formatting of a valid date by [dayjs]. *)
Definition formatDateTime (print : jsstring → option jsstring) (timestamp : option jsstring) : jsstring :=
  match timestamp with
  | None | Some [] => js "-"
  | Some s => default (js "-") (print s)
  end.

(** ** A logarithm with these laws *)

Lemma log2_digits p : Z.log2 (Zpos p) = Zpos (digits2_pos p) - 1.
Proof.
  apply Z.log2_unique; [lia|]. split; [apply digits2_pos_lower|].
  replace (Z.succ (Zpos (digits2_pos p) - 1)) with (Zpos (digits2_pos p)) by lia. apply digits2_pos_bound.
Qed.

Lemma compare_lt p q :
  match PosDef.Pos.compare_cont Eq p q with Lt => true | _ => false end = true → Zpos p < Zpos q.
Proof.
  intros Hc. change (PosDef.Pos.compare_cont Eq p q = Lt). by destruct (PosDef.Pos.compare_cont Eq p q).
Qed.

Definition exact_index (x : num) : option Z :=
  match x with
  | S754_finite false m e => Some ((Zpos (digits2_pos m) - 1 + e) / 10)
  | _ => None
  end.

#[refine] Instance exact_log : ByteIndex := {| unit_index := exact_index |}.
Proof.
  - intros [|p|p] [Hp Hlt]; [lia| |lia]. assert (Zpos p < 2 ^ 53) by (pose proof (Z.pow_lt_mono_r 2 40 53); lia).
    rewrite num_of_Z_pos by done. cbn [exact_index]. rewrite digits_int_mantissa.
    + rewrite log2_digits. do 2 f_equal. unfold prec. lia.
    + apply digits2_pos_le; [done|]. unfold prec. lia.
  - intros x Hv H0 H1. destruct x as [s|s| |s m e]; try done; [by destruct s|].
    destruct s; [done|]. eexists. split; [done|].
    apply Z.div_lt_upper_bound; [lia|]. rewrite Z.mul_0_r.
    assert (Zpos (digits2_pos m) ≤ 53) as Hd.
    { cbn in Hv. unfold bounded, canonical_mantissa in Hv. apply andb_true_iff in Hv as [Hc _].
      apply Z.eqb_eq in Hc. unfold fexp, SpecFloat.emin, prec, emax in Hc. lia. }
    revert H1. change (num_of_Z 1) with (S754_finite false 4503599627370496 (-52)).
    unfold num_ltb, SFltb. cbn [SFcompare].
    destruct (Z.compare_spec e (-52)) as [->|He|He]; intros Hc; [|lia|done].
    assert (Zpos m < 2 ^ 52) as Hm.
    { apply (compare_lt m 4503599627370496 Hc). }
    apply digits2_pos_le in Hm; lia.
Defined.

(** ** Sizes *)

(** The copy of the algorithm that splits value and unit agrees with the one
    that writes them together. *)
Lemma bytes_formats_agree `{ByteIndex} bytes config :
  isFinite bytes = true →
  formatBytesWithConfig bytes config
  = (λ s, value s ++ js " " ++ unit s) <$> formatBytesSplit bytes config.
Proof.
  intros Hf. unfold formatBytesWithConfig, formatBytesSplit. rewrite Hf. cbn [negb].
  destruct (num_eqb bytes (num_of_Z 0)); [by case_bool_decide|].
  case_bool_decide; [destruct (next_unit _ _) as [j|]|].
  - by destruct (fixed _ _).
  - by destruct (toFixed _ _).
  - by destruct (fixed _ _).
Qed.

Lemma log2_unit z : 0 < z < 2 ^ 40 →
  let i := Z.log2 z / 10 in 0 ≤ i ≤ 3 ∧ 1024 ^ i ≤ z < 1024 ^ (i + 1).
Proof.
  intros Hz. cbn zeta. pose proof (Z.log2_spec z ltac:(lia)) as Hl. pose proof (Z.log2_nonneg z).
  assert (Z.log2 z < 40) by (apply Z.log2_lt_pow2; lia).
  pose proof (Z.div_mod (Z.log2 z) 10 ltac:(lia)). pose proof (Z.mod_pos_bound (Z.log2 z) 10 ltac:(lia)).
  set (i := Z.log2 z / 10) in *. split; [lia|].
  change 1024 with (2 ^ 10). rewrite <-!Z.pow_mul_r by lia.
  pose proof (Z.pow_le_mono_r 2 (10 * i) (Z.log2 z)). pose proof (Z.pow_le_mono_r 2 (Z.succ (Z.log2 z)) (10 * (i + 1))).
  lia.
Qed.

(** The numbers of digits that [toFixed] accepts, or -1. *)
Definition config_ok (config : option ByteDecimalsConfig) : Prop :=
  ∀ i z, decimals_at (merged config) i = Some z → -1 ≤ z ≤ 100.

Lemma fixed_total x f : 0 ≤ default 0 f ≤ 100 → is_Some (fixed x f).
Proof. intros Hf. unfold fixed, toFixed. rewrite bool_decide_eq_true_2 by done. eauto. Qed.

(** With such a configuration formatting never throws. *)
Lemma formatBytesSplit_total `{ByteIndex} bytes config : config_ok config → is_Some (formatBytesSplit bytes config).
Proof.
  intros Hc. unfold formatBytesSplit. destruct (isFinite bytes); cbn [negb]; [|eauto].
  destruct (num_eqb _ _); [eauto|]. set (i := unit_index bytes). case_bool_decide as Hd.
  - destruct (next_unit (merged config) i) as [j|] eqn:Hj.
    + unfold next_unit in Hj. destruct i as [i|]; [|done]. apply list_find_first_Some in Hj as [Hin Hj].
      apply andb_true_iff in Hj as [_ Hj]. reflect_bools.
      assert (∃ z, decimals_at (merged config) (Some j) = Some z) as [z Hz].
      { repeat (apply elem_of_cons in Hin as [->|Hin]; [by eexists|]). by apply not_elem_of_nil in Hin. }
      pose proof (Hc _ _ Hz). rewrite Hz in Hj |- *. assert (z ≠ -1) by congruence.
      destruct (fixed_total (scaled bytes (Some j)) (Some z)) as [v ->]; [cbn; lia|]. eauto.
    + destruct (toFixed (scaled bytes i) 1) eqn:Hf; [eauto|]. unfold toFixed in Hf.
      rewrite bool_decide_eq_true_2 in Hf by lia. done.
  - destruct (decimals_at (merged config) i) as [z|] eqn:Hz.
    + pose proof (Hc _ _ Hz). assert (z ≠ -1) by congruence.
      destruct (fixed_total (scaled bytes i) (Some z)) as [v ->]; [cbn; lia|]. eauto.
    + destruct (fixed_total (scaled bytes i) None) as [v ->]; [cbn; lia|]. eauto.
Qed.

(** The unit of a size below a tebibyte is the one that leaves a value from 1 to 1024. *)
Lemma bytes_unit `{ByteIndex} (z digits : Z) :
  0 < z < 2 ^ 40 →
  ∃ (i : Z) (u : jsstring), 0 ≤ i ≤ 3 ∧ 1024 ^ i ≤ z < 1024 ^ (i + 1) ∧ BYTE_UNITS !! Z.to_nat i = Some u ∧
    formatBytes (num_of_Z z) digits
    = (λ v, v ++ js " " ++ u) <$> toFixed (num_div (num_of_Z z) (num_of_Z (1024 ^ i))) digits.
Proof.
  intros Hz. destruct (log2_unit z Hz) as [Hi Hb]. set (i := Z.log2 z / 10) in *.
  destruct (lookup_lt_is_Some_2 BYTE_UNITS (Z.to_nat i)) as [u Hu]; [cbn; lia|].
  exists i, u. split_and!; [lia..|done|].
  unfold formatBytes. destruct z as [|p|p]; [lia| |lia].
  assert (Zpos p < 2 ^ 53) as Hp by (pose proof (Z.pow_lt_mono_r 2 40 53); lia).
  assert (isFinite (num_of_Z (Zpos p)) = true) as -> by by rewrite num_of_Z_pos.
  assert (num_eqb (num_of_Z (Zpos p)) (num_of_Z 0) = false) as -> by by rewrite num_of_Z_pos.
  cbn [negb]. rewrite unit_index_Z by done. fold i. unfold scaled, power, unit_or_last, unit_at.
  rewrite bool_decide_eq_true_2 by lia. rewrite Hu. by destruct (toFixed _ _).
Qed.

(** A size below one byte, such as an average rate, names no unit of the list
    and is shown in the largest one. *)
Theorem fraction_shown_as_petabytes `{ByteIndex} (x : num) (digits : Z) :
  valid_binary prec emax x = true → num_ltb (num_of_Z 0) x = true → num_ltb x (num_of_Z 1) = true →
  0 ≤ digits ≤ 100 → ∃ v, formatBytes x digits = Some (v ++ js " PB").
Proof.
  intros Hv H0 H1 Hd. destruct (unit_index_small x Hv H0 H1) as (i & Hi & Hneg).
  unfold formatBytes. assert (isFinite x = true) as -> by (revert H0 H1; by destruct x as [[]|[]| |[] m e]).
  assert (num_eqb x (num_of_Z 0) = false) as -> by (revert H0; by destruct x as [[]|[]| |[] m e]).
  cbn [negb]. rewrite Hi. unfold unit_or_last, unit_at. rewrite bool_decide_eq_false_2 by lia.
  unfold toFixed. rewrite bool_decide_eq_true_2 by done. cbn [mbind option_bind]. eexists. reflexivity.
Qed.

Example half_a_byte_and_an_exabyte :
  formatBytes (decimal 5 (-1)) 1 = Some (js "512.0 PB") ∧
  formatBytes (num_of_Z (2 ^ 60)) 1 = Some (js "1.0 PB") ∧
  formatBytes (num_of_Z (3 * 2 ^ 29)) 1 = Some (js "1.5 GB").
Proof. vm_compute. repeat split; reflexivity. Qed.

(** ** Durations *)

Definition parts_value (parts : list (Z * (Z * jsstring))) : Z := foldr (λ p a, p.1 * p.2.1 + a) 0 parts.

Lemma uptime_parts_spec units r :
  Forall (λ u, 0 < u.1) units → 0 ≤ r →
  let '(parts, rest) := uptime_parts units r in
  r = parts_value parts + rest ∧ 0 ≤ rest ∧ (∀ u, last units = Some u → rest < u.1) ∧
  Forall (λ p, 0 < p.1) parts ∧ snd <$> parts `sublist_of` units ∧
  (parts = [] → rest = r) ∧ (parts ≠ [] → ∃ u, u ∈ units ∧ u.1 ≤ r).
Proof.
  unfold parts_value. revert r. induction units as [|[v label] units IH]; intros r Hu Hr; cbn [uptime_parts].
  { split_and!; try done. }
  apply Forall_cons in Hu as [Hv Hu]. cbn [fst] in Hv.
  pose proof (Z.div_mod r v ltac:(lia)). pose proof (Z.mod_pos_bound r v Hv).
  assert (∀ rest (u : Z * jsstring), rest ≤ r mod v → last ((v, label) :: units) = Some u → units = [] → rest < u.1)
    as Hlast by (intros rest u Hle Hl ->; injection Hl as <-; cbn; lia).
  case_bool_decide as Ha.
  - specialize (IH (r mod v) Hu ltac:(lia)). destruct (uptime_parts units (r mod v)) as [parts rest].
    destruct IH as (Hsum & Hrest & Hlt & Hpos & Hsub & Hnil & Hcons).
    split_and!; [cbn; lia|lia| | |by apply sublist_skip|done|].
    + intros u Hl. destruct units as [|w units]; [|by apply Hlt]. apply (Hlast rest u); [|done..].
      apply sublist_nil_r, fmap_nil_inv in Hsub. rewrite (Hnil Hsub). lia.
    + by constructor.
    + intros _. exists (v, label). split; [set_solver|]. cbn. nia.
  - specialize (IH r Hu Hr). destruct (uptime_parts units r) as [parts rest].
    destruct IH as (Hsum & Hrest & Hlt & Hpos & Hsub & Hnil & Hcons).
    split_and!; [done|done| |done|by apply sublist_cons|done|set_solver].
    intros u Hl. destruct units as [|w units]; [|by apply Hlt]. apply (Hlast rest u); [|done..].
    apply sublist_nil_r, fmap_nil_inv in Hsub. rewrite (Hnil Hsub).
    assert (r / v = 0) by (pose proof (Z.div_pos r v); lia). lia.
Qed.

Definition unit_seconds (f : UptimeFormat) : Z :=
  match f with day => SECONDS_PER_DAY | hour => 3600 | minute => 60 | second => 1 end.

(** An uptime loses only what is below its precision.  A running time of [s]
    whole seconds is shown as positive amounts of distinct units, largest first
    and none below the precision asked for; the amounts add up to [s] up to a
    rest smaller than the smallest unit; and less than one such unit is shown
    as less than one. *)
Theorem uptime_exact (t : jsstring → jsstring) (seconds : num) (format : UptimeFormat) (s : Z) :
  isFinite seconds = true → num_leb seconds (num_of_Z 0) = false → floor_Z seconds = Some s → 0 ≤ s →
  let units := take (S (FORMAT_MAX_UNIT_INDEX_MAP format)) (TIME_UNITS t) in
  ∃ parts rest,
    s = parts_value parts + rest ∧ 0 ≤ rest < unit_seconds format ∧
    Forall (λ p, 0 < p.1) parts ∧ snd <$> parts `sublist_of` units ∧
    formatUptimeWithFormat t seconds format
    = if bool_decide (s < unit_seconds format)
      then js "不足 1 " ++ default (t (js "秒")) (snd <$> last units)
      else join (js " ") (part_text <$> parts).
Proof.
  intros Hf Hp Hs Hs0. cbn zeta. set (units := take _ _).
  assert (Forall (λ u, 0 < u.1) units ∧ (∃ l, last units = Some (unit_seconds format, l)) ∧
    (snd <$> last units) = (snd <$> TIME_UNITS t !! FORMAT_MAX_UNIT_INDEX_MAP format) ∧
    Forall (λ u, unit_seconds format ≤ u.1) units) as (Hpos & [l Hlast] & Hsnd & Hmin).
  { unfold units, TIME_UNITS, SECONDS_PER_DAY.
    destruct format; cbn; split_and!; repeat constructor; cbn; try lia; eauto; done. }
  pose proof (uptime_parts_spec units s Hpos Hs0) as Hspec.
  destruct (uptime_parts units s) as [parts rest] eqn:Hu.
  destruct Hspec as (Hsum & Hrest & Hlt & Hps & Hsub & Hnil & Hcons).
  specialize (Hlt _ Hlast). cbn [fst] in Hlt. exists parts, rest. split_and!; [done|lia|lia|done|done|].
  unfold formatUptimeWithFormat. rewrite Hf, Hp, Hs. cbn [negb from_option Datatypes.id]. fold units. rewrite Hu, Hsnd.
  cbn [fst]. destruct parts as [|[a [v lb]] parts].
  - rewrite bool_decide_eq_true_2; [done|]. rewrite <-(Hnil eq_refl). lia.
  - rewrite bool_decide_eq_false_2; [done|]. destruct (Hcons ltac:(done)) as (u & Hin & Hle).
    rewrite Forall_forall in Hmin. specialize (Hmin u Hin). lia.
Qed.

Lemma uptime_exact_witness :
  ∃ parts rest, 93784 = parts_value parts + rest ∧ 0 ≤ rest < 3600.
Proof.
  destruct (uptime_exact Datatypes.id (num_of_Z 93784) hour 93784) as (parts & rest & Hsum & Hrest & _);
    [vm_compute; reflexivity..|lia|].
  exists parts, rest. split; [exact Hsum|exact Hrest].
Defined.

End Format.
