(* ===== verification/NodeMetrics.v ===== *)
(** * Load, traffic and expiry of a node

    [glass-shared/utils/nodeMetricsHelper.ts] and the record of a node
    ([glass-shared/types/node.ts]).  Measurements are binary64 numbers, where
    [NaN] stands for what was not measured.  [Date.parse], [dayjs] and the
    dictionary [t] are parameters. *)

From Stdlib Require Import SpecFloat.
From S2P Require Import Prelude JsMap JsString Json JsValue JsNumber NodesStore TagHelper.

Open Scope Z_scope.

Module NodeMetrics.

(** What the overview reads of [NodeData].  [gpu_report] holds the properties
    that [gpuUsageFromStatus] looks at. *)
Record NodeData := {
  uuid : jsstring;
  name : jsstring;
  virtualization : option jsstring;
  os : option jsstring;
  region : jsstring;
  gpu_name : option jsstring;
  cpu_cores : num;
  mem_total : num;
  swap_total : num;
  disk_total : num;
  price : num;
  expired_at : jsstring;
  traffic_limit : num;
  traffic_limit_type : jsstring;
  online : bool;
  cpu : num;
  gpu : num;
  ram : num;
  swap : num;
  load : num;
  load5 : num;
  load15 : num;
  disk : num;
  net_in : num;
  net_out : num;
  net_total_up : num;
  net_total_down : num;
  process : num;
  connections : num;
  connections_udp : num;
  captainTraffic : option num;
  gpu_report : fields;
}.

Record TopNodeMetric := { node : NodeData; value : num }.

Inductive high_load_key := key_cpu | key_memory | key_disk.

Record HighLoadMetric := { key : high_load_key; label : jsstring; percentage : num }.

(** [x || 0] *)
Definition or0 (x : num) : num := if num_truthy x then x else num_of_Z 0.

Definition clampThreshold (v fallback : num) : num :=
  if negb (isFinite v) then fallback else math_min (math_max v (num_of_Z 1)) (num_of_Z 100).

Definition clampPercentage (v : num) : num :=
  if negb (isFinite v) then num_of_Z 0 else math_min (math_max v (num_of_Z 0)) (num_of_Z 100).

Definition percent (x y : num) : num := num_mul (num_div x y) (num_of_Z 100).

Definition hasTrafficLimit (n : NodeData) : bool := num_ltb (num_of_Z 0) (or0 (traffic_limit n)).

Definition getTrafficUsed (n : NodeData) : num :=
  match captainTraffic n with
  | Some monthly => monthly
  | None =>
      let up := net_total_up n in
      let down := net_total_down n in
      if bool_decide (traffic_limit_type n = js "up") then up
      else if bool_decide (traffic_limit_type n = js "down") then down
      else if bool_decide (traffic_limit_type n = js "min") then math_min up down
      else if bool_decide (traffic_limit_type n = js "max") then math_max up down
      else num_add up down
  end.

Definition getTrafficUsedPercentage (n : NodeData) : num :=
  if negb (hasTrafficLimit n) then num_of_Z 0 else clampPercentage (percent (getTrafficUsed n) (traffic_limit n)).

Definition getRealtimeTotalSpeed (n : NodeData) : num := num_add (or0 (net_in n)) (or0 (net_out n)).
Definition getRealtimePeakSpeed (n : NodeData) : num := math_max (or0 (net_in n)) (or0 (net_out n)).
Definition getTotalTraffic (n : NodeData) : num := num_add (net_total_up n) (net_total_down n).
Definition getConnectionCount (n : NodeData) : num := num_add (or0 (connections n)) (or0 (connections_udp n)).

Definition getMemoryPercentage (n : NodeData) : num :=
  if isFinite (ram n) && num_ltb (num_of_Z 0) (mem_total n) then clampPercentage (percent (ram n) (mem_total n)) else NaN.

Definition getDiskPercentage (n : NodeData) : num :=
  if isFinite (disk n) && num_ltb (num_of_Z 0) (disk_total n) then clampPercentage (percent (disk n) (disk_total n))
  else NaN.

Definition isTrafficWarningNode (n : NodeData) (threshold : num) : bool :=
  if negb (hasTrafficLimit n) then false
  else num_leb (clampThreshold threshold (num_of_Z 80)) (getTrafficUsedPercentage n).

Section dictionary.
Context (t : jsstring → jsstring).

Definition getHighLoadMetrics (n : NodeData) (threshold : num) : list HighLoadMetric :=
  if negb (online n) then []
  else
    let safeThreshold := clampThreshold threshold (num_of_Z 80) in
    let metric k l v := if num_leb safeThreshold v then [{| key := k; label := l; percentage := v |}] else [] in
    metric key_cpu (js "CPU") (clampPercentage (or0 (cpu n)))
    ++ metric key_memory (t (js "内存")) (getMemoryPercentage n)
    ++ metric key_disk (t (js "硬盘")) (getDiskPercentage n).

Definition isHighLoadNode (n : NodeData) (threshold : num) : bool :=
  bool_decide (0 < length (getHighLoadMetrics n threshold))%nat.
End dictionary.

Section expiry.
Context (parse : jsstring → option Z) (dayjs : JsValue.value → option Z).

(** [parse] is [Date.parse], nothing for [NaN]. *)
Definition hasValidExpiry (n : NodeData) : bool :=
  match expired_at n with [] => false | s => bool_decide (is_Some (parse s)) end.

Definition getExpiryDays (n : NodeData) (now : Z) : option Z :=
  if negb (hasValidExpiry n) then None else Some (TagHelper.getDaysUntilExpired dayjs (VStr (expired_at n)) now).

Definition isExpiringNode (n : NodeData) (days : num) (now : Z) : bool :=
  if num_eqb (price n) (num_of_Z 0) then false
  else match getExpiryDays n now with
       | None => false
       | Some expiryDays => num_leb (num_of_Z expiryDays) (math_max (num_of_Z 1) days)
       end.
End expiry.

Definition top_step (selector : NodeData → num) (top : option NodeData * num) (n : NodeData) : option NodeData * num :=
  let v := selector n in
  if negb (isFinite v) then top else if num_ltb top.2 v then (Some n, v) else top.

Definition getTopNodeBy (nodes : list NodeData) (selector : NodeData → num) : option TopNodeMetric :=
  match foldl (top_step selector) (None, S754_infinity true) nodes with
  | (None, _) => None
  | (Some n, v) => Some {| node := n; value := math_max (num_of_Z 0) v |}
  end.

(** ** Percentages and thresholds are in range *)

Lemma clampPercentage_range v :
  num_leb (num_of_Z 0) (clampPercentage v) = true ∧ num_leb (clampPercentage v) (num_of_Z 100) = true.
Proof.
  unfold clampPercentage. destruct (isFinite v) eqn:Hv; cbn [negb]; [|done].
  apply clamp_bounds; [by apply finite_not_nan|done..].
Qed.

Lemma clampThreshold_range v :
  num_leb (num_of_Z 1) (clampThreshold v (num_of_Z 80)) = true ∧
  num_leb (clampThreshold v (num_of_Z 80)) (num_of_Z 100) = true.
Proof.
  unfold clampThreshold. destruct (isFinite v) eqn:Hv; cbn [negb]; [|done].
  apply clamp_bounds; [by apply finite_not_nan|done..].
Qed.

(** ** The top node *)

(** The first of the nodes with the largest finite value. *)
Definition is_top (selector : NodeData → num) (l : list NodeData) (top : option NodeData * num) : Prop :=
  match top.1 with
  | None => top.2 = S754_infinity true ∧ ∀ n, n ∈ l → isFinite (selector n) = false
  | Some n => top.2 = selector n ∧ isFinite (selector n) = true ∧
      ∃ before after, l = before ++ n :: after ∧
        (∀ m, m ∈ before → isFinite (selector m) = true → num_ltb (selector m) (selector n) = true) ∧
        (∀ m, m ∈ after → isFinite (selector m) = true → num_leb (selector m) (selector n) = true)
  end.

Lemma infinity_below x : isFinite x = true → num_ltb (S754_infinity true) x = true.
Proof. by destruct x as [s|s| |[] m e]. Qed.

Lemma top_step_top selector l top n :
  is_top selector l top → is_top selector (l ++ [n]) (top_step selector top n).
Proof.
  unfold is_top, top_step. destruct top as [[m|] v]; cbn [fst snd].
  - intros (-> & Hm & before & after & -> & Hb & Ha).
    destruct (isFinite (selector n)) eqn:Hn; cbn [negb].
    + destruct (num_ltb (selector m) (selector n)) eqn:Hlt; cbn [fst snd].
      * split_and!; [done|done|]. exists (before ++ m :: after), []. split_and!; [done| |set_solver].
        intros k [Hk|[->|Hk]%elem_of_cons]%elem_of_app Hf; [|done|].
        -- eapply num_leb_ltb_trans; [apply num_ltb_leb; by apply Hb|done].
        -- eapply num_leb_ltb_trans; [by apply Ha|done].
      * split_and!; [done|done|]. exists before, (after ++ [n]). split_and!; [by rewrite <-app_assoc|done|].
        intros k [Hk| ->%list_elem_of_singleton]%elem_of_app Hf; [by apply Ha|].
        apply num_not_ltb; [by apply finite_not_nan..|done].
    + split_and!; [done|done|]. exists before, (after ++ [n]). split_and!; [by rewrite <-app_assoc|done|].
      intros k [Hk| ->%list_elem_of_singleton]%elem_of_app Hf; [by apply Ha|congruence].
  - intros [-> Hl]. destruct (isFinite (selector n)) eqn:Hn; cbn [negb].
    + rewrite infinity_below by done. cbn [fst snd]. split_and!; [done|done|]. exists l, [].
      split_and!; [done| |set_solver]. intros k Hk Hf. rewrite (Hl k Hk) in Hf. done.
    + cbn [fst snd]. split; [done|]. intros k [Hk| ->%list_elem_of_singleton]%elem_of_app; [by apply Hl|done].
Qed.

Lemma fold_top selector l : is_top selector l (foldl (top_step selector) (None, S754_infinity true) l).
Proof.
  induction l as [|n l IH] using rev_ind; [cbn; by split; [|set_solver]|].
  rewrite foldl_app. by apply top_step_top.
Qed.

(** The node with the largest value, the first of several, among those where it
    was measured. *)
Lemma top_node_exact nodes selector :
  match getTopNodeBy nodes selector with
  | None => ∀ n, n ∈ nodes → isFinite (selector n) = false
  | Some m => value m = math_max (num_of_Z 0) (selector (node m)) ∧ is_top selector nodes (Some (node m), selector (node m))
  end.
Proof.
  unfold getTopNodeBy. pose proof (fold_top selector nodes) as Ht.
  destruct (foldl _ _ nodes) as [[n|] v]; [|apply Ht]. cbn [node value].
  pose proof Ht as (Hv & _). cbn [snd] in Hv. subst v. split; [done|exact Ht].
Qed.

End NodeMetrics.
