(* ===== verification/RegionHelper.v ===== *)
(** * Regions ([glass-shared/utils/regionHelper.ts])

    The table of the 258 regions with their flag emoji, names, code and
    aliases, in chunks of twenty-five entries, and the functions that look
    regions up.

    [emojiToRegionMap\[key\]] is a property access on a plain object, so it also
    finds what the object inherits from [Object.prototype]; such a hit is an
    entry whose fields are [undefined].  [Inherited] stands for it, and a
    method call on one of its fields throws ([None]). *)

From S2P Require Import Prelude JsMap JsString.

Open Scope Z_scope.

Module RegionHelper.

Record RegionInfo := mkInfo {
  en : jsstring;
  zh : jsstring;
  code : jsstring;
  aliases : list jsstring;
}.

Definition region (emoji e z c : string) (a : list string) : jsstring * RegionInfo :=
  (js emoji, mkInfo (js e) (js z) (js c) (js <$> a)).

Definition regions_1 : jsmap jsstring RegionInfo := [
  region "🇭🇰" "Hong Kong" "香港" "HK"
    ["hk"; "hongkong"; "hong kong"; "香港"; "HK"];
  region "🇨🇳" "China" "中国" "CN"
    ["cn"; "china"; "中国"; "中华人民共和国"; "prc"; "CN"];
  region "🇺🇸" "United States" "美国" "US"
    ["us"; "usa"; "united states"; "america"; "美国"; "美利坚"; "US"; "USA"];
  region "🇯🇵" "Japan" "日本" "JP"
    ["jp"; "japan"; "日本"; "JP"];
  region "🇰🇷" "South Korea" "韩国" "KR"
    ["kr"; "korea"; "south korea"; "韩国"; "南韩"; "KR"];
  region "🇸🇬" "Singapore" "新加坡" "SG"
    ["sg"; "singapore"; "新加坡"; "SG"];
  region "🇹🇼" "Taiwan" "台湾" "TW"
    ["tw"; "taiwan"; "台湾"; "台灣"; "TW"];
  region "🇬🇧" "United Kingdom" "英国" "GB"
    ["gb"; "uk"; "united kingdom"; "britain"; "英国"; "英國"; "GB"; "UK"];
  region "🇩🇪" "Germany" "德国" "DE"
    ["de"; "germany"; "deutschland"; "德国"; "德國"; "DE"];
  region "🇫🇷" "France" "法国" "FR"
    ["fr"; "france"; "法国"; "法國"; "FR"];
  region "🇨🇦" "Canada" "加拿大" "CA"
    ["ca"; "canada"; "加拿大"; "CA"];
  region "🇦🇺" "Australia" "澳大利亚" "AU"
    ["au"; "australia"; "澳大利亚"; "澳洲"; "AU"];
  region "🇷🇺" "Russia" "俄罗斯" "RU"
    ["ru"; "russia"; "俄罗斯"; "俄國"; "RU"];
  region "🇮🇳" "India" "印度" "IN"
    ["in"; "india"; "印度"; "IN"];
  region "🇧🇷" "Brazil" "巴西" "BR"
    ["br"; "brazil"; "巴西"; "BR"];
  region "🇳🇱" "Netherlands" "荷兰" "NL"
    ["nl"; "netherlands"; "holland"; "荷兰"; "荷蘭"; "NL"];
  region "🇮🇹" "Italy" "意大利" "IT"
    ["it"; "italy"; "意大利"; "IT"];
  region "🇪🇸" "Spain" "西班牙" "ES"
    ["es"; "spain"; "西班牙"; "ES"];
  region "🇸🇪" "Sweden" "瑞典" "SE"
    ["se"; "sweden"; "瑞典"; "SE"];
  region "🇳🇴" "Norway" "挪威" "NO"
    ["no"; "norway"; "挪威"; "NO"];
  region "🇫🇮" "Finland" "芬兰" "FI"
    ["fi"; "finland"; "芬兰"; "芬蘭"; "FI"];
  region "🇨🇭" "Switzerland" "瑞士" "CH"
    ["ch"; "switzerland"; "瑞士"; "CH"];
  region "🇦🇹" "Austria" "奥地利" "AT"
    ["at"; "austria"; "奥地利"; "奧地利"; "AT"];
  region "🇧🇪" "Belgium" "比利时" "BE"
    ["be"; "belgium"; "比利时"; "比利時"; "BE"];
  region "🇵🇹" "Portugal" "葡萄牙" "PT"
    ["pt"; "portugal"; "葡萄牙"; "PT"]]%string.

Definition regions_2 : jsmap jsstring RegionInfo := [
  region "🇬🇷" "Greece" "希腊" "GR"
    ["gr"; "greece"; "希腊"; "希臘"; "GR"];
  region "🇹🇷" "Turkey" "土耳其" "TR"
    ["tr"; "turkey"; "土耳其"; "TR"];
  region "🇵🇱" "Poland" "波兰" "PL"
    ["pl"; "poland"; "波兰"; "波蘭"; "PL"];
  region "🇨🇿" "Czech Republic" "捷克" "CZ"
    ["cz"; "czech"; "czech republic"; "捷克"; "CZ"];
  region "🇭🇺" "Hungary" "匈牙利" "HU"
    ["hu"; "hungary"; "匈牙利"; "HU"];
  region "🇷🇴" "Romania" "罗马尼亚" "RO"
    ["ro"; "romania"; "罗马尼亚"; "羅馬尼亞"; "RO"];
  region "🇧🇬" "Bulgaria" "保加利亚" "BG"
    ["bg"; "bulgaria"; "保加利亚"; "保加利亞"; "BG"];
  region "🇭🇷" "Croatia" "克罗地亚" "HR"
    ["hr"; "croatia"; "克罗地亚"; "克羅地亞"; "HR"];
  region "🇸🇮" "Slovenia" "斯洛文尼亚" "SI"
    ["si"; "slovenia"; "斯洛文尼亚"; "斯洛文尼亞"; "SI"];
  region "🇸🇰" "Slovakia" "斯洛伐克" "SK"
    ["sk"; "slovakia"; "斯洛伐克"; "SK"];
  region "🇱🇻" "Latvia" "拉脱维亚" "LV"
    ["lv"; "latvia"; "拉脱维亚"; "拉脫維亞"; "LV"];
  region "🇱🇹" "Lithuania" "立陶宛" "LT"
    ["lt"; "lithuania"; "立陶宛"; "LT"];
  region "🇪🇪" "Estonia" "爱沙尼亚" "EE"
    ["ee"; "estonia"; "爱沙尼亚"; "愛沙尼亞"; "EE"];
  region "🇲🇽" "Mexico" "墨西哥" "MX"
    ["mx"; "mexico"; "墨西哥"; "MX"];
  region "🇦🇷" "Argentina" "阿根廷" "AR"
    ["ar"; "argentina"; "阿根廷"; "AR"];
  region "🇨🇱" "Chile" "智利" "CL"
    ["cl"; "chile"; "智利"; "CL"];
  region "🇨🇴" "Colombia" "哥伦比亚" "CO"
    ["co"; "colombia"; "哥伦比亚"; "哥倫比亞"; "CO"];
  region "🇵🇪" "Peru" "秘鲁" "PE"
    ["pe"; "peru"; "秘鲁"; "秘魯"; "PE"];
  region "🇻🇪" "Venezuela" "委内瑞拉" "VE"
    ["ve"; "venezuela"; "委内瑞拉"; "委內瑞拉"; "VE"];
  region "🇺🇾" "Uruguay" "乌拉圭" "UY"
    ["uy"; "uruguay"; "乌拉圭"; "烏拉圭"; "UY"];
  region "🇪🇨" "Ecuador" "厄瓜多尔" "EC"
    ["ec"; "ecuador"; "厄瓜多尔"; "厄瓜多爾"; "EC"];
  region "🇧🇴" "Bolivia" "玻利维亚" "BO"
    ["bo"; "bolivia"; "玻利维亚"; "玻利維亞"; "BO"];
  region "🇵🇾" "Paraguay" "巴拉圭" "PY"
    ["py"; "paraguay"; "巴拉圭"; "PY"];
  region "🇬🇾" "Guyana" "圭亚那" "GY"
    ["gy"; "guyana"; "圭亚那"; "圭亞那"; "GY"];
  region "🇸🇷" "Suriname" "苏里南" "SR"
    ["sr"; "suriname"; "苏里南"; "蘇里南"; "SR"]]%string.

Definition regions_3 : jsmap jsstring RegionInfo := [
  region "🇫🇰" "Falkland Islands" "福克兰群岛" "FK"
    ["fk"; "falkland"; "福克兰"; "福克蘭"; "FK"];
  region "🇬🇫" "French Guiana" "法属圭亚那" "GF"
    ["gf"; "french guiana"; "法属圭亚那"; "法屬圭亞那"; "GF"];
  region "🇵🇦" "Panama" "巴拿马" "PA"
    ["pa"; "panama"; "巴拿马"; "巴拿馬"; "PA"];
  region "🇨🇷" "Costa Rica" "哥斯达黎加" "CR"
    ["cr"; "costa rica"; "哥斯达黎加"; "哥斯達黎加"; "CR"];
  region "🇳🇮" "Nicaragua" "尼加拉瓜" "NI"
    ["ni"; "nicaragua"; "尼加拉瓜"; "NI"];
  region "🇭🇳" "Honduras" "洪都拉斯" "HN"
    ["hn"; "honduras"; "洪都拉斯"; "HN"];
  region "🇬🇹" "Guatemala" "危地马拉" "GT"
    ["gt"; "guatemala"; "危地马拉"; "危地馬拉"; "GT"];
  region "🇧🇿" "Belize" "伯利兹" "BZ"
    ["bz"; "belize"; "伯利兹"; "伯利茲"; "BZ"];
  region "🇸🇻" "El Salvador" "萨尔瓦多" "SV"
    ["sv"; "el salvador"; "萨尔瓦多"; "薩爾瓦多"; "SV"];
  region "🇯🇲" "Jamaica" "牙买加" "JM"
    ["jm"; "jamaica"; "牙买加"; "牙買加"; "JM"];
  region "🇨🇺" "Cuba" "古巴" "CU"
    ["cu"; "cuba"; "古巴"; "CU"];
  region "🇩🇴" "Dominican Republic" "多明尼加" "DO"
    ["do"; "dominican"; "多明尼加"; "DO"];
  region "🇭🇹" "Haiti" "海地" "HT"
    ["ht"; "haiti"; "海地"; "HT"];
  region "🇧🇸" "Bahamas" "巴哈马" "BS"
    ["bs"; "bahamas"; "巴哈马"; "巴哈馬"; "BS"];
  region "🇧🇧" "Barbados" "巴巴多斯" "BB"
    ["bb"; "barbados"; "巴巴多斯"; "BB"];
  region "🇹🇹" "Trinidad and Tobago" "特立尼达和多巴哥" "TT"
    ["tt"; "trinidad"; "特立尼达"; "特立尼達"; "TT"];
  region "🇵🇭" "Philippines" "菲律宾" "PH"
    ["ph"; "philippines"; "菲律宾"; "菲律賓"; "PH"];
  region "🇹🇭" "Thailand" "泰国" "TH"
    ["th"; "thailand"; "泰国"; "泰國"; "TH"];
  region "🇻🇳" "Vietnam" "越南" "VN"
    ["vn"; "vietnam"; "越南"; "VN"];
  region "🇲🇾" "Malaysia" "马来西亚" "MY"
    ["my"; "malaysia"; "马来西亚"; "馬來西亞"; "MY"];
  region "🇮🇩" "Indonesia" "印度尼西亚" "ID"
    ["id"; "indonesia"; "印度尼西亚"; "印尼"; "ID"];
  region "🇱🇦" "Laos" "老挝" "LA"
    ["la"; "laos"; "老挝"; "老撾"; "LA"];
  region "🇰🇭" "Cambodia" "柬埔寨" "KH"
    ["kh"; "cambodia"; "柬埔寨"; "KH"];
  region "🇲🇲" "Myanmar" "缅甸" "MM"
    ["mm"; "myanmar"; "burma"; "缅甸"; "緬甸"; "MM"];
  region "🇧🇳" "Brunei" "文莱" "BN"
    ["bn"; "brunei"; "文莱"; "汶萊"; "BN"]]%string.

Definition regions_4 : jsmap jsstring RegionInfo := [
  region "🇪🇬" "Egypt" "埃及" "EG"
    ["eg"; "egypt"; "埃及"; "EG"];
  region "🇿🇦" "South Africa" "南非" "ZA"
    ["za"; "south africa"; "南非"; "ZA"];
  region "🇳🇬" "Nigeria" "尼日利亚" "NG"
    ["ng"; "nigeria"; "尼日利亚"; "尼日利亞"; "NG"];
  region "🇰🇪" "Kenya" "肯尼亚" "KE"
    ["ke"; "kenya"; "肯尼亚"; "肯亞"; "KE"];
  region "🇪🇹" "Ethiopia" "埃塞俄比亚" "ET"
    ["et"; "ethiopia"; "埃塞俄比亚"; "埃塞俄比亞"; "ET"];
  region "🇬🇭" "Ghana" "加纳" "GH"
    ["gh"; "ghana"; "加纳"; "迦納"; "GH"];
  region "🇺🇬" "Uganda" "乌干达" "UG"
    ["ug"; "uganda"; "乌干达"; "烏干達"; "UG"];
  region "🇹🇿" "Tanzania" "坦桑尼亚" "TZ"
    ["tz"; "tanzania"; "坦桑尼亚"; "坦尚尼亞"; "TZ"];
  region "🇷🇼" "Rwanda" "卢旺达" "RW"
    ["rw"; "rwanda"; "卢旺达"; "盧旺達"; "RW"];
  region "🇿🇼" "Zimbabwe" "津巴布韦" "ZW"
    ["zw"; "zimbabwe"; "津巴布韦"; "辛巴威"; "ZW"];
  region "🇿🇲" "Zambia" "赞比亚" "ZM"
    ["zm"; "zambia"; "赞比亚"; "尚比亞"; "ZM"];
  region "🇧🇼" "Botswana" "博茨瓦纳" "BW"
    ["bw"; "botswana"; "博茨瓦纳"; "波札那"; "BW"];
  region "🇳🇦" "Namibia" "纳米比亚" "NA"
    ["na"; "namibia"; "纳米比亚"; "納米比亞"; "NA"];
  region "🇲🇦" "Morocco" "摩洛哥" "MA"
    ["ma"; "morocco"; "摩洛哥"; "MA"];
  region "🇩🇿" "Algeria" "阿尔及利亚" "DZ"
    ["dz"; "algeria"; "阿尔及利亚"; "阿爾及利亞"; "DZ"];
  region "🇹🇳" "Tunisia" "突尼斯" "TN"
    ["tn"; "tunisia"; "突尼斯"; "TN"];
  region "🇱🇾" "Libya" "利比亚" "LY"
    ["ly"; "libya"; "利比亚"; "利比亞"; "LY"];
  region "🇸🇩" "Sudan" "苏丹" "SD"
    ["sd"; "sudan"; "苏丹"; "蘇丹"; "SD"];
  region "🇸🇸" "South Sudan" "南苏丹" "SS"
    ["ss"; "south sudan"; "南苏丹"; "南蘇丹"; "SS"];
  region "🇨🇩" "Democratic Republic of Congo" "刚果民主共和国" "CD"
    ["cd"; "congo"; "drc"; "刚果"; "剛果"; "CD"];
  region "🇨🇬" "Republic of Congo" "刚果共和国" "CG"
    ["cg"; "congo"; "刚果"; "剛果"; "CG"];
  region "🇨🇫" "Central African Republic" "中非共和国" "CF"
    ["cf"; "central african"; "中非"; "CF"];
  region "🇨🇲" "Cameroon" "喀麦隆" "CM"
    ["cm"; "cameroon"; "喀麦隆"; "喀麥隆"; "CM"];
  region "🇹🇩" "Chad" "乍得" "TD"
    ["td"; "chad"; "乍得"; "TD"];
  region "🇳🇪" "Niger" "尼日尔" "NE"
    ["ne"; "niger"; "尼日尔"; "尼日爾"; "NE"]]%string.

Definition regions_5 : jsmap jsstring RegionInfo := [
  region "🇲🇱" "Mali" "马里" "ML"
    ["ml"; "mali"; "马里"; "馬利"; "ML"];
  region "🇧🇫" "Burkina Faso" "布基纳法索" "BF"
    ["bf"; "burkina"; "布基纳法索"; "布吉納法索"; "BF"];
  region "🇸🇳" "Senegal" "塞内加尔" "SN"
    ["sn"; "senegal"; "塞内加尔"; "塞內加爾"; "SN"];
  region "🇬🇲" "Gambia" "冈比亚" "GM"
    ["gm"; "gambia"; "冈比亚"; "甘比亞"; "GM"];
  region "🇬🇼" "Guinea-Bissau" "几内亚比绍" "GW"
    ["gw"; "guinea-bissau"; "几内亚比绍"; "幾內亞比索"; "GW"];
  region "🇬🇳" "Guinea" "几内亚" "GN"
    ["gn"; "guinea"; "几内亚"; "幾內亞"; "GN"];
  region "🇸🇱" "Sierra Leone" "塞拉利昂" "SL"
    ["sl"; "sierra leone"; "塞拉利昂"; "SL"];
  region "🇱🇷" "Liberia" "利比里亚" "LR"
    ["lr"; "liberia"; "利比里亚"; "賴比瑞亞"; "LR"];
  region "🇨🇮" "Ivory Coast" "科特迪瓦" "CI"
    ["ci"; "ivory coast"; "科特迪瓦"; "象牙海岸"; "CI"];
  region "🇹🇬" "Togo" "多哥" "TG"
    ["tg"; "togo"; "多哥"; "TG"];
  region "🇧🇯" "Benin" "贝宁" "BJ"
    ["bj"; "benin"; "贝宁"; "貝寧"; "BJ"];
  region "🇦🇨" "AC" "AC" "AC"
    ["ac"; "AC"];
  region "🇦🇩" "AD" "AD" "AD"
    ["ad"; "AD"];
  region "🇦🇪" "United Arab Emirates" "阿联酋" "AE"
    ["ae"; "AE"; "united arab emirates"; "阿联酋"];
  region "🇦🇫" "Afghanistan" "阿富汗" "AF"
    ["af"; "AF"; "afghanistan"; "阿富汗"];
  region "🇦🇬" "Antigua and Barbuda" "安提瓜和巴布达" "AG"
    ["ag"; "AG"; "antigua and barbuda"; "安提瓜和巴布达"];
  region "🇦🇮" "Anguilla" "安圭拉" "AI"
    ["ai"; "AI"; "anguilla"; "安圭拉"];
  region "🇦🇱" "Albania" "阿尔巴尼亚" "AL"
    ["al"; "AL"; "albania"; "阿尔巴尼亚"];
  region "🇦🇲" "Armenia" "亚美尼亚" "AM"
    ["am"; "AM"; "armenia"; "亚美尼亚"];
  region "🇦🇴" "Angola" "安哥拉" "AO"
    ["ao"; "AO"; "angola"; "安哥拉"];
  region "🇦🇶" "Antarctica" "南极洲" "AQ"
    ["aq"; "AQ"; "antarctica"; "南极洲"];
  region "🇦🇸" "American Samoa" "美属萨摩亚" "AS"
    ["as"; "AS"; "american samoa"; "美属萨摩亚"];
  region "🇦🇼" "Aruba" "阿鲁巴" "AW"
    ["aw"; "AW"; "aruba"; "阿鲁巴"];
  region "🇦🇽" "Åland Islands" "奥兰群岛" "AX"
    ["ax"; "AX"; "åland islands"; "奥兰群岛"];
  region "🇦🇿" "Azerbaijan" "阿塞拜疆" "AZ"
    ["az"; "AZ"; "azerbaijan"; "阿塞拜疆"]]%string.

Definition regions_6 : jsmap jsstring RegionInfo := [
  region "🇧🇦" "Bosnia and Herzegovina" "波黑" "BA"
    ["ba"; "BA"; "bosnia and herzegovina"; "波黑"];
  region "🇧🇩" "Bangladesh" "孟加拉国" "BD"
    ["bd"; "BD"; "bangladesh"; "孟加拉国"];
  region "🇧🇭" "Bahrain" "巴林" "BH"
    ["bh"; "BH"; "bahrain"; "巴林"];
  region "🇧🇮" "Burundi" "布隆迪" "BI"
    ["bi"; "BI"; "burundi"; "布隆迪"];
  region "🇧🇱" "Saint Barthélemy" "圣巴泰勒米" "BL"
    ["bl"; "BL"; "saint barthélemy"; "圣巴泰勒米"];
  region "🇧🇲" "Bermuda" "百慕大" "BM"
    ["bm"; "BM"; "bermuda"; "百慕大"];
  region "🇧🇶" "Caribbean Netherlands" "荷属加勒比" "BQ"
    ["bq"; "BQ"; "caribbean netherlands"; "荷属加勒比"];
  region "🇧🇹" "Bhutan" "不丹" "BT"
    ["bt"; "BT"; "bhutan"; "不丹"];
  region "🇧🇻" "Bouvet Island" "布韦岛" "BV"
    ["bv"; "BV"; "bouvet island"; "布韦岛"];
  region "🇧🇾" "Belarus" "白俄罗斯" "BY"
    ["by"; "BY"; "belarus"; "白俄罗斯"];
  region "🇨🇨" "Cocos Islands" "科科斯群岛" "CC"
    ["cc"; "CC"; "cocos islands"; "科科斯群岛"];
  region "🇨🇰" "Cook Islands" "库克群岛" "CK"
    ["ck"; "CK"; "cook islands"; "库克群岛"];
  region "🇨🇵" "Clipperton Island" "克利珀顿岛" "CP"
    ["cp"; "CP"; "clipperton island"; "克利珀顿岛"];
  region "🇨🇻" "Cape Verde" "佛得角" "CV"
    ["cv"; "CV"; "cape verde"; "佛得角"];
  region "🇨🇼" "Curaçao" "库拉索" "CW"
    ["cw"; "CW"; "curaçao"; "库拉索"];
  region "🇨🇽" "Christmas Island" "圣诞岛" "CX"
    ["cx"; "CX"; "christmas island"; "圣诞岛"];
  region "🇨🇾" "Cyprus" "塞浦路斯" "CY"
    ["cy"; "CY"; "cyprus"; "塞浦路斯"];
  region "🇩🇬" "Diego Garcia" "迪戈加西亚" "DG"
    ["dg"; "DG"; "diego garcia"; "迪戈加西亚"];
  region "🇩🇯" "Djibouti" "吉布提" "DJ"
    ["dj"; "DJ"; "djibouti"; "吉布提"];
  region "🇩🇰" "Denmark" "丹麦" "DK"
    ["dk"; "DK"; "denmark"; "丹麦"];
  region "🇩🇲" "Dominica" "多米尼克" "DM"
    ["dm"; "DM"; "dominica"; "多米尼克"];
  region "🇪🇦" "Ceuta and Melilla" "休达和梅利利亚" "EA"
    ["ea"; "EA"; "ceuta and melilla"; "休达和梅利利亚"];
  region "🇪🇭" "Western Sahara" "西撒哈拉" "EH"
    ["eh"; "EH"; "western sahara"; "西撒哈拉"];
  region "🇪🇷" "Eritrea" "厄立特里亚" "ER"
    ["er"; "ER"; "eritrea"; "厄立特里亚"];
  region "🇪🇺" "European Union" "欧盟" "EU"
    ["eu"; "EU"; "european union"; "欧盟"]]%string.

Definition regions_7 : jsmap jsstring RegionInfo := [
  region "🇫🇯" "Fiji" "斐济" "FJ"
    ["fj"; "FJ"; "fiji"; "斐济"];
  region "🇫🇲" "Micronesia" "密克罗尼西亚" "FM"
    ["fm"; "FM"; "micronesia"; "密克罗尼西亚"];
  region "🇫🇴" "Faroe Islands" "法罗群岛" "FO"
    ["fo"; "FO"; "faroe islands"; "法罗群岛"];
  region "🇬🇦" "Gabon" "加蓬" "GA"
    ["ga"; "GA"; "gabon"; "加蓬"];
  region "🇬🇩" "Grenada" "格林纳达" "GD"
    ["gd"; "GD"; "grenada"; "格林纳达"];
  region "🇬🇪" "Georgia" "格鲁吉亚" "GE"
    ["ge"; "GE"; "georgia"; "格鲁吉亚"];
  region "🇬🇬" "Guernsey" "根西岛" "GG"
    ["gg"; "GG"; "guernsey"; "根西岛"];
  region "🇬🇮" "Gibraltar" "直布罗陀" "GI"
    ["gi"; "GI"; "gibraltar"; "直布罗陀"];
  region "🇬🇱" "Greenland" "格陵兰" "GL"
    ["gl"; "GL"; "greenland"; "格陵兰"];
  region "🇬🇵" "Guadeloupe" "瓜德罗普" "GP"
    ["gp"; "GP"; "guadeloupe"; "瓜德罗普"];
  region "🇬🇶" "Equatorial Guinea" "赤道几内亚" "GQ"
    ["gq"; "GQ"; "equatorial guinea"; "赤道几内亚"];
  region "🇬🇸" "South Georgia" "南乔治亚" "GS"
    ["gs"; "GS"; "south georgia"; "南乔治亚"];
  region "🇬🇺" "Guam" "关岛" "GU"
    ["gu"; "GU"; "guam"; "关岛"];
  region "🇭🇲" "Heard Island" "赫德岛" "HM"
    ["hm"; "HM"; "heard island"; "赫德岛"];
  region "🇮🇨" "Canary Islands" "加那利群岛" "IC"
    ["ic"; "IC"; "canary islands"; "加那利群岛"];
  region "🇮🇪" "Ireland" "爱尔兰" "IE"
    ["ie"; "IE"; "ireland"; "爱尔兰"];
  region "🇮🇱" "Israel" "以色列" "IL"
    ["il"; "IL"; "israel"; "以色列"];
  region "🇮🇲" "Isle of Man" "马恩岛" "IM"
    ["im"; "IM"; "isle of man"; "马恩岛"];
  region "🇮🇴" "British Indian Ocean Territory" "英属印度洋领地" "IO"
    ["io"; "IO"; "british indian ocean territory"; "英属印度洋领地"];
  region "🇮🇶" "Iraq" "伊拉克" "IQ"
    ["iq"; "IQ"; "iraq"; "伊拉克"];
  region "🇮🇷" "Iran" "伊朗" "IR"
    ["ir"; "IR"; "iran"; "伊朗"];
  region "🇮🇸" "Iceland" "冰岛" "IS"
    ["is"; "IS"; "iceland"; "冰岛"];
  region "🇯🇪" "Jersey" "泽西岛" "JE"
    ["je"; "JE"; "jersey"; "泽西岛"];
  region "🇯🇴" "Jordan" "约旦" "JO"
    ["jo"; "JO"; "jordan"; "约旦"];
  region "🇰🇬" "Kyrgyzstan" "吉尔吉斯斯坦" "KG"
    ["kg"; "KG"; "kyrgyzstan"; "吉尔吉斯斯坦"]]%string.

Definition regions_8 : jsmap jsstring RegionInfo := [
  region "🇰🇮" "Kiribati" "基里巴斯" "KI"
    ["ki"; "KI"; "kiribati"; "基里巴斯"];
  region "🇰🇲" "Comoros" "科摩罗" "KM"
    ["km"; "KM"; "comoros"; "科摩罗"];
  region "🇰🇳" "Saint Kitts and Nevis" "圣基茨和尼维斯" "KN"
    ["kn"; "KN"; "saint kitts and nevis"; "圣基茨和尼维斯"];
  region "🇰🇵" "North Korea" "朝鲜" "KP"
    ["kp"; "KP"; "north korea"; "朝鲜"];
  region "🇰🇼" "Kuwait" "科威特" "KW"
    ["kw"; "KW"; "kuwait"; "科威特"];
  region "🇰🇾" "Cayman Islands" "开曼群岛" "KY"
    ["ky"; "KY"; "cayman islands"; "开曼群岛"];
  region "🇰🇿" "Kazakhstan" "哈萨克斯坦" "KZ"
    ["kz"; "KZ"; "kazakhstan"; "哈萨克斯坦"];
  region "🇱🇧" "Lebanon" "黎巴嫩" "LB"
    ["lb"; "LB"; "lebanon"; "黎巴嫩"];
  region "🇱🇨" "Saint Lucia" "圣卢西亚" "LC"
    ["lc"; "LC"; "saint lucia"; "圣卢西亚"];
  region "🇱🇮" "Liechtenstein" "列支敦士登" "LI"
    ["li"; "LI"; "liechtenstein"; "列支敦士登"];
  region "🇱🇰" "Sri Lanka" "斯里兰卡" "LK"
    ["lk"; "LK"; "sri lanka"; "斯里兰卡"];
  region "🇱🇸" "Lesotho" "莱索托" "LS"
    ["ls"; "LS"; "lesotho"; "莱索托"];
  region "🇱🇺" "Luxembourg" "卢森堡" "LU"
    ["lu"; "LU"; "luxembourg"; "卢森堡"];
  region "🇲🇨" "Monaco" "摩纳哥" "MC"
    ["mc"; "MC"; "monaco"; "摩纳哥"];
  region "🇲🇩" "Moldova" "摩尔多瓦" "MD"
    ["md"; "MD"; "moldova"; "摩尔多瓦"];
  region "🇲🇪" "Montenegro" "黑山" "ME"
    ["me"; "ME"; "montenegro"; "黑山"];
  region "🇲🇫" "Saint Martin" "法属圣马丁" "MF"
    ["mf"; "MF"; "saint martin"; "法属圣马丁"];
  region "🇲🇬" "Madagascar" "马达加斯加" "MG"
    ["mg"; "MG"; "madagascar"; "马达加斯加"];
  region "🇲🇭" "Marshall Islands" "马绍尔群岛" "MH"
    ["mh"; "MH"; "marshall islands"; "马绍尔群岛"];
  region "🇲🇰" "North Macedonia" "北马其顿" "MK"
    ["mk"; "MK"; "north macedonia"; "北马其顿"];
  region "🇲🇳" "Mongolia" "蒙古" "MN"
    ["mn"; "MN"; "mongolia"; "蒙古"];
  region "🇲🇴" "Macau" "澳门" "MO"
    ["mo"; "MO"; "macau"; "澳门"];
  region "🇲🇵" "Northern Mariana Islands" "北马里亚纳群岛" "MP"
    ["mp"; "MP"; "northern mariana islands"; "北马里亚纳群岛"];
  region "🇲🇶" "Martinique" "马提尼克" "MQ"
    ["mq"; "MQ"; "martinique"; "马提尼克"];
  region "🇲🇷" "Mauritania" "毛里塔尼亚" "MR"
    ["mr"; "MR"; "mauritania"; "毛里塔尼亚"]]%string.

Definition regions_9 : jsmap jsstring RegionInfo := [
  region "🇲🇸" "Montserrat" "蒙特塞拉特" "MS"
    ["ms"; "MS"; "montserrat"; "蒙特塞拉特"];
  region "🇲🇹" "Malta" "马耳他" "MT"
    ["mt"; "MT"; "malta"; "马耳他"];
  region "🇲🇺" "Mauritius" "毛里求斯" "MU"
    ["mu"; "MU"; "mauritius"; "毛里求斯"];
  region "🇲🇻" "Maldives" "马尔代夫" "MV"
    ["mv"; "MV"; "maldives"; "马尔代夫"];
  region "🇲🇼" "Malawi" "马拉维" "MW"
    ["mw"; "MW"; "malawi"; "马拉维"];
  region "🇲🇿" "Mozambique" "莫桑比克" "MZ"
    ["mz"; "MZ"; "mozambique"; "莫桑比克"];
  region "🇳🇨" "New Caledonia" "新喀里多尼亚" "NC"
    ["nc"; "NC"; "new caledonia"; "新喀里多尼亚"];
  region "🇳🇫" "Norfolk Island" "诺福克岛" "NF"
    ["nf"; "NF"; "norfolk island"; "诺福克岛"];
  region "🇳🇵" "Nepal" "尼泊尔" "NP"
    ["np"; "NP"; "nepal"; "尼泊尔"];
  region "🇳🇷" "Nauru" "瑙鲁" "NR"
    ["nr"; "NR"; "nauru"; "瑙鲁"];
  region "🇳🇺" "Niue" "纽埃" "NU"
    ["nu"; "NU"; "niue"; "纽埃"];
  region "🇳🇿" "New Zealand" "新西兰" "NZ"
    ["nz"; "NZ"; "new zealand"; "新西兰"];
  region "🇴🇲" "Oman" "阿曼" "OM"
    ["om"; "OM"; "oman"; "阿曼"];
  region "🇵🇫" "French Polynesia" "法属波利尼西亚" "PF"
    ["pf"; "PF"; "french polynesia"; "法属波利尼西亚"];
  region "🇵🇬" "Papua New Guinea" "巴布亚新几内亚" "PG"
    ["pg"; "PG"; "papua new guinea"; "巴布亚新几内亚"];
  region "🇵🇰" "Pakistan" "巴基斯坦" "PK"
    ["pk"; "PK"; "pakistan"; "巴基斯坦"];
  region "🇵🇲" "Saint Pierre and Miquelon" "圣皮埃尔和密克隆" "PM"
    ["pm"; "PM"; "saint pierre and miquelon"; "圣皮埃尔和密克隆"];
  region "🇵🇳" "Pitcairn Islands" "皮特凯恩群岛" "PN"
    ["pn"; "PN"; "pitcairn islands"; "皮特凯恩群岛"];
  region "🇵🇷" "Puerto Rico" "波多黎各" "PR"
    ["pr"; "PR"; "puerto rico"; "波多黎各"];
  region "🇵🇸" "Palestine" "巴勒斯坦" "PS"
    ["ps"; "PS"; "palestine"; "巴勒斯坦"];
  region "🇵🇼" "Palau" "帕劳" "PW"
    ["pw"; "PW"; "palau"; "帕劳"];
  region "🇶🇦" "Qatar" "卡塔尔" "QA"
    ["qa"; "QA"; "qatar"; "卡塔尔"];
  region "🇷🇪" "Réunion" "留尼汪" "RE"
    ["re"; "RE"; "réunion"; "留尼汪"];
  region "🇷🇸" "Serbia" "塞尔维亚" "RS"
    ["rs"; "RS"; "serbia"; "塞尔维亚"];
  region "🇸🇦" "Saudi Arabia" "沙特阿拉伯" "SA"
    ["sa"; "SA"; "saudi arabia"; "沙特阿拉伯"]]%string.

Definition regions_10 : jsmap jsstring RegionInfo := [
  region "🇸🇧" "Solomon Islands" "所罗门群岛" "SB"
    ["sb"; "SB"; "solomon islands"; "所罗门群岛"];
  region "🇸🇨" "Seychelles" "塞舌尔" "SC"
    ["sc"; "SC"; "seychelles"; "塞舌尔"];
  region "🇸🇭" "Saint Helena" "圣赫勒拿" "SH"
    ["sh"; "SH"; "saint helena"; "圣赫勒拿"];
  region "🇸🇯" "Svalbard and Jan Mayen" "斯瓦尔巴和扬马延" "SJ"
    ["sj"; "SJ"; "svalbard and jan mayen"; "斯瓦尔巴和扬马延"];
  region "🇸🇲" "San Marino" "圣马力诺" "SM"
    ["sm"; "SM"; "san marino"; "圣马力诺"];
  region "🇸🇴" "Somalia" "索马里" "SO"
    ["so"; "SO"; "somalia"; "索马里"];
  region "🇸🇹" "São Tomé and Príncipe" "圣多美和普林西比" "ST"
    ["st"; "ST"; "são tomé and príncipe"; "圣多美和普林西比"];
  region "🇸🇽" "Sint Maarten" "荷属圣马丁" "SX"
    ["sx"; "SX"; "sint maarten"; "荷属圣马丁"];
  region "🇸🇾" "Syria" "叙利亚" "SY"
    ["sy"; "SY"; "syria"; "叙利亚"];
  region "🇸🇿" "Eswatini" "斯威士兰" "SZ"
    ["sz"; "SZ"; "eswatini"; "斯威士兰"];
  region "🇹🇦" "Tristan da Cunha" "特里斯坦 - 达库尼亚" "TA"
    ["ta"; "TA"; "tristan da cunha"; "特里斯坦 - 达库尼亚"];
  region "🇹🇨" "Turks and Caicos Islands" "特克斯和凯科斯群岛" "TC"
    ["tc"; "TC"; "turks and caicos islands"; "特克斯和凯科斯群岛"];
  region "🇹🇫" "French Southern Territories" "法属南部领地" "TF"
    ["tf"; "TF"; "french southern territories"; "法属南部领地"];
  region "🇹🇯" "Tajikistan" "塔吉克斯坦" "TJ"
    ["tj"; "TJ"; "tajikistan"; "塔吉克斯坦"];
  region "🇹🇰" "Tokelau" "托克劳" "TK"
    ["tk"; "TK"; "tokelau"; "托克劳"];
  region "🇹🇱" "Timor-Leste" "东帝汶" "TL"
    ["tl"; "TL"; "timor-leste"; "东帝汶"];
  region "🇹🇲" "Turkmenistan" "土库曼斯坦" "TM"
    ["tm"; "TM"; "turkmenistan"; "土库曼斯坦"];
  region "🇹🇴" "Tonga" "汤加" "TO"
    ["to"; "TO"; "tonga"; "汤加"];
  region "🇹🇻" "Tuvalu" "图瓦卢" "TV"
    ["tv"; "TV"; "tuvalu"; "图瓦卢"];
  region "🇺🇦" "Ukraine" "乌克兰" "UA"
    ["ua"; "UA"; "ukraine"; "乌克兰"];
  region "🇺🇲" "U.S. Minor Outlying Islands" "美国本土外小岛屿" "UM"
    ["um"; "UM"; "u.s. minor outlying islands"; "美国本土外小岛屿"];
  region "🇺🇳" "United Nations" "联合国" "UN"
    ["un"; "UN"; "united nations"; "联合国"];
  region "🇺🇿" "Uzbekistan" "乌兹别克斯坦" "UZ"
    ["uz"; "UZ"; "uzbekistan"; "乌兹别克斯坦"];
  region "🇻🇦" "Vatican City" "梵蒂冈" "VA"
    ["va"; "VA"; "vatican city"; "梵蒂冈"];
  region "🇻🇨" "Saint Vincent and the Grenadines" "圣文森特和格林纳丁斯" "VC"
    ["vc"; "VC"; "saint vincent and the grenadines"; "圣文森特和格林纳丁斯"]]%string.

Definition regions_11 : jsmap jsstring RegionInfo := [
  region "🇻🇬" "British Virgin Islands" "英属维尔京群岛" "VG"
    ["vg"; "VG"; "british virgin islands"; "英属维尔京群岛"];
  region "🇻🇮" "U.S. Virgin Islands" "美属维尔京群岛" "VI"
    ["vi"; "VI"; "u.s. virgin islands"; "美属维尔京群岛"];
  region "🇻🇺" "Vanuatu" "瓦努阿图" "VU"
    ["vu"; "VU"; "vanuatu"; "瓦努阿图"];
  region "🇼🇫" "Wallis and Futuna" "瓦利斯和富图纳" "WF"
    ["wf"; "WF"; "wallis and futuna"; "瓦利斯和富图纳"];
  region "🇼🇸" "Samoa" "萨摩亚" "WS"
    ["ws"; "WS"; "samoa"; "萨摩亚"];
  region "🇽🇰" "Kosovo" "科索沃" "XK"
    ["xk"; "XK"; "kosovo"; "科索沃"];
  region "🇾🇪" "Yemen" "也门" "YE"
    ["ye"; "YE"; "yemen"; "也门"];
  region "🇾🇹" "Mayotte" "马约特" "YT"
    ["yt"; "YT"; "mayotte"; "马约特"]]%string.
Definition emojiToRegionMap : jsmap jsstring RegionInfo :=
  regions_1 ++ regions_2 ++ regions_3 ++ regions_4 ++ regions_5 ++ regions_6 ++ regions_7
  ++ regions_8 ++ regions_9 ++ regions_10 ++ regions_11.

(** ** Functions *)

Record RegionEntry := mkEntry { emoji : jsstring; info : RegionInfo }.

Inductive entry :=
  | Found (e : RegionEntry)
  | Inherited (key : jsstring)
  | NotFound.

(** [\p{Script=Han}] *)
Definition han_ranges : list (Z * Z) :=
  [(11904, 11929); (11931, 12019); (12032, 12245); (12293, 12293); (12295, 12295); (12321, 12329);
   (12344, 12347); (13312, 19903); (19968, 40959); (63744, 64109); (64112, 64217); (94178, 94179);
   (94192, 94193); (131072, 173791); (173824, 177977); (177984, 178205); (178208, 183969);
   (183984, 191456); (191472, 192093); (194560, 195101); (196608, 201546); (201552, 205743)].
Definition is_han (c : Z) : bool := some (λ r, bool_decide (r.1 ≤ c ≤ r.2)) han_ranges.

(** [REGION_FLAG_REGEX]: the pairs of regional indicators, from left to right. *)
Definition is_indicator (c : Z) : bool := bool_decide (127456 ≤ c ≤ 127487).

Fixpoint match_flags (l : list Z) : list jsstring :=
  match l with
  | a :: l1 =>
      match l1 with
      | b :: l2 =>
          if is_indicator a && is_indicator b
          then (encode_point a ++ encode_point b) :: match_flags l2
          else match_flags l1
      | [] => []
      end
  | [] => []
  end.

Section lookup.
Context `{CaseMapping}.

Definition alias_match (lower : jsstring) (i : RegionInfo) : bool :=
  bool_decide (toLowerCase (code i) = lower)
  || some (λ a, bool_decide (toLowerCase a = lower)) (aliases i).

Definition getRegionEntry (r : jsstring) : entry :=
  if bool_decide (trim r = []) then NotFound
  else
    let t := trim r in
    match jm_get t emojiToRegionMap with
    | Some i => Found (mkEntry t i)
    | None =>
        if bool_decide (t ∈ inherited_keys) then Inherited t
        else match list_find_first (λ kv, alias_match (toLowerCase t) kv.2) emojiToRegionMap with
        | Some (k, i) => Found (mkEntry k i)
        | None => NotFound
        end
    end.

Definition isRegionMatch (regionEmoji searchTerm : jsstring) : option bool :=
  let lowerSearchTerm := trim (toLowerCase searchTerm) in
  if bool_decide (regionEmoji = searchTerm) then Some true
  else match getRegionEntry regionEmoji with
  | NotFound => Some (includes (toLowerCase regionEmoji) lowerSearchTerm)
  | Inherited _ => None
  | Found e =>
      Some (includes (toLowerCase (en (info e))) lowerSearchTerm
            || includes (zh (info e)) lowerSearchTerm
            || some (λ a, includes (toLowerCase a) lowerSearchTerm) (aliases (info e)))
  end.

Inductive language := lang_en | lang_zh.

(** [None] is [undefined]. *)
Definition getRegionDisplayName (regionEmoji : jsstring) (l : language) : option jsstring :=
  match getRegionEntry regionEmoji, l with
  | NotFound, _ => Some []
  | Inherited _, lang_en => None
  | Inherited _, lang_zh => Some []
  | Found e, lang_en => Some (en (info e))
  | Found e, lang_zh =>
      Some (if some is_han (code_points (zh (info e))) then zh (info e) else [])
  end.

Definition getSupportedRegions : list jsstring := jm_keys emojiToRegionMap.

Definition getRegionCode (regionEmoji : jsstring) : option jsstring :=
  match getRegionEntry regionEmoji with
  | NotFound => Some regionEmoji
  | Inherited _ => None
  | Found e => Some (code (info e))
  end.

Definition getEmojiByCode (c : jsstring) : jsstring :=
  match list_find_first (λ kv, bool_decide (code kv.2 = toUpperCase c)) emojiToRegionMap with
  | Some (k, _) => k
  | None => c
  end.

Definition searchRegions (searchTerm : jsstring) : option (list RegionEntry) :=
  let lowerSearchTerm := trim (toLowerCase searchTerm) in
  foldr (λ kv r,
    match isRegionMatch kv.1 lowerSearchTerm, r with
    | Some true, Some l => Some (mkEntry kv.1 kv.2 :: l)
    | Some false, Some l => Some l
    | _, _ => None
    end) (Some []) emojiToRegionMap.

Definition getRegionByAlias (aliasOrCode : jsstring) : entry := getRegionEntry aliasOrCode.
End lookup.

Definition extractRegionEmojis (text : jsstring) : list jsstring :=
  bfilter (λ m, jm_has m emojiToRegionMap) (match_flags (code_points text)).

(** ** What the table satisfies

    The facts below are checked on the table itself by evaluation, with the
    case mapping on the covered characters ([lower_unit], [upper_unit]). *)

Definition lower (s : jsstring) : jsstring := lower_unit <$> s.

(** The names of each region in lower case, and the search in them. *)
Definition lowered : list (list jsstring * (jsstring * RegionInfo)) :=
  (λ kv, ((lower <$> (code kv.2 :: aliases kv.2)), kv)) <$> emojiToRegionMap.

Definition resolve (l : jsstring) : option (jsstring * RegionInfo) :=
  snd <$> list_find_first (λ x, some (λ a, bool_decide (a = l)) x.1) lowered.

(** The flag of a two-letter code. *)
Definition flag_of (c : jsstring) : jsstring := c ≫= λ u, encode_point (127462 + (u - 65)).

(** Three aliases of the Republic of the Congo are also aliases of the
    Democratic Republic, which comes first in the table. *)
Definition shadowed (c a : jsstring) : bool :=
  bool_decide (c = js "CG") && bool_decide (a ∈ js <$> ["congo"; "刚果"; "剛果"]%string).

Definition entry_covered (kv : jsstring * RegionInfo) : bool :=
  every lower_covered kv.1 && every upper_covered (code kv.2) && every upper_covered (lower (code kv.2))
  && every (every lower_covered) (code kv.2 :: lower (code kv.2) :: aliases kv.2).

Lemma table_covered : every entry_covered emojiToRegionMap = true.
Proof. vm_compute. reflexivity. Qed.

Lemma table_wf : jm_wf emojiToRegionMap.
Proof. unfold jm_wf. decide_closed. Qed.

Lemma table_flags : every (λ kv, bool_decide (kv.1 = flag_of (code kv.2))) emojiToRegionMap = true.
Proof. vm_compute. reflexivity. Qed.

(** No key, no inherited property name and not the empty string is an alias. *)
Definition lowered_keys : list jsstring := lower <$> jm_keys emojiToRegionMap.
Definition lowered_inherited : list jsstring := lower <$> inherited_keys.

Definition key_free (l : jsstring) : bool :=
  negb (bool_decide (l ∈ lowered_keys)) && negb (bool_decide (l ∈ lowered_inherited))
  && negb (bool_decide (l = [])).

Lemma table_keys_free :
  every (λ kv, every (λ a, key_free (lower a)) (code kv.2 :: aliases kv.2)) emojiToRegionMap = true.
Proof. vm_compute. reflexivity. Qed.

Lemma inherited_covered : every (every lower_covered) inherited_keys = true.
Proof. vm_compute. reflexivity. Qed.

Lemma table_codes :
  every (λ kv, bool_decide (fst <$> resolve (lower (code kv.2)) = Some kv.1)) emojiToRegionMap = true.
Proof. vm_compute. reflexivity. Qed.

Lemma table_upper_codes :
  every (λ kv, every (λ c, bool_decide
      (fst <$> list_find_first (λ x, bool_decide (code x.2 = upper_unit <$> c)) emojiToRegionMap = Some kv.1))
    [code kv.2; lower (code kv.2)]) emojiToRegionMap = true.
Proof. vm_compute. reflexivity. Qed.

Lemma table_aliases :
  every (λ kv, every (λ a, bool_decide (fst <$> resolve (lower a)
      = Some (if shadowed (code kv.2) a then flag_of (js "CD") else kv.1))) (aliases kv.2))
    emojiToRegionMap = true.
Proof. vm_compute. reflexivity. Qed.

Lemma table_trimmed :
  every (λ kv, trimmed kv.1 && negb (bool_decide (kv.1 = []))
    && trimmed (code kv.2) && trimmed (lower (code kv.2))) emojiToRegionMap = true.
Proof. vm_compute. reflexivity. Qed.

(** A supported flag: two pairs of surrogates. *)
Definition flag_shape (k : jsstring) : bool :=
  match k with
  | [a; x; b; y] =>
      let p := 65536 + Z.shiftl (a - 55296) 10 + (x - 56320) in
      let q := 65536 + Z.shiftl (b - 55296) 10 + (y - 56320) in
      is_high a && is_low x && is_high b && is_low y && is_indicator p && is_indicator q
      && bool_decide (encode_point p ++ encode_point q = k)
  | _ => false
  end.

Lemma table_shapes : every flag_shape (jm_keys emojiToRegionMap) = true.
Proof. vm_compute. reflexivity. Qed.

(** The table is used through these facts only. *)
Lemma table_get k i : (k, i) ∈ emojiToRegionMap → jm_get k emojiToRegionMap = Some i.
Proof. apply jm_elem_of_get, table_wf. Qed.

Lemma resolve_in l kv : resolve l = Some kv → kv ∈ emojiToRegionMap.
Proof.
  unfold resolve. destruct (list_find_first _ _) as [[ns kv']|] eqn:He; [|done]. intros [= <-].
  apply list_find_first_Some in He as [He _]. unfold lowered in He.
  apply list_elem_of_fmap in He as (kv & [= -> ->] & Hin). done.
Qed.

Lemma resolve_elem l k i : (k, i) ∈ emojiToRegionMap → fst <$> resolve l = Some k → resolve l = Some (k, i).
Proof.
  intros Hin Hr. destruct (resolve l) as [[k' i']|] eqn:He; [|done]. injection Hr as ->.
  apply resolve_in in He. apply table_get in He, Hin. congruence.
Qed.

#[local] Opaque emojiToRegionMap inherited_keys.

Section table.
Context `{CaseMapping}.

Lemma entry_cover kv : kv ∈ emojiToRegionMap → entry_covered kv = true.
Proof. apply every_true, table_covered. Qed.

Lemma lower_eq s : every lower_covered s = true → toLowerCase s = lower s.
Proof. apply toLowerCase_covered. Qed.

Lemma cover_texts kv a :
  kv ∈ emojiToRegionMap → a ∈ code kv.2 :: lower (code kv.2) :: aliases kv.2 → toLowerCase a = lower a.
Proof.
  intros Hin Ha. apply lower_eq. apply entry_cover in Hin.
  apply andb_true_iff in Hin as [_ Hin]. rewrite every_true in Hin. by apply Hin.
Qed.

Lemma alias_match_lower l kv :
  kv ∈ emojiToRegionMap →
  alias_match l kv.2 = some (λ a, bool_decide (a = l)) (lower <$> (code kv.2 :: aliases kv.2)).
Proof.
  intros Hin. unfold alias_match. rewrite (cover_texts kv (code kv.2)) by (done || set_solver).
  cbn [fmap list_fmap]. unfold some at 2. cbn [existsb]. f_equal.
  assert (∀ a, a ∈ aliases kv.2 → toLowerCase a = lower a) as Ha.
  { intros a ?. apply (cover_texts kv); [done|set_solver]. }
  induction (aliases kv.2) as [|a l' IH]; [done|]. cbn. rewrite Ha by set_solver.
  f_equal. apply IH. set_solver.
Qed.

Lemma find_resolve l :
  list_find_first (λ kv, alias_match l kv.2) emojiToRegionMap = resolve l.
Proof.
  unfold resolve, lowered. pose proof (alias_match_lower l) as Hm.
  induction emojiToRegionMap as [|kv m IH]; [done|].
  rewrite fmap_cons. cbn [list_find_first fst]. rewrite Hm by set_solver. case_match; [done|]. apply IH. intros. apply Hm. set_solver.
Qed.

Lemma not_direct t l :
  toLowerCase t = l → key_free l = true →
  t ≠ [] ∧ jm_get t emojiToRegionMap = None ∧ t ∉ inherited_keys.
Proof.
  intros Ht [[Hk Hi]%andb_true_iff Hn]%andb_true_iff. reflect_bools. split_and!.
  - intros ->. apply Hn. rewrite <-Ht. by apply lower_eq.
  - destruct (jm_get t emojiToRegionMap) as [i|] eqn:Hg; [|done]. exfalso. apply Hk.
    apply jm_get_elem_of in Hg. rewrite <-Ht, lower_eq.
    + apply list_elem_of_fmap. exists t. split; [done|]. apply list_elem_of_fmap. by exists (t, i).
    + apply entry_cover in Hg. unfold entry_covered in Hg.
      by apply andb_true_iff in Hg as [[[? _]%andb_true_iff _]%andb_true_iff _].
  - intros Hin. apply Hi. pose proof inherited_covered as Hc. rewrite every_true in Hc.
    rewrite <-Ht, lower_eq by by apply Hc. apply list_elem_of_fmap. eauto.
Qed.

(** A string that maps to the lower case of a name resolves to that name. *)
Lemma getRegionEntry_resolve s a kv k i :
  kv ∈ emojiToRegionMap → a ∈ code kv.2 :: aliases kv.2 → toLowerCase (trim s) = toLowerCase a →
  resolve (lower a) = Some (k, i) → getRegionEntry s = Found (mkEntry k i).
Proof.
  intros Hin Ha Hs Hr. rewrite (cover_texts kv a Hin) in Hs by set_solver.
  pose proof table_keys_free as Hf. rewrite every_true in Hf. specialize (Hf kv Hin).
  rewrite every_true in Hf. destruct (not_direct (trim s) (lower a) Hs (Hf a Ha)) as (Hn & Hg & Hi).
  unfold getRegionEntry. rewrite bool_decide_eq_false_2 by done. cbn zeta.
  rewrite Hg, bool_decide_eq_false_2 by done. by rewrite Hs, find_resolve, Hr.
Qed.

(** The region table is consistent: each of its entries is found by its
    flag, by its code and by its code in lower case; code and flag convert
    into each other, and the flag is the pair of regional indicators of the
    code. *)
Theorem region_roundtrip (k : jsstring) (i : RegionInfo) :
  (k, i) ∈ emojiToRegionMap →
  k = flag_of (code i) ∧
  getRegionEntry k = Found (mkEntry k i) ∧ getRegionCode k = Some (code i) ∧
  (∀ c, c = code i ∨ c = lower (code i) →
     getEmojiByCode c = k ∧ getRegionEntry c = Found (mkEntry k i)).
Proof.
  intros Hin.
  assert (getRegionEntry k = Found (mkEntry k i)) as Hk.
  { unfold getRegionEntry. pose proof table_trimmed as Ht. rewrite every_true in Ht.
    specialize (Ht (k, i) Hin). reflect_bools. cbn [fst] in *.
    rewrite trim_trimmed, bool_decide_eq_false_2 by done. cbn zeta. by rewrite (table_get k i). }
  split_and!.
  - pose proof table_flags as Hf. rewrite every_true in Hf. specialize (Hf (k, i) Hin).
    by reflect_bools.
  - done.
  - unfold getRegionCode. by rewrite Hk.
  - intros c Hc. split.
    + unfold getEmojiByCode. assert (toUpperCase c = upper_unit <$> c) as ->.
      { apply toUpperCase_covered. apply entry_cover in Hin. unfold entry_covered in Hin.
        reflect_bools. by destruct Hc as [->| ->]. }
      pose proof table_upper_codes as Hu. rewrite every_true in Hu. specialize (Hu (k, i) Hin).
      rewrite every_true in Hu. specialize (Hu c ltac:(set_solver)). reflect_bools.
      destruct (list_find_first _ _) as [[k' i']|]; [|done]. by injection Hu.
    + pose proof table_codes as Ht. rewrite every_true in Ht. specialize (Ht (k, i) Hin). reflect_bools.
      pose proof table_trimmed as Htr. rewrite every_true in Htr. specialize (Htr (k, i) Hin). reflect_bools.
      apply (getRegionEntry_resolve c (code i) (k, i)); [done|set_solver| |by apply resolve_elem].
      rewrite trim_trimmed by (by destruct Hc as [->| ->]).
      rewrite (cover_texts (k, i) c Hin), (cover_texts (k, i) (code i) Hin) by set_solver.
      destruct Hc as [->| ->]; [done|]. unfold lower. rewrite <-list_fmap_compose.
      apply list_fmap_ext. intros j u _. apply lower_unit_idemp.
Qed.

(** Every alias, in any letter case and with white space around it, leads
    to the region that lists it; only three aliases of the Republic of the
    Congo lead elsewhere, to the Democratic Republic, which lists them too. *)
Theorem alias_resolves (k : jsstring) (i : RegionInfo) (a s : jsstring) :
  (k, i) ∈ emojiToRegionMap → a ∈ aliases i → toLowerCase (trim s) = toLowerCase a →
  ∃ k' i', getRegionByAlias s = Found (mkEntry k' i') ∧
    k' = (if shadowed (code i) a then flag_of (js "CD") else k) ∧ (k', i') ∈ emojiToRegionMap.
Proof.
  intros Hin Ha Hs. pose proof table_aliases as Ht. rewrite every_true in Ht. specialize (Ht (k, i) Hin).
  rewrite every_true in Ht. specialize (Ht a Ha). reflect_bools. cbn [fst snd] in Ht.
  destruct (resolve (lower a)) as [[k' i']|] eqn:Hr; [|done]. injection Ht as Hk'.
  exists k', i'. split_and!; [|done|by eapply resolve_in].
  apply (getRegionEntry_resolve s a (k, i)); [done|set_solver|done|done].
Qed.
End table.

Lemma match_flag k s :
  flag_shape k = true → match_flags (code_points (k ++ s)) = k :: match_flags (code_points s).
Proof.
  unfold flag_shape. destruct k as [|a [|x [|b [|y []]]]]; try done. cbn zeta.
  intros Hk. reflect_bools. cbn [app code_points].
  repeat match goal with H : ?b = true |- context [?b] => rewrite H end. cbn [andb match_flags].
  repeat match goal with H : ?b = true |- context [?b] => rewrite H end. cbn [andb].
  by match goal with H : encode_point _ ++ _ = _ |- _ => rewrite H end.
Qed.

(** Extracting the flags of a text made of supported flags returns them
    all, in order, however many are put side by side. *)
Theorem extract_flags (l : list jsstring) :
  (∀ k, k ∈ l → k ∈ getSupportedRegions) → extractRegionEmojis (concat l) = l.
Proof.
  intros Hl. unfold extractRegionEmojis.
  assert (match_flags (code_points (concat l)) = l) as ->.
  { induction l as [|k l IH]; [done|]. cbn [concat].
    pose proof table_shapes as Ht. rewrite every_true in Ht.
    rewrite match_flag by (apply Ht, Hl; set_solver). f_equal. apply IH. set_solver. }
  apply bfilter_all. intros k Hk. apply jm_has_true. by apply Hl.
Qed.

#[local] Transparent emojiToRegionMap inherited_keys.

(** A region named like a property that every object inherits is taken for
    a known region without names: matching it against another search term
    throws instead of answering. *)
Theorem inherited_property_throws `{CaseMapping} :
  isRegionMatch (js "constructor") (js "hk") = None ∧
  getRegionCode (js "constructor") = None.
Proof. split; reflexivity. Qed.

(** ** Witnesses *)

Definition hong_kong : RegionInfo := (region "🇭🇰" "Hong Kong" "香港" "HK"
  ["hk"; "hongkong"; "hong kong"; "香港"; "HK"]%string).2.

Lemma hong_kong_listed : (js "🇭🇰", hong_kong) ∈ emojiToRegionMap.
Proof. apply jm_get_elem_of. vm_compute. reflexivity. Qed.

Lemma region_roundtrip_witness :
  getEmojiByCode (js "hk") = js "🇭🇰" ∧ getRegionCode (js "🇭🇰") = Some (js "HK").
Proof.
  destruct (region_roundtrip (js "🇭🇰") hong_kong hong_kong_listed) as (_ & _ & Hc & He).
  split; [|exact Hc]. apply (He (js "hk")). right. vm_compute. reflexivity.
Defined.

Lemma alias_resolves_witness :
  ∃ i, getRegionByAlias (js "  HongKong ") = Found (mkEntry (js "🇭🇰") i).
Proof.
  destruct (alias_resolves (js "🇭🇰") hong_kong (js "hongkong") (js "  HongKong ") hong_kong_listed)
    as (k' & i' & He & Hk & _).
  - decide_closed.
  - vm_compute. reflexivity.
  - exists i'. rewrite He, Hk. vm_compute. reflexivity.
Defined.

Lemma extract_flags_witness :
  extractRegionEmojis (js "🇭🇰🇯🇵🇭🇰") = [js "🇭🇰"; js "🇯🇵"; js "🇭🇰"].
Proof.
  apply (extract_flags [js "🇭🇰"; js "🇯🇵"; js "🇭🇰"]). intros k Hk.
  assert (Forall (λ k, k ∈ getSupportedRegions) [js "🇭🇰"; js "🇯🇵"; js "🇭🇰"]) as Hall
    by decide_closed.
  rewrite Forall_forall in Hall. exact (Hall k Hk).
Defined.

End RegionHelper.
