(* ===== verification/AppSettings.v ===== *)
(** * Theme settings ([glass-shared/stores/app-settings.ts])

    The settings of the status page come from an untyped JSON object.  The
    functions here turn it into typed values with defaults, presets, legacy
    keys and bounds.

    The members of the TypeScript string unions are strings; a union is the
    list of its members.  A property access on an object literal such as
    [GENERAL_CARD_PRESET_ALIASES\[value\]] also finds the properties inherited
    from [Object.prototype]: [Inherited] stands for such a value, which is
    neither [undefined] nor a member of any union.  Functions that can throw
    return an option.

    [JSON.parse] is a class ([JsonParse]) with the one fact the termination of
    [normalizeThemeSettings] needs. *)

From stdpp Require Import pretty.
From S2P Require Import Prelude JsMap JsString Json.

Open Scope Z_scope.

Module AppSettings.

Definition texts (l : list string) : list jsstring := js <$> l.
Definition table (l : list (string * string)) : jsmap jsstring jsstring :=
  (λ kv, (js kv.1, js kv.2)) <$> l.
Definition flags {V} (l : list (string * V)) : jsmap jsstring V := (λ kv, (js kv.1, kv.2)) <$> l.

(** ** String unions *)

Definition ThemeMode : list jsstring :=
  texts ["auto"; "light"; "dark"]%string.

Definition ManagedThemeMode : list jsstring :=
  texts ["beijing"; "light"; "dark"]%string.

Definition GeneralCardKey : list jsstring :=
  texts ["currentTime"; "memory"; "disk"; "remainingValue"; "totalTraffic"; "uploadSpeed";
   "downloadSpeed"; "onlineNodes"; "avgCpu"; "avgGpu"; "avgLoad"; "swap"; "processes";
   "connections"; "cpuCores"; "gpuNodes"; "gpuPeakNode"; "trafficQuota"; "trafficPeak";
   "uploadPeakNode"; "downloadPeakNode"; "offlineNodes"; "highLoadNodes"; "expiringNodes";
   "trafficWarnings"; "connectionPeakNode"; "regionDistribution"; "systemDistribution";
   "virtualizationDistribution"; "monthlyCost"; "yearlyCost"]%string.

Definition HomeQuickControlKey : list jsstring :=
  texts ["favorite"; "monthlyCost"; "totalTraffic"; "upload"; "download"; "peak"; "offline";
   "highLoad"; "expiring"]%string.

Definition DetailMetricCardKey : list jsstring :=
  texts ["nodePrice"; "monthlyCost"; "remainingTime"; "remainingValue"; "cpuUsage"; "gpuUsage";
   "memoryUsage"; "swapUsage"; "diskUsage"; "load"; "temperature"; "processes"; "connections";
   "uptime"; "uploadSpeed"; "downloadSpeed"; "totalTraffic"; "trafficQuota"]%string.

Definition NodeListMetadataField : list jsstring :=
  texts ["provider"; "region"; "city"; "asn"; "tags"; "group"]%string.

Definition GeneralCardPreset : list jsstring :=
  texts ["official"; "basic"; "ops"; "resource"; "finance"; "traffic"; "gpu"; "asset"; "full";
   "custom"]%string.

Definition HomeQuickControlPreset : list jsstring :=
  texts ["basic"; "traffic"; "ops"; "full"; "custom"]%string.

Definition DetailMetricCardPreset : list jsstring :=
  texts ["finance"; "status"; "resource"; "network"; "gpu"; "full"; "custom"]%string.

Definition ChartDashboardPreset : list jsstring :=
  texts ["all"; "compact"; "resource"; "network"; "gpu"; "latency"; "ops"; "full"; "custom";
   "advanced"]%string.

Definition NodeViewMode : list jsstring :=
  texts ["card"; "list"]%string.

Definition NodeCardSize : list jsstring :=
  texts ["mini"; "compact"; "comfortable"; "large"]%string.

Definition RpcTransportMode : list jsstring :=
  texts ["websocket"; "http"]%string.

Definition EarthRenderer : list jsstring :=
  texts ["realistic"; "cobe"; "tiled"]%string.

Definition GlassColorPreset : list jsstring :=
  texts ["emerald"; "soft"; "contrast"; "midnight"; "custom"]%string.

Definition ColorVisionMode : list jsstring :=
  texts ["default"; "accessible"]%string.

Definition ChartDashboardCardKey : list jsstring :=
  texts ["cpu"; "memory"; "disk"; "network"; "traffic"; "gpu"; "gpuMemory"; "temperature";
   "connections"; "process"; "ping"; "pingLoss"]%string.

(** ** Tables *)

Definition DEFAULT_GENERAL_CARD_ORDER : list jsstring :=
  texts ["memory"; "disk"; "remainingValue"; "totalTraffic"; "uploadSpeed";
   "downloadSpeed"]%string.

Definition ALL_GENERAL_CARD_KEYS : list jsstring :=
  texts ["currentTime"; "memory"; "disk"; "remainingValue"; "monthlyCost"; "totalTraffic";
   "uploadSpeed"; "downloadSpeed"; "onlineNodes"; "offlineNodes"; "avgCpu"; "avgGpu";
   "avgLoad"; "swap"; "processes"; "connections"; "cpuCores"; "gpuNodes"; "gpuPeakNode";
   "trafficQuota"; "trafficPeak"; "uploadPeakNode"; "downloadPeakNode"; "highLoadNodes";
   "expiringNodes"; "trafficWarnings"; "connectionPeakNode"; "regionDistribution";
   "systemDistribution"; "virtualizationDistribution"; "yearlyCost"]%string.

Definition DEFAULT_GENERAL_CARD_ENABLED : jsmap jsstring bool :=
  flags [("currentTime",false); ("memory",true); ("disk",true); ("remainingValue",true);
   ("totalTraffic",true); ("uploadSpeed",true); ("downloadSpeed",true); ("onlineNodes",false);
   ("avgCpu",false); ("avgGpu",false); ("avgLoad",false); ("swap",false); ("processes",false);
   ("connections",false); ("cpuCores",false); ("gpuNodes",false); ("gpuPeakNode",false);
   ("trafficQuota",false); ("trafficPeak",false); ("uploadPeakNode",false);
   ("downloadPeakNode",false); ("offlineNodes",false); ("highLoadNodes",false);
   ("expiringNodes",false); ("trafficWarnings",false); ("connectionPeakNode",false);
   ("regionDistribution",false); ("systemDistribution",false);
   ("virtualizationDistribution",false); ("monthlyCost",false); ("yearlyCost",false)]%string.

Definition LEGACY_GENERAL_CARD_SETTING_KEYS : jsmap jsstring string :=
  flags [("memory","generalCardMemoryEnabled"); ("disk","generalCardDiskEnabled");
   ("remainingValue","generalCardRemainingValueEnabled");
   ("totalTraffic","generalCardTotalTrafficEnabled");
   ("uploadSpeed","generalCardUploadSpeedEnabled");
   ("downloadSpeed","generalCardDownloadSpeedEnabled");
   ("onlineNodes","generalCardOnlineNodesEnabled"); ("avgCpu","generalCardAvgCpuEnabled");
   ("avgLoad","generalCardAvgLoadEnabled"); ("swap","generalCardSwapEnabled");
   ("processes","generalCardProcessesEnabled");
   ("connections","generalCardConnectionsEnabled"); ("cpuCores","generalCardCpuCoresEnabled");
   ("trafficQuota","generalCardTrafficQuotaEnabled")]%string.

Definition DEFAULT_HOME_QUICK_CONTROL_ORDER : list jsstring :=
  texts ["favorite"; "monthlyCost"; "totalTraffic"; "peak"; "offline"; "highLoad";
   "expiring"]%string.

Definition ALL_HOME_QUICK_CONTROL_KEYS : list jsstring :=
  DEFAULT_HOME_QUICK_CONTROL_ORDER ++ texts ["upload"; "download"]%string.

Definition DEFAULT_NODE_LIST_METADATA_FIELDS : list jsstring :=
  texts ["provider"; "region"; "asn"]%string.

Definition DEFAULT_CHART_DASHBOARD_CARDS : list jsstring :=
  texts ["cpu"; "memory"; "disk"; "network"; "gpu"; "connections"; "process"]%string.

Definition ALL_CHART_DASHBOARD_CARDS : list jsstring :=
  DEFAULT_CHART_DASHBOARD_CARDS ++ texts ["traffic"; "gpuMemory"; "temperature"; "ping";
   "pingLoss"]%string.

Definition DEFAULT_DETAIL_METRIC_CARD_ORDER : list jsstring :=
  texts ["nodePrice"; "monthlyCost"; "remainingTime"; "remainingValue"]%string.

Definition ALL_DETAIL_METRIC_CARD_KEYS : list jsstring :=
  DEFAULT_DETAIL_METRIC_CARD_ORDER ++ texts ["cpuUsage"; "gpuUsage"; "memoryUsage";
   "swapUsage"; "diskUsage"; "load"; "temperature"; "processes"; "connections"; "uptime";
   "uploadSpeed"; "downloadSpeed"; "totalTraffic"; "trafficQuota"]%string.

Definition ALL_NODE_LIST_METADATA_FIELDS : list jsstring :=
  DEFAULT_NODE_LIST_METADATA_FIELDS ++ texts ["tags"; "group"]%string.

Definition GENERAL_CARD_PRESETS : jsmap jsstring (list jsstring) := [
   (js "official", texts ["currentTime"; "onlineNodes"; "regionDistribution"; "totalTraffic";
    "uploadSpeed"; "downloadSpeed"]);
   (js "basic", DEFAULT_GENERAL_CARD_ORDER);
   (js "ops", texts ["onlineNodes"; "offlineNodes"; "highLoadNodes"; "trafficWarnings";
    "avgCpu"; "avgLoad"]);
   (js "resource", texts ["avgCpu"; "avgLoad"; "memory"; "disk"; "swap"; "cpuCores"]);
   (js "finance", texts ["remainingValue"; "monthlyCost"; "yearlyCost"; "expiringNodes";
    "totalTraffic"; "trafficQuota"]);
   (js "traffic", texts ["totalTraffic"; "trafficQuota"; "uploadSpeed"; "downloadSpeed";
    "trafficPeak"; "trafficWarnings"]);
   (js "gpu", texts ["gpuNodes"; "avgGpu"; "gpuPeakNode"; "avgCpu"; "memory"; "trafficPeak"]);
   (js "asset", texts ["onlineNodes"; "regionDistribution"; "systemDistribution";
    "virtualizationDistribution"; "cpuCores"; "gpuNodes"]);
   (js "full", ALL_GENERAL_CARD_KEYS);
   (js "custom", DEFAULT_GENERAL_CARD_ORDER)]%string.

Definition HOME_QUICK_CONTROL_PRESETS : jsmap jsstring (list jsstring) := [
   (js "basic", texts ["favorite"; "monthlyCost"; "peak"; "offline"]);
   (js "traffic", texts ["favorite"; "totalTraffic"; "peak"]);
   (js "ops", texts ["favorite"; "monthlyCost"; "offline"; "highLoad"; "expiring"]);
   (js "full", DEFAULT_HOME_QUICK_CONTROL_ORDER);
   (js "custom", DEFAULT_HOME_QUICK_CONTROL_ORDER)]%string.

Definition DETAIL_METRIC_CARD_PRESETS : jsmap jsstring (list jsstring) := [
   (js "finance", texts ["nodePrice"; "monthlyCost"; "remainingTime"; "remainingValue";
    "totalTraffic"; "trafficQuota"; "uptime"; "connections"]);
   (js "status", texts ["cpuUsage"; "memoryUsage"; "diskUsage"; "load"; "temperature";
    "uptime"; "processes"; "connections"]);
   (js "resource", texts ["cpuUsage"; "gpuUsage"; "memoryUsage"; "swapUsage"; "diskUsage";
    "load"; "temperature"; "processes"; "connections"; "uptime"; "uploadSpeed";
    "downloadSpeed"]);
   (js "network", texts ["uploadSpeed"; "downloadSpeed"; "totalTraffic"; "trafficQuota";
    "connections"; "processes"; "uptime"; "remainingTime"]);
   (js "gpu", texts ["gpuUsage"; "cpuUsage"; "memoryUsage"; "temperature"; "load"; "processes";
    "connections"; "uptime"]);
   (js "full", texts ["nodePrice"; "monthlyCost"; "remainingTime"; "remainingValue";
    "cpuUsage"; "gpuUsage"; "memoryUsage"; "swapUsage"; "diskUsage"; "load"; "temperature";
    "processes"; "connections"; "uploadSpeed"; "downloadSpeed"; "totalTraffic"]);
   (js "custom", DEFAULT_DETAIL_METRIC_CARD_ORDER)]%string.

Definition CHART_DASHBOARD_PRESETS : jsmap jsstring (list jsstring) := [
   (js "all", DEFAULT_CHART_DASHBOARD_CARDS);
   (js "compact", texts ["cpu"; "memory"; "network"]);
   (js "resource", texts ["cpu"; "memory"; "disk"; "temperature"; "process"]);
   (js "network", texts ["network"; "traffic"; "connections"]);
   (js "gpu", texts ["gpu"; "gpuMemory"; "temperature"; "cpu"; "memory"]);
   (js "latency", texts ["ping"; "pingLoss"; "network"]);
   (js "ops", texts ["cpu"; "memory"; "disk"; "network"; "temperature"; "connections";
    "process"; "ping"; "pingLoss"]);
   (js "full", texts ["cpu"; "memory"; "disk"; "network"; "traffic"; "gpu"; "gpuMemory";
    "temperature"; "connections"; "process"; "ping"; "pingLoss"]);
   (js "custom", DEFAULT_CHART_DASHBOARD_CARDS)]%string.

Definition GENERAL_CARD_PRESET_ALIASES : jsmap jsstring jsstring :=
  table [("official", "official"); ("官方", "official"); ("basic", "basic"); ("基础", "basic");
   ("ops", "ops"); ("运维", "ops"); ("resource", "resource"); ("资源", "resource"); ("finance",
   "finance"); ("财务", "finance"); ("traffic", "traffic"); ("流量", "traffic"); ("gpu", "gpu");
   ("GPU", "gpu"); ("asset", "asset"); ("资产", "asset"); ("full", "full"); ("完整", "full");
   ("custom", "custom"); ("自定义", "custom")]%string.

Definition GENERAL_CARD_LABEL_ALIASES : jsmap jsstring jsstring :=
  table [("当前时间", "currentTime"); ("内存用量", "memory"); ("硬盘用量", "disk"); ("剩余价值",
   "remainingValue"); ("累计流量", "totalTraffic"); ("实时上行", "uploadSpeed"); ("实时下行",
   "downloadSpeed"); ("在线节点", "onlineNodes"); ("离线节点", "offlineNodes"); ("平均CPU", "avgCpu");
   ("平均GPU", "avgGpu"); ("平均负载", "avgLoad"); ("交换内存", "swap"); ("进程总数", "processes"); ("连接数",
   "connections"); ("CPU核心", "cpuCores"); ("GPU节点", "gpuNodes"); ("GPU峰值", "gpuPeakNode");
   ("流量配额", "trafficQuota"); ("实时峰值", "trafficPeak"); ("上行最高", "uploadPeakNode"); ("下行最高",
   "downloadPeakNode"); ("高负载节点", "highLoadNodes"); ("即将到期", "expiringNodes"); ("流量预警",
   "trafficWarnings"); ("连接峰值", "connectionPeakNode"); ("地区分布", "regionDistribution"); ("系统分布",
   "systemDistribution"); ("虚拟化分布", "virtualizationDistribution"); ("月费用估算", "monthlyCost");
   ("年费用估算", "yearlyCost")]%string.

Definition DETAIL_METRIC_CARD_PRESET_ALIASES : jsmap jsstring jsstring :=
  table [("finance", "finance"); ("财务", "finance"); ("status", "status"); ("状态", "status");
   ("resource", "resource"); ("资源", "resource"); ("network", "network"); ("网络", "network");
   ("gpu", "gpu"); ("GPU", "gpu"); ("full", "full"); ("综合", "full"); ("custom", "custom");
   ("自定义", "custom")]%string.

Definition DETAIL_METRIC_CARD_LABEL_ALIASES : jsmap jsstring jsstring :=
  table [("节点价格", "nodePrice"); ("月均支出", "monthlyCost"); ("剩余时间", "remainingTime"); ("剩余价值",
   "remainingValue"); ("CPU使用率", "cpuUsage"); ("GPU使用率", "gpuUsage"); ("内存使用率", "memoryUsage");
   ("交换内存使用率", "swapUsage"); ("硬盘使用率", "diskUsage"); ("系统负载", "load"); ("系统温度", "temperature");
   ("进程数", "processes"); ("连接数", "connections"); ("运行时间", "uptime"); ("实时上行", "uploadSpeed");
   ("实时下行", "downloadSpeed"); ("累计流量", "totalTraffic"); ("流量配额", "trafficQuota")]%string.

Definition CHART_DASHBOARD_PRESET_ALIASES : jsmap jsstring jsstring :=
  table [("all", "all"); ("默认", "all"); ("compact", "compact"); ("精简", "compact"); ("resource",
   "resource"); ("资源", "resource"); ("network", "network"); ("网络", "network"); ("gpu", "gpu");
   ("GPU", "gpu"); ("latency", "latency"); ("延迟", "latency"); ("ops", "ops"); ("运维", "ops");
   ("full", "full"); ("完整", "full"); ("custom", "custom"); ("自定义", "custom"); ("advanced",
   "advanced"); ("高级JSON", "advanced")]%string.

Definition CHART_DASHBOARD_LABEL_ALIASES : jsmap jsstring jsstring :=
  table [("CPU", "cpu"); ("内存", "memory"); ("硬盘", "disk"); ("网络", "network"); ("流量",
   "traffic"); ("GPU", "gpu"); ("GPU显存", "gpuMemory"); ("温度", "temperature"); ("连接",
   "connections"); ("进程", "process"); ("延迟", "ping"); ("丢包", "pingLoss")]%string.

Definition HOME_QUICK_CONTROL_PRESET_ALIASES : jsmap jsstring jsstring :=
  table [("basic", "basic"); ("基础", "basic"); ("traffic", "traffic"); ("流量", "traffic");
   ("ops", "ops"); ("运维", "ops"); ("full", "full"); ("完整", "full"); ("custom", "custom");
   ("自定义", "custom")]%string.

Definition GLASS_COLOR_PRESET_ALIASES : jsmap jsstring jsstring :=
  table [("emerald", "emerald"); ("翡翠", "emerald"); ("soft", "soft"); ("柔和", "soft");
   ("contrast", "contrast"); ("高对比", "contrast"); ("midnight", "midnight"); ("午夜", "midnight");
   ("custom", "custom"); ("自定义", "custom")]%string.

Definition COLOR_VISION_MODE_ALIASES : jsmap jsstring jsstring :=
  table [("default", "default"); ("标准", "default"); ("accessible", "accessible");
   ("colorblind", "accessible"); ("色觉友好", "accessible")]%string.
(** ** Values read from a table *)

Inductive value := Text (s : jsstring) | Inherited (key : jsstring).

#[global] Instance value_eq_dec : EqDecision value.
Proof. solve_decision. Defined.

(** [table\[key\]]; [None] is [undefined]. *)
Definition property (m : jsmap jsstring jsstring) (k : jsstring) : option value :=
  match jm_get k m with
  | Some s => Some (Text s)
  | None => if bool_decide (k ∈ inherited_keys) then Some (Inherited k) else None
  end.

(** [PRESETS\[preset\]]; an inherited value is no key of the table. *)
Definition preset_keys (m : jsmap jsstring (list jsstring)) (p : value) : option (list jsstring) :=
  match p with Text s => jm_get s m | Inherited _ => None end.

Abbreviation ThemeSettings := (jsmap string json).

Definition setting (k : string) (s : ThemeSettings) : option json := jm_get k s.

Definition text_setting (k : string) (s : ThemeSettings) : option jsstring :=
  match setting k s with Some (JStr x) => Some x | _ => None end.

(** ** Colours *)

Record GlassCustomColors := mkColors {
  lightCard : jsstring;
  lightControl : jsstring;
  lightText : jsstring;
  lightMutedText : jsstring;
  lightBorder : jsstring;
  darkCard : jsstring;
  darkControl : jsstring;
  darkText : jsstring;
  darkMutedText : jsstring;
  darkBorder : jsstring;
}.

Definition DEFAULT_GLASS_CUSTOM_COLORS : GlassCustomColors :=
  mkColors (js "#f1f5f9bd") (js "#e2e8f0c2") (js "#14151a") (js "#3f4552") (js "#cbd5e199")
    (js "#0d111ad9") (js "#101624cc") (js "#f7f8fb") (js "#d6dae4") (js "#ffffff2e").

Definition is_hex (u : Z) : bool :=
  bool_decide (48 ≤ u ≤ 57) || bool_decide (97 ≤ u ≤ 102) || bool_decide (65 ≤ u ≤ 70).

(** [HEX_COLOR_REGEX] *)
Definition hex_color (s : jsstring) : bool :=
  match s with
  | u :: s => bool_decide (u = 35) && every is_hex s
              && (bool_decide (length s = 6%nat) || bool_decide (length s = 8%nat))
  | [] => false
  end.

(** [KEY_LIST_SEPARATOR_REGEX] *)
Definition key_separator (u : Z) : bool :=
  is_space u || bool_decide (u = 44) || bool_decide (u = 65292) || bool_decide (u = 59)
  || bool_decide (u = 65307).

(** ** Validation *)

Definition is_member (l : list jsstring) (v : option json) : bool :=
  match v with Some (JStr s) => bool_decide (s ∈ l) | _ => false end.

Definition isValidThemeMode : option json → bool := is_member (texts ["auto"; "light"; "dark"]%string).
Definition isValidManagedThemeMode : option json → bool :=
  is_member (texts ["beijing"; "light"; "dark"]%string).
Definition isValidNodeCardSize : option json → bool :=
  is_member (texts ["mini"; "compact"; "comfortable"; "large"]%string).
Definition isValidEarthRenderer : option json → bool :=
  is_member (texts ["realistic"; "cobe"; "tiled"]%string).

Definition isGeneralCardKey (k : jsstring) : bool := bool_decide (k ∈ ALL_GENERAL_CARD_KEYS).
Definition isDetailMetricCardKey (k : jsstring) : bool := bool_decide (k ∈ ALL_DETAIL_METRIC_CARD_KEYS).
Definition isHomeQuickControlKey (k : jsstring) : bool := bool_decide (k ∈ ALL_HOME_QUICK_CONTROL_KEYS).
Definition isNodeListMetadataField (k : jsstring) : bool :=
  bool_decide (k ∈ ALL_NODE_LIST_METADATA_FIELDS).
Definition isChartDashboardCardKey (k : jsstring) : bool := bool_decide (k ∈ ALL_CHART_DASHBOARD_CARDS).

(** ** Parsers *)

Definition parse_alias (m : jsmap jsstring jsstring) (fallback : string) (v : option json) : value :=
  match v with
  | Some (JStr s) => default (Text (js fallback)) (property m (trim s))
  | _ => Text (js fallback)
  end.

Definition parseGeneralCardPreset : option json → value := parse_alias GENERAL_CARD_PRESET_ALIASES "basic".
Definition parseDetailMetricCardPreset : option json → value :=
  parse_alias DETAIL_METRIC_CARD_PRESET_ALIASES "finance".
Definition parseChartDashboardPreset : option json → value :=
  parse_alias CHART_DASHBOARD_PRESET_ALIASES "all".
Definition parseHomeQuickControlPreset : option json → value :=
  parse_alias HOME_QUICK_CONTROL_PRESET_ALIASES "full".
Definition parseGlassColorPreset : option json → value := parse_alias GLASS_COLOR_PRESET_ALIASES "emerald".
Definition parseColorVisionMode : option json → value := parse_alias COLOR_VISION_MODE_ALIASES "default".

(** One slot: its key, if it names one. *)
Definition slot_key (isKey : jsstring → bool) (labels : jsmap jsstring jsstring) (s : ThemeSettings)
    (slot : string) : option value :=
  match text_setting slot s with
  | None => None
  | Some t => if isKey (trim t) then Some (Text (trim t)) else property labels (trim t)
  end.

(** The loop of the slot parsers over the slots [1..n]. *)
Definition parse_slots (isKey : jsstring → bool) (labels : jsmap jsstring jsstring) (prefix : string)
    (n : nat) (s : ThemeSettings) : list value :=
  foldl (λ keys index,
    match slot_key isKey labels s (prefix +:+ pretty index) with
    | None => keys
    | Some k => if bool_decide (k ∈ keys) then keys else keys ++ [k]
    end) [] (seq 1 n).

Definition GENERAL_CARD_SLOT_COUNT : nat := 8.
Definition DETAIL_METRIC_CARD_SLOT_COUNT : nat := 8.
Definition CHART_DASHBOARD_SLOT_COUNT : nat := 7.

Definition parseGeneralCardSlots : ThemeSettings → list value :=
  parse_slots isGeneralCardKey GENERAL_CARD_LABEL_ALIASES "generalCardSlot" GENERAL_CARD_SLOT_COUNT.
Definition parseDetailMetricCardSlots : ThemeSettings → list value :=
  parse_slots isDetailMetricCardKey DETAIL_METRIC_CARD_LABEL_ALIASES "detailMetricCardSlot"
    DETAIL_METRIC_CARD_SLOT_COUNT.
Definition parseChartDashboardSlots : ThemeSettings → list value :=
  parse_slots isChartDashboardCardKey CHART_DASHBOARD_LABEL_ALIASES "chartDashboardSlot"
    CHART_DASHBOARD_SLOT_COUNT.

(** [\[...new Set(keys)\]] *)
Fixpoint dedup {A} `{EqDecision A} (l acc : list A) : list A :=
  match l with
  | [] => acc
  | x :: l => dedup l (if bool_decide (x ∈ acc) then acc else acc ++ [x])
  end.

Definition normalizeHomeQuickControlOrder (keys : list jsstring) : list jsstring := dedup keys [].

(** The strings among the raw items; another item counts as the empty key. *)
Definition raw_items (v : option json) : list jsstring :=
  match v with
  | Some (JArr l) => (λ x, match x with JStr s => trim s | _ => [] end) <$> l
  | Some (JStr s) => trim <$> split_runs key_separator s [] false
  | _ => []
  end.

Definition parseKeyList (v : option json) (isValid : jsstring → bool) (fallback : list jsstring)
    : list jsstring :=
  match dedup (bfilter isValid (raw_items v)) [] with
  | [] => fallback
  | keys => keys
  end.

Class JsonParse := {
  JSON_parse : jsstring → option json;
  (** The text of a JSON string has its quotes. *)
  JSON_parse_string : ∀ s v, JSON_parse s = Some (JStr v) → (length v < length s)%nat;
}.

Section parse.
Context `{JsonParse}.

(** The recursion on nested JSON texts; [None] is lack of fuel. *)
Fixpoint normalize (fuel : nat) (raw : json) : option ThemeSettings :=
  match fuel with
  | O => None
  | S fuel =>
      if json_falsy raw then Some []
      else match raw with
      | JStr s => match JSON_parse s with Some v => normalize fuel v | None => Some [] end
      | JObj m => Some m
      | _ => Some []
      end
  end.

(** Each level of nesting shortens the text. *)
Definition normalizeThemeSettings (raw : option json) : option ThemeSettings :=
  match raw with
  | Some (JStr s) => normalize (S (S (length s))) (JStr s)
  | Some v => normalize 1 v
  | None => Some []
  end.

Definition parseChartDashboardTemplate (raw : option json) : list jsstring :=
  let fields := λ m, parseKeyList (match jm_get "cards" m with
                                   | Some JNull | None => jm_get "layout" m
                                   | v => v
                                   end) isChartDashboardCardKey DEFAULT_CHART_DASHBOARD_CARDS in
  match raw with
  | Some (JStr []) => DEFAULT_CHART_DASHBOARD_CARDS
  | Some (JStr s) =>
      match JSON_parse s with
      | None => parseKeyList (Some (JStr s)) isChartDashboardCardKey DEFAULT_CHART_DASHBOARD_CARDS
      | Some (JObj m) => fields m
      | Some _ => DEFAULT_CHART_DASHBOARD_CARDS
      end
  | Some (JObj m) => fields m
  | _ => DEFAULT_CHART_DASHBOARD_CARDS
  end.

Definition readBooleanSetting (s : ThemeSettings) (k : string) (fallback : bool) : bool :=
  match setting k s with Some (JBool b) => b | _ => fallback end.

Definition readNumberSetting (s : ThemeSettings) (k : string) (fallback min max : Z) : num :=
  match setting k s with
  | Some (JNum x) =>
      if isFinite x then math_min (math_max x (num_of_Z min)) (num_of_Z max) else num_of_Z fallback
  | _ => num_of_Z fallback
  end.

Definition readStringSetting (s : ThemeSettings) (k : string) (fallback : jsstring) : jsstring :=
  match text_setting k s with Some x => trim x | None => fallback end.

Definition local_prefix : jsstring := js "local:".
Definition asset_root : jsstring := js "/themes/user-assets/".

(** The path segments of a local source. *)
Definition local_segments (source : jsstring) : list jsstring :=
  bfilter (λ x, negb (bool_decide (x = [])))
    (split_char 47 ((λ u, if bool_decide (u = 92) then 47 else u) <$> drop 6 source) []).

Fixpoint encode_all (l : list jsstring) : option (list jsstring) :=
  match l with
  | [] => Some []
  | x :: l => match encodeURIComponent x, encode_all l with Some y, Some r => Some (y :: r) | _, _ => None end
  end.

Definition resolveBackgroundSource `{CaseMapping} (v : option json) : option jsstring :=
  match v with
  | Some (JStr s) =>
      let source := trim s in
      if negb (startsWith (toLowerCase source) local_prefix) then Some source
      else
        let segments := local_segments source in
        if bool_decide (segments = [])
           || some (λ x, bool_decide (x = js ".") || bool_decide (x = js "..")) segments
        then Some []
        else (λ l, asset_root ++ join (js "/") l) <$> encode_all segments
  | _ => Some []
  end.

Definition readColorSetting (s : ThemeSettings) (k : string) (fallback : jsstring) : jsstring :=
  let t := readStringSetting s k fallback in if hex_color t then t else fallback.

Definition readColorValue (v : option json) (fallback : jsstring) : jsstring :=
  match v with
  | Some (JStr s) => if hex_color (trim s) then trim s else fallback
  | _ => fallback
  end.

Definition legacyColors (s : ThemeSettings) : GlassCustomColors :=
  let d := DEFAULT_GLASS_CUSTOM_COLORS in
  mkColors (readColorSetting s "glassLightCardColor" (lightCard d))
    (readColorSetting s "glassLightControlColor" (lightControl d))
    (readColorSetting s "glassLightTextColor" (lightText d))
    (readColorSetting s "glassLightMutedTextColor" (lightMutedText d))
    (readColorSetting s "glassLightBorderColor" (lightBorder d))
    (readColorSetting s "glassDarkCardColor" (darkCard d))
    (readColorSetting s "glassDarkControlColor" (darkControl d))
    (readColorSetting s "glassDarkTextColor" (darkText d))
    (readColorSetting s "glassDarkMutedTextColor" (darkMutedText d))
    (readColorSetting s "glassDarkBorderColor" (darkBorder d)).

Definition record_colors (m : jsmap string json) (d : GlassCustomColors) : GlassCustomColors :=
  mkColors (readColorValue (jm_get "lightCard" m) (lightCard d))
    (readColorValue (jm_get "lightControl" m) (lightControl d))
    (readColorValue (jm_get "lightText" m) (lightText d))
    (readColorValue (jm_get "lightMutedText" m) (lightMutedText d))
    (readColorValue (jm_get "lightBorder" m) (lightBorder d))
    (readColorValue (jm_get "darkCard" m) (darkCard d))
    (readColorValue (jm_get "darkControl" m) (darkControl d))
    (readColorValue (jm_get "darkText" m) (darkText d))
    (readColorValue (jm_get "darkMutedText" m) (darkMutedText d))
    (readColorValue (jm_get "darkBorder" m) (darkBorder d)).

Definition parseGlassCustomColors (s : ThemeSettings) : GlassCustomColors :=
  let legacy := legacyColors s in
  match setting "glassCustomColors" s with
  | Some (JStr t) =>
      match JSON_parse t with
      | Some (JObj m) => record_colors m legacy
      | _ => legacy
      end
  | Some (JObj m) => record_colors m legacy
  | _ => legacy
  end.
End parse.

(** ** [deriveAppSettings] *)

Record DerivedAppSettings := mkDerived {
  defaultViewMode : jsstring;
  nodeCardSize : jsstring;
  rpcTransportMode : jsstring;
  alertEnabled : bool;
  alertTitle : jsstring;
  alertContent : jsstring;
  dataUpdateInterval : num;
  stopEarth : bool;
  earthRenderer : jsstring;
  hideEarth : bool;
  hideGeneralCard : bool;
  visitorInfoEnabled : bool;
  generalCardEnabledMap : jsmap jsstring bool;
  generalCardOrder : list value;
  homeToolsEnabled : bool;
  glassColorPreset : value;
  glassCustomColors : GlassCustomColors;
  colorVisionMode : value;
  colorVisionFriendly : bool;
  homeQuickControlsEnabled : bool;
  homeQuickControlOrder : list jsstring;
  nodeListMetadataEnabled : bool;
  nodeListMetadataFields : list jsstring;
  nodeListCustomTagsVisible : bool;
  nodeDetailSectionTabsEnabled : bool;
  gpuChartEnabled : bool;
  detailMetricCardOrder : list value;
  offlineNodesLast : bool;
  homeHighLoadThreshold : num;
  homeTrafficWarningThreshold : num;
  homeExpiringDays : num;
  diskPredictionEnabled : bool;
  diskPredictionThresholdDays : num;
  chartDashboardTemplate : list value;
  hideAdminEntryWhenLoggedOut : bool;
  hidePriceWhenLoggedOut : bool;
  providerAliases : jsstring;
  exportSecondaryPassword : jsstring;
  disablePageAnimation : bool;
  backgroundEnabled : bool;
  backgroundType : jsstring;
  lightBackgroundUrl : jsstring;
  darkBackgroundUrl : jsstring;
  backgroundBlur : num;
  backgroundOverlay : num;
  managedThemeMode : jsstring;
}.

Definition as_values (l : list jsstring) : list value := Text <$> l.

(** A setting that must be one of the given strings. *)
Definition choice (allowed : list string) (fallback : string) (s : ThemeSettings) (k : string) : jsstring :=
  match text_setting k s with
  | Some x => if bool_decide (x ∈ texts allowed) then x else js fallback
  | None => js fallback
  end.

Definition plain_text (s : ThemeSettings) (k : string) : jsstring := default [] (text_setting k s).

Definition derive_generalCardEnabledMap (s : ThemeSettings) : jsmap jsstring bool :=
  foldl (λ m key,
    match jm_get key LEGACY_GENERAL_CARD_SETTING_KEYS with
    | Some settingKey => match setting settingKey s with Some (JBool b) => jm_set key b m | _ => m end
    | None => m
    end) DEFAULT_GENERAL_CARD_ENABLED ALL_GENERAL_CARD_KEYS.

(** The keys given by text, or the slots, or the default order. *)
Definition custom_cards (keysSetting : string) (isKey : jsstring → bool) (fallback : list jsstring)
    (slots : ThemeSettings → list value) (s : ThemeSettings) : list value :=
  let advancedKeys := match text_setting keysSetting s with Some x => trim x | None => [] end in
  if negb (bool_decide (advancedKeys = []))
  then as_values (parseKeyList (Some (JStr advancedKeys)) isKey fallback)
  else match slots s with [] => as_values fallback | l => l end.

Definition derive_generalCardOrder (s : ThemeSettings) : option (list value) :=
  let preset := parseGeneralCardPreset (setting "generalCardPreset" s) in
  if bool_decide (is_Some (text_setting "generalCardPreset" s)) then
    if bool_decide (preset = Text (js "custom"))
    then Some (custom_cards "generalCardKeys" isGeneralCardKey DEFAULT_GENERAL_CARD_ORDER
                 parseGeneralCardSlots s)
    else as_values <$> preset_keys GENERAL_CARD_PRESETS preset
  else match text_setting "generalCardKeys" s with
  | Some x => Some (as_values (parseKeyList (Some (JStr x)) isGeneralCardKey DEFAULT_GENERAL_CARD_ORDER))
  | None =>
      let orderedKeys :=
        dedup ALL_GENERAL_CARD_KEYS
          (parseKeyList (setting "generalCardOrder" s) isGeneralCardKey DEFAULT_GENERAL_CARD_ORDER) in
      let enabled := derive_generalCardEnabledMap s in
      Some (as_values (bfilter (λ k, default false (jm_get k enabled)) orderedKeys))
  end.

Definition derive_homeQuickControlOrder (s : ThemeSettings) : option (list jsstring) :=
  let preset := parseHomeQuickControlPreset (setting "homeQuickControlPreset" s) in
  let listed := normalizeHomeQuickControlOrder
    (parseKeyList (setting "homeQuickControlKeys" s) isHomeQuickControlKey
       DEFAULT_HOME_QUICK_CONTROL_ORDER) in
  if bool_decide (preset = Text (js "custom")) then Some listed
  else if bool_decide (is_Some (text_setting "homeQuickControlKeys" s))
          && negb (bool_decide (is_Some (text_setting "homeQuickControlPreset" s)))
  then Some listed
  else normalizeHomeQuickControlOrder <$> preset_keys HOME_QUICK_CONTROL_PRESETS preset.

Definition derive_detailMetricCardOrder (s : ThemeSettings) : option (list value) :=
  let preset := parseDetailMetricCardPreset (setting "detailMetricCardPreset" s) in
  if negb (bool_decide (preset = Text (js "custom")))
  then as_values <$> preset_keys DETAIL_METRIC_CARD_PRESETS preset
  else Some (custom_cards "detailMetricCardKeys" isDetailMetricCardKey DEFAULT_DETAIL_METRIC_CARD_ORDER
               parseDetailMetricCardSlots s).

Section derive.
Context `{JsonParse, CaseMapping}.

Definition derive_chartDashboardTemplate (s : ThemeSettings) : option (list value) :=
  let template := as_values (parseChartDashboardTemplate (setting "chartDashboardTemplate" s)) in
  if negb (bool_decide (is_Some (text_setting "chartDashboardPreset" s))) then Some template
  else
    let preset := parseChartDashboardPreset (setting "chartDashboardPreset" s) in
    if bool_decide (preset = Text (js "advanced")) then Some template
    else if bool_decide (preset = Text (js "custom")) then
      match parseChartDashboardSlots s with
      | [] =>
          let customKeys := match text_setting "chartDashboardTemplate" s with
                            | Some x => trim x | None => [] end in
          if negb (bool_decide (customKeys = []))
          then Some (as_values (parseChartDashboardTemplate (Some (JStr customKeys))))
          else Some (as_values DEFAULT_CHART_DASHBOARD_CARDS)
      | l => Some l
      end
    else as_values <$> preset_keys CHART_DASHBOARD_PRESETS preset.

Definition deriveAppSettings (s : ThemeSettings) : option DerivedAppSettings :=
  generalOrder ← derive_generalCardOrder s;
  quickOrder ← derive_homeQuickControlOrder s;
  detailOrder ← derive_detailMetricCardOrder s;
  template ← derive_chartDashboardTemplate s;
  lightUrl ← resolveBackgroundSource (setting "lightBackgroundUrl" s);
  darkUrl ← resolveBackgroundSource (setting "darkBackgroundUrl" s);
  let vision := parseColorVisionMode (setting "colorVisionMode" s) in
  Some {|
    defaultViewMode := choice ["card"; "list"]%string "card" s "defaultViewMode";
    nodeCardSize := choice ["mini"; "compact"; "comfortable"; "large"]%string "compact" s "nodeCardSize";
    rpcTransportMode := choice ["websocket"; "http"]%string "http" s "rpcTransportMode";
    alertEnabled := readBooleanSetting s "alertEnabled" false;
    alertTitle := plain_text s "alertTitle";
    alertContent := plain_text s "alertContent";
    dataUpdateInterval := readNumberSetting s "dataUpdateInterval" 3 1 60;
    stopEarth := readBooleanSetting s "stopEarth" false;
    earthRenderer := choice ["realistic"; "cobe"; "tiled"]%string "realistic" s "earthRenderer";
    hideEarth := readBooleanSetting s "hideEarth" false;
    hideGeneralCard := readBooleanSetting s "hideGeneralCard" false;
    visitorInfoEnabled := readBooleanSetting s "visitorInfoEnabled" true;
    generalCardEnabledMap := derive_generalCardEnabledMap s;
    generalCardOrder := generalOrder;
    homeToolsEnabled := readBooleanSetting s "homeToolsEnabled" true;
    glassColorPreset := parseGlassColorPreset (setting "glassColorPreset" s);
    glassCustomColors := parseGlassCustomColors s;
    colorVisionMode := vision;
    colorVisionFriendly := bool_decide (vision = Text (js "accessible"));
    homeQuickControlsEnabled := readBooleanSetting s "homeQuickControlsEnabled" true;
    homeQuickControlOrder := quickOrder;
    nodeListMetadataEnabled := readBooleanSetting s "nodeListMetadataEnabled" true;
    nodeListMetadataFields := parseKeyList (setting "nodeListMetadataFields" s) isNodeListMetadataField
      DEFAULT_NODE_LIST_METADATA_FIELDS;
    nodeListCustomTagsVisible := readBooleanSetting s "nodeListCustomTagsVisible" true;
    nodeDetailSectionTabsEnabled := readBooleanSetting s "nodeDetailSectionTabsEnabled" false;
    gpuChartEnabled := readBooleanSetting s "gpuChartEnabled" false;
    detailMetricCardOrder := detailOrder;
    offlineNodesLast := readBooleanSetting s "offlineNodesLast" false;
    homeHighLoadThreshold := readNumberSetting s "homeHighLoadThreshold" 80 1 100;
    homeTrafficWarningThreshold := readNumberSetting s "homeTrafficWarningThreshold" 80 1 100;
    homeExpiringDays := readNumberSetting s "homeExpiringDays" 30 1 3650;
    diskPredictionEnabled := readBooleanSetting s "diskPredictionEnabled" false;
    diskPredictionThresholdDays := readNumberSetting s "diskPredictionThresholdDays" 30 1 3650;
    chartDashboardTemplate := template;
    hideAdminEntryWhenLoggedOut := readBooleanSetting s "hideAdminEntryWhenLoggedOut" false;
    hidePriceWhenLoggedOut := readBooleanSetting s "hidePriceWhenLoggedOut" false;
    providerAliases := readStringSetting s "providerAliases" [];
    exportSecondaryPassword := readStringSetting s "exportSecondaryPassword" [];
    disablePageAnimation := readBooleanSetting s "disablePageAnimation" false;
    backgroundEnabled := readBooleanSetting s "backgroundEnabled" false;
    backgroundType := choice ["image"; "video"]%string "image" s "backgroundType";
    lightBackgroundUrl := lightUrl;
    darkBackgroundUrl := darkUrl;
    backgroundBlur := readNumberSetting s "backgroundBlur" 0 0 9007199254740991;
    backgroundOverlay := readNumberSetting s "backgroundOverlay" 0 (-100) 100;
    managedThemeMode := choice ["beijing"; "light"; "dark"]%string "beijing" s "themeMode";
  |}.
End derive.

(** ** Key lists *)

Section dedup.
Context {A : Type} `{EqDecision A}.

Lemma dedup_NoDup (l acc : list A) : NoDup acc → NoDup (dedup l acc).
Proof using.
  revert acc. induction l as [|x l IH]; intros acc Hacc; [done|]. apply IH.
  case_bool_decide as Hx; [done|]. apply NoDup_app. split_and!; [done|set_solver|apply NoDup_singleton].
Qed.

Lemma elem_of_dedup (l acc : list A) x : x ∈ dedup l acc ↔ x ∈ acc ∨ x ∈ l.
Proof using.
  revert acc. induction l as [|y l IH]; intros acc; cbn [dedup]; [set_solver|].
  rewrite IH. case_bool_decide; set_solver.
Qed.

Lemma dedup_nil (l : list A) : dedup l [] = [] ↔ l = [].
Proof using.
  split; [|by intros ->]. destruct l as [|x l]; [done|]. intros Hd.
  assert (x ∈ dedup (x :: l) []) as Hx by (apply elem_of_dedup; set_solver). rewrite Hd in Hx. set_solver.
Qed.
End dedup.

(** Distinct members of a list of keys. *)
Definition keys_in (all : list jsstring) (l : list jsstring) : Prop := NoDup l ∧ ∀ k, k ∈ l → k ∈ all.

Definition cards_in (all : list jsstring) (l : list value) : Prop :=
  NoDup l ∧ ∀ k, Text k ∈ l → k ∈ all.

#[local] Instance keys_in_dec all l : Decision (keys_in all l).
Proof.
  refine (cast_if (decide (NoDup l ∧ Forall (λ k, k ∈ all) l))); unfold keys_in; by rewrite <-Forall_forall.
Defined.

Lemma keys_in_values all l : keys_in all l → cards_in all (as_values l).
Proof.
  intros [Hnd Hall]. split.
  - apply NoDup_fmap_2; [|done]. by intros x y [=].
  - intros k (x & [= ->] & Hx)%list_elem_of_fmap. auto.
Qed.

Lemma keys_in_bfilter all f l : keys_in all l → keys_in all (bfilter f l).
Proof.
  intros [Hnd Hall]. split; [by apply NoDup_bfilter|]. intros k [_ Hk]%elem_of_bfilter. auto.
Qed.

Lemma dedup_keys all l : keys_in all l → keys_in all (dedup all l).
Proof.
  intros [Hnd Hall]. split; [by apply dedup_NoDup|]. intros k [?|?]%elem_of_dedup; [by apply Hall|done].
Qed.

(** [parseKeyList] lists valid keys once each, and falls back on the default
    exactly when the input has none. *)
Lemma parseKeyList_spec v isValid fallback :
  let keys := bfilter isValid (raw_items v) in
  let l := parseKeyList v isValid fallback in
  (keys = [] ∧ l = fallback) ∨
  (keys ≠ [] ∧ l ≠ [] ∧ NoDup l ∧ ∀ k, k ∈ l ↔ isValid k = true ∧ k ∈ raw_items v).
Proof.
  cbn zeta. unfold parseKeyList. set (keys := bfilter isValid (raw_items v)).
  assert (NoDup (dedup keys [])) as Hnd by (apply dedup_NoDup; constructor).
  pose proof (dedup_nil keys) as Hnil.
  assert (∀ k, k ∈ dedup keys [] ↔ isValid k = true ∧ k ∈ raw_items v) as Hin.
  { intros k. rewrite elem_of_dedup. unfold keys. rewrite elem_of_bfilter. set_solver. }
  destruct (dedup keys []) as [|k l]; [left; split; [by apply Hnil|done]|right].
  split_and!; [|done|done|done]. intros Hk. apply Hnil in Hk. done.
Qed.

(** A test that accepts members of [all] only. *)
Definition accepts_in (all : list jsstring) (isKey : jsstring → bool) : Prop :=
  ∀ k, isKey k = true → k ∈ all.

Lemma parseKeyList_keys all isKey v fallback :
  accepts_in all isKey → keys_in all fallback → keys_in all (parseKeyList v isKey fallback).
Proof.
  intros Hk Hf. destruct (parseKeyList_spec v isKey fallback) as [[_ ->]|(_ & _ & Hnd & Hin)]; [done|].
  split; [done|]. intros k [? _]%Hin. by apply Hk.
Qed.

Lemma parseKeyList_ne v isValid fallback : fallback ≠ [] → parseKeyList v isValid fallback ≠ [].
Proof.
  intros Hf. destruct (parseKeyList_spec v isValid fallback) as [[_ ->]|(_ & ? & _)]; done.
Qed.

(** ** Tables *)

Definition table_values_in (all : list jsstring) (m : jsmap jsstring jsstring) : bool :=
  every (λ kv, bool_decide (kv.2 ∈ all)) m.

Lemma label_tables :
  table_values_in ALL_GENERAL_CARD_KEYS GENERAL_CARD_LABEL_ALIASES = true ∧
  table_values_in ALL_DETAIL_METRIC_CARD_KEYS DETAIL_METRIC_CARD_LABEL_ALIASES = true ∧
  table_values_in ALL_CHART_DASHBOARD_CARDS CHART_DASHBOARD_LABEL_ALIASES = true.
Proof. split_and!; vm_compute; reflexivity. Qed.

Definition presets_ok (all : list jsstring) (m : jsmap jsstring (list jsstring)) : bool :=
  every (λ kv, bool_decide (keys_in all kv.2)) m.

Lemma preset_tables :
  presets_ok ALL_GENERAL_CARD_KEYS GENERAL_CARD_PRESETS = true ∧
  presets_ok ALL_HOME_QUICK_CONTROL_KEYS HOME_QUICK_CONTROL_PRESETS = true ∧
  presets_ok ALL_DETAIL_METRIC_CARD_KEYS DETAIL_METRIC_CARD_PRESETS = true ∧
  presets_ok ALL_CHART_DASHBOARD_CARDS CHART_DASHBOARD_PRESETS = true.
Proof. split_and!; vm_compute; reflexivity. Qed.

Lemma defaults_in :
  keys_in ALL_GENERAL_CARD_KEYS DEFAULT_GENERAL_CARD_ORDER ∧
  keys_in ALL_HOME_QUICK_CONTROL_KEYS DEFAULT_HOME_QUICK_CONTROL_ORDER ∧
  keys_in ALL_NODE_LIST_METADATA_FIELDS DEFAULT_NODE_LIST_METADATA_FIELDS ∧
  keys_in ALL_DETAIL_METRIC_CARD_KEYS DEFAULT_DETAIL_METRIC_CARD_ORDER ∧
  keys_in ALL_CHART_DASHBOARD_CARDS DEFAULT_CHART_DASHBOARD_CARDS.
Proof. decide_closed. Qed.

Lemma metadata_default_ne : DEFAULT_NODE_LIST_METADATA_FIELDS ≠ [].
Proof. vm_compute. discriminate. Qed.

#[local] Opaque ALL_GENERAL_CARD_KEYS ALL_HOME_QUICK_CONTROL_KEYS ALL_NODE_LIST_METADATA_FIELDS
  ALL_DETAIL_METRIC_CARD_KEYS ALL_CHART_DASHBOARD_CARDS DEFAULT_GENERAL_CARD_ORDER
  DEFAULT_HOME_QUICK_CONTROL_ORDER DEFAULT_NODE_LIST_METADATA_FIELDS DEFAULT_DETAIL_METRIC_CARD_ORDER
  DEFAULT_CHART_DASHBOARD_CARDS inherited_keys.

Lemma preset_cards all m p l :
  presets_ok all m = true →
  preset_keys m p = Some l → keys_in all l.
Proof.
  intros Ht Hp. unfold presets_ok in Ht. rewrite every_true in Ht. destruct p as [k|k]; [|done]. apply jm_get_elem_of in Hp.
  specialize (Ht _ Hp). by reflect_bools.
Qed.

(** ** Slots *)

Lemma slot_keys_in all isKey labels s slot k :
  accepts_in all isKey → table_values_in all labels = true →
  slot_key isKey labels s slot = Some (Text k) → k ∈ all.
Proof.
  intros Hk Ht. unfold slot_key, property. destruct (text_setting slot s) as [t|]; [|done].
  destruct (isKey (trim t)) eqn:Hi; [intros [= <-]; by apply Hk|]. destruct (jm_get (trim t) labels) as [x|] eqn:Hx.
  - intros [= <-]. unfold table_values_in in Ht. rewrite every_true in Ht.
    apply jm_get_elem_of in Hx. specialize (Ht _ Hx). by reflect_bools.
  - by case_bool_decide.
Qed.

Lemma parse_slots_cards all isKey labels prefix n s :
  accepts_in all isKey → table_values_in all labels = true →
  cards_in all (parse_slots isKey labels prefix n s).
Proof.
  intros Hkey Ht. unfold parse_slots. generalize (seq 1 n) as ns. intros ns.
  match goal with |- context [foldl ?f [] ns] => set (step := f) end.
  assert (cards_in all []) as Hacc by (split; [constructor|set_solver]). revert Hacc.
  generalize ([] : list value) as acc. induction ns as [|i ns IH]; intros acc Hacc; [done|]. cbn [foldl].
  apply IH. unfold step. destruct (slot_key _ _ _ _) as [k|] eqn:Hk; [|done]. case_bool_decide; [done|].
  destruct Hacc as [Hnd Hall]. split.
  - apply NoDup_app. split_and!; [done|set_solver|apply NoDup_singleton].
  - intros k' [?|He%list_elem_of_singleton]%elem_of_app; [auto|]. subst k. by eapply slot_keys_in.
Qed.

Lemma custom_cards_in all keysSetting isKey fallback slots s :
  accepts_in all isKey → keys_in all fallback → cards_in all (slots s) →
  cards_in all (custom_cards keysSetting isKey fallback slots s).
Proof.
  intros Hk Hf Hs. unfold custom_cards. cbn zeta. case_match.
  - by apply keys_in_values, parseKeyList_keys.
  - destruct (slots s); [by apply keys_in_values|done].
Qed.

Lemma tests_accept :
  accepts_in ALL_GENERAL_CARD_KEYS isGeneralCardKey ∧
  accepts_in ALL_HOME_QUICK_CONTROL_KEYS isHomeQuickControlKey ∧
  accepts_in ALL_NODE_LIST_METADATA_FIELDS isNodeListMetadataField ∧
  accepts_in ALL_DETAIL_METRIC_CARD_KEYS isDetailMetricCardKey ∧
  accepts_in ALL_CHART_DASHBOARD_CARDS isChartDashboardCardKey.
Proof. split_and!; intros k; apply bool_decide_eq_true_1. Qed.

Lemma as_values_preset all m p l :
  presets_ok all m = true →
  as_values <$> preset_keys m p = Some l → cards_in all l.
Proof.
  intros Hin. destruct (preset_keys m p) as [x|] eqn:Hp; [|done]. intros Hl%(inj Some); subst l.
  apply keys_in_values. by eapply preset_cards.
Qed.

(** ** The derived orders *)

Lemma generalCardOrder_cards s l :
  derive_generalCardOrder s = Some l → cards_in ALL_GENERAL_CARD_KEYS l.
Proof.
  destruct defaults_in as (Hd & _). destruct label_tables as (Ht & _).
  destruct tests_accept as (Hk & _).
  unfold derive_generalCardOrder. cbn zeta. case_bool_decide.
  - case_bool_decide.
    + intros Hl%(inj Some); subst l. apply custom_cards_in; [done|done|]. by apply parse_slots_cards.
    + apply as_values_preset, preset_tables.
  - destruct (text_setting "generalCardKeys" s) as [x|]; intros Hl%(inj Some); subst l;
      [by apply keys_in_values, parseKeyList_keys|].
    apply keys_in_values, keys_in_bfilter.
    by apply dedup_keys, parseKeyList_keys.
Qed.

Lemma homeQuickControlOrder_keys s l :
  derive_homeQuickControlOrder s = Some l → keys_in ALL_HOME_QUICK_CONTROL_KEYS l.
Proof.
  destruct defaults_in as (_ & Hd & _). destruct tests_accept as (_ & Hk & _). unfold derive_homeQuickControlOrder. cbn zeta.
  assert (∀ x, keys_in ALL_HOME_QUICK_CONTROL_KEYS x →
    keys_in ALL_HOME_QUICK_CONTROL_KEYS (normalizeHomeQuickControlOrder x)) as Hn.
  { intros x [_ Hx]. split; [apply dedup_NoDup; constructor|].
    intros k [?|?]%elem_of_dedup; [set_solver|auto]. }
  case_bool_decide; [intros Hl%(inj Some); subst l; by apply Hn, parseKeyList_keys|].
  case_match; [intros Hl%(inj Some); subst l; by apply Hn, parseKeyList_keys|].
  destruct (preset_keys _ _) as [x|] eqn:Hp; [|done]. intros Hl%(inj Some); subst l. apply Hn.
  eapply preset_cards; [apply preset_tables|done].
Qed.

Lemma detailMetricCardOrder_cards s l :
  derive_detailMetricCardOrder s = Some l → cards_in ALL_DETAIL_METRIC_CARD_KEYS l.
Proof.
  destruct defaults_in as (_ & _ & _ & Hd & _). destruct label_tables as (_ & Ht & _).
  destruct tests_accept as (_ & _ & _ & Hk & _).
  unfold derive_detailMetricCardOrder. cbn zeta. case_match.
  - apply as_values_preset, preset_tables.
  - intros Hl%(inj Some); subst l. apply custom_cards_in; [done|done|]. by apply parse_slots_cards.
Qed.

Section derived.
Context `{JsonParse, CaseMapping}.

Lemma chartTemplate_keys v : keys_in ALL_CHART_DASHBOARD_CARDS (parseChartDashboardTemplate v).
Proof.
  destruct defaults_in as (_ & _ & _ & _ & Hd). destruct tests_accept as (_ & _ & _ & _ & Hk).
  unfold parseChartDashboardTemplate. cbn zeta.
  repeat case_match; by try apply parseKeyList_keys.
Qed.

Lemma chartDashboardTemplate_cards s l :
  derive_chartDashboardTemplate s = Some l → cards_in ALL_CHART_DASHBOARD_CARDS l.
Proof.
  destruct defaults_in as (_ & _ & _ & _ & Hd). destruct label_tables as (_ & _ & Ht).
  destruct tests_accept as (_ & _ & _ & _ & Hk).
  unfold derive_chartDashboardTemplate. cbn zeta.
  assert (∀ v, cards_in ALL_CHART_DASHBOARD_CARDS (as_values (parseChartDashboardTemplate v))) as Hv
    by (intros; apply keys_in_values, chartTemplate_keys).
  case_match; [intros Hl%(inj Some); subst l; apply Hv|].
  case_match; [intros Hl%(inj Some); subst l; apply Hv|].
  case_match; [|apply as_values_preset, preset_tables].
  assert (cards_in ALL_CHART_DASHBOARD_CARDS (parseChartDashboardSlots s)) as Hs
    by by apply parse_slots_cards.
  destruct (parseChartDashboardSlots s) as [|x xs].
  - case_match; intros Hl%(inj Some); subst l; [apply Hv|by apply keys_in_values].
  - intros Hl%(inj Some); by subst l.
Qed.

(** ** Bounds and colours *)

Definition between (lo hi : Z) (x : num) : Prop :=
  num_leb (num_of_Z lo) x = true ∧ num_leb x (num_of_Z hi) = true.

Lemma readNumberSetting_between s k fallback lo hi :
  is_nan (num_of_Z lo) = false → is_nan (num_of_Z hi) = false →
  num_leb (num_of_Z lo) (num_of_Z hi) = true → between lo hi (num_of_Z fallback) →
  between lo hi (readNumberSetting s k fallback lo hi).
Proof.
  intros Hlo Hhi Hle Hf. unfold readNumberSetting. destruct (setting k s) as [[]|]; try done.
  destruct (isFinite x) eqn:Hx; [|done]. apply clamp_bounds; try done. by apply finite_not_nan.
Qed.

Definition color_list (c : GlassCustomColors) : list jsstring :=
  [lightCard c; lightControl c; lightText c; lightMutedText c; lightBorder c;
   darkCard c; darkControl c; darkText c; darkMutedText c; darkBorder c].

Lemma default_colors : every hex_color (color_list DEFAULT_GLASS_CUSTOM_COLORS) = true.
Proof. vm_compute. reflexivity. Qed.

Lemma readColorValue_hex v fallback :
  hex_color fallback = true → hex_color (readColorValue v fallback) = true.
Proof. intros Hf. unfold readColorValue. by repeat case_match. Qed.

Lemma readColorSetting_hex s k fallback :
  hex_color fallback = true → hex_color (readColorSetting s k fallback) = true.
Proof. intros Hf. unfold readColorSetting. cbn zeta. by case_match. Qed.

Lemma parseGlassCustomColors_hex s : every hex_color (color_list (parseGlassCustomColors s)) = true.
Proof.
  assert (∀ c, every hex_color (color_list c) = true ↔ Forall (λ x, hex_color x = true) (color_list c)) as Hall.
  { intros c. rewrite every_true, Forall_forall. done. }
  assert (every hex_color (color_list (legacyColors s)) = true) as Hl.
  { pose proof default_colors as Hd. rewrite Hall in Hd |- *. unfold color_list in Hd.
    decompose_Forall_hyps. repeat constructor; by apply readColorSetting_hex. }
  assert (∀ m, every hex_color (color_list (record_colors m (legacyColors s))) = true) as Hr.
  { intros m. rewrite Hall in Hl |- *. unfold color_list in Hl.
    decompose_Forall_hyps. repeat constructor; by apply readColorValue_hex. }
  unfold parseGlassCustomColors. cbn zeta. by repeat case_match.
Qed.

Lemma choice_in allowed fallback s k :
  fallback ∈ allowed → choice allowed fallback s k ∈ texts allowed.
Proof.
  intros Hf. assert (js fallback ∈ texts allowed) by (by apply list_elem_of_fmap_2).
  unfold choice. destruct (text_setting k s); [|done]. by case_bool_decide.
Qed.

(** ** Background sources *)

Lemma encode_all_spec l r :
  encode_all l = Some r → Forall2 (λ x y, encodeURIComponent x = Some y) l r.
Proof using.
  revert r. induction l as [|x l IH]; intros r; cbn [encode_all]; [intros [= <-]; constructor|].
  destruct (encodeURIComponent x) as [y|] eqn:Hx; [|done].
  destruct (encode_all l) as [r'|]; [|done]. intros [= <-]. constructor; auto.
Qed.

(** What a URL segment may contain: unreserved characters and escapes. *)
Definition segment_unit (u : Z) : bool := is_unreserved u || bool_decide (u = 37).

Lemma hex_digit_unit n : 0 ≤ n < 16 → segment_unit (hex_digit n) = true.
Proof using.
  intros Hn. unfold hex_digit. case_bool_decide as H10; unfold segment_unit, is_unreserved.
  - rewrite (bool_decide_eq_true_2 (48 ≤ 48 + n ≤ 57)) by lia. done.
  - rewrite (bool_decide_eq_true_2 (65 ≤ 55 + n ≤ 90)) by lia. by rewrite !orb_true_r.
Qed.

Lemma percent_units b : 0 ≤ b < 256 → every segment_unit (percent b) = true.
Proof using.
  intros Hb. unfold percent. cbn [every forallb]. rewrite !hex_digit_unit; [done|..].
  - change 15 with (Z.ones 4). rewrite Z.land_ones by lia. apply Z.mod_pos_bound. lia.
  - rewrite Z.shiftr_div_pow2 by lia. change (2 ^ 4) with 16. split.
    + apply Z.div_pos; lia.
    + apply Z.div_lt_upper_bound; lia.
Qed.

Definition unit_range (s : jsstring) : bool := every (λ u, bool_decide (0 ≤ u < 65536)) s.

Lemma land63 z : 0 ≤ Z.land z 63 < 64.
Proof using. change 63 with (Z.ones 6). rewrite Z.land_ones by lia. apply Z.mod_pos_bound. lia. Qed.

Lemma shiftr_bound z k n : 0 ≤ k → 0 ≤ z < n * 2 ^ k → 0 ≤ Z.shiftr z k < n.
Proof using.
  intros Hk Hz. rewrite Z.shiftr_div_pow2 by lia. split.
  - apply Z.div_pos; [lia|]. apply Z.pow_pos_nonneg; lia.
  - apply Z.div_lt_upper_bound; [apply Z.pow_pos_nonneg; lia|lia].
Qed.

Lemma utf8_bytes_range c : 0 ≤ c < 1114112 → ∀ b, b ∈ utf8_bytes c → 0 ≤ b < 256.
Proof using.
  intros Hc b. unfold utf8_bytes.
  pose proof (land63 c). pose proof (land63 (Z.shiftr c 6)). pose proof (land63 (Z.shiftr c 12)).
  case_bool_decide; [set_solver by lia|].
  case_bool_decide; [pose proof (shiftr_bound c 6 32); set_solver by lia|].
  case_bool_decide; [pose proof (shiftr_bound c 12 16); set_solver by lia|].
  pose proof (shiftr_bound c 18 5). set_solver by lia.
Qed.

Lemma every_app (f : Z → bool) l1 l2 : every f (l1 ++ l2) = every f l1 && every f l2.
Proof using. unfold every. apply forallb_app. Qed.

Lemma encode_char_units c : 0 ≤ c < 1114112 → every segment_unit (encode_char c) = true.
Proof using.
  intros Hc. unfold encode_char. destruct (is_unreserved c) eqn:Hu.
  - cbn. unfold segment_unit. by rewrite Hu.
  - pose proof (utf8_bytes_range c Hc) as Hb. induction (utf8_bytes c) as [|b l IH]; [done|].
    change ((b :: l) ≫= percent) with (percent b ++ (l ≫= percent)).
    rewrite every_app, percent_units, IH; [done|set_solver|apply Hb; set_solver].
Qed.

Lemma code_points_range s : unit_range s = true → ∀ c, c ∈ code_points s → 0 ≤ c < 1114112.
Proof using.
  unfold unit_range. intros Hs.
  assert (∀ n s, (length s ≤ n)%nat → (∀ u, u ∈ s → 0 ≤ u < 65536) →
    ∀ c, c ∈ code_points s → 0 ≤ c < 1114112) as Hn.
  { clear. intros n. induction n as [|n IH]; intros s Hlen Hs c.
    { destruct s; [set_solver|cbn in Hlen; lia]. }
    destruct s as [|u [|v s]]; cbn [code_points].
    - set_solver.
    - intros ->%list_elem_of_singleton. specialize (Hs u ltac:(set_solver)). lia.
    - pose proof (Hs u ltac:(set_solver)). pose proof (Hs v ltac:(set_solver)).
      destruct (is_high u && is_low v) eqn:Hp.
      + unfold is_high, is_low in Hp. reflect_bools. rewrite Z.shiftl_mul_pow2 by lia.
        intros [->|Hc]%elem_of_cons; [lia|]. apply (IH s); [cbn in Hlen; lia|set_solver|done].
      + intros [->|Hc]%elem_of_cons; [lia|]. apply (IH (v :: s)); [cbn in *; lia|set_solver|done]. }
  apply (Hn (length s)); [done|]. intros u Hu. rewrite every_true in Hs. specialize (Hs u Hu).
  by reflect_bools.
Qed.

Lemma encode_points_units l :
  (∀ c, c ∈ l → 0 ≤ c < 1114112) → every segment_unit (l ≫= encode_char) = true.
Proof using.
  induction l as [|c l IH]; intros Hr; [done|].
  change ((c :: l) ≫= encode_char) with (encode_char c ++ (l ≫= encode_char)).
  rewrite every_app, encode_char_units, IH; [done|set_solver|apply Hr; set_solver].
Qed.

Lemma encoded_units x y :
  unit_range x = true → encodeURIComponent x = Some y → every segment_unit y = true.
Proof using.
  intros Hx. unfold encodeURIComponent. cbn zeta. case_match; [done|]. intros [= <-].
  apply encode_points_units. by apply code_points_range.
Qed.

(** An escaped segment without escapes is the segment itself. *)
Lemma encode_char_plain c : 37 ∉ encode_char c → is_unreserved c = true.
Proof using.
  unfold encode_char. destruct (is_unreserved c); [done|]. intros Hn. exfalso. apply Hn.
  unfold utf8_bytes. repeat case_match; csimpl; set_solver.
Qed.

Lemma encode_points_plain l : 37 ∉ (l ≫= encode_char) → l ≫= encode_char = l ∧ every is_unreserved l = true.
Proof using.
  induction l as [|c l IH]; [done|]. csimpl. rewrite not_elem_of_app. intros [Hc%encode_char_plain Hl].
  destruct (IH Hl) as [Hll Hu]. rewrite Hll. unfold encode_char. rewrite Hc. by split.
Qed.

Lemma unreserved_small c : is_unreserved c = true → 0 ≤ c < 128.
Proof using.
  unfold is_unreserved. intros Hu. repeat (apply orb_true_iff in Hu as [Hu|Hu]); reflect_bools; [lia..|].
  set_solver by lia.
Qed.

Lemma code_points_small s : (∀ c, c ∈ code_points s → c < 65536) → code_points s = s.
Proof using.
  assert (∀ n s, (length s ≤ n)%nat → (∀ c, c ∈ code_points s → c < 65536) → code_points s = s) as Hn.
  { clear. intros n. induction n as [|n IH]; intros s Hlen Hs.
    { destruct s; [done|cbn in Hlen; lia]. }
    destruct s as [|u [|v s]]; [done|done|]. cbn [code_points] in *.
    destruct (is_high u && is_low v) eqn:Hp.
    - exfalso. unfold is_high, is_low in Hp. reflect_bools. rewrite Z.shiftl_mul_pow2 in Hs by lia.
      specialize (Hs (65536 + (u - 55296) * 2 ^ 10 + (v - 56320)) ltac:(set_solver)). lia.
    - f_equal. apply (IH (v :: s)); [cbn in *; lia|]. intros c Hc. apply Hs. set_solver. }
  by apply (Hn (length s)).
Qed.

Lemma encoded_plain x y : encodeURIComponent x = Some y → 37 ∉ y → x = y.
Proof using.
  unfold encodeURIComponent. cbn zeta. case_match; [done|]. intros [= <-] Hn.
  destruct (encode_points_plain _ Hn) as [-> Hu]. symmetry. apply code_points_small. intros c Hc.
  rewrite every_true in Hu. apply Hu in Hc. pose proof (unreserved_small c Hc). lia.
Qed.

(** Segments come from the source. *)
Lemma split_char_units c s cur x u :
  x ∈ split_char c s cur → u ∈ x → u ∈ s ∨ u ∈ cur.
Proof using.
  revert cur. induction s as [|v s IH]; intros cur; cbn [split_char].
  - intros ->%list_elem_of_singleton. rewrite elem_of_reverse. by right.
  - case_bool_decide.
    + intros [->|Hx]%elem_of_cons Hu; [rewrite elem_of_reverse in Hu; by right|].
      destruct (IH [] Hx Hu); set_solver.
    + intros Hx Hu. destruct (IH _ Hx Hu); set_solver.
Qed.

Lemma local_segments_range source x :
  unit_range source = true → x ∈ local_segments source → unit_range x = true ∧ x ≠ [].
Proof using.
  intros Hs [Hne Hin]%elem_of_bfilter. reflect_bools. split; [|done].
  unfold unit_range in *. rewrite every_true in Hs |- *. intros u Hu.
  destruct (split_char_units _ _ _ _ _ Hin Hu) as [Hm|Hm]; [|set_solver].
  apply list_elem_of_fmap in Hm as (v & -> & Hv). apply bool_decide_eq_true_2.
  case_bool_decide; [lia|].
  assert (v ∈ source) as Hvs by (eapply elem_of_submseteq; [exact Hv|apply submseteq_drop]).
  specialize (Hs v Hvs). by reflect_bools.
Qed.

Lemma unit_range_trim s : unit_range s = true → unit_range (trim s) = true.
Proof using.
  assert (∀ s u, u ∈ trimStart s → u ∈ s) as Ht.
  { intros s0 u Hu. destruct (trimStart_suffix s0) as [k ->]. set_solver. }
  unfold unit_range. rewrite !every_true. intros Hs u Hu. apply Hs.
  unfold trim, trimEnd in Hu. rewrite elem_of_reverse in Hu. apply Ht in Hu.
  rewrite elem_of_reverse in Hu. by apply Ht.
Qed.

(** ** Well-formed settings *)

Record settings_ok (d : DerivedAppSettings) : Prop := {
  ok_generalCards : cards_in ALL_GENERAL_CARD_KEYS (generalCardOrder d);
  ok_quickControls : keys_in ALL_HOME_QUICK_CONTROL_KEYS (homeQuickControlOrder d);
  ok_metadata : keys_in ALL_NODE_LIST_METADATA_FIELDS (nodeListMetadataFields d)
    ∧ nodeListMetadataFields d ≠ [];
  ok_detailCards : cards_in ALL_DETAIL_METRIC_CARD_KEYS (detailMetricCardOrder d);
  ok_dashboard : cards_in ALL_CHART_DASHBOARD_CARDS (chartDashboardTemplate d);
  ok_interval : between 1 60 (dataUpdateInterval d);
  ok_highLoad : between 1 100 (homeHighLoadThreshold d);
  ok_traffic : between 1 100 (homeTrafficWarningThreshold d);
  ok_expiring : between 1 3650 (homeExpiringDays d);
  ok_prediction : between 1 3650 (diskPredictionThresholdDays d);
  ok_blur : between 0 9007199254740991 (backgroundBlur d);
  ok_overlay : between (-100) 100 (backgroundOverlay d);
  ok_colors : every hex_color (color_list (glassCustomColors d)) = true;
  ok_view : defaultViewMode d ∈ NodeViewMode;
  ok_size : nodeCardSize d ∈ NodeCardSize;
  ok_transport : rpcTransportMode d ∈ RpcTransportMode;
  ok_earth : earthRenderer d ∈ EarthRenderer;
  ok_theme : managedThemeMode d ∈ ManagedThemeMode;
}.

(** A preset setting that names an own property of its alias table, or none. *)
Definition preset_plain (s : ThemeSettings) (k : string) : Prop :=
  ∀ x, text_setting k s = Some x → trim x ∉ inherited_keys.

Lemma parse_alias_text m fallback s k :
  preset_plain s k →
  ∃ t, parse_alias m fallback (setting k s) = Text t ∧ t ∈ js fallback :: jm_values m.
Proof using.
  intros Hp. unfold preset_plain, text_setting in Hp. unfold parse_alias.
  destruct (setting k s) as [[| | |x| |]|]; try (eexists; split; [done|set_solver]).
  specialize (Hp x eq_refl). unfold property. destruct (jm_get (trim x) m) as [t|] eqn:Ht.
  - exists t. split; [done|]. apply elem_of_cons. right. apply jm_get_elem_of in Ht.
    apply list_elem_of_fmap. by exists (trim x, t).
  - rewrite bool_decide_eq_false_2 by done. eexists. split; [done|set_solver].
Qed.

Definition presets_defined (fallback : string) (m : jsmap jsstring jsstring)
    (p : jsmap jsstring (list jsstring)) (others : list jsstring) : bool :=
  every (λ t, jm_has t p || bool_decide (t ∈ others)) (js fallback :: jm_values m).

Lemma presets_all_defined :
  presets_defined "basic" GENERAL_CARD_PRESET_ALIASES GENERAL_CARD_PRESETS [] = true ∧
  presets_defined "full" HOME_QUICK_CONTROL_PRESET_ALIASES HOME_QUICK_CONTROL_PRESETS [] = true ∧
  presets_defined "finance" DETAIL_METRIC_CARD_PRESET_ALIASES DETAIL_METRIC_CARD_PRESETS [] = true ∧
  presets_defined "all" CHART_DASHBOARD_PRESET_ALIASES CHART_DASHBOARD_PRESETS [js "advanced"] = true.
Proof using. split_and!; vm_compute; reflexivity. Qed.

Lemma preset_keys_defined fallback m p others s k :
  presets_defined fallback m p others = true → preset_plain s k →
  is_Some (preset_keys p (parse_alias m fallback (setting k s)))
  ∨ ∃ t, parse_alias m fallback (setting k s) = Text t ∧ t ∈ others.
Proof using.
  intros Hd Hp. destruct (parse_alias_text m fallback s k Hp) as (t & -> & Ht).
  unfold presets_defined in Hd. rewrite every_true in Hd. specialize (Hd t Ht).
  apply orb_true_iff in Hd as [Hd|Hd]; [left|right; exists t; by reflect_bools].
  unfold preset_keys. unfold jm_has in Hd. by destruct (jm_get t p).
Qed.

(** ** Properties *)

Lemma derived_ok (s : ThemeSettings) (d : DerivedAppSettings) :
  deriveAppSettings s = Some d → settings_ok d.
Proof using.
  unfold deriveAppSettings. intros Hd.
  apply bind_Some in Hd as (l1 & H1 & Hd). apply bind_Some in Hd as (l2 & H2 & Hd).
  apply bind_Some in Hd as (l3 & H3 & Hd). apply bind_Some in Hd as (l4 & H4 & Hd).
  apply bind_Some in Hd as (u1 & _ & Hd). apply bind_Some in Hd as (u2 & _ & Hd).
  apply (inj Some) in Hd. subst d. destruct defaults_in as (_ & _ & Hm & _).
  destruct tests_accept as (_ & _ & Hk & _).
  split; cbn [generalCardOrder homeQuickControlOrder nodeListMetadataFields detailMetricCardOrder
    chartDashboardTemplate dataUpdateInterval homeHighLoadThreshold homeTrafficWarningThreshold
    homeExpiringDays diskPredictionThresholdDays backgroundBlur backgroundOverlay glassCustomColors
    defaultViewMode nodeCardSize rpcTransportMode earthRenderer managedThemeMode];
    try (apply readNumberSetting_between; vm_compute; (reflexivity || split; reflexivity));
    try (apply choice_in; set_solver).
  - by apply (generalCardOrder_cards s).
  - by apply (homeQuickControlOrder_keys s).
  - split; [by apply parseKeyList_keys|]. apply parseKeyList_ne, metadata_default_ne.
  - by apply (detailMetricCardOrder_cards s).
  - by apply (chartDashboardTemplate_cards s).
  - apply parseGlassCustomColors_hex.
Qed.

(** The derivation throws only for two reasons: a preset setting named like
    a property that every object inherits, or a local background whose name is
    not well-formed Unicode; with neither, it succeeds on every settings
    object. *)
Theorem derivation_succeeds (s : ThemeSettings) :
  (∀ k, k ∈ ["generalCardPreset"; "homeQuickControlPreset"; "detailMetricCardPreset";
             "chartDashboardPreset"]%string → preset_plain s k) →
  (∀ k, k ∈ ["lightBackgroundUrl"; "darkBackgroundUrl"]%string →
     is_Some (resolveBackgroundSource (setting k s))) →
  is_Some (deriveAppSettings s).
Proof using.
  intros Hp Hu. destruct presets_all_defined as (D1 & D2 & D3 & D4).
  assert (is_Some (derive_generalCardOrder s)) as [l1 E1].
  { unfold derive_generalCardOrder. cbn zeta. repeat case_match; try done. apply fmap_is_Some.
    destruct (preset_keys_defined _ _ _ _ s _ D1 (Hp "generalCardPreset"%string ltac:(set_solver)))
      as [?|(t & _ & ?)]; [done|set_solver]. }
  assert (is_Some (derive_homeQuickControlOrder s)) as [l2 E2].
  { unfold derive_homeQuickControlOrder. cbn zeta. repeat case_match; try done. apply fmap_is_Some.
    destruct (preset_keys_defined _ _ _ _ s _ D2 (Hp "homeQuickControlPreset"%string ltac:(set_solver)))
      as [?|(t & _ & ?)]; [done|set_solver]. }
  assert (is_Some (derive_detailMetricCardOrder s)) as [l3 E3].
  { unfold derive_detailMetricCardOrder. cbn zeta. case_match; [|done]. apply fmap_is_Some.
    destruct (preset_keys_defined _ _ _ _ s _ D3 (Hp "detailMetricCardPreset"%string ltac:(set_solver)))
      as [?|(t & _ & ?)]; [done|set_solver]. }
  assert (is_Some (derive_chartDashboardTemplate s)) as [l4 E4].
  { unfold derive_chartDashboardTemplate. cbn zeta. case_match; [done|].
    case_match eqn:Hadv; [done|]. apply bool_decide_eq_false_1 in Hadv.
    case_match; [by repeat case_match|]. apply fmap_is_Some.
    destruct (preset_keys_defined _ _ _ _ s _ D4 (Hp "chartDashboardPreset"%string ltac:(set_solver)))
      as [?|(t & Ht & Hin%list_elem_of_singleton)]; [done|].
    exfalso. apply Hadv. subst t. exact Ht. }
  destruct (Hu "lightBackgroundUrl"%string) as [u1 E5]; [set_solver|].
  destruct (Hu "darkBackgroundUrl"%string) as [u2 E6]; [set_solver|].
  unfold deriveAppSettings. rewrite E1, E2, E3, E4, E5, E6. cbn [mbind option_bind]. done.
Qed.

Lemma colour_presets (s : ThemeSettings) (d : DerivedAppSettings) :
  deriveAppSettings s = Some d →
  (preset_plain s "glassColorPreset" → ∃ t, glassColorPreset d = Text t ∧ t ∈ GlassColorPreset) ∧
  (preset_plain s "colorVisionMode" → ∃ t, colorVisionMode d = Text t ∧ t ∈ ColorVisionMode).
Proof using.
  unfold deriveAppSettings. intros Hd.
  do 6 (apply bind_Some in Hd as (? & _ & Hd)).
  apply (inj Some) in Hd. subst d. cbn [glassColorPreset colorVisionMode].
  unfold parseGlassColorPreset, parseColorVisionMode. split; intros Hp.
  - destruct (parse_alias_text GLASS_COLOR_PRESET_ALIASES "emerald" s _ Hp) as (t & -> & Ht).
    exists t. split; [done|]. revert t Ht. apply Forall_forall. decide_closed.
  - destruct (parse_alias_text COLOR_VISION_MODE_ALIASES "default" s _ Hp) as (t & -> & Ht).
    exists t. split; [done|]. revert t Ht. apply Forall_forall. decide_closed.
Qed.

(** C15: the derived settings are usable.  The derivation succeeds on every
    settings object, unless one of the four preset settings names a property
    that every object inherits (such as "constructor") or a local background
    has a name that cannot be encoded.  And whenever it succeeds: the five
    lists of cards, controls and fields contain no duplicate and no text but
    keys the page knows (an entry of a card list may also be an inherited
    function, when the setting names one), the list of metadata fields is not
    empty, numbers stay within their documented bounds, the view mode, card
    size, transport, earth renderer and theme mode are members of their unions,
    every custom colour is a hex colour; and the colour preset and the colour
    vision mode are members of their unions too, unless their setting names
    an inherited property. *)
Theorem derived_settings_well_formed (s : ThemeSettings) :
  ((∀ k, k ∈ ["generalCardPreset"; "homeQuickControlPreset"; "detailMetricCardPreset";
              "chartDashboardPreset"]%string → preset_plain s k) →
   (∀ k, k ∈ ["lightBackgroundUrl"; "darkBackgroundUrl"]%string →
      is_Some (resolveBackgroundSource (setting k s))) →
   is_Some (deriveAppSettings s)) ∧
  ∀ d, deriveAppSettings s = Some d →
    settings_ok d ∧
    (preset_plain s "glassColorPreset" → ∃ t, glassColorPreset d = Text t ∧ t ∈ GlassColorPreset) ∧
    (preset_plain s "colorVisionMode" → ∃ t, colorVisionMode d = Text t ∧ t ∈ ColorVisionMode).
Proof using.
  split; [apply derivation_succeeds|]. intros d Hd. split; [by apply (derived_ok s)|by apply colour_presets].
Qed.

(** A background given as a local file stays inside the directory of user
    assets: the derived address is empty, or it is that directory followed by
    non-empty segments of unreserved characters and escapes, none of which is
    [.] or [..]. *)
Theorem local_background_confined (source : jsstring) (url : jsstring) :
  unit_range source = true →
  startsWith (toLowerCase (trim source)) local_prefix = true →
  resolveBackgroundSource (Some (JStr source)) = Some url →
  url = [] ∨ ∃ segments, url = asset_root ++ join (js "/") segments ∧ segments ≠ [] ∧
    ∀ x, x ∈ segments → every segment_unit x = true ∧ x ≠ js "." ∧ x ≠ js "..".
Proof using.
  intros Hr Hl. unfold resolveBackgroundSource. cbn zeta. rewrite Hl. cbn [negb].
  set (segs := local_segments (trim source)). destruct (_ || _) eqn:Hbad; [by intros [= <-]; left|].
  apply orb_false_iff in Hbad as [Hne Hdots]. apply bool_decide_eq_false_1 in Hne.
  destruct (encode_all segs) as [l|] eqn:He; [|done]. intros [= <-]. right. exists l.
  apply encode_all_spec in He. split_and!; [done| |].
  - intros ->. apply Forall2_nil_inv_r in He. done.
  - intros y (i & Hy)%list_elem_of_lookup. destruct (Forall2_lookup_r _ _ _ _ _ He Hy) as (x & Hx & Hxy).
    apply list_elem_of_lookup_2 in Hx. assert (unit_range x = true) as Hxr.
    { by apply (local_segments_range (trim source)); [apply unit_range_trim|]. }
    split; [by eapply encoded_units|]. rewrite some_false in Hdots. specialize (Hdots x Hx).
    apply orb_false_iff in Hdots as [Hd1 Hd2]. reflect_bools.
    assert (∀ z, 37 ∉ z → x ≠ z → y ≠ z) as Hz.
    { intros z Hz Hxz ->. apply Hxz. by apply encoded_plain. }
    split; apply Hz; try done; decide_closed.
Qed.

(** Reading the settings object always ends: a text that contains JSON text
    that contains JSON text, to any depth, is unpacked to an object or
    replaced by the empty settings. *)
Theorem normalize_terminates (raw : option json) : is_Some (normalizeThemeSettings raw).
Proof using.
  assert (∀ n v, (match v with JStr s => length s < n | _ => True end)%nat →
    is_Some (normalize (S n) v)) as Hn.
  { intros n. induction n as [|n IH]; intros v Hv; cbn [normalize].
    - destruct (json_falsy v); [done|]. destruct v; try done. lia.
    - destruct (json_falsy v); [done|]. destruct v as [| | |s| |]; try done.
      destruct (JSON_parse s) as [v|] eqn:Hp; [|done]. apply (IH v).
      destruct v; try done. apply JSON_parse_string in Hp. lia. }
  unfold normalizeThemeSettings. destruct raw as [[]|]; try done; try apply (Hn 0%nat); try done.
  apply (Hn (S (length s))). lia.
Qed.

(** The alias tables inherit the properties of every object, so a preset
    named like one of them is not rejected: the whole derivation throws. *)
Theorem inherited_preset_throws :
  deriveAppSettings [("generalCardPreset"%string, JStr (js "constructor"))] = None.
Proof using. vm_compute. reflexivity. Qed.
End derived.

#[local] Transparent ALL_GENERAL_CARD_KEYS ALL_HOME_QUICK_CONTROL_KEYS ALL_NODE_LIST_METADATA_FIELDS
  ALL_DETAIL_METRIC_CARD_KEYS ALL_CHART_DASHBOARD_CARDS DEFAULT_GENERAL_CARD_ORDER
  DEFAULT_HOME_QUICK_CONTROL_ORDER DEFAULT_NODE_LIST_METADATA_FIELDS DEFAULT_DETAIL_METRIC_CARD_ORDER
  DEFAULT_CHART_DASHBOARD_CARDS inherited_keys.

(** The tables agree with the declared unions: every card key, control key,
    metric key and chart key of the types is accepted and no other; every
    preset of a type has a list of keys; every alias leads to a member of its
    union and every member is its own alias. *)
Theorem tables_match_unions :
  ALL_GENERAL_CARD_KEYS ≡ₚ GeneralCardKey ∧ ALL_HOME_QUICK_CONTROL_KEYS ≡ₚ HomeQuickControlKey ∧
  ALL_DETAIL_METRIC_CARD_KEYS ≡ₚ DetailMetricCardKey ∧ ALL_CHART_DASHBOARD_CARDS ≡ₚ ChartDashboardCardKey ∧
  jm_keys GENERAL_CARD_PRESETS ≡ₚ GeneralCardPreset ∧
  jm_keys HOME_QUICK_CONTROL_PRESETS ≡ₚ HomeQuickControlPreset ∧
  jm_keys DETAIL_METRIC_CARD_PRESETS ≡ₚ DetailMetricCardPreset ∧
  jm_keys CHART_DASHBOARD_PRESETS ++ [js "advanced"] ≡ₚ ChartDashboardPreset ∧
  jm_keys DEFAULT_GENERAL_CARD_ENABLED ≡ₚ GeneralCardKey ∧
  Forall (λ x, Forall (λ kv, kv.2 ∈ x.1) x.2 ∧ Forall (λ k, jm_get k x.2 = Some k) x.1)
    [(GeneralCardPreset, GENERAL_CARD_PRESET_ALIASES);
     (DetailMetricCardPreset, DETAIL_METRIC_CARD_PRESET_ALIASES);
     (ChartDashboardPreset, CHART_DASHBOARD_PRESET_ALIASES);
     (HomeQuickControlPreset, HOME_QUICK_CONTROL_PRESET_ALIASES);
     (GlassColorPreset, GLASS_COLOR_PRESET_ALIASES);
     (ColorVisionMode, COLOR_VISION_MODE_ALIASES)].
Proof. split_and!; decide_closed. Qed.

(** The metadata field [city] is a member of its union and the node list
    can show it, but the table of accepted fields misses it: whatever the
    settings say, it is never selected. *)
Theorem city_field_never_selected (v : option json) :
  js "city" ∈ NodeListMetadataField ∧
  js "city" ∉ parseKeyList v isNodeListMetadataField DEFAULT_NODE_LIST_METADATA_FIELDS.
Proof.
  split; [decide_closed|].
  destruct (parseKeyList_keys ALL_NODE_LIST_METADATA_FIELDS isNodeListMetadataField v
    DEFAULT_NODE_LIST_METADATA_FIELDS) as [_ Hall]; [apply tests_accept|apply defaults_in|].
  intros Hin%Hall. revert Hin. decide_closed.
Qed.

(** ** Witnesses *)

(** A parser that rejects every text. *)
#[refine] Definition no_json : JsonParse := {| JSON_parse := λ _, None |}.
Proof. done. Defined.

Definition demo_settings : jsmap string json :=
  [("dataUpdateInterval", JNum (num_of_Z 500)); ("generalCardPreset", JStr (js "custom"));
   ("generalCardKeys", JStr (js "disk, memory;disk"))]%string.

Lemma derived_settings_well_formed_witness :
  ∃ d, @deriveAppSettings no_json simple_case demo_settings = Some d ∧
       generalCardOrder d = [Text (js "disk"); Text (js "memory")] ∧
       between 1 60 (dataUpdateInterval d).
Proof.
  eexists. split; [vm_compute; reflexivity|]. split; [vm_compute; reflexivity|].
  apply (proj2 (@derived_settings_well_formed no_json simple_case demo_settings)). vm_compute. reflexivity.
Defined.

Lemma derivation_succeeds_witness : is_Some (@deriveAppSettings no_json simple_case demo_settings).
Proof.
  apply (@derivation_succeeds no_json simple_case demo_settings).
  - intros k Hk. assert (Forall (λ k, match text_setting k demo_settings with
      | Some x => trim x ∉ inherited_keys | None => True end)
      ["generalCardPreset"; "homeQuickControlPreset"; "detailMetricCardPreset";
       "chartDashboardPreset"]%string) as Hall.
    { repeat constructor; cbn [text_setting]; try exact I. decide_closed. }
    rewrite Forall_forall in Hall. specialize (Hall k Hk). intros x Hx. rewrite Hx in Hall. exact Hall.
  - intros k Hk. apply elem_of_cons in Hk as [->|Hk].
    + vm_compute. eexists. reflexivity.
    + apply list_elem_of_singleton in Hk as ->. vm_compute. eexists. reflexivity.
Defined.

Lemma local_background_confined_witness :
  ∃ url, @resolveBackgroundSource simple_case (Some (JStr (js "Local:a\b c"))) = Some url ∧
    url = js "/themes/user-assets/a/b%20c" ∧ url ≠ [].
Proof.
  eexists. split; [vm_compute; reflexivity|]. split; [vm_compute; reflexivity|].
  pose proof (@local_background_confined simple_case (js "Local:a\b c")
    (js "/themes/user-assets/a/b%20c")) as Hc.
  destruct Hc as [Hc|(l & Hl & _)]; [vm_compute; reflexivity|vm_compute; reflexivity|
    vm_compute; reflexivity| |].
  - vm_compute in Hc. discriminate Hc.
  - vm_compute. discriminate.
Defined.

End AppSettings.
