(* ===== verification/GeneralCards.v ===== *)
(** * The overview cards of the status page

    [glass-shared/views/generalCards.ts]: [buildGeneralCards] computes sums,
    averages, peaks and distributions over the nodes and lays out the cards in
    the order of the settings.  It composes [NodeCost], [NodeMetrics],
    [RegionHelper] and [Format].  Parameters: the dictionary [t], the
    formatting of numbers, times and amounts by [Intl], [Date.parse], [dayjs],
    [localeCompare] and the logarithm of [Format].  One run reads the clock at
    one time, [clock].  [None] is the [RangeError] of [toFixed]. *)

From Stdlib Require Import SpecFloat.
From S2P Require Import Prelude JsMap JsString Json JsValue JsNumber.
From S2P Require Import NodesStore NodeCost TagHelper Format NodeMetrics RegionHelper AppSettings.

Open Scope Z_scope.

Module GeneralCards.
Import Format NodeMetrics.

(** What is used of the snapshot; nodes by [String(id)]. *)
Record Snapshot := {
  public_sections : option (list jsstring);
  nodes_info : list (jsstring * NodeCost.CostInfo);
  finance_currency : option jsstring;
  exchange_rates : option NodeCost.ExchangeRates;
}.

Record GeneralMetricCard := {
  c_key : jsstring;
  c_label : jsstring;
  c_icon : jsstring;
  c_value : jsstring;
  c_unit : option jsstring;
  c_tooltip : option jsstring;
}.

Record OnlineStats := {
  count : Z;
  speed_up : num;
  speed_down : num;
  avgCpu : num;
  totalGpu : num;
  gpuNodeCount : Z;
  avgLoad : num;
  avgLoad5 : num;
  avgLoad15 : num;
  totalProcesses : num;
  totalConnectionsTcp : num;
  totalConnectionsUdp : num;
  trafficPeak : option TopNodeMetric;
  uploadPeakNode : option TopNodeMetric;
  downloadPeakNode : option TopNodeMetric;
  gpuPeakNode : option TopNodeMetric;
  connectionPeakNode : option TopNodeMetric;
  highLoadNodes : list NodeData;
}.

Record GeneralCardsContext := {
  snapshot : option Snapshot;
  lang : jsstring;
  nodes : list NodeData;
  byteDecimals : option ByteDecimalsConfig;
  homeHighLoadThreshold : num;
  homeExpiringDays : num;
  homeTrafficWarningThreshold : num;
  showPrice : bool;
  now : option Z;
}.

Definition newline : jsstring := [10].

Definition zero : num := num_of_Z 0.

(** ** Peaks, sums and distributions *)

Definition updateTopMetric (current : option TopNodeMetric) (n : NodeData) (v : num) : option TopNodeMetric :=
  if negb (isFinite v) then current
  else match current with
       | None => Some {| node := n; value := math_max zero v |}
       | Some m => if num_ltb (value m) v then Some {| node := n; value := math_max zero v |} else current
       end.

Definition empty_stats : OnlineStats :=
  {| count := 0; speed_up := zero; speed_down := zero; avgCpu := zero; totalGpu := zero; gpuNodeCount := 0;
     avgLoad := zero; avgLoad5 := zero; avgLoad15 := zero; totalProcesses := zero; totalConnectionsTcp := zero;
     totalConnectionsUdp := zero; trafficPeak := None; uploadPeakNode := None; downloadPeakNode := None;
     gpuPeakNode := None; connectionPeakNode := None; highLoadNodes := [] |}.

Definition named_gpu (n : NodeData) : bool :=
  match gpu_name n with Some s => negb (bool_decide (trim s = [])) | None => false end.

Section cards.
Context (t : jsstring → jsstring) (threshold : num).

Definition add_node (s : OnlineStats) (n : NodeData) : OnlineStats :=
  if negb (online n) then s
  else
    let usage := GpuHelper.gpuUsageFromStatus (gpu_report n) in
    let hasGpu := named_gpu n || num_ltb zero usage in
    {| count := count s + 1;
       speed_up := num_add (speed_up s) (or0 (net_out n));
       speed_down := num_add (speed_down s) (or0 (net_in n));
       avgCpu := num_add (avgCpu s) (or0 (cpu n));
       totalGpu := if hasGpu then num_add (totalGpu s) usage else totalGpu s;
       gpuNodeCount := if hasGpu then gpuNodeCount s + 1 else gpuNodeCount s;
       avgLoad := num_add (avgLoad s) (or0 (load n));
       avgLoad5 := num_add (avgLoad5 s) (or0 (load5 n));
       avgLoad15 := num_add (avgLoad15 s) (or0 (load15 n));
       totalProcesses := num_add (totalProcesses s) (or0 (process n));
       totalConnectionsTcp := num_add (totalConnectionsTcp s) (or0 (connections n));
       totalConnectionsUdp := num_add (totalConnectionsUdp s) (or0 (connections_udp n));
       trafficPeak := updateTopMetric (trafficPeak s) n (getRealtimeTotalSpeed n);
       uploadPeakNode := updateTopMetric (uploadPeakNode s) n (or0 (net_out n));
       downloadPeakNode := updateTopMetric (downloadPeakNode s) n (or0 (net_in n));
       connectionPeakNode := updateTopMetric (connectionPeakNode s) n (getConnectionCount n);
       gpuPeakNode := if hasGpu then updateTopMetric (gpuPeakNode s) n usage else gpuPeakNode s;
       highLoadNodes := if isHighLoadNode t n threshold then highLoadNodes s ++ [n] else highLoadNodes s |}.

Definition averaged (s : OnlineStats) : OnlineStats :=
  if bool_decide (0 < count s) then
    let by_count x := num_div x (num_of_Z (count s)) in
    {| count := count s; speed_up := speed_up s; speed_down := speed_down s; avgCpu := by_count (avgCpu s);
       totalGpu := totalGpu s; gpuNodeCount := gpuNodeCount s; avgLoad := by_count (avgLoad s);
       avgLoad5 := by_count (avgLoad5 s); avgLoad15 := by_count (avgLoad15 s); totalProcesses := totalProcesses s;
       totalConnectionsTcp := totalConnectionsTcp s; totalConnectionsUdp := totalConnectionsUdp s;
       trafficPeak := trafficPeak s; uploadPeakNode := uploadPeakNode s; downloadPeakNode := downloadPeakNode s;
       gpuPeakNode := gpuPeakNode s; connectionPeakNode := connectionPeakNode s; highLoadNodes := highLoadNodes s |}
  else s.

Definition onlineStats (l : list NodeData) : OnlineStats := averaged (foldl add_node empty_stats l).
End cards.

Definition sum_of (f : NodeData → num) (l : list NodeData) : num := foldl (λ a n, num_add a (f n)) zero l.

Definition any_finite (f g : NodeData → num) (l : list NodeData) : bool :=
  some (λ n, isFinite (f n) && isFinite (g n)) l.

(** The used and the total amount of a resource, [NaN] when no node has both. *)
Definition resource (used total : NodeData → num) (l : list NodeData) : num * num :=
  if any_finite used total l then (sum_of (λ n, or0 (used n)) l, sum_of (λ n, or0 (total n)) l) else (NaN, NaN).

Definition totalTraffic (l : list NodeData) : num * num :=
  if bool_decide (0 < length l)%nat then (sum_of net_total_up l, sum_of net_total_down l) else (NaN, NaN).

Definition totalSpeed (s : OnlineStats) (l : list NodeData) : num * num :=
  if some (λ n, online n && isFinite (net_in n)) l then (speed_up s, speed_down s) else (NaN, NaN).

Definition trafficQuota (l : list NodeData) : num * num :=
  let limited := bfilter (λ n, negb (num_leb (or0 (traffic_limit n)) zero)) l in
  (sum_of getTrafficUsed limited, sum_of (λ n, or0 (traffic_limit n)) limited).

Definition trafficQuotaPercentage (q : num * num) : num :=
  if num_leb q.2 zero then zero else num_mul (num_div q.1 q.2) (num_of_Z 100).

Definition bump (m : jsmap jsstring Z) (k : jsstring) : jsmap jsstring Z := jm_set k (default 0 (jm_get k m) + 1) m.

(** [Array.from(map.entries()).sort((a, b) => b[1] - a[1])] *)
Definition by_count (m : jsmap jsstring Z) : list (jsstring * Z) := sort_on (λ p, - p.2) m.

(** [selector(node)?.trim()] *)
Definition trimmed_key (selector : NodeData → option jsstring) (n : NodeData) : jsstring :=
  match selector n with Some s => trim s | None => [] end.

Definition getDistribution (l : list NodeData) (selector : NodeData → option jsstring) : list (jsstring * Z) :=
  by_count (foldl bump []
    ((λ n, match trimmed_key selector n with [] => js "未知" | k => k end) <$> l)).

Definition getKnownDistribution (l : list NodeData) (selector : NodeData → option jsstring) : list (jsstring * Z) :=
  by_count (foldl bump [] (bfilter (λ k, negb (bool_decide (k = []))) (trimmed_key selector <$> l))).

(** ** Text *)

Definition formatDecimal (v : num) (digits : Z) : jsstring :=
  if negb (isFinite v) then js "0" else default [] (toFixed v digits).

Section text.
Context `{ByteIndex} (t : jsstring → jsstring) (localeNumber : num → jsstring) (decimals : option ByteDecimalsConfig).

Definition formatBytesText (bytes : num) : option jsstring :=
  f ← formatBytesSplit bytes decimals; Some (Format.value f ++ js " " ++ Format.unit f).

Definition formatSpeedText (bytes : num) : option jsstring :=
  f ← formatBytesPerSecondSplit bytes decimals; Some (Format.value f ++ js " " ++ Format.unit f).

Definition formatCount (v : num) : jsstring := localeNumber (math_round v).
Definition formatLength (l : list NodeData) : jsstring := formatCount (num_of_Z (Z.of_nat (length l))).

(** Value, unit and tooltip of a peak card. *)
Definition formatTopNodeSpeed (metric : option TopNodeMetric)
    : option (jsstring * option jsstring * option jsstring) :=
  match metric with
  | Some m =>
      if num_leb (value m) zero then Some (js "-", None, None)
      else
        f ← formatBytesPerSecondSplit (value m) decimals;
        up ← formatSpeedText (or0 (net_out (node m)));
        down ← formatSpeedText (or0 (net_in (node m)));
        Some (Format.value f, Some (Format.unit f),
              Some (name (node m) ++ newline ++ js "↑ " ++ up ++ newline ++ js "↓ " ++ down))
  | None => Some (js "-", None, None)
  end.

(** [filter(Boolean)] *)
Definition non_empty (l : list jsstring) : list jsstring := bfilter (λ s, negb (bool_decide (s = []))) l.

Definition formatTopNodePercentage (metric : option TopNodeMetric) : jsstring * option jsstring * option jsstring :=
  match metric with
  | Some m =>
      let text := formatDecimal (value m) 1 in
      (text, Some (js "%"),
       Some (join newline (non_empty [name (node m); trim (default [] (gpu_name (node m)));
                                      js "GPU " ++ text ++ js "%"])))
  | None => (js "-", None, None)
  end.

Definition formatNodeNames (l : list NodeData) (formatter : NodeData → jsstring) : jsstring :=
  match l with
  | [] => t (js "暂无节点")
  | _ =>
      join newline ((formatter <$> take 8 l)
        ++ (if bool_decide (8 < length l)%nat
            then [js "… 还有 " ++ int_string (Z.of_nat (length l) - 8) ++ js " 台"] else []))
  end.

Definition formatDistributionTooltip (entries : list (jsstring * Z)) : jsstring :=
  match entries with
  | [] => t (js "暂无数据")
  | _ => join newline ((λ e, e.1 ++ js ": " ++ int_string e.2 ++ js " 台") <$> take 8 entries)
  end.

Definition connectionPeakTooltip (metric : option TopNodeMetric) : jsstring :=
  match metric with
  | None => t (js "暂无数据")
  | Some m => name (node m) ++ newline ++ js "TCP " ++ formatCount (or0 (connections (node m)))
              ++ newline ++ js "UDP " ++ formatCount (or0 (connections_udp (node m)))
  end.
End text.

(** ** The cards *)

Definition COST_CARDS : list jsstring := [js "remainingValue"; js "monthlyCost"; js "yearlyCost"].

Definition priceVisible (ctx : GeneralCardsContext) : bool :=
  showPrice ctx
  && match snapshot ctx with
     | None => false
     | Some s => match public_sections s with None => true | Some l => bool_decide (js "info" ∈ l) end
     end.

(** [new Map(snapshot?.nodes.map(...))] *)
Definition currentNodes (s : option Snapshot) : jsmap jsstring NodeCost.CostInfo :=
  match s with Some s => foldl (λ m p, jm_set p.1 p.2 m) [] (nodes_info s) | None => [] end.

Definition costInfos (ctx : GeneralCardsContext) : list NodeCost.CostInfo :=
  if priceVisible ctx then omap (λ n, jm_get (uuid n) (currentNodes (snapshot ctx))) (nodes ctx) else [].

Section build.
Context `{ByteIndex, CaseMapping}.
Context (t : jsstring → jsstring) (localeNumber : num → jsstring)
  (formatCostAmount : NodeCost.Money → jsstring → jsstring) (locale_leb : jsstring → jsstring → bool)
  (parse : jsstring → option Z) (dayjs : JsValue.value → option Z) (clock : Z)
  (currentTimeText currentDateText : option Z → jsstring).

Definition formatExpiryNode (n : NodeData) : jsstring :=
  name n ++ js ": " ++
  match getExpiryDays parse dayjs n clock with
  | None => js "未知"
  | Some days => if bool_decide (days ≤ 0) then js "已过期" else int_string days ++ js " 天"
  end.

(** Value, unit and tooltip of a cost card. *)
Definition costCard (ctx : GeneralCardsContext) (kind : NodeCost.cost_kind)
    : jsstring * option jsstring * option jsstring :=
  let currency := default (js "CNY") (snapshot ctx ≫= finance_currency) in
  let summary := NodeCost.summarizeConvertedNodeCosts locale_leb (costInfos ctx) kind currency
                   (snapshot ctx ≫= exchange_rates) (now ctx) in
  let help :=
    match kind with NodeCost.remaining_kind => [t (js "finance.estimateHelp")] | _ => [] end
    ++ match NodeCost.missingCurrencies summary with
       | [] => []
       | l => [TagHelper.replace_first (js "{currencies}") (join (js ", ") l) (t (js "finance.fxUnavailable"))]
       end
    ++ match NodeCost.rateDate summary with
       | Some (_ :: _ as date) => [TagHelper.replace_first (js "{date}") date (t (js "finance.fxSource"))]
       | _ => []
       end
    ++ (if NodeCost.is_stale summary then [t (js "finance.fxStale")] else []) in
  (match NodeCost.money summary with Some m => formatCostAmount m (lang ctx) | None => js "—" end,
   NodeCost.m_currency <$> NodeCost.money summary,
   match join newline help with [] => None | s => Some s end).

Definition gpuNodes (l : list NodeData) : list NodeData :=
  bfilter (λ n, named_gpu n || num_ltb zero (or0 (gpu n))) l.

Definition offlineNodes (l : list NodeData) : list NodeData := bfilter (λ n, negb (online n)) l.

Definition expiringNodes (ctx : GeneralCardsContext) : list NodeData :=
  bfilter (λ n, isExpiringNode parse dayjs n (homeExpiringDays ctx) clock) (nodes ctx).

Definition trafficWarningNodes (ctx : GeneralCardsContext) : list NodeData :=
  bfilter (λ n, isTrafficWarningNode n (homeTrafficWarningThreshold ctx)) (nodes ctx).

Definition highLoadText (ctx : GeneralCardsContext) (n : NodeData) : jsstring :=
  name n ++ js ": "
  ++ join (js " / ") ((λ m, label m ++ js " " ++ formatDecimal (percentage m) 1 ++ js "%")
                       <$> getHighLoadMetrics t n (homeHighLoadThreshold ctx)).

(** Unit of a card that shows a used and a total amount. *)
Definition of_total (used total : split) : jsstring :=
  Format.unit used ++ js " / " ++ Format.value total ++ js " " ++ Format.unit total.

(** The most frequent entry and how often it occurs. *)
Definition distribution_head (d : list (jsstring * Z)) : jsstring * option jsstring :=
  match d with
  | (k, n) :: _ => (k, Some (int_string n ++ js " 台"))
  | [] => (js "-", None)
  end.

(** What is formatted before the cards are laid out. *)
Record formatted := {
  f_stats : OnlineStats;
  f_traffic_up : split; f_traffic_down : split; f_traffic : split;
  f_speed_up : split; f_speed_down : split;
  f_memory_used : split; f_memory_total : split;
  f_disk_used : split; f_disk_total : split;
  f_swap_used : split; f_swap_total : split;
  f_trafficPeak : jsstring * option jsstring * option jsstring;
  f_uploadPeak : jsstring * option jsstring * option jsstring;
  f_downloadPeak : jsstring * option jsstring * option jsstring;
}.

Definition prepare (ctx : GeneralCardsContext) : option formatted :=
  let l := nodes ctx in
  let bd := byteDecimals ctx in
  let stats := onlineStats t (homeHighLoadThreshold ctx) l in
  let traffic := totalTraffic l in
  let speed := totalSpeed stats l in
  let memory := resource ram mem_total l in
  let dsk := resource disk disk_total l in
  let swp := resource swap swap_total l in
  tu ← formatBytesSplit traffic.1 bd;
  td ← formatBytesSplit traffic.2 bd;
  ts ← formatBytesSplit (num_add traffic.1 traffic.2) bd;
  su ← formatBytesPerSecondSplit speed.1 bd;
  sd ← formatBytesPerSecondSplit speed.2 bd;
  mu ← formatBytesSplit memory.1 bd;
  mt ← formatBytesSplit memory.2 bd;
  du ← formatBytesSplit dsk.1 bd;
  dt ← formatBytesSplit dsk.2 bd;
  wu ← formatBytesSplit swp.1 bd;
  wt ← formatBytesSplit swp.2 bd;
  tp ← formatTopNodeSpeed bd (trafficPeak stats);
  up ← formatTopNodeSpeed bd (uploadPeakNode stats);
  dp ← formatTopNodeSpeed bd (downloadPeakNode stats);
  Some {| f_stats := stats; f_traffic_up := tu; f_traffic_down := td; f_traffic := ts; f_speed_up := su;
          f_speed_down := sd; f_memory_used := mu; f_memory_total := mt; f_disk_used := du; f_disk_total := dt;
          f_swap_used := wu; f_swap_total := wt; f_trafficPeak := tp; f_uploadPeak := up; f_downloadPeak := dp |}.

Definition card (k l i : jsstring) (v : jsstring) (u tip : option jsstring) : option GeneralMetricCard :=
  Some {| c_key := k; c_label := l; c_icon := i; c_value := v; c_unit := u; c_tooltip := tip |}.

(** A card with a value, a unit and a tooltip computed together. *)
Definition card3 (k l i : jsstring) (v : jsstring * option jsstring * option jsstring) : option GeneralMetricCard :=
  card k l i v.1.1 v.1.2 v.2.

Definition memoryCard (f : formatted) : option GeneralMetricCard :=
  card (js "memory") (t (js "内存用量")) (js "icon-park-outline:memory") (Format.value (f_memory_used f))
    (Some (of_total (f_memory_used f) (f_memory_total f))) None.

(** The cards about amounts of the whole list. *)
Definition totals_card (ctx : GeneralCardsContext) (f : formatted) (k : jsstring) : option (option GeneralMetricCard) :=
  let stats := f_stats f in
  let isk s := bool_decide (k = js s) in
  let cnt x := formatCount localeNumber x in
  let total := js "/ " ++ formatLength localeNumber (nodes ctx) in
  let text s := js " " ++ Format.value s ++ js " " ++ Format.unit s in
  if isk "currentTime" then
    Some (card k (js "当前时间") (js "tabler:clock") (currentTimeText (now ctx)) None (Some (currentDateText (now ctx))))
  else if isk "memory" then Some (memoryCard f)
  else if isk "disk" then
    Some (card k (t (js "硬盘用量")) (js "tabler:server-2") (Format.value (f_disk_used f))
            (Some (of_total (f_disk_used f) (f_disk_total f))) None)
  else if isk "remainingValue" then
    Some (card3 k (t (js "finance.remainingEstimate")) (js "tabler:cash") (costCard ctx NodeCost.remaining_kind))
  else if isk "totalTraffic" then
    Some (card k (t (js "累计流量")) (js "tabler:download") (Format.value (f_traffic f)) (Some (Format.unit (f_traffic f)))
            (Some (t (js "本周期出站") ++ text (f_traffic_up f) ++ newline ++ t (js "本周期入站") ++ text (f_traffic_down f)
                   ++ newline ++ t (js "汇总周期流量说明"))))
  else if isk "uploadSpeed" then
    Some (card k (t (js "实时上行")) (js "tabler:chevrons-up") (Format.value (f_speed_up f))
            (Some (Format.unit (f_speed_up f))) None)
  else if isk "downloadSpeed" then
    Some (card k (t (js "实时下行")) (js "tabler:chevrons-down") (Format.value (f_speed_down f))
            (Some (Format.unit (f_speed_down f))) None)
  else if isk "onlineNodes" then
    Some (card k (js "在线节点") (js "tabler:activity-heartbeat") (cnt (num_of_Z (count stats))) (Some total) None)
  else if isk "avgCpu" then
    Some (card k (js "平均 CPU") (js "tabler:cpu") (formatDecimal (avgCpu stats) 1) (Some (js "%")) None)
  else if isk "avgGpu" then
    let avg := if bool_decide (0 < gpuNodeCount stats)
               then Some (num_div (totalGpu stats) (num_of_Z (gpuNodeCount stats))) else None in
    Some (card k (js "平均 GPU") (js "tabler:device-desktop-analytics")
            (match avg with Some x => formatDecimal x 1 | None => js "-" end)
            (match avg with Some _ => Some (js "%") | None => None end)
            (Some (formatNodeNames t (bfilter online (gpuNodes (nodes ctx)))
                     (λ n, name n ++ js ": " ++ formatDecimal (or0 (gpu n)) 1 ++ js "%"))))
  else if isk "avgLoad" then
    let d x := formatDecimal x 2 in
    Some (card k (js "平均负载") (js "tabler:chart-line") (d (avgLoad stats)) None
            (Some (js "1m " ++ d (avgLoad stats) ++ newline ++ js "5m " ++ d (avgLoad5 stats) ++ newline
                   ++ js "15m " ++ d (avgLoad15 stats))))
  else if isk "swap" then
    Some (card k (js "交换内存") (js "icon-park-outline:switch") (Format.value (f_swap_used f))
            (Some (of_total (f_swap_used f) (f_swap_total f))) None)
  else if isk "processes" then
    Some (card k (js "进程总数") (js "tabler:list-numbers") (cnt (totalProcesses stats)) None None)
  else if isk "connections" then
    let tcp := totalConnectionsTcp stats in
    let udp := totalConnectionsUdp stats in
    Some (card k (t (js "连接数")) (js "tabler:plug-connected") (cnt (num_add tcp udp)) None
            (Some (js "TCP " ++ cnt tcp ++ newline ++ js "UDP " ++ cnt udp)))
  else if isk "cpuCores" then
    Some (card k (js "CPU 核心") (js "tabler:cpu") (cnt (sum_of (λ n, or0 (cpu_cores n)) (nodes ctx)))
            (Some (js "Core")) None)
  else None.

(** The cards about single nodes, groups of nodes and costs. *)
Definition nodes_card (ctx : GeneralCardsContext) (f : formatted) (k : jsstring) : option (option GeneralMetricCard) :=
  let stats := f_stats f in
  let isk s := bool_decide (k = js s) in
  let len l := formatLength localeNumber l in
  let total := js "/ " ++ formatLength localeNumber (nodes ctx) in
  let list_card l i ns u fmt := Some (card k l i (len ns) (Some u) (Some (formatNodeNames t ns fmt))) in
  if isk "gpuNodes" then
    list_card (js "GPU 节点") (js "tabler:device-imac") (gpuNodes (nodes ctx)) total
      (λ n, name n ++ js ": " ++ match trim (default [] (gpu_name n)) with [] => js "GPU" | s => s end)
  else if isk "gpuPeakNode" then
    Some (card3 k (js "GPU 峰值") (js "tabler:chart-histogram") (formatTopNodePercentage (gpuPeakNode stats)))
  else if isk "trafficQuota" then
    let q := trafficQuota (nodes ctx) in
    let quota v u tip := card k (t (js "流量配额")) (js "tabler:gauge") v u (Some tip) in
    Some (if num_ltb zero q.2 then
            used ← formatBytesText (byteDecimals ctx) q.1;
            limit ← formatBytesText (byteDecimals ctx) q.2;
            quota (formatDecimal (trafficQuotaPercentage q) 1) (Some (js "%")) (used ++ js " / " ++ limit)
          else quota (js "-") None (js "无限流量"))
  else if isk "trafficPeak" then Some (card3 k (js "实时峰值") (js "tabler:activity") (f_trafficPeak f))
  else if isk "uploadPeakNode" then Some (card3 k (js "上行最高") (js "tabler:arrow-big-up-lines") (f_uploadPeak f))
  else if isk "downloadPeakNode" then
    Some (card3 k (js "下行最高") (js "tabler:arrow-big-down-lines") (f_downloadPeak f))
  else if isk "offlineNodes" then
    list_card (js "离线节点") (js "tabler:plug-connected-x") (offlineNodes (nodes ctx)) total name
  else if isk "highLoadNodes" then
    list_card (js "高负载节点") (js "tabler:alert-triangle") (highLoadNodes stats)
      (js "/ " ++ formatCount localeNumber (num_of_Z (count stats))) (highLoadText ctx)
  else if isk "expiringNodes" then
    list_card (t (js "即将到期")) (js "tabler:calendar-exclamation") (expiringNodes ctx) (js "台") formatExpiryNode
  else if isk "trafficWarnings" then
    list_card (js "流量预警") (js "tabler:traffic-cone") (trafficWarningNodes ctx) (js "台")
      (λ n, name n ++ js ": " ++ formatDecimal (getTrafficUsedPercentage n) 1 ++ js "%")
  else if isk "connectionPeakNode" then
    Some (card k (js "连接峰值") (js "tabler:plug-connected")
            (match connectionPeakNode stats with Some m => formatCount localeNumber (value m) | None => js "-" end)
            None (Some (connectionPeakTooltip t localeNumber (connectionPeakNode stats))))
  else if isk "regionDistribution" then
    let d := getKnownDistribution (nodes ctx) (λ n, RegionHelper.getRegionDisplayName (region n) RegionHelper.lang_zh) in
    Some (card k (js "地区分布") (js "tabler:map-pin")
            (formatCount localeNumber (num_of_Z (Z.of_nat (length d)))) (Some (js "个"))
            (Some (formatDistributionTooltip t d)))
  else if isk "systemDistribution" then
    let d := getDistribution (nodes ctx) os in
    Some (card k (js "系统分布") (js "tabler:device-desktop") (distribution_head d).1 (distribution_head d).2
            (Some (formatDistributionTooltip t d)))
  else if isk "virtualizationDistribution" then
    let d := getDistribution (nodes ctx) virtualization in
    Some (card k (t (js "虚拟化")) (js "tabler:box-multiple") (distribution_head d).1 (distribution_head d).2
            (Some (formatDistributionTooltip t d)))
  else if isk "monthlyCost" then
    Some (card3 k (t (js "月均支出")) (js "tabler:calendar-dollar") (costCard ctx NodeCost.monthly_kind))
  else if isk "yearlyCost" then
    Some (card3 k (t (js "finance.yearlyCost")) (js "tabler:receipt-2") (costCard ctx NodeCost.yearly_kind))
  else None.

(** The default case of the switch is the memory card. *)
Definition getCardDefinition (ctx : GeneralCardsContext) (f : formatted) (k : jsstring) : option GeneralMetricCard :=
  match totals_card ctx f k with
  | Some c => c
  | None => match nodes_card ctx f k with Some c => c | None => memoryCard f end
  end.

Definition shown (ctx : GeneralCardsContext) (k : jsstring) : bool :=
  negb (bool_decide (k ∈ COST_CARDS)) || priceVisible ctx.

Definition buildGeneralCards (ctx : GeneralCardsContext) (order : list jsstring) : option (list GeneralMetricCard) :=
  f ← prepare ctx; mapM (getCardDefinition ctx f) (bfilter (shown ctx) order).

End build.

(** ** Distributions *)

Lemma bump_wf m k : jm_wf m → jm_wf (bump m k).
Proof. apply jm_wf_set. Qed.

Lemma fold_bump ks m :
  jm_wf m →
  jm_wf (foldl bump m ks) ∧
  ∀ k, default 0 (jm_get k (foldl bump m ks)) = default 0 (jm_get k m) + Z.of_nat (count_of k ks) ∧
       (is_Some (jm_get k (foldl bump m ks)) ↔ is_Some (jm_get k m) ∨ k ∈ ks).
Proof.
  revert m. induction ks as [|k0 ks IH]; intros m Hm; cbn [foldl].
  { split; [done|]. intros k. rewrite count_of_nil. split; [lia|]. set_solver. }
  destruct (IH (bump m k0) (bump_wf m k0 Hm)) as [Hw Hk]. split; [done|]. intros k.
  destruct (Hk k) as [-> Hsome]. rewrite count_of_cons. unfold bump in *. rewrite jm_get_set in *.
  rewrite Hsome. destruct (decide (k = k0)) as [->|Hne].
  - rewrite bool_decide_eq_true_2, decide_True by done. cbn [from_option Datatypes.id].
    split; [lia|]. split; [set_solver|]. intros _. by left.
  - rewrite bool_decide_eq_false_2, decide_False by congruence. split; [lia|]. set_solver.
Qed.

(** The entries of a distribution over a list of keys: each key once, with the
    number of its occurrences, most frequent first. *)
Definition distribution_of (ks : list jsstring) (d : list (jsstring * Z)) : Prop :=
  NoDup d.*1 ∧ StronglySorted (λ p q, q.2 ≤ p.2) d ∧
  ∀ k n, (k, n) ∈ d ↔ k ∈ ks ∧ n = Z.of_nat (count_of k ks).

Lemma StronglySorted_weaken {A} (R S : relation A) l :
  (∀ x y, R x y → S x y) → StronglySorted R l → StronglySorted S l.
Proof. intros Hrs. induction 1 as [|x l _ IH Hx]; constructor; [done|]. eapply Forall_impl; [exact Hx|]. intros y. apply Hrs. Qed.

Lemma by_count_spec ks : distribution_of ks (by_count (foldl bump [] ks)).
Proof.
  destruct (fold_bump ks [] (jm_wf_nil)) as [Hwf Hk]. set (m := foldl bump [] ks) in *.
  unfold by_count, distribution_of. split_and!.
  - rewrite (sort_on_perm (λ p, - p.2) m). done.
  - eapply StronglySorted_weaken; [|apply sort_on_sorted]. unfold on_le. cbn. intros. lia.
  - intros k n. rewrite (elem_of_sort_on (λ p, - p.2)), jm_elem_of by done.
    destruct (Hk k) as [Hv Hs]. cbn in Hv, Hs. split.
    + intros Hg. rewrite Hg in Hv, Hs. cbn in Hv. split; [|lia]. destruct Hs as [Hs _].
      destruct (Hs ltac:(eauto)) as [[]|]; done.
    + intros [Hin ->]. destruct (proj2 Hs (or_intror Hin)) as [v Hg]. rewrite Hg in Hv |- *. cbn in Hv. f_equal. lia.
Qed.

(** The keys that a distribution counts. *)
Definition all_keys (selector : NodeData → option jsstring) (l : list NodeData) : list jsstring :=
  (λ n, match trimmed_key selector n with [] => js "未知" | k => k end) <$> l.

Lemma distribution_exact l selector :
  distribution_of (all_keys selector l) (getDistribution l selector) ∧
  distribution_of (bfilter (λ k, negb (bool_decide (k = []))) (trimmed_key selector <$> l))
    (getKnownDistribution l selector).
Proof. split; apply by_count_spec. Qed.

(** ** Peaks *)

Definition peak_step (sel : NodeData → num) (c : option TopNodeMetric) (n : NodeData) : option TopNodeMetric :=
  if online n then updateTopMetric c n (sel n) else c.

(** A peak over a list: a measured online node that no other exceeds. *)
Definition is_peak (sel : NodeData → num) (l : list NodeData) (c : option TopNodeMetric) : Prop :=
  match c with
  | None => ∀ n, n ∈ l → online n = true → isFinite (sel n) = false
  | Some m => node m ∈ l ∧ online (node m) = true ∧ isFinite (sel (node m)) = true ∧
      value m = math_max zero (sel (node m)) ∧
      ∀ n, n ∈ l → online n = true → isFinite (sel n) = true → num_leb (sel n) (value m) = true
  end.

Lemma max0_above x : isFinite x = true → num_leb x (math_max zero x) = true ∧ is_nan (math_max zero x) = false.
Proof.
  intros Hx. pose proof (finite_not_nan x Hx) as Hn. unfold math_max. change (is_nan zero) with false.
  rewrite Hn. cbn [orb]. destruct (num_ltb zero x) eqn:Hlt.
  - split; [by apply num_leb_refl|done].
  - pose proof (num_not_ltb zero x eq_refl Hn Hlt). by repeat case_match.
Qed.

Lemma peak_step_peak sel l c n : is_peak sel l c → is_peak sel (l ++ [n]) (peak_step sel c n).
Proof.
  intros Hc. unfold peak_step. destruct (online n) eqn:Ho.
  2:{ destruct c as [m|]; cbn in *.
      - destruct Hc as (Hin & Hon & Hf & Hv & Hall). split_and!; try done; [set_solver|].
        intros k [Hk| ->%list_elem_of_singleton]%elem_of_app; [by apply Hall|congruence].
      - intros k [Hk| ->%list_elem_of_singleton]%elem_of_app; [by apply Hc|congruence]. }
  unfold updateTopMetric. destruct (isFinite (sel n)) eqn:Hf; cbn [negb].
  2:{ destruct c as [m|]; cbn in *.
      - destruct Hc as (Hin & Hon & Hfm & Hv & Hall). split_and!; try done; [set_solver|].
        intros k [Hk| ->%list_elem_of_singleton]%elem_of_app; [by apply Hall|congruence].
      - intros k [Hk| ->%list_elem_of_singleton]%elem_of_app; [by apply Hc|done]. }
  destruct (max0_above (sel n) Hf) as [Hle Hnan].
  destruct c as [m|]; cbn in Hc.
  - destruct Hc as (Hin & Hon & Hfm & Hv & Hall). destruct (num_ltb (value m) (sel n)) eqn:Hlt; cbn.
    + split_and!; [set_solver|done..|]. intros k [Hk| ->%list_elem_of_singleton]%elem_of_app Hok Hfk; [|done].
      eapply num_leb_trans; [by apply Hall|]. eapply num_leb_trans; [by apply num_ltb_leb|done].
    + split_and!; [set_solver|done..|]. intros k [Hk| ->%list_elem_of_singleton]%elem_of_app Hok Hfk; [by apply Hall|].
      apply num_not_ltb; [|by apply finite_not_nan|done]. rewrite Hv. by apply max0_above.
  - cbn. split_and!; [set_solver|done..|]. intros k [Hk| ->%list_elem_of_singleton]%elem_of_app Hok Hfk; [|done].
    rewrite (Hc k Hk Hok) in Hfk. done.
Qed.

Lemma fold_peak sel l : is_peak sel l (foldl (peak_step sel) None l).
Proof.
  induction l as [|n l IH] using rev_ind; [cbn; set_solver|]. rewrite foldl_app. by apply peak_step_peak.
Qed.

Lemma stats_peaks t threshold l s :
  let r := foldl (add_node t threshold) s l in
  trafficPeak r = foldl (peak_step getRealtimeTotalSpeed) (trafficPeak s) l ∧
  uploadPeakNode r = foldl (peak_step (λ n, or0 (net_out n))) (uploadPeakNode s) l ∧
  downloadPeakNode r = foldl (peak_step (λ n, or0 (net_in n))) (downloadPeakNode s) l ∧
  connectionPeakNode r = foldl (peak_step getConnectionCount) (connectionPeakNode s) l ∧
  count r = count s + Z.of_nat (length (bfilter online l)) ∧
  highLoadNodes r = highLoadNodes s ++ bfilter (λ n, isHighLoadNode t n threshold) l.
Proof.
  revert s. induction l as [|n l IH]; intros s; cbn zeta; cbn [foldl bfilter].
  { split_and!; try done; [cbn; lia|by rewrite app_nil_r]. }
  destruct (IH (add_node t threshold s n)) as (-> & -> & -> & -> & -> & ->).
  assert (∀ sel c, peak_step sel c n = if online n then updateTopMetric c n (sel n) else c) as Hps by done.
  rewrite !Hps. unfold add_node. destruct (online n) eqn:Ho; cbn [negb].
  - cbn [trafficPeak uploadPeakNode downloadPeakNode connectionPeakNode count highLoadNodes].
    split_and!; try done; [cbn [length]; lia|]. case_match; [by rewrite <-app_assoc|done].
  - split_and!; try done. assert (isHighLoadNode t n threshold = false) as ->; [|done].
    unfold isHighLoadNode, getHighLoadMetrics. by rewrite Ho.
Qed.

(** ** Which cards are shown *)

Section shown.
Context `{ByteIndex, CaseMapping}.
Context (t : jsstring → jsstring) (localeNumber : num → jsstring)
  (formatCostAmount : NodeCost.Money → jsstring → jsstring) (locale_leb : jsstring → jsstring → bool)
  (parse : jsstring → option Z) (dayjs : JsValue.value → option Z) (clock : Z)
  (currentTimeText currentDateText : option Z → jsstring).
Let get := getCardDefinition t localeNumber formatCostAmount locale_leb parse dayjs clock currentTimeText currentDateText.

(** The same context with another snapshot. *)
Definition with_snapshot (s : option Snapshot) (ctx : GeneralCardsContext) : GeneralCardsContext :=
  {| snapshot := s; lang := lang ctx; nodes := nodes ctx; byteDecimals := byteDecimals ctx;
     homeHighLoadThreshold := homeHighLoadThreshold ctx; homeExpiringDays := homeExpiringDays ctx;
     homeTrafficWarningThreshold := homeTrafficWarningThreshold ctx; showPrice := showPrice ctx; now := now ctx |}.

Lemma card_snapshot ctx f s k : k ∉ COST_CARDS → get ctx f k = get (with_snapshot s ctx) f k.
Proof using.
  intros Hk. unfold get, getCardDefinition.
  assert (totals_card t localeNumber formatCostAmount locale_leb currentTimeText currentDateText ctx f k
    = totals_card t localeNumber formatCostAmount locale_leb currentTimeText currentDateText (with_snapshot s ctx) f k) as <-.
  { unfold totals_card. cbn [nodes now with_snapshot].
    destruct (bool_decide (k = js "remainingValue")) eqn:Hr; [|reflexivity].
    exfalso. apply Hk. reflect_bools. subst. unfold COST_CARDS. set_solver. }
  destruct (totals_card _ _ _ _ _ _ _ _ _) as [c|]; [done|].
  assert (nodes_card t localeNumber formatCostAmount locale_leb parse dayjs clock ctx f k
    = nodes_card t localeNumber formatCostAmount locale_leb parse dayjs clock (with_snapshot s ctx) f k) as <-; [|done].
  unfold nodes_card. cbn [nodes byteDecimals with_snapshot].
  destruct (bool_decide (k = js "monthlyCost")) eqn:Hr;
    [exfalso; apply Hk; reflect_bools; subst; unfold COST_CARDS; set_solver|].
  destruct (bool_decide (k = js "yearlyCost")) eqn:Hr';
    [exfalso; apply Hk; reflect_bools; subst; unfold COST_CARDS; set_solver|reflexivity].
Qed.

#[local] Ltac known := replace (bool_decide (_ ∈ AppSettings.GeneralCardKey)) with true by (vm_compute; reflexivity).

Lemma card_key ctx f k c :
  get ctx f k = Some c → c_key c = if bool_decide (k ∈ AppSettings.GeneralCardKey) then k else js "memory".
Proof using.
  unfold get, getCardDefinition, totals_card, nodes_card. cbn zeta.
  repeat (match goal with
          | |- context [bool_decide (k = js ?s)] =>
              destruct (bool_decide (k = js s)) eqn:?;
              [match goal with E : bool_decide (k = js s) = true |- _ =>
                 apply bool_decide_eq_true in E; subst k; known end;
               solve [intros [= <-]; reflexivity
                     |unfold card; destruct (num_ltb _ _);
                      [destruct (formatBytesText _ _), (formatBytesText _ _); intros [= <-]; reflexivity
                      |intros [= <-]; reflexivity]]|]
          end).
  intros [= <-]. cbn [c_key]. rewrite bool_decide_eq_false_2; [done|].
  unfold AppSettings.GeneralCardKey, AppSettings.texts. cbn [fmap list_fmap]. reflect_bools.
  intros Hin. repeat (apply elem_of_cons in Hin as [->|Hin];
    [match goal with Hne : ?a ≠ ?a |- _ => by destruct Hne end|]). by apply not_elem_of_nil in Hin.
Qed.

Lemma card_total ctx f k : config_ok (byteDecimals ctx) → is_Some (get ctx f k).
Proof using.
  intros Hc. unfold get, getCardDefinition.
  assert (∀ c, totals_card t localeNumber formatCostAmount locale_leb currentTimeText currentDateText ctx f k = Some c →
    is_Some c) as H1 by (unfold totals_card, card3, card; cbn zeta; intros c; repeat case_match; intros [= <-]; eauto).
  destruct (totals_card _ _ _ _ _ _ _ _ _) as [c|]; [by apply H1|].
  assert (∀ b, is_Some (formatBytesText (byteDecimals ctx) b)) as Hb.
  { intros b. unfold formatBytesText. destruct (formatBytesSplit_total b _ Hc) as [v ->]. cbn. eauto. }
  destruct (Hb (trafficQuota (nodes ctx)).1) as [x Hx], (Hb (trafficQuota (nodes ctx)).2) as [y Hy].
  unfold nodes_card, card3, card. cbn zeta. rewrite Hx, Hy. cbn [mbind option_bind].
  repeat case_match; simplify_eq; eauto.
Qed.

Lemma prepare_total ctx : config_ok (byteDecimals ctx) → is_Some (prepare t ctx).
Proof using.
  intros Hc. unfold prepare. cbn zeta.
  assert (∀ b, is_Some (formatBytesPerSecondSplit b (byteDecimals ctx))) as Hb.
  { intros b. unfold formatBytesPerSecondSplit. destruct (formatBytesSplit_total b _ Hc) as [v ->]. cbn. eauto. }
  assert (∀ m, is_Some (formatTopNodeSpeed (byteDecimals ctx) m)) as Hp.
  { intros [m|]; cbn; [|eauto]. case_match; [eauto|]. unfold formatSpeedText.
    destruct (Hb (value m)) as [? ->], (Hb (or0 (net_out (node m)))) as [? ->], (Hb (or0 (net_in (node m)))) as [? ->].
    cbn. eauto. }
  repeat match goal with
    | |- context [formatBytesSplit ?b _] => destruct (formatBytesSplit_total b _ Hc) as [? ->]; cbn [mbind option_bind]
    | |- context [formatBytesPerSecondSplit ?b _] => destruct (Hb b) as [? ->]; cbn [mbind option_bind]
    | |- context [formatTopNodeSpeed _ ?m] => destruct (Hp m) as [? ->]; cbn [mbind option_bind]
    end.
  eauto.
Qed.

End shown.

(** Prices are public: what the flag and the sections say. *)
Lemma priceVisible_spec ctx :
  priceVisible ctx = true ↔
  showPrice ctx = true ∧ ∃ s, snapshot ctx = Some s ∧ ∀ l, public_sections s = Some l → js "info" ∈ l.
Proof.
  unfold priceVisible. destruct (showPrice ctx); [|naive_solver]. cbn [andb].
  destruct (snapshot ctx) as [s|]; [|naive_solver].
  destruct (public_sections s) as [l|] eqn:Hl; [rewrite bool_decide_eq_true|];
    (split; [intros Hi; split; [done|]; exists s; split; [done|]; intros l' Hl'; congruence|]).
  - intros [_ (s' & [= <-] & Hi)]. by apply Hi.
  - done.
Qed.

Lemma shown_public ctx order : priceVisible ctx = true → bfilter (shown ctx) order = order.
Proof.
  intros Hp. induction order as [|k l IH]; [done|]. cbn. unfold shown at 1. by rewrite Hp, orb_true_r, IH.
Qed.

Lemma shown_hidden ctx order :
  priceVisible ctx = false → bfilter (shown ctx) order = filter (λ k, k ∉ COST_CARDS) order.
Proof.
  intros Hp. induction order as [|k l IH]; [done|]. cbn [bfilter]. unfold shown at 1.
  rewrite Hp, orb_false_r, IH, filter_cons. by case_bool_decide as Hk; cbn; case_decide.
Qed.

(** C31: the overview shows the cards of the settings, and costs only when they
    are public.  Prices are public exactly when [showPrice] is set, there is a
    snapshot, and its list of public sections is missing or contains "info".
    With every configured number of decimals between -1 (the unit is skipped)
    and 100 ([config_ok]) the overview is always built.  When prices are public its cards are those of the order,
    one for one (an unknown name is the memory card); when they are not, the
    cards are those of the order less "remainingValue", "monthlyCost" and
    "yearlyCost", and nothing of the billing data, rates or sections of the
    snapshot reaches any card: with any other snapshot that does not make
    prices public the cards are the same. *)
Theorem cards_hide_costs `{ByteIndex, CaseMapping}
    (t : jsstring → jsstring) (localeNumber : num → jsstring)
    (formatCostAmount : NodeCost.Money → jsstring → jsstring) (locale_leb : jsstring → jsstring → bool)
    (parse : jsstring → option Z) (dayjs : JsValue.value → option Z) (clock : Z)
    (currentTimeText currentDateText : option Z → jsstring) (ctx : GeneralCardsContext) (order : list jsstring) :
  config_ok (byteDecimals ctx) →
  let build := buildGeneralCards t localeNumber formatCostAmount locale_leb parse dayjs clock
                 currentTimeText currentDateText in
  let prices_public c := showPrice c = true ∧ ∃ s, snapshot c = Some s ∧
        ∀ l, public_sections s = Some l → js "info" ∈ l in
  let card_of k := if bool_decide (k ∈ AppSettings.GeneralCardKey) then k else js "memory" in
  ∃ cards, build ctx order = Some cards ∧
    (prices_public ctx → c_key <$> cards = card_of <$> order) ∧
    (¬ prices_public ctx →
       c_key <$> cards = card_of <$> filter (λ k, k ∉ [js "remainingValue"; js "monthlyCost"; js "yearlyCost"]) order ∧
       ∀ s, ¬ prices_public (with_snapshot s ctx) → build (with_snapshot s ctx) order = Some cards).
Proof.
  intros Hc build prices_public card_of.
  assert (∀ c, prices_public c ↔ priceVisible c = true) as Hpub by (intros; symmetry; apply priceVisible_spec).
  unfold build, buildGeneralCards. destruct (prepare_total t ctx Hc) as [f Hf].
  assert (∀ s, prepare t (with_snapshot s ctx) = Some f) as Hfs by (intros s; exact Hf).
  rewrite Hf. cbn [mbind option_bind].
  set (get := getCardDefinition t localeNumber formatCostAmount locale_leb parse dayjs clock currentTimeText currentDateText).
  destruct (mapM (get ctx f) (bfilter (shown ctx) order)) as [cards|] eqn:Hm.
  2:{ apply mapM_None, Exists_exists in Hm as (k & _ & Hk).
      destruct (card_total t localeNumber formatCostAmount locale_leb parse dayjs clock currentTimeText
        currentDateText ctx f k Hc) as [c Hg]. unfold get in Hk. congruence. }
  apply mapM_Some in Hm. exists cards.
  assert ((c_key <$> cards) = card_of <$> bfilter (shown ctx) order) as Hkeys.
  { clear -Hm. induction Hm as [|k c ks cs Hk _ IH]; [done|]. rewrite !fmap_cons, IH. f_equal. by eapply card_key. }
  split_and!; [done|intros Hp%Hpub|intros Hp; rewrite Hpub, not_true_iff_false in Hp].
  - rewrite Hkeys, shown_public; done.
  - split; [by rewrite Hkeys, shown_hidden|].
    intros s Hs. rewrite Hpub, not_true_iff_false in Hs. rewrite Hfs. cbn [mbind option_bind]. apply mapM_Some.
    rewrite (shown_hidden (with_snapshot s ctx)), <-(shown_hidden ctx) by done.
    eapply Forall2_impl_elem; [exact Hm|]. intros k c Hk _ Hg. rewrite <-Hg. symmetry.
    rewrite shown_hidden, list_elem_of_filter in Hk by done. destruct Hk as [Hk _].
    exact (card_snapshot t localeNumber formatCostAmount locale_leb parse dayjs clock currentTimeText
      currentDateText ctx f s k Hk).
Qed.

Lemma cards_hide_costs_witness :
  let ctx := {| snapshot := None; lang := js "en"; nodes := []; byteDecimals := None;
                homeHighLoadThreshold := num_of_Z 80; homeExpiringDays := num_of_Z 7;
                homeTrafficWarningThreshold := num_of_Z 80; showPrice := true; now := Some 0 |} in
  ∃ cards, buildGeneralCards Datatypes.id number_string (λ _ _, []) (λ _ _, true) (λ _, None) (λ _, None) 0
             (λ _, []) (λ _, []) ctx [js "disk"; js "yearlyCost"; js "avgCpu"] = Some cards ∧
           (c_key <$> cards) = [js "disk"; js "avgCpu"].
Proof.
  intros ctx.
  destruct (cards_hide_costs Datatypes.id number_string (λ _ _, []) (λ _ _, true) (λ _, None) (λ _, None) 0
    (λ _, []) (λ _, []) ctx [js "disk"; js "yearlyCost"; js "avgCpu"]) as (cards & Hb & _ & Hk).
  - intros i z. unfold decimals_at. cbn. repeat case_match; intros [= <-]; lia.
  - exists cards. split; [exact Hb|]. destruct Hk as [Hk _]; [intros (_ & s & Hs & _); discriminate Hs|].
    rewrite Hk. vm_compute. reflexivity.
Defined.

End GeneralCards.
