(* ===== verification/Captain.v ===== *)
(** * The Captain adapter of the status page ([glass-shared/captain.ts])

    The theme was written for another server; this module gives it Captain's
    public snapshot in the shape it expects.  [Snapshot] holds the data of the
    snapshot ([probe/src/lib/api.ts]) and the conversions [clientFor] and
    [statusFor], whose objects are the [fields] that the node store merges;
    [HistoryCache] is the cache of history requests.  The metrics computed from
    a history and the dispatch of RPC methods are in [CaptainMetrics].

    The snapshot box is an argument ([None] is [null]).  Identifiers of nodes,
    time stamps, counts and steps are integers; measurements are binary64
    numbers.  A host's numbers and validity flags are maps, because the code
    reads them by computed keys. *)

From Stdlib Require Import SpecFloat.
From S2P Require Import Prelude JsMap JsString Json JsValue FloatFacts.
From S2P Require Import JsNumber JsText Calendar NodeCost Ping Network NodeFacts.

Open Scope Z_scope.

Module Snapshot.

Record HostInfo := {
  cpu_spec : CpuSpec.CPUInfo;
  cpu_model : option jsstring;
  os : option jsstring;
  kernel : option jsstring;
  arch : option jsstring;
  virt : option jsstring;
}.

Record Host := {
  valid : option (jsmap string bool);
  numbers : jsmap string num;
  h_info : option HostInfo;
}.

Record NodeInfo := {
  region : option jsstring;
  location : value;
  note : option jsstring;
  expires_at : option jsstring;
  price : option jsstring;
  billing : option NodeCost.Billing;
  bandwidth : option NodeBandwidth.NodeBandwidth;
}.

(** The counters are not trusted to be numbers. *)
Record Traffic := { used : value; used_up : value; used_down : value; limit : num; mode : jsstring }.

Record PingTask := { task : PingSelection.PublicPingTask; province : option jsstring }.

Record Node := {
  id : Z;
  name : jsstring;
  group : option jsstring;
  group_zh : option jsstring;
  group_en : option jsstring;
  online : bool;
  addr : option jsstring;
  version : option jsstring;
  last_seen : option jsstring;
  info : NodeInfo;
  host : option Host;
  traffic : Traffic;
  ping_tasks : option (list PingTask);
  storage : Storage.projection;
}.

(** [public_sections] may be missing, [null] or a list. *)
Inductive sections := NoSections | NullSections | Sections (l : list jsstring).

#[global] Instance sections_eq_dec : EqDecision sections.
Proof. solve_decision. Defined.

Record Appearance := { preset : option jsstring; a_scheme : option jsstring }.

Record Snapshot := {
  title : jsstring;
  description : option jsstring;
  public_sections : sections;
  appearance_scheme : option jsstring;
  appearance : option Appearance;
  layout : option jsstring;
  show_globe : bool;
  beat_seconds : num;
  nodes : list Node;
}.

Definition shows (snapshot : option Snapshot) (section : jsstring) : bool :=
  match snapshot with
  | Some s => match public_sections s with Sections l => bool_decide (section ∈ l) | _ => true end
  | None => true
  end.

(** [snapshot.value?.nodes.find(n => String(n.id) === uuid)] *)
Definition find_node (snapshot : option Snapshot) (uuid : jsstring) : option Node :=
  snapshot ≫= (λ s, list_find_first (λ n, bool_decide (int_string (id n) = uuid)) (nodes s)).

Section conversions.
Context (snapshot : option Snapshot).

Definition host_disk (h : Host) : Storage.HostDisk :=
  {| Storage.valid_disk := valid h ≫= jm_get "disk"%string;
     Storage.disk_total := jm_get "disk_total"%string (numbers h);
     Storage.disk_used := jm_get "disk_used"%string (numbers h) |}.

Definition captainStorage (uuid : jsstring) (translate : jsstring → jsstring) : list Storage.StorageItem :=
  if shows snapshot (js "disk")
  then Storage.storageItems translate
         ((λ n, {| Storage.storage := storage n; Storage.host := host_disk <$> host n |})
          <$> find_node snapshot uuid)
  else [].

Definition captainCPUSpec (uuid locale : jsstring) : jsstring :=
  if negb (shows snapshot (js "system")) then []
  else CpuSpec.cpuSpec (cpu_spec <$> ((find_node snapshot uuid ≫= host) ≫= h_info)) locale.

Definition captainPrice (uuid lang : jsstring) : option jsstring :=
  match find_node snapshot uuid with
  | Some n => NodePrice.nodePrice (price (info n)) (billing (info n)) lang
  | None => Some []
  end.

Definition captainBandwidth (formatNumber : jsstring → num → jsstring) (uuid lang : jsstring) : jsstring :=
  if negb (shows snapshot (js "info")) then []
  else NodeBandwidth.nodeBandwidth formatNumber (find_node snapshot uuid ≫= (λ n, bandwidth (info n))) lang.

(** The local function [count] of [periodTraffic]. *)
Definition traffic_count (v : value) : num :=
  match v with
  | VNum x => if shows snapshot (js "traffic") && isFinite x && num_leb (num_of_Z 0) x then x else NaN
  | _ => NaN
  end.

Record PeriodTraffic := { pt_up : num; pt_down : num; pt_used : num }.

Definition periodTraffic (n : Node) : PeriodTraffic :=
  {| pt_up := traffic_count (used_up (traffic n)); pt_down := traffic_count (used_down (traffic n));
     pt_used := traffic_count (used (traffic n)) |}.

Definition metric (h : option Host) (section : jsstring) (validity key : string) : num :=
  match h with
  | Some h =>
      if negb (shows snapshot section) || bool_decide (valid h ≫= jm_get validity = Some false) then NaN
      else default (num_of_Z 0) (jm_get key (numbers h))
  | None => NaN
  end.

(** [shows('system') && h ? h.uptime ?? 0 : NaN] *)
Definition uptime (h : option Host) : num :=
  match h with
  | Some h => if shows snapshot (js "system") then default (num_of_Z 0) (jm_get "uptime"%string (numbers h)) else NaN
  | None => NaN
  end.

Definition public_location (i : NodeInfo) : value := if shows snapshot (js "info") then location i else VNull.

Definition traffic_limit (t : Traffic) : num := if shows snapshot (js "traffic") then limit t else NaN.

Definition str (s : option jsstring) : value := match s with Some s => VStr s | None => VUndefined end.
Definition str_or_empty (s : option jsstring) : value := VStr (default [] s).

Definition clientFor (n : Node) (weight : Z) : fields :=
  let h := host n in
  let hi : option HostInfo := h ≫= h_info in
  [("uuid", VStr (int_string (id n))); ("name", VStr (name n));
    ("cpu_name", str_or_empty (hi ≫= cpu_model));
    ("cpu_cores", VNum (default (num_of_Z 0) (hi ≫= (λ i, CpuSpec.cpu_cores (cpu_spec i)))));
    ("virtualization", str_or_empty (hi ≫= virt)); ("arch", str_or_empty (hi ≫= arch));
    ("os", str_or_empty (hi ≫= os)); ("kernel_version", str_or_empty (hi ≫= kernel));
    ("region", str_or_empty (region (info n)));
    ("location", public_location (info n));
    ("public_remark", str_or_empty (note (info n)))]%string
   ++ (match addr n with
       | Some ((_ :: _) as a) => [((if includes a (js ":") then "ipv6" else "ipv4")%string, VStr a)]
       | _ => []
       end)
   ++ [("mem_total", VNum (metric h (js "memory") "memory" "mem_total"));
       ("swap_total", VNum (metric h (js "memory") "swap" "swap_total"));
       ("disk_total", VNum (metric h (js "disk") "disk" "disk_total"));
       ("version", str (version n)); ("weight", VNum (num_of_Z weight));
       ("price", VNum NaN); ("billing_cycle", VNum (num_of_Z 0)); ("auto_renewal", VBool false);
       ("currency", VStr []); ("expired_at", str_or_empty (expires_at (info n)));
       ("group", str_or_empty (group n)); ("group_zh", str (group_zh n)); ("group_en", str (group_en n));
       ("tags", VStr []); ("hidden", VBool false);
       ("traffic_limit", VNum (traffic_limit (traffic n)));
       ("traffic_limit_type", VStr (match mode (traffic n) with [] => js "sum" | m => m end));
       ("created_at", VStr []); ("updated_at", str_or_empty (last_seen n))]%string.

Definition statusFor (n : Node) : fields :=
  let h := host n in
  let t := periodTraffic n in
  let m section validity key := VNum (metric h (js section) validity key) in
  [("client", VStr (int_string (id n))); ("time", str_or_empty (last_seen n)); ("online", VBool (online n));
   ("cpu", m "cpu" "cpu" "cpu_percent"); ("gpu", VNum NaN); ("temp", VNum NaN);
   ("ram", m "memory" "memory" "mem_used"); ("ram_total", m "memory" "memory" "mem_total");
   ("swap", m "memory" "swap" "swap_used"); ("swap_total", m "memory" "swap" "swap_total");
   ("disk", m "disk" "disk" "disk_used"); ("disk_total", m "disk" "disk" "disk_total");
   ("load", m "system" "load" "load1"); ("load5", m "system" "load" "load5"); ("load15", m "system" "load" "load15");
   ("net_in", m "network" "network" "net_down"); ("net_out", m "network" "network" "net_up");
   ("net_total_up", VNum (pt_up t)); ("net_total_down", VNum (pt_down t));
   ("traffic_up", VNum (pt_up t)); ("traffic_down", VNum (pt_down t));
   ("process", m "system" "processes" "processes"); ("connections", m "system" "connections" "tcp");
   ("connections_udp", m "system" "connections" "udp");
   ("uptime", VNum (uptime h))]%string.
End conversions.

End Snapshot.

(** [histories] with the requests that were started: a promise is the position
    of its request, which has the URL, the time of the call and how it ended.
    The rejection handler of a request runs when the request fails. *)
Module HistoryCache.
Import Snapshot.

Inductive kind := pings | history.

Definition kind_text (k : kind) : jsstring := match k with pings => js "pings" | history => js "history" end.

Definition is_ping (k : kind) : bool := match k with pings => true | history => false end.

Record entry := { at_time : Z; promise : nat }.

Inductive status := Pending | Fulfilled | Rejected.

Record request := { url : jsstring; started : Z; ended : status }.

Record t := mk { histories : jsmap jsstring entry; requests : list request }.

Definition initial : t := mk [] [].

Definition clearHistoryCache (s : t) : t := mk [] (requests s).

(** [hours] is [None] for [NaN]. *)
Definition rangeFor (hours : option Z) (ping : bool) : jsstring :=
  match hours with
  | Some h =>
      if bool_decide (h ≤ 1) then if ping then js "1h" else js "24h"
      else if bool_decide (h ≤ 24) then js "24h"
      else if bool_decide (h ≤ 168) then js "7d" else js "30d"
  | None => js "30d"
  end.

(** [`/api/probe/nodes/${id}/${kind}?range=${...}`] *)
Definition history_url (id : jsstring) (k : kind) (hours : option Z) : jsstring :=
  js "/api/probe/nodes/" ++ id ++ 47 :: kind_text k ++ js "?range="
  ++ rangeFor hours (is_ping k).

(** [/^\d+$/] *)
Definition is_number_text (id : jsstring) : bool := negb (bool_decide (id = [])) && every is_ascii_digit id.

(** The two guards of [historyFor], in order. *)
Definition allowed (snapshot : option Snapshot) (id : jsstring) (k : kind) : bool :=
  is_number_text id
  && match snapshot with
     | Some s => some (λ n, bool_decide (int_string (Snapshot.id n) = id)) (nodes s)
     | None => false
     end
  && shows snapshot (js "history")
  && match k with pings => shows snapshot (js "latency") | history => true end.

Definition TTL : Z := 10000.
Definition MAX : Z := 256.

(** [Cached]: an entry is shared; [Fetched]: a request is started. *)
Inductive outcome := NotFound | Cached (p : nat) | Fetched (p : nat).

(** [if (histories.size >= 256) histories.delete(histories.keys().next().value!)] *)
Definition evict (m : jsmap jsstring entry) : jsmap jsstring entry :=
  if bool_decide (MAX ≤ jm_size m)
  then match jm_keys m with oldest :: _ => jm_delete oldest m | [] => m end else m.

(** [now] and [now'] are the two readings of the clock. *)
Definition historyFor (snapshot : option Snapshot) (id : jsstring) (k : kind) (hours : option Z) (now now' : Z)
    (s : t) : outcome * t :=
  if negb (allowed snapshot id k) then (NotFound, s)
  else
    let u := history_url id k hours in
    let fetch :=
      let p := length (requests s) in
      (Fetched p, mk (jm_set u {| at_time := now'; promise := p |} (evict (histories s)))
                    (requests s ++ [{| url := u; started := now'; ended := Pending |}])) in
    match jm_get u (histories s) with
    | Some cached => if bool_decide (now - at_time cached < TTL) then (Cached (promise cached), s) else fetch
    | None => fetch
    end.

Definition with_ended (st : status) (r : request) : request :=
  {| url := url r; started := started r; ended := st |}.

(** A request ends once; a failed one removes the entry of its URL. *)
Definition settle (p : nat) (ok : bool) (s : t) : t :=
  match requests s !! p with
  | Some r =>
      match ended r with
      | Pending =>
          mk (if ok then histories s else jm_delete (url r) (histories s))
             (<[p := with_ended (if ok then Fulfilled else Rejected) r]> (requests s))
      | _ => s
      end
  | None => s
  end.

Inductive event :=
  | Call (snapshot : option Snapshot) (id : jsstring) (k : kind) (hours : option Z) (now now' : Z)
  | Settle (p : nat) (ok : bool)
  | Clear.

Definition step (e : event) (s : t) : t :=
  match e with
  | Call snapshot id k hours now now' => (historyFor snapshot id k hours now now' s).2
  | Settle p ok => settle p ok s
  | Clear => clearHistoryCache s
  end.

(** ** The cache *)

(** Every entry is the request of its URL that was started when the entry was
    made and has not failed. *)
Definition entry_ok (s : t) (u : jsstring) (e : entry) : Prop :=
  ∃ r, requests s !! promise e = Some r ∧ url r = u ∧ started r = at_time e ∧ ended r ≠ Rejected.

Record cache_ok (s : t) : Prop := {
  keys_unique : jm_wf (histories s);
  bounded : jm_size (histories s) ≤ MAX;
  entries_ok : ∀ u e, jm_get u (histories s) = Some e → entry_ok s u e;
}.

Lemma initial_ok : cache_ok initial.
Proof. split; [constructor|done|done]. Qed.

Lemma evict_size m : jm_wf m → jm_size m ≤ MAX → jm_size (evict m) < MAX.
Proof.
  intros Hw Hm. unfold evict. case_bool_decide as Hge; [|lia]. unfold jm_size in *. destruct m as [|[k v] m]; [done|].
  cbn [jm_keys fmap list_fmap fst]. pose proof (jm_length_delete k ((k, v) :: m) Hw) as Hl.
  rewrite <-Hl in Hm by (cbn; set_solver). lia.
Qed.

Lemma evict_get m u e : jm_get u (evict m) = Some e → jm_get u m = Some e.
Proof.
  unfold evict. case_bool_decide; [|done]. destruct (jm_keys m) as [|k l]; [done|]. rewrite jm_get_delete. by case_bool_decide.
Qed.

Lemma evicted_wf m : jm_wf m → jm_wf (evict m).
Proof. unfold evict. intros Hw. case_bool_decide; [|done]. destruct (jm_keys m); [done|by apply jm_wf_delete]. Qed.

Lemma set_size (u : jsstring) (e : entry) m : jm_size (jm_set u e m) ≤ jm_size m + 1.
Proof. unfold jm_size. rewrite jm_length_set. destruct (jm_has u m); lia. Qed.

(** What a call returns in a sound cache. *)
Definition served (s' : t) (u : jsstring) (now now' : Z) (o : outcome) : Prop :=
  match o with
  | NotFound => True
  | Cached p => ∃ r, requests s' !! p = Some r ∧ url r = u ∧ ended r ≠ Rejected ∧ now - started r < 10000
  | Fetched p => requests s' !! p = Some {| url := u; started := now'; ended := Pending |} ∧
                 jm_get u (histories s') = Some {| at_time := now'; promise := p |}
  end.

Lemma historyFor_ok snapshot id k hours now now' s o s' :
  cache_ok s → historyFor snapshot id k hours now now' s = (o, s') →
  cache_ok s' ∧ served s' (history_url id k hours) now now' o ∧
  (o = NotFound ↔ allowed snapshot id k = false) ∧
  ((∀ p, o ≠ Fetched p) → s' = s).
Proof.
  intros [Hw Hb He]. unfold historyFor. destruct (allowed snapshot id k) eqn:Ha; cbn [negb];
    [|intros [= <- <-]; by split_and!].
  set (u := history_url id k hours). set (s1 := mk (jm_set u _ _) _). intros Hcall.
  assert (cache_ok s1 ∧ served s1 u now now' (Fetched (length (requests s)))) as [Hok Hserved].
  { split; [split|split]; unfold s1; cbn [histories requests].
    - by apply jm_wf_set, evicted_wf.
    - pose proof (set_size u {| at_time := now'; promise := length (requests s) |} (evict (histories s))).
      pose proof (evict_size _ Hw Hb). lia.
    - intros v e. rewrite jm_get_set. case_bool_decide as Hv.
      + intros [= <-]. subst v. eexists. cbn [requests promise at_time]. by rewrite list_lookup_middle.
      + intros Hg%evict_get. destruct (He v e Hg) as (r & Hr & ? & ? & ?). exists r. cbn [requests].
        rewrite lookup_app_l by (by eapply lookup_lt_Some). done.
    - by rewrite list_lookup_middle.
    - by rewrite jm_get_set_eq. }
  destruct (jm_get u (histories s)) as [e|] eqn:Hg.
  - case_bool_decide as Hage; injection Hcall as <- <-.
    + destruct (He u e Hg) as (r & Hr & Hu & Ht & Hn).
      split_and!; [by split| |done|done]. exists r. rewrite Ht. by split_and!.
    + split_and!; [done|done|done|]. intros Hf. by destruct (Hf (length (requests s))).
  - injection Hcall as <- <-. split_and!; [done|done|done|]. intros Hf. by destruct (Hf (length (requests s))).
Qed.

Lemma settle_ok p ok s : cache_ok s → cache_ok (settle p ok s).
Proof.
  intros [Hw Hb He]. unfold settle. destruct (requests s !! p) as [r|] eqn:Hp; [|done].
  destruct (ended r) eqn:Hend; [|done|done]. split; cbn [histories requests].
  - destruct ok; [done|by apply jm_wf_delete].
  - destruct ok; [done|]. unfold jm_size in *. pose proof (length_bfilter (λ kv, negb (bool_decide (url r = kv.1))) (histories s)).
    unfold jm_delete. lia.
  - intros u e Hg. assert (jm_get u (histories s) = Some e ∧ (ok = false → u ≠ url r)) as [Hg' Hne].
    { destruct ok; [done|]. rewrite jm_get_delete in Hg. by case_bool_decide. }
    destruct (He u e Hg') as (r' & Hr' & Hu & Ht & Hn). unfold entry_ok. cbn [requests].
    destruct (decide (promise e = p)) as [<-|].
    + rewrite Hp in Hr'. injection Hr' as <-. exists (with_ended (if ok then Fulfilled else Rejected) r).
      rewrite list_lookup_insert_eq by (by eapply lookup_lt_Some). split_and!; [done..|].
      destruct ok; [done|]. by destruct (Hne eq_refl).
    + exists r'. by rewrite list_lookup_insert_ne.
Qed.

Lemma step_ok e s : cache_ok s → cache_ok (step e s).
Proof.
  intros Hs. destruct e as [snapshot id k hours now now'|p ok|]; cbn [step].
  - destruct (historyFor _ _ _ _ _ _ s) as [o s'] eqn:Hc. by eapply historyFor_ok in Hc as [? _].
  - by apply settle_ok.
  - by split; [constructor| |].
Qed.

(** A URL says which node, which kind and which range is asked for. *)
Lemma digits_no_slash id : is_number_text id = true → 47 ∉ id.
Proof.
  intros [_ Hd]%andb_true_iff Hin. rewrite every_true in Hd. specialize (Hd 47 Hin). done.
Qed.

Lemma history_url_inj id id' k k' h h' :
  is_number_text id = true → is_number_text id' = true → history_url id k h = history_url id' k' h' →
  id = id' ∧ k = k' ∧ rangeFor h (is_ping k) = rangeFor h' (is_ping k).
Proof.
  intros Hid Hid' He. unfold history_url in He. apply app_inv_head in He.
  apply Network.separated_inj in He as [-> He]; [|by apply digits_no_slash..]. split; [done|].
  destruct k, k'; [|discriminate He|discriminate He|]; (split; [done|]); by apply app_inv_head, app_inv_head in He.
Qed.

(** The range asked for covers the hours asked for. *)
Definition range_hours (r : jsstring) : Z :=
  if bool_decide (r = js "1h") then 1 else if bool_decide (r = js "24h") then 24
  else if bool_decide (r = js "7d") then 168 else 720.

Lemma range_covers h ping : h ≤ 720 → h ≤ range_hours (rangeFor (Some h) ping).
Proof.
  intros Hh. unfold rangeFor. repeat case_bool_decide; try destruct ping; vm_compute range_hours; lia.
Qed.

(** The guards, by the digits of the identifier, the nodes and the sections. *)
Lemma allowed_spec snapshot id k :
  allowed snapshot id k = true ↔
  id ≠ [] ∧ (∀ c, c ∈ id → 48 ≤ c ≤ 57) ∧
  ∃ page n, snapshot = Some page ∧ n ∈ nodes page ∧ int_string (Snapshot.id n) = id ∧
    ∀ l, public_sections page = Sections l → js "history" ∈ l ∧ (k = pings → js "latency" ∈ l).
Proof.
  unfold allowed, is_number_text. rewrite !andb_true_iff, negb_true_iff, bool_decide_eq_false, every_true.
  assert ((∀ c, c ∈ id → is_ascii_digit c = true) ↔ ∀ c, c ∈ id → 48 ≤ c ≤ 57) as ->.
  { unfold is_ascii_digit. setoid_rewrite bool_decide_eq_true. done. }
  destruct snapshot as [page|]; [|naive_solver]. rewrite some_true. setoid_rewrite bool_decide_eq_true. unfold shows.
  split.
  - intros [[[[Hne Hd] (n & Hn & Hid)] Hh] Hk]. split_and!; [done|done|]. exists page, n. split_and!; try done.
    intros l Hl. rewrite Hl in Hh, Hk. split; [by apply bool_decide_eq_true in Hh|]. intros ->. by apply bool_decide_eq_true in Hk.
  - intros (Hne & Hd & page' & n & [= <-] & Hn & Hid & Hl). split_and!; [done|done|by exists n|..].
    + destruct (public_sections page) as [| |l]; try done. apply bool_decide_eq_true. by apply (Hl l).
    + destruct k; [|done]. destruct (public_sections page) as [| |l]; try done. apply bool_decide_eq_true. by apply (Hl l).
Qed.

(** ** Sharing *)

(** Every entry has a request of its own, so a cache is no larger than the
    list of requests. *)
Lemma cache_size s : cache_ok s → (length (histories s) ≤ length (requests s))%nat.
Proof.
  intros [Hw _ He]. rewrite <-(length_fmap (promise ∘ snd) (histories s)), <-(length_seq (length (requests s)) 0).
  apply NoDup_incl_length.
  - apply NoDup_ListNoDup. apply NoDup_fmap_2_strong; [|by eapply NoDup_fmap_1].
    intros [u e] [u' e'] Hu Hu' Heq. cbn in Heq.
    destruct (He u e) as (r & Hr & <- & Ht & _); [by apply jm_elem_of_get|].
    destruct (He u' e') as (r' & Hr' & <- & Ht' & _); [by apply jm_elem_of_get|].
    rewrite Heq, Hr' in Hr. injection Hr as ->. f_equal. destruct e, e'. cbn in *. congruence.
  - intros p ([u e] & -> & Hu)%list_elem_of_In%list_elem_of_fmap. apply in_seq. cbn.
    destruct (He u e) as (r & Hr%lookup_lt_Some & _); [by apply jm_elem_of_get|]. lia.
Qed.

(** Requests are only added, and keep their URL. *)
Lemma step_requests e s p r :
  requests s !! p = Some r → ∃ r', requests (step e s) !! p = Some r' ∧ url r' = url r.
Proof.
  intros Hp. destruct e as [snapshot id k hours now now'|q ok|]; cbn [step]; [|unfold settle|by exists r].
  - unfold historyFor. destruct (allowed snapshot id k); [|by exists r]. cbn [negb].
    destruct (jm_get _ (histories s)) as [c|]; [destruct (bool_decide _); [by exists r|]|];
      (exists r; cbn [snd requests]; by rewrite lookup_app_l by (by eapply lookup_lt_Some)).
  - destruct (requests s !! q) as [r'|] eqn:Hq; [|by exists r]. destruct (ended r'); try by exists r.
    cbn. destruct (decide (p = q)) as [<-|]; [|exists r; by rewrite list_lookup_insert_ne].
    rewrite Hp in Hq. injection Hq as <-. eexists.
    rewrite list_lookup_insert_eq by (by eapply lookup_lt_Some). done.
Qed.

Lemma step_length e s : (length (requests s) ≤ length (requests (step e s)))%nat.
Proof.
  destruct (length (requests s)) as [|n] eqn:Hn; [lia|].
  destruct (lookup_lt_is_Some_2 (requests s) n ltac:(lia)) as [r Hr].
  destruct (step_requests e s n r Hr) as (r' & Hr'%lookup_lt_Some & _). lia.
Qed.

Lemma runs_requests es s p r :
  requests s !! p = Some r → ∃ r', requests (runs step es s) !! p = Some r' ∧ url r' = url r.
Proof.
  revert s r. induction es as [|e es IH]; intros s r Hp; [by exists r|].
  destruct (step_requests e s p r Hp) as (r1 & H1 & <-). apply (IH _ _ H1).
Qed.

Lemma runs_length es s : (length (requests s) ≤ length (requests (runs step es s)))%nat.
Proof. revert s. induction es as [|e es IH]; intros s; [done|]. etrans; [apply (step_length e)|apply IH]. Qed.

(** What may happen while the request of [u] started at [t] is shared. *)
Definition undisturbed (u : jsstring) (t : Z) (final : HistoryCache.t) (e : event) : Prop :=
  match e with
  | Call _ _ _ _ now _ => now - t < 10000
  | Settle q ok => ok = true ∨ ∀ r, requests final !! q = Some r → url r ≠ u
  | Clear => False
  end.

Lemma undisturbed_step u t p final e s :
  cache_ok s → (length (requests (step e s)) ≤ 256)%nat → undisturbed u t final e →
  (∀ q r, requests s !! q = Some r → ∃ r', requests final !! q = Some r' ∧ url r' = url r) →
  jm_get u (histories s) = Some {| at_time := t; promise := p |} →
  jm_get u (histories (step e s)) = Some {| at_time := t; promise := p |}.
Proof.
  intros Hs Hlen Hu Hfin Hg. destruct e as [snapshot id k hours now now'|q ok|]; cbn [step undisturbed] in *; [| |done].
  - pose proof (cache_size s Hs) as Hsize. unfold historyFor in *. destruct (allowed snapshot id k); [|done]. cbn [negb] in *.
    set (v := history_url id k hours) in *. destruct (decide (v = u)) as [->|Hne].
    { rewrite Hg in *. cbn [at_time]. by rewrite bool_decide_eq_true_2. }
    assert ((length (requests s) < 256)%nat →
      jm_get u (jm_set v {| at_time := now'; promise := length (requests s) |} (evict (histories s))) =
      Some {| at_time := t; promise := p |}) as Hset.
    { intros Hl. rewrite jm_get_set_ne by done. unfold evict. rewrite bool_decide_eq_false_2; [done|].
      unfold jm_size, MAX. lia. }
    destruct (jm_get v (histories s)) as [c|]; [destruct (bool_decide _); [done|]|];
      cbn [snd requests histories] in *; rewrite length_app in Hlen; cbn [length] in Hlen; apply Hset; lia.
  - unfold settle. destruct (requests s !! q) as [r|] eqn:Hq; [|done]. destruct (ended r); try done. cbn.
    destruct ok; [done|]. rewrite jm_get_delete_ne; [done|]. destruct Hu as [?|Hu]; [done|].
    destruct (Hfin q r Hq) as (r' & Hr' & <-). intros E. by apply (Hu r' Hr').
Qed.

Lemma undisturbed_runs u t p es s :
  cache_ok s → (length (requests (runs step es s)) ≤ 256)%nat →
  (∀ e, e ∈ es → undisturbed u t (runs step es s) e) →
  jm_get u (histories s) = Some {| at_time := t; promise := p |} →
  jm_get u (histories (runs step es s)) = Some {| at_time := t; promise := p |}.
Proof.
  intros Hs Hlen. set (final := runs step es s) in *. intros Hu Hg.
  assert (final = runs step es s) as Hfin by done. clearbody final. revert s Hs Hg Hfin.
  induction es as [|e es IH]; intros s Hs Hg ->; [done|].
  change (runs step (e :: es) s) with (runs step es (step e s)) in *.
  apply (λ Hes, IH Hes (step e s)); [|by apply step_ok| |done].
  - intros e' He'. apply Hu. by right.
  - apply (undisturbed_step u t p (runs step es (step e s))); [done| |apply Hu; by left| |done].
    + etrans; [apply (runs_length es)|done].
    + intros q r Hq. destruct (step_requests e s q r Hq) as (r1 & H1 & <-). by apply runs_requests.
Qed.


(** A page with one node that shows everything. *)
Definition sample_node : Node :=
  {| Snapshot.id := 7; name := js "n"; group := None; group_zh := None; group_en := None; online := true;
     addr := None; version := None; last_seen := None;
     info := {| region := None; location := VUndefined; note := None; expires_at := None; price := None;
                billing := None; bandwidth := None |};
     host := None;
     traffic := {| used := VUndefined; used_up := VUndefined; used_down := VUndefined; limit := num_of_Z 0;
                   mode := [] |};
     ping_tasks := None; storage := Storage.Missing |}.

Definition sample_page : Snapshot :=
  {| title := js "t"; description := None; public_sections := NoSections; appearance_scheme := None;
     appearance := None; layout := None; show_globe := false; beat_seconds := num_of_Z 5;
     nodes := [sample_node] |}.

(** The failure of a request that was already replaced removes the entry of
    its successor: the next call starts a third request although the second,
    still pending, is a moment old. *)
Theorem stale_failure_drops_successor :
  let call now := Call (Some sample_page) (js "7") history (Some 1) now now in
  let s := runs step [call 0; call 10000; Settle 0 false] initial in
  requests s !! 1%nat = Some {| url := history_url (js "7") history (Some 1); started := 10000; ended := Pending |} ∧
  (historyFor (Some sample_page) (js "7") history (Some 1) 10001 10001 s).1 = Fetched 2.
Proof. vm_compute. split; reflexivity. Qed.

End HistoryCache.
