(* ===== verification/CaptainMetrics.v ===== *)
(** * Metrics of the Captain adapter ([glass-shared/captain.ts])

    What the adapter computes from a history it was sent: the series of load
    metrics and the records of the old RPC interface (module [LoadMetrics]),
    the series and statistics of the ping tasks (module [PingMetrics]), and the
    dispatch of RPC methods (module [CaptainCall]).

    Steps and time stamps are whole seconds, the bounds of a query whole
    milliseconds.  [None] is an exception: the [RangeError] of an invalid date.
    Keys of metrics are not names of inherited properties.  The bounds [start]
    and [end] of a query are texts; the source accepts numbers too. *)

From Stdlib Require Import SpecFloat.
From S2P Require Import Prelude JsMap JsString Json JsValue FloatFacts JsNumber.
From S2P Require Import JsText Calendar NodeCost Ping Network NodeFacts Captain.

Open Scope Z_scope.

(** ** Lists of results *)

Lemma mapM_Forall2 {A B} (f : A → option B) (P : A → B → Prop) (l : list A) :
  (∀ x, x ∈ l → ∃ y, f x = Some y ∧ P x y) → ∃ k, mapM f l = Some k ∧ Forall2 P l k.
Proof.
  intros Hl. induction l as [|x l IH]; [by exists []|]. destruct (Hl x) as (y & Hy & HP); [set_solver|].
  destruct IH as (k & Hk & Hf); [intros; apply Hl; set_solver|]. exists (y :: k). cbn [mapM].
  rewrite Hy. cbn [mbind option_bind]. rewrite Hk. split; [done|by constructor].
Qed.

Lemma NoDup_Forall2 {A B K L} (R : A → B → Prop) (f : A → K) (g : B → L) l k :
  Forall2 R l k → NoDup (f <$> l) →
  (∀ x x' y y', x ∈ l → x' ∈ l → R x y → R x' y' → g y = g y' → f x = f x') → NoDup (g <$> k).
Proof.
  intros HR. induction HR as [|x y l k Hxy HR IH]; intros Hnd Hinj; [constructor|]. cbn [fmap list_fmap] in *.
  apply NoDup_cons in Hnd as [Hx Hl]. apply NoDup_cons. split.
  - intros (y' & Hy & Hin)%list_elem_of_fmap. apply Hx. apply list_elem_of_lookup in Hin as [i Hi].
    destruct (Forall2_lookup_r _ _ _ _ _ HR Hi) as (x' & Hx' & Hr').
    apply list_elem_of_lookup_2 in Hx'. apply list_elem_of_fmap. exists x'. split; [|done].
    eapply Hinj; [set_solver|set_solver|done|done|done].
  - apply IH; [done|]. intros; eapply Hinj; [set_solver|set_solver|done..].
Qed.

(** ** The grid of a series *)

Module Grid.

(** [for (let t = first; t <= end; t += step)]; [None] when the loop does not
    end, which needs a negative step. *)
Fixpoint ticks_from (fuel : nat) (t end_ms step : Z) : option (list Z) :=
  if bool_decide (t * 1000 ≤ end_ms) then
    match fuel with
    | O => None
    | S fuel => cons t <$> ticks_from fuel (t + step) end_ms step
    end
  else Some [].

(** [Math.ceil(start / step) * step]: the quotients of seconds below 2^43 round
    to numbers with the exact ceiling. *)
Definition first_tick (start_ms step : Z) : Z := - ((- start_ms) / (step * 1000)) * step.

(** For [step = 0] the first value is [NaN], and the loop does not run. *)
Definition ticks (start_ms end_ms step : Z) : option (list Z) :=
  if bool_decide (step = 0) then Some []
  else
    let t := first_tick start_ms step in
    ticks_from (Z.to_nat ((end_ms - t * 1000) / (step * 1000) + 1)) t end_ms step.

(** [new Date(seconds * 1000).toISOString()] *)
Definition iso (seconds : Z) : option jsstring := toISOString (seconds * 1000).

(** The whole part of a finite number. *)
Definition trunc_Z (x : num) : option Z :=
  match x with
  | S754_zero _ => Some 0
  | S754_finite s m e => let '(a, d) := fraction m e in Some (if s then - (a / d) else a / d)
  | _ => None
  end.

(** [iso(ms / 1000)]: the seconds are a rounded quotient, and a date drops what
    is below a millisecond. *)
Definition iso_ms (ms : Z) : option jsstring :=
  trunc_Z (num_mul (num_div (num_of_Z ms) (num_of_Z 1000)) (num_of_Z 1000)) ≫= toISOString.

Example iso_ms_examples :
  iso_ms 1754006399000 = Some (js "2025-07-31T23:59:59.000Z") ∧
  iso_ms 1001 = Some (js "1970-01-01T00:00:01.000Z").
Proof. vm_compute. done. Qed.

Lemma ticks_from_spec step end_ms n t :
  0 < step → (end_ms - t * 1000) / (step * 1000) + 1 ≤ Z.of_nat n →
  ∃ l, ticks_from n t end_ms step = Some l ∧ StronglySorted Z.lt l ∧
       ∀ x, x ∈ l ↔ (∃ k, x = t + k * step ∧ 0 ≤ k) ∧ x * 1000 ≤ end_ms.
Proof.
  intros Hs. revert t. induction n as [|n IH]; intros t Hn; cbn [ticks_from]; case_bool_decide as Ht.
  - assert (0 ≤ (end_ms - t * 1000) / (step * 1000)) by (apply Z.div_pos; lia). lia.
  - exists []. split; [done|split; [constructor|]]. intros x. split; [by intros ?%not_elem_of_nil|].
    intros [(k & -> & Hk) Hx]. exfalso. nia.
  - destruct (IH (t + step)) as (l & -> & Hl & Hx).
    { replace (end_ms - (t + step) * 1000) with (end_ms - t * 1000 + (-1) * (step * 1000)) by lia.
      rewrite Z.div_add by lia. lia. }
    exists (t :: l). split; [done|split].
    + constructor; [done|]. apply Forall_forall. intros x [(k & -> & Hk) _]%Hx. nia.
    + intros x. rewrite elem_of_cons, Hx. split.
      * intros [->|[(k & -> & Hk) Hle]]; [split; [exists 0; lia|done]|].
        split; [exists (k + 1); lia|done].
      * intros [(k & -> & Hk) Hle]. destruct (decide (k = 0)) as [->|]; [left; lia|right].
        split; [exists (k - 1); lia|done].
  - exists []. split; [done|split; [constructor|]]. intros x. split; [by intros ?%not_elem_of_nil|].
    intros [(k & -> & Hk) Hx]. exfalso. nia.
Qed.

(** For a positive step the loop ends, with the multiples of the step between
    the bounds, in order. *)
Lemma ticks_spec start_ms end_ms step :
  0 < step →
  ∃ l, ticks start_ms end_ms step = Some l ∧ StronglySorted Z.lt l ∧
       ∀ x, x ∈ l ↔ (step | x) ∧ start_ms ≤ x * 1000 ≤ end_ms.
Proof.
  intros Hs. unfold ticks. rewrite bool_decide_eq_false_2 by lia. cbn zeta.
  set (t := first_tick start_ms step). destruct (ticks_from_spec step end_ms
    (Z.to_nat ((end_ms - t * 1000) / (step * 1000) + 1)) t Hs) as (l & Hl & Hsort & Hx); [lia|].
  exists l. split; [done|split; [done|]]. intros x. rewrite Hx. unfold t, first_tick.
  set (q := - start_ms / (step * 1000)).
  pose proof (Z.div_mod (- start_ms) (step * 1000) ltac:(lia)) as Hdm.
  pose proof (Z.mod_pos_bound (- start_ms) (step * 1000) ltac:(lia)) as Hmb. fold q in Hdm. split.
  - intros [(k & -> & Hk) Hle]. split; [exists (- q + k); lia|]. split; [nia|done].
  - intros [[z ->] [Hge Hle]]. split; [|done]. exists (z + q). split; [lia|].
    assert (0 < (z + q + 1) * (step * 1000)) by nia. nia.
Qed.

End Grid.

Module LoadMetrics.
Import Snapshot Grid.

Record StatPoint := { p_valid : option (jsmap string bool); ts : Z; n : num; values : jsmap string num }.

(** A live sample has no [ts]. *)
Inductive point := Stat (p : StatPoint) | Sample.

Record History := { to : Z; step : Z; points : option (list point) }.

(** A point of a series; [p_count] only in series of pings. *)
Record MetricPoint := { time : jsstring; p_value : option num; p_count : option Z }.

Record Tags := { task_id : jsstring; task_name : jsstring; task_type : jsstring }.

Record MetricSeries := {
  metric_key : jsstring;
  entity_id : jsstring;
  tags : option Tags;
  s_count : Z;
  s_points : list MetricPoint;
  downsampled : bool;
  interval_seconds : Z;
}.

Record MetricQueryResponse := { r_start : jsstring; r_end : jsstring; series : list MetricSeries; r_count : Z }.

(** Section, validity flag and property of a metric. *)
Record load_field := { section : string; validity : string; property : string }.

Definition loadFields : list (jsstring * load_field) :=
  (λ x, (js x.1.1.1, {| section := x.1.1.2; validity := x.1.2; property := x.2 |})) <$>
  [("cpu.usage", "cpu", "cpu", "cpu"); ("memory.used", "memory", "memory", "mem_used");
   ("memory.total", "memory", "memory", "mem_total"); ("swap.used", "memory", "swap", "swap_used");
   ("disk.used", "disk", "disk", "disk_used"); ("disk.total", "disk", "disk", "disk_total");
   ("net.in.rate", "network", "network", "net_down"); ("net.out.rate", "network", "network", "net_up");
   ("load.average", "system", "load", "load1"); ("process.count", "system", "processes", "procs");
   ("connections.tcp", "system", "connections", "tcp"); ("connections.udp", "system", "connections", "udp")]%string.

(** [new Map(points.map(p => \[p.ts, p\]))]: the last point of a time stays. *)
Definition by_time (l : list point) : jsmap Z StatPoint :=
  foldl (λ m p, match p with Stat p => jm_set (ts p) p m | Sample => m end) [] l.

Definition load_value (f : load_field) (p : option StatPoint) : option num :=
  match p with
  | Some p =>
      if num_ltb (num_of_Z 0) (n p) && negb (bool_decide (p_valid p ≫= jm_get (validity f) = Some false))
      then Some (default (num_of_Z 0) (jm_get (property f) (values p))) else None
  | None => None
  end.

Definition load_point (m : jsmap Z StatPoint) (f : load_field) (t : Z) : option MetricPoint :=
  (λ time, {| time := time; p_value := load_value f (jm_get t m); p_count := None |}) <$> iso t.

(** One key of the query; [Some None] is [\[\]]. *)
Definition load_series (snapshot : option Snapshot) (id : jsstring) (start_ms : Z) (h : History)
    (m : jsmap Z StatPoint) (key : jsstring) : option (option MetricSeries) :=
  match jm_get key loadFields with
  | Some f =>
      if shows snapshot (js (section f)) then
        ts ← ticks start_ms (to h * 1000) (step h);
        pts ← mapM (load_point m f) ts;
        Some (Some {| metric_key := key; entity_id := id; tags := None; s_count := Z.of_nat (length pts);
                      s_points := pts; downsampled := true; interval_seconds := step h |})
      else Some None
  | None => Some None
  end.

(** [hours] is [None] for [NaN]: then the start is no date. *)
Definition loadMetrics (snapshot : option Snapshot) (id : jsstring) (hours : option Z) (keys : list jsstring)
    (h : History) : option MetricQueryResponse :=
  hours ← hours;
  let m := by_time (default [] (points h)) in
  let start := to h - hours * 3600 in
  l ← mapM (load_series snapshot id (start * 1000) h m) keys;
  let series := omap (λ x, x) l in
  s ← iso start; e ← iso (to h);
  Some {| r_start := s; r_end := e; series := series; r_count := Z.of_nat (length series) |}.

(** The properties of a record. *)
Definition record_fields : list (jsstring * string) :=
  (λ x, (js x.1, x.2)) <$>
  [("cpu.usage", "cpu"); ("memory.used", "ram"); ("memory.total", "ram_total"); ("swap.used", "swap");
   ("disk.used", "disk"); ("disk.total", "disk_total"); ("net.in.rate", "net_in"); ("net.out.rate", "net_out");
   ("load.average", "load"); ("process.count", "process"); ("connections.tcp", "connections");
   ("connections.udp", "connections_udp")]%string.

(** A row: its client, time and measured values. *)
Record row := { client : jsstring; row_time : jsstring; cells : jsmap string (option num) }.

Definition put_cell (id : jsstring) (field : string) (records : jsmap jsstring row) (p : MetricPoint)
    : jsmap jsstring row :=
  let r := default {| client := id; row_time := time p; cells := [] |} (jm_get (time p) records) in
  jm_set (time p) {| client := client r; row_time := row_time r;
                     cells := jm_set field (p_value p) (cells r) |} records.

Definition put_series (id : jsstring) (records : jsmap jsstring row) (s : MetricSeries) : jsmap jsstring row :=
  foldl (put_cell id (default "undefined"%string (jm_get (metric_key s) record_fields))) records (s_points s).

Record Records := { records_count : Z; records : list row }.

Definition loadRecords (snapshot : option Snapshot) (id : jsstring) (hours : option Z) (h : History) : option Records :=
  metrics ← loadMetrics snapshot id hours (jm_keys loadFields) h;
  let m := foldl (put_series id) [] (series metrics) in
  Some {| records_count := jm_size m; records := jm_values m |}.

(** ** Records are the grid *)

(** Updating the entries of a map one by one, in the order of its keys. *)
Section columns.
Context {K A V : Type} `{EqDecision K} (k : A → K) (F : A → option V → V).

Definition update (m : jsmap K V) (x : A) : jsmap K V := jm_set (k x) (F x (jm_get (k x) m)) m.

Lemma update_fresh l : NoDup (k <$> l) → foldl update [] l = (λ x, (k x, F x None)) <$> l.
Proof using.
  induction l as [|x l IH] using rev_ind; [done|]. rewrite fmap_app, NoDup_app. intros (Hl & Hx & _).
  rewrite foldl_app, IH, fmap_app by done. cbn [foldl]. unfold update at 1.
  assert (jm_get (k x) ((λ x, (k x, F x None)) <$> l) = None) as Hg.
  { apply jm_get_None. rewrite <-list_fmap_compose. intros Hin.
    apply (Hx (k x)); [|set_solver]. by erewrite list_fmap_ext; [exact Hin|]. }
  rewrite Hg. by rewrite jm_set_fresh.
Qed.

Lemma jm_set_middle (m1 m2 : jsmap K V) key v v' :
  key ∉ m1.*1 → jm_set key v (m1 ++ (key, v') :: m2) = m1 ++ (key, v) :: m2.
Proof using.
  induction m1 as [|[k' w] m1 IH]; cbn; intros Hk.
  - by rewrite bool_decide_eq_true_2.
  - apply not_elem_of_cons in Hk as [Hne Hk]. rewrite bool_decide_eq_false_2 by done. by rewrite IH.
Qed.

Lemma update_all l (r : A → V) :
  NoDup (k <$> l) → foldl update ((λ x, (k x, r x)) <$> l) l = (λ x, (k x, F x (Some (r x)))) <$> l.
Proof using.
  assert (∀ l2 l1, NoDup (k <$> (l1 ++ l2)) →
    foldl update (((λ x, (k x, F x (Some (r x)))) <$> l1) ++ ((λ x, (k x, r x)) <$> l2)) l2 =
    (λ x, (k x, F x (Some (r x)))) <$> (l1 ++ l2)) as Hgen; [|by apply (Hgen l [])].
  clear l. induction l2 as [|x l2 IH]; intros l1 Hnd; [by rewrite !app_nil_r|].
  assert (k x ∉ ((λ x, (k x, F x (Some (r x)))) <$> l1).*1) as Hk.
  { rewrite <-list_fmap_compose. intros Hin. rewrite fmap_app in Hnd. apply NoDup_app in Hnd as (_ & Hd & _).
    apply (Hd (k x)); [by erewrite list_fmap_ext; [exact Hin|]|cbn; set_solver]. }
  cbn [foldl fmap list_fmap]. unfold update at 2. rewrite jm_set_middle by done.
  assert (jm_get (k x) (((λ x, (k x, F x (Some (r x)))) <$> l1) ++ (k x, r x) :: ((λ x, (k x, r x)) <$> l2))
    = Some (r x)) as ->.
  { clear IH Hnd. induction l1 as [|y l1 IH]; cbn; [by rewrite bool_decide_eq_true_2|].
    cbn in Hk. apply not_elem_of_cons in Hk as [Hne Hk]. rewrite bool_decide_eq_false_2 by done. by apply IH. }
  specialize (IH (l1 ++ [x])). rewrite <-!app_assoc in IH. cbn [app] in IH.
  rewrite <-IH by done. f_equal. rewrite fmap_app, <-app_assoc. done.
Qed.
End columns.

(** The metrics that are public. *)
Definition visible (snapshot : option Snapshot) : list (jsstring * load_field) :=
  bfilter (λ kf, shows snapshot (js (section kf.2))) loadFields.

Definition field_of (key : jsstring) : string := default "undefined"%string (jm_get key record_fields).

(** The row of one time: the values of the point of that time. *)
Definition row_at (snapshot : option Snapshot) (id : jsstring) (m : jsmap Z StatPoint) (t : Z) : row :=
  {| client := id; row_time := default [] (iso t);
     cells := (λ kf, (field_of kf.1, load_value kf.2 (jm_get t m))) <$> visible snapshot |}.

Lemma loadFields_keys : NoDup loadFields.*1 ∧ NoDup (field_of <$> loadFields.*1).
Proof. split; decide_closed. Qed.

Lemma iso_Some t : Z.abs (t * 1000) ≤ MAX_TIME → iso t = Some (default [] (iso t)).
Proof. intros Ht. unfold iso, toISOString. by rewrite bool_decide_eq_true_2. Qed.

Section rows.
Context (snapshot : option Snapshot) (id : jsstring) (start : Z) (h : History) (m : jsmap Z StatPoint) (ts : list Z).
Context (Hts : ticks (start * 1000) (to h * 1000) (step h) = Some ts).
Context (Hrange : ∀ t, t ∈ ts → Z.abs (t * 1000) ≤ MAX_TIME).
Context (Hnd : NoDup ts).

Let k (t : Z) : jsstring := default [] (iso t).

Definition point_at (f : load_field) (t : Z) : MetricPoint :=
  {| time := default [] (iso t); p_value := load_value f (jm_get t m); p_count := None |}.

Definition series_of (kf : jsstring * load_field) : MetricSeries :=
  {| metric_key := kf.1; entity_id := id; tags := None; s_count := Z.of_nat (length ts);
     s_points := point_at kf.2 <$> ts; downsampled := true; interval_seconds := step h |}.

Lemma points_mapM f : mapM (load_point m f) ts = Some (point_at f <$> ts).
Proof using Hrange.
  clear Hts Hnd. apply mapM_Some. induction ts as [|t l IH]; cbn [fmap list_fmap]; constructor.
  - unfold load_point. rewrite iso_Some by (apply Hrange; set_solver). done.
  - apply IH. intros; apply Hrange; set_solver.
Qed.

Lemma load_series_mapM l :
  l ⊆ loadFields →
  mapM (load_series snapshot id (start * 1000) h m) l.*1 =
  Some ((λ kf, if shows snapshot (js (section kf.2)) then Some (series_of kf) else None) <$> l).
Proof using Hts Hrange.
  clear Hnd. intros Hl. apply mapM_Some. induction l as [|[key f] l IH]; cbn [fmap list_fmap]; constructor; [|apply IH; set_solver].
  unfold load_series. cbn [fst snd].
  rewrite (jm_elem_of_get key f) by (apply loadFields_keys || apply Hl; set_solver).
  destruct (shows snapshot (js (section f))); [|done].
  rewrite Hts. cbn [mbind option_bind]. rewrite points_mapM. cbn [mbind option_bind].
  unfold series_of. cbn [fst snd]. by rewrite length_fmap.
Qed.

Lemma omap_visible l :
  omap (λ x, x) ((λ kf, if shows snapshot (js (section kf.2)) then Some (series_of kf) else None) <$> l) =
  series_of <$> bfilter (λ kf, shows snapshot (js (section kf.2))) l.
Proof using.
  induction l as [|kf l IH]; [done|]. cbn [fmap list_fmap omap list_omap bfilter].
  destruct (shows snapshot (js (section kf.2))); cbn; by rewrite <-IH.
Qed.

(** One series is one column. *)
Definition with_cell (kf : jsstring * load_field) (t : Z) (r : option row) : row :=
  let r := default {| client := id; row_time := k t; cells := [] |} r in
  {| client := client r; row_time := row_time r;
     cells := jm_set (field_of kf.1) (load_value kf.2 (jm_get t m)) (cells r) |}.

Lemma put_series_update recs kf : put_series id recs (series_of kf) = foldl (update k (with_cell kf)) recs ts.
Proof using.
  unfold put_series, series_of. cbn [metric_key s_points]. clear Hts Hrange Hnd. revert recs.
  induction ts as [|t l IH]; intros recs; [done|]. cbn [fmap list_fmap foldl]. rewrite <-IH. done.
Qed.

Lemma k_NoDup : NoDup (k <$> ts).
Proof using Hrange Hnd.
  clear Hts. induction ts as [|t l IH]; [constructor|]. apply NoDup_cons in Hnd as [Hni Hl].
  cbn [fmap list_fmap]. apply NoDup_cons. split; [|apply IH; [|done]; intros; apply Hrange; set_solver].
  intros (u & Hu & Hin)%list_elem_of_fmap. apply Hni.
  assert (t * 1000 = u * 1000) as He; [|by replace t with u by lia].
  eapply toISOString_inj; [apply (iso_Some t); apply Hrange; set_solver|].
  unfold k in Hu. rewrite Hu. apply iso_Some, Hrange. set_solver.
Qed.

Lemma put_all_series l r :
  foldl (put_series id) ((λ t, (k t, r t)) <$> ts) (series_of <$> l) =
  (λ t, (k t, foldl (λ r kf, with_cell kf t (Some r)) (r t) l)) <$> ts.
Proof using Hrange Hnd.
  revert r. induction l as [|kf l IH]; intros r; [done|]. cbn [fmap list_fmap foldl].
  rewrite put_series_update, (update_all k (with_cell kf)) by apply k_NoDup.
  change (list_fmap _ _ series_of l) with (series_of <$> l). by rewrite IH.
Qed.
End rows.

Lemma ascending_NoDup l : StronglySorted Z.lt l → NoDup l.
Proof.
  induction 1 as [|x l Hl IH Hx]; constructor; [|done]. intros Hin. rewrite Forall_forall in Hx.
  specialize (Hx x Hin). lia.
Qed.

(** The columns of a row, one after the other. *)
Lemma row_cells id m t l r :
  foldl (λ r kf, with_cell id m kf t (Some r)) r l =
  {| client := client r; row_time := row_time r;
     cells := foldl (λ c kf, jm_set (field_of kf.1) (load_value kf.2 (jm_get t m)) c) (cells r) l |}.
Proof. revert r. induction l as [|kf l IH]; intros r; [by destruct r|]. cbn [foldl]. by rewrite IH. Qed.

Lemma visible_NoDup snapshot : NoDup ((λ kf, field_of kf.1) <$> visible snapshot).
Proof.
  change (λ kf : jsstring * load_field, field_of kf.1) with (field_of ∘ fst : jsstring * load_field → string).
  rewrite list_fmap_compose. eapply sublist_NoDup; [apply loadFields_keys|].
  apply sublist_map, sublist_map, bfilter_sublist.
Qed.

Lemma put_visible snapshot id h m ts :
  (∀ t, t ∈ ts → Z.abs (t * 1000) ≤ MAX_TIME) → NoDup ts →
  jm_values (foldl (put_series id) [] (series_of id h m ts <$> visible snapshot)) =
  match visible snapshot with [] => [] | _ => row_at snapshot id m <$> ts end.
Proof.
  intros Hr Hnd. pose proof (visible_NoDup snapshot) as Hf. unfold row_at.
  destruct (visible snapshot) as [|kf l] eqn:Hv; [done|]. cbn [fmap list_fmap foldl].
  rewrite put_series_update, update_fresh by (by apply k_NoDup).
  change (list_fmap _ _ ?f l) with (f <$> l). rewrite put_all_series by done.
  unfold jm_values. rewrite <-list_fmap_compose. apply list_fmap_ext. intros _ t _. cbn [compose snd].
  rewrite row_cells. unfold with_cell. cbn [default client row_time cells]. f_equal.
  set (g := λ kf : jsstring * load_field, field_of kf.1). set (F := λ (kf : jsstring * load_field) (_ : option (option num)), load_value kf.2 (jm_get t m)).
  exact (update_fresh g F (kf :: l) Hf).
Qed.

Lemma by_time_spec l t :
  match jm_get t (by_time l) with
  | Some p => Stat p ∈ l ∧ ts p = t
  | None => ∀ p, Stat p ∈ l → ts p ≠ t
  end.
Proof.
  unfold by_time. induction l as [|[p|] l IH] using rev_ind; [intros p ?%not_elem_of_nil; done|..];
    rewrite foldl_app; cbn [foldl].
  - rewrite jm_get_set. case_bool_decide as He; [subst; split; [set_solver|done]|].
    destruct (jm_get t _) as [q|]; [destruct IH; split; [set_solver|done]|].
    intros q [Hq|Hq%list_elem_of_singleton]%elem_of_app; [by apply IH|congruence].
  - destruct (jm_get t _) as [q|]; [destruct IH; split; [set_solver|done]|].
    intros q [Hq|Hq%list_elem_of_singleton]%elem_of_app; [by apply IH|done].
Qed.


Definition sample_history : History :=
  {| to := 7200; step := 1800;
     points := Some [Stat {| p_valid := None; ts := 5400; n := num_of_Z 2;
                             values := [("cpu"%string, num_of_Z 12)] |}; Sample] |}.


End LoadMetrics.

Module PingMetrics.
Import Snapshot Grid.

(** What is used of [NetworkPoint] and [NetworkHistory]; [quality_type] is
    [p.quality?.type]. *)
Record NetworkPoint := {
  identity : Network.Identity;
  family : option jsstring;
  type : option jsstring;
  quality_type : option jsstring;
  ts : Z;
  n : Z;
  lost : Z;
  avg_ms : num;
}.

Record NetworkHistory := { points : option (list NetworkPoint); to : Z; step : Z }.

(** The metrics of [LoadMetrics] with their tags. *)
Import LoadMetrics(MetricPoint, Build_MetricPoint, time, p_value, p_count, Tags, Build_Tags, task_id, task_name,
  task_type, MetricSeries, Build_MetricSeries, MetricQueryResponse, Build_MetricQueryResponse, metric_key,
  entity_id, tags, s_count, s_points, downsampled, interval_seconds, r_start, r_end, series, r_count).

Record PingStat := {
  st_entity : jsstring;
  st_task_id : jsstring;
  st_name : jsstring;
  st_type : jsstring;
  st_tags : Tags;
  st_total : Z;
  st_valid : Z;
  st_loss : num;
  st_avg : option num;
}.

Record PingMetricStatsResponse := {
  ps_start : jsstring;
  ps_end : jsstring;
  stats : list PingStat;
  ps_count : Z;
  ps_interval : Z;
}.

Definition taskID (p : Network.Identity) : jsstring :=
  match Network.series p with
  | Some (_ :: _) => Network.networkIdentity p
  | _ => int_string (Network.task_id p) ++ 58 :: Network.name p
  end.

(** [configured === undefined || configured.some(...)] *)
Definition configured_for (configured : option (list PingTask)) (p : NetworkPoint) : bool :=
  match configured with
  | None => true
  | Some l =>
      some (λ t, negb (bool_decide (PingSelection.state (task t) = Some (js "unsupported")))
                 && PingSelection.matchesPing
                      (Network.task_id (identity p), Network.name (identity p), Network.series (identity p)) (task t)) l
  end.

(** The points of the window, [from] and [until] in milliseconds. *)
Definition selected (configured : option (list PingTask)) (from until : Z) (p : NetworkPoint) : bool :=
  bool_decide (from ≤ ts p * 1000) && bool_decide (ts p * 1000 ≤ until) && bool_decide (0 < n p)
  && configured_for configured p.

Definition group_points (l : list NetworkPoint) : jsmap jsstring (list NetworkPoint) :=
  foldl (λ m p, let key := Network.networkIdentity (identity p) in
                jm_set key (default [] (jm_get key m) ++ [p]) m) [] l.

Definition by_time (l : list NetworkPoint) : jsmap Z NetworkPoint := foldl (λ m p, jm_set (ts p) p m) [] l.

Inductive ping_key := latency | loss.
Definition key_text (k : ping_key) : jsstring :=
  match k with latency => js "ping.latency_ms" | loss => js "ping.loss" end.

Definition grid_value (k : ping_key) (p : option NetworkPoint) : option num :=
  match p with
  | None => None
  | Some p => match k with
              | loss => Some (num_div (num_of_Z (lost p)) (num_of_Z (n p)))
              | latency => if bool_decide (lost p < n p) then Some (avg_ms p) else None
              end
  end.

Definition grid_count (k : ping_key) (p : option NetworkPoint) : Z :=
  match p with
  | None => 0
  | Some p => match k with loss => n p | latency => n p - lost p end
  end.

Definition ping_point (k : ping_key) (m : jsmap Z NetworkPoint) (t : Z) : option MetricPoint :=
  (λ time, {| time := time; p_value := grid_value k (jm_get t m); p_count := Some (grid_count k (jm_get t m)) |})
  <$> iso t.

Definition sum_of (f : NetworkPoint → Z) (l : list NetworkPoint) : Z := foldl (λ a p, a + f p) 0 l.

Definition weighted (l : list NetworkPoint) : num :=
  foldl (λ a p, num_add a (num_mul (num_of_Z (Z.max 0 (n p - lost p))) (avg_ms p))) (num_of_Z 0) l.

Definition network_task (t : PingTask) : Network.Task :=
  {| Network.t_id := PingSelection.id (task t); Network.t_name := PingSelection.name (task t);
     Network.t_series := PingSelection.series (task t); Network.t_province := province t;
     Network.t_type := PingSelection.type (task t) |}.

Section metrics.
Context `{CaseMapping} (lang : jsstring).

Definition task_label (configured : option (list PingTask)) (p : NetworkPoint) : jsstring :=
  Network.networkTaskLabel (identity p) (family p) (type p) (quality_type p) (fmap (M:=list) network_task <$> configured) lang.

Definition ping_series (id : jsstring) (tags : Tags) (from until step : Z) (pts : list NetworkPoint) (k : ping_key)
    : option MetricSeries :=
  ts ← ticks from until step;
  grid ← mapM (ping_point k (by_time pts)) ts;
  Some {| metric_key := key_text k; entity_id := id; tags := Some tags; s_count := Z.of_nat (length grid);
          s_points := grid; downsampled := true; interval_seconds := step |}.

Definition ping_stat (id : jsstring) (tags : Tags) (pts : list NetworkPoint) : PingStat :=
  let total := sum_of n pts in
  let lost := sum_of lost pts in
  let valid := total - lost in
  {| st_entity := id; st_task_id := task_id tags; st_name := task_name tags; st_type := task_type tags;
     st_tags := tags; st_total := total; st_valid := valid;
     st_loss := if bool_decide (total = 0) then num_of_Z 0
                else num_mul (num_div (num_of_Z lost) (num_of_Z total)) (num_of_Z 100);
     st_avg := if bool_decide (0 < valid) then Some (num_div (weighted pts) (num_of_Z valid)) else None |}.

(** One round of the loop over the groups, which are never empty. *)
Definition group_metrics (id : jsstring) (configured : option (list PingTask)) (from until step : Z)
    (pts : list NetworkPoint) : option (list MetricSeries * PingStat) :=
  let pts := sort_on ts pts in
  match pts with
  | [] => None
  | p :: _ =>
      let tags := {| task_id := taskID (identity p); task_name := task_label configured p;
                     task_type := default (js "tcp") (quality_type p) |} in
      s ← mapM (ping_series id tags from until step pts) [latency; loss];
      Some (s, ping_stat id tags pts)
  end.

(** [bounds?.start ? new Date(bounds.start).getTime() : ...]: a parsed bound in
    milliseconds; an empty text is as good as none. *)
Definition bound (parse : jsstring → option Z) (text : option jsstring) (otherwise : option Z) : option Z :=
  match text with Some ((_ :: _) as s) => parse s | _ => otherwise end.

Record metrics := { m_metrics : MetricQueryResponse; m_stats : PingMetricStatsResponse }.

(** [None] also when a bound is no date: then no point is selected, and [iso]
    throws. *)
Definition pingMetrics (parse : jsstring → option Z) (snapshot : option Snapshot) (id : jsstring) (hours : option Z)
    (b_start b_end : option jsstring) (h : NetworkHistory) : option metrics :=
  from ← bound parse b_start ((λ hours, (to h - hours * 3600) * 1000) <$> hours);
  until ← (λ e, Z.min e (to h * 1000)) <$> bound parse b_end (Some (to h * 1000));
  let configured := find_node snapshot id ≫= ping_tasks in
  let groups := group_points (bfilter (selected configured from until) (default [] (points h))) in
  l ← mapM (group_metrics id configured from until (step h)) (jm_values groups);
  s ← iso_ms from; e ← iso_ms until;
  let series := mjoin l.*1 in
  let stats := l.*2 in
  Some {| m_metrics := {| r_start := s; r_end := e; series := series; r_count := Z.of_nat (length series) |};
          m_stats := {| ps_start := s; ps_end := e; stats := stats; ps_count := Z.of_nat (length stats);
                        ps_interval := step h |} |}.
End metrics.

(** ** One statistic per task *)

(** The points of a task. *)
Definition of_identity (key : jsstring) (p : NetworkPoint) : bool :=
  bool_decide (Network.networkIdentity (identity p) = key).

Lemma group_points_get l key :
  jm_get key (group_points l) =
  match bfilter (of_identity key) l with [] => None | g => Some g end.
Proof.
  unfold group_points. induction l as [|p l IH] using rev_ind; [done|].
  rewrite foldl_app, bfilter_app. cbn [foldl bfilter]. rewrite jm_get_set. unfold of_identity at 2.
  case_bool_decide as Hk.
  - subst key. rewrite bool_decide_eq_true_2, IH by done. by destruct (bfilter _ l).
  - rewrite bool_decide_eq_false_2, app_nil_r by congruence. apply IH.
Qed.

Lemma group_points_wf l : jm_wf (group_points l).
Proof.
  unfold group_points. induction l as [|p l IH] using rev_ind; [constructor|].
  rewrite foldl_app. cbn [foldl]. by apply jm_wf_set.
Qed.

Lemma group_points_elem l key g : (key, g) ∈ group_points l → g = bfilter (of_identity key) l ∧ g ≠ [].
Proof.
  intros Hin. apply jm_elem_of in Hin; [|apply group_points_wf]. rewrite group_points_get in Hin.
  destruct (bfilter _ l); [done|]. by injection Hin as <-.
Qed.

Lemma group_points_member l p :
  p ∈ l → ∃ g, (Network.networkIdentity (identity p), g) ∈ group_points l ∧ p ∈ g.
Proof.
  intros Hp. assert (p ∈ bfilter (of_identity (Network.networkIdentity (identity p))) l) as Hin.
  { apply elem_of_bfilter. unfold of_identity. by rewrite bool_decide_eq_true_2. }
  exists (bfilter (of_identity (Network.networkIdentity (identity p))) l). split; [|done].
  apply jm_elem_of; [apply group_points_wf|]. rewrite group_points_get.
  destruct (bfilter _ l); [by apply not_elem_of_nil in Hin|done].
Qed.

Lemma sum_of_perm f l l' : l ≡ₚ l' → sum_of f l = sum_of f l'.
Proof.
  unfold sum_of. intros Hp. assert (∀ l z, foldl (λ a p, a + f p) z l = z + foldr (λ p a, f p + a) 0 l) as Hs.
  { clear. induction l as [|p l IH]; intros z; cbn; [lia|]. rewrite IH. lia. }
  rewrite !Hs. f_equal. induction Hp; cbn; lia.
Qed.

(** The identifier of a task determines its points. *)
Lemma taskID_inj p q :
  Network.well_formed p → Network.well_formed q → taskID p = taskID q →
  Network.networkIdentity p = Network.networkIdentity q.
Proof.
  intros Hp Hq. unfold taskID.
  assert (∀ a r l, int_string a ++ 58 :: r ≠ 91 :: l) as Hne.
  { intros a r l He. pose proof (Network.int_string_chars 91 a) as Hc. destruct (int_string a) as [|c s]; [done|].
    injection He as -> _. apply Hc; [lia|lia|set_solver]. }
  assert (∀ a b, int_string (Network.task_id p) ++ 58 :: a = int_string (Network.task_id q) ++ 58 :: b →
    Network.task_id p = Network.task_id q ∧ a = b) as Hsep.
  { intros a b He. apply Network.separated_inj in He as [Hi ->]; [|apply Network.int_string_chars; lia..].
    split; [by apply Network.int_string_inj|done]. }
  unfold Network.networkIdentity in *.
  destruct (Network.series p) as [[|? ?]|], (Network.series q) as [[|? ?]|]; cbn [default from_option] in *;
    intros He; try (by exfalso; eapply Hne); try (by exfalso; symmetry in He; eapply Hne); try done;
    by apply Hsep in He as [-> ->].
Qed.

Lemma taskID_identity p q :
  Network.well_formed p → Network.well_formed q → Network.networkIdentity p = Network.networkIdentity q →
  taskID p = taskID q.
Proof.
  intros Hp Hq He. pose proof (Network.networkIdentity_inj p q Hp Hq He) as (Hi & Hn & Hs). unfold taskID.
  destruct (Network.series p) as [[|? ?]|], (Network.series q) as [[|? ?]|]; cbn [default from_option] in Hs; try done;
    by rewrite Hi, Hn.
Qed.

(** The points of a group are those with the task's identifier. *)
Lemma task_points sel key p :
  (∀ p, p ∈ sel → Network.well_formed (identity p)) → p ∈ bfilter (of_identity key) sel →
  bfilter (of_identity key) sel = bfilter (λ q, bool_decide (taskID (identity q) = taskID (identity p))) sel.
Proof.
  intros Hwf [Hk%bool_decide_eq_true Hp]%elem_of_bfilter. apply bfilter_ext. intros q Hq.
  unfold of_identity. apply bool_decide_ext. rewrite <-Hk.
  split; [apply taskID_identity|apply taskID_inj]; by apply Hwf.
Qed.

Section statistics.
Context `{CaseMapping} (lang : jsstring) (id : jsstring) (configured : option (list PingTask)) (from until step : Z).
Context (Hstep : 0 < step) (Hfrom : Z.abs from ≤ MAX_TIME) (Huntil : Z.abs until ≤ MAX_TIME).

Lemma ping_series_Some tg pts k : ∃ s, ping_series id tg from until step pts k = Some s ∧ metric_key s = key_text k.
Proof using Hstep Hfrom Huntil.
  unfold ping_series. destruct (ticks_spec from until step Hstep) as (ts & -> & _ & Hin). cbn [mbind option_bind].
  assert (is_Some (mapM (ping_point k (by_time pts)) ts)) as [grid ->]; [|by eexists].
  apply mapM_is_Some, Forall_forall. intros t [_ Ht]%Hin. unfold ping_point.
  cbn [compose]. rewrite (LoadMetrics.iso_Some t) by lia. by eexists.
Qed.

(** The statistic of a group, and its two series. *)
Definition stat_ok (g : list NetworkPoint) (r : list MetricSeries * PingStat) : Prop :=
  (metric_key <$> r.1) = [key_text latency; key_text loss] ∧
  (∃ p, p ∈ g ∧ st_task_id r.2 = taskID (identity p)) ∧
  st_total r.2 = sum_of n g ∧ st_valid r.2 = sum_of n g - sum_of lost g.

Lemma group_metrics_ok g :
  g ≠ [] → ∃ r, group_metrics lang id configured from until step g = Some r ∧ stat_ok g r.
Proof using Hstep Hfrom Huntil.
  intros Hg. unfold group_metrics. pose proof (sort_on_perm ts g) as Hp.
  destruct (sort_on ts g) as [|p l] eqn:Hs; [by apply Permutation_nil in Hp|]. cbn zeta. set (tg := Build_Tags _ _ _).
  destruct (ping_series_Some tg (p :: l) latency) as (s1 & H1 & Hk1).
  destruct (ping_series_Some tg (p :: l) loss) as (s2 & H2 & Hk2).
  cbn [mapM]. rewrite H1, H2. eexists. split; [done|]. unfold stat_ok, ping_stat. cbn [fst snd st_task_id st_total st_valid].
  rewrite !(sum_of_perm _ _ _ Hp). split; [cbn [fmap list_fmap]; by rewrite Hk1, Hk2|split; [|done]].
  exists p. split; [|done]. rewrite <-Hp. set_solver.
Qed.
End statistics.


Definition sample_pings : NetworkHistory :=
  let point t n lost name := {| identity := {| Network.task_id := 3; Network.name := js name; Network.series := None |};
                                family := None; type := None; quality_type := None; ts := t; n := n; lost := lost;
                                avg_ms := num_of_Z 20 |} in
  {| points := Some [point 5400 10 1 "a"; point 3600 10 0 "b"; point 7200 5 5 "a"]; to := 7200; step := 1800 |}.


End PingMetrics.

(** ** RPC methods *)

Module CaptainCall.
Import Snapshot HistoryCache LoadMetrics PingMetrics.

(** [Range] is the RangeError of an invalid date, [Request] a failed request. *)
Inductive error := NotFound | Unsupported (method : jsstring) | Aborted | Range | Request (message : jsstring).

Record Params := {
  p_entity_id : option jsstring;
  p_uuid : option jsstring;
  p_start : option jsstring;
  p_start_time : option jsstring;
  p_end : option jsstring;
  p_end_time : option jsstring;
  p_hours : option num;
  p_metric_keys : option (list jsstring);
  p_metrics : option (list jsstring);
  p_metric_key : option jsstring;
  p_type : option jsstring;
}.

Inductive result :=
  | Pong
  | Me
  | Version
  | Definitions (names : list jsstring)
  | PingTasks
  | Stats (s : PingMetricStatsResponse)
  | Metrics (m : MetricQueryResponse)
  | RecentRecords (l : list row)
  | AllRecords (r : Records)
  | NoPingRecords.

(** [a ?? b] *)
Definition nullish {A} (a b : option A) : option A := match a with Some _ => a | None => b end.

Definition clamp_hours (h : Z) : Z := Z.min 720 (Z.max 1 h).

(** [None] is [NaN]: the start is no date.  Whole milliseconds have the exact
    ceiling of their quotient. *)
Definition requestedHours (parse : jsstring → option Z) (now : Z) (p : Params) : option Z :=
  match nullish (p_start p) (p_start_time p) with
  | Some ((_ :: _) as s) => (λ t, clamp_hours (- ((t - now) / 3600000))) <$> parse s
  | _ =>
      let h := default NaN (p_hours p) in
      let h := if num_truthy h then h else num_of_Z 1 in
      Some (match ceil_Z h with
            | Some z => clamp_hours z
            | None => if num_ltb h (num_of_Z 0) then 1 else 720
            end)
  end.

Definition requested_keys (p : Params) : list jsstring :=
  match nullish (p_metric_keys p) (p_metrics p) with
  | Some l => l
  | None => match p_metric_key p with Some ((_ :: _) as k) => [k] | _ => [] end
  end.

(** What the environment does during a call: the answers of the two histories
    with the snapshots at the time they are used, which failure comes first,
    the clock when the call starts and when it ends, and the signal. *)
Record environment := {
  load_answer : error + History;
  load_snapshot : option Snapshot;
  ping_answer : error + NetworkHistory;
  ping_snapshot : option Snapshot;
  load_fails_first : bool;
  now_before : Z;
  now_after : Z;
  aborted_before : bool;
  aborted_after : bool;
}.

Section call.
Context `{CaseMapping} (lang : jsstring) (parse : jsstring → option Z) (snapshot : option Snapshot) (env : environment).

Definition or_range {A} (x : option A) : error + A := match x with Some a => inr a | None => inl Range end.

Definition bind_result {A B} (x : error + A) (f : A → error + B) : error + B :=
  match x with inl e => inl e | inr a => f a end.

(** [historyFor] followed by the computation on its answer. *)
Definition with_load {A} (id : jsstring) (f : History → option A) : error + A :=
  if allowed snapshot id history then bind_result (load_answer env) (λ h, or_range (f h)) else inl NotFound.

Definition with_pings {A} (id : jsstring) (f : NetworkHistory → option A) : error + A :=
  if allowed snapshot id pings then bind_result (ping_answer env) (λ h, or_range (f h)) else inl NotFound.

(** [Promise.all] of at most two calls. *)
Definition both (a b : error + MetricQueryResponse) : error + list MetricQueryResponse :=
  match a, b with
  | inr x, inr y => inr [x; y]
  | inl e, inl e' => inl (if load_fails_first env then e else e')
  | inl e, _ | _, inl e => inl e
  end.

Definition is_ping_key (k : jsstring) : bool := startsWith k (js "ping.").

Definition in_bounds (from until : Z) (p : MetricPoint) : bool :=
  match parse (time p) with Some t => bool_decide (from ≤ t) && bool_decide (t ≤ until) | None => false end.

Definition cut_series (from until : Z) (s : MetricSeries) : MetricSeries :=
  {| metric_key := metric_key s; entity_id := entity_id s; tags := tags s; s_count := s_count s;
     s_points := bfilter (in_bounds from until) (s_points s); downsampled := downsampled s;
     interval_seconds := interval_seconds s |}.

Definition query_metrics (id : jsstring) (hours : option Z) (b_start b_end : option jsstring) (keys : list jsstring)
    : error + result :=
  let load := with_load id (loadMetrics (load_snapshot env) id hours keys) in
  let ping := bind_result (with_pings id (pingMetrics lang parse (ping_snapshot env) id hours b_start b_end))
                (λ m, inr (m_metrics m)) in
  let wants_load := some (λ k, negb (is_ping_key k)) keys in
  let wants_ping := shows snapshot (js "latency") && some is_ping_key keys in
  let values :=
    if wants_load then if wants_ping then both load ping else bind_result load (λ x, inr [x])
    else if wants_ping then bind_result ping (λ x, inr [x]) else inr [] in
  bind_result values (λ values, or_range (
    from ← bound parse b_start ((λ h, now_after env - h * 3600000) <$> hours);
    until ← bound parse b_end (Some (now_after env));
    s ← toISOString from; e ← toISOString until;
    let series := cut_series from until <$> (values ≫= series) in
    Some (Metrics {| r_start := s; r_end := e; series := series; r_count := Z.of_nat (length series) |}))).

Definition definition_names : list jsstring :=
  bfilter (λ k, match jm_get k loadFields with Some f => shows snapshot (js (section f)) | None => false end)
    (jm_keys loadFields)
  ++ (if shows snapshot (js "latency") then [js "ping.latency_ms"; js "ping.loss"] else []).

Definition method_in (method : jsstring) (l : list string) : bool := bool_decide (method ∈ js <$> l).

Definition dispatch (method : jsstring) (p : Params) : error + result :=
  let id := default [] (nullish (p_entity_id p) (p_uuid p)) in
  let b_start := nullish (p_start p) (p_start_time p) in
  let b_end := nullish (p_end p) (p_end_time p) in
  let hours := requestedHours parse (now_before env) p in
  let is_method l := method_in method l in
  if is_method ["ping"; "rpc.ping"]%string then inr Pong
  else if is_method ["public:getMe"]%string then inr Me
  else if is_method ["public:getVersion"; "common:getBackendVersion"]%string then inr Version
  else if is_method ["public:listMetricDefinitions"]%string then inr (Definitions definition_names)
  else if is_method ["public:getPublicPingTasks"]%string then inr PingTasks
  else if is_method ["public:getPingMetricStats"]%string then
    with_pings id (λ h, (λ m, Stats (m_stats m)) <$> pingMetrics lang parse (ping_snapshot env) id hours b_start b_end h)
  else if is_method ["public:queryMetrics"]%string then query_metrics id hours b_start b_end (requested_keys p)
  else if is_method ["public:getClientRecentRecords"]%string then
    with_load id (λ h, (λ r, RecentRecords (records r)) <$> loadRecords (load_snapshot env) id hours h)
  else if is_method ["common:getRecords"; "public:getRecordsByUUID"; "common:getNodeRecentStatus"]%string then
    if bool_decide (p_type p = Some (js "ping")) then inr NoPingRecords
    else with_load id (λ h, AllRecords <$> loadRecords (load_snapshot env) id hours h)
  else inl (Unsupported method).

Definition captainCall (method : jsstring) (p : Params) : error + result :=
  if aborted_before env then inl Aborted
  else bind_result (dispatch method p) (λ r, if aborted_after env then inl Aborted else inr r).
End call.

(** ** Hours and access *)

Lemma requestedHours_range parse now p h : requestedHours parse now p = Some h → 1 ≤ h ≤ 720.
Proof.
  unfold requestedHours. assert (∀ z, 1 ≤ clamp_hours z ≤ 720) as Hc by (unfold clamp_hours; lia).
  assert (∀ x, 1 ≤ match ceil_Z x with Some z => clamp_hours z | None => if num_ltb x (num_of_Z 0) then 1 else 720 end
                 ≤ 720) as Hn by (intros x; destruct (ceil_Z x); [apply Hc|destruct (num_ltb _ _); lia]).
  destruct (nullish _ _) as [[|u s]|]; [intros [= <-]; apply Hn| |intros [= <-]; apply Hn].
  destruct (parse _) as [t|]; [|done]. intros [= <-]. apply Hc.
Qed.

(** The series of a load query are public metrics that were asked for. *)
Lemma loadMetrics_public snapshot id hours keys h m s :
  loadMetrics snapshot id hours keys h = Some m → s ∈ series m →
  metric_key s ∈ keys ∧
  ∃ f, jm_get (metric_key s) loadFields = Some f ∧ shows snapshot (js (section f)) = true.
Proof.
  unfold loadMetrics. destruct hours as [hours|]; [|done]. cbn [mbind option_bind].
  destruct (mapM _ keys) as [l|] eqn:Hl; [|done]. cbn [mbind option_bind].
  destruct (Grid.iso (_ - _)); [cbn [mbind option_bind]|done]. destruct (Grid.iso _); [|done].
  intros [= <-] (x & Hx & Hin)%list_elem_of_omap. cbn in Hin. subst x. apply mapM_Some in Hl.
  apply list_elem_of_lookup in Hx as [i Hi]. destruct (Forall2_lookup_r _ _ _ _ _ Hl Hi) as (key & Hk & He).
  unfold load_series in He. destruct (jm_get key loadFields) as [f|] eqn:Hf; [|done].
  destruct (shows snapshot (js (section f))) eqn:Hs; [|done].
  destruct (Grid.ticks _ _ _); [|done]. cbn [mbind option_bind] in He.
  destruct (mapM _ _); [|done]. injection He as <-. cbn [metric_key]. split; [by eapply list_elem_of_lookup_2|].
  by exists f.
Qed.

Lemma pingMetrics_keys `{CaseMapping} lang parse snapshot id hours b_start b_end h m s :
  pingMetrics lang parse snapshot id hours b_start b_end h = Some m → s ∈ series (m_metrics m) →
  is_ping_key (metric_key s) = true.
Proof.
  unfold pingMetrics. destruct (bound parse b_start _) as [from|]; [|done]. cbn [mbind option_bind].
  destruct (_ <$> bound parse b_end _) as [until|]; [|done]. cbn [mbind option_bind].
  destruct (mapM _ _) as [l|] eqn:Hl; [|done]. cbn [mbind option_bind].
  destruct (Grid.iso_ms from) as [s1|]; [cbn [mbind option_bind]|done].
  destruct (Grid.iso_ms until) as [s2|]; [|done].
  intros [= <-]. cbn [m_metrics series]. intros (ss & Hs & Hin)%list_elem_of_join.
  apply list_elem_of_fmap in Hin as (r & -> & Hr). apply mapM_Some in Hl.
  apply list_elem_of_lookup in Hr as [i Hi]. destruct (Forall2_lookup_r _ _ _ _ _ Hl Hi) as (g & _ & He).
  unfold group_metrics in He. destruct (sort_on ts g); [done|].
  destruct (mapM _ [latency; loss]) as [l'|] eqn:Hl'; [|done]. injection He as <-. cbn [fst] in Hs.
  apply mapM_Some in Hl'. apply list_elem_of_lookup in Hs as [j Hj].
  destruct (Forall2_lookup_r _ _ _ _ _ Hl' Hj) as (k & _ & Hk). unfold ping_series in Hk.
  destruct (Grid.ticks _ _ _); [|done]. cbn [mbind option_bind] in Hk. destruct (mapM _ _); [|done].
  injection Hk as <-. cbn [metric_key]. by destruct k.
Qed.

(** The same call with other answers. *)
Definition with_answers (load : error + History) (ping : error + NetworkHistory) (env : environment) : environment :=
  {| load_answer := load; load_snapshot := load_snapshot env; ping_answer := ping;
     ping_snapshot := ping_snapshot env; load_fails_first := load_fails_first env; now_before := now_before env;
     now_after := now_after env; aborted_before := aborted_before env; aborted_after := aborted_after env |}.

Lemma allowed_history snapshot id k : allowed snapshot id k = true → shows snapshot (js "history") = true.
Proof. unfold allowed. intros Ha. by reflect_bools. Qed.

Lemma allowed_latency snapshot id : allowed snapshot id pings = true → shows snapshot (js "latency") = true.
Proof. unfold allowed. intros Ha. by reflect_bools. Qed.

(** A series of an answer. *)
Definition series_ok (load_snapshot : option Snapshot) (keys : list jsstring) (s : MetricSeries) : Prop :=
  is_ping_key (metric_key s) = true ∨
  (metric_key s ∈ keys ∧
   ∃ f, jm_get (metric_key s) loadFields = Some f ∧ shows load_snapshot (js (section f)) = true).

Lemma query_series `{CaseMapping} lang parse snapshot env id hours b_start b_end keys m s :
  query_metrics lang parse snapshot env id hours b_start b_end keys = inr (Metrics m) → s ∈ series m →
  series_ok (load_snapshot env) keys s.
Proof.
  unfold query_metrics. cbn zeta. set (load := with_load _ _ _ _). set (ping := bind_result (with_pings _ _ _ _) _).
  assert (∀ x s, load = inr x → s ∈ series x → series_ok (load_snapshot env) keys s) as Hl.
  { unfold load, with_load. intros x t. destruct (allowed _ _ _); [|done]. destruct (load_answer env) as [|h]; [done|].
    cbn [bind_result]. destruct (loadMetrics _ _ _ _ _) as [y|] eqn:Hy; [|done]. intros [= <-] Ht. right.
    by eapply loadMetrics_public. }
  assert (∀ x s, ping = inr x → s ∈ series x → series_ok (load_snapshot env) keys s) as Hp.
  { unfold ping, with_pings. intros x t. destruct (allowed _ _ _); [|done]. destruct (ping_answer env) as [|h]; [done|].
    cbn [bind_result]. destruct (pingMetrics _ _ _ _ _ _ _ _) as [y|] eqn:Hy; [|done]. intros [= <-] Ht. left.
    by eapply pingMetrics_keys. }
  set (values := if some _ keys then _ else _). destruct values as [|l] eqn:Hv; [done|]. cbn [bind_result].
  destruct (bound parse b_start _) as [from|]; [cbn [mbind option_bind]|done].
  destruct (bound parse b_end _) as [until|]; [cbn [mbind option_bind]|done].
  destruct (toISOString from); [cbn [mbind option_bind]|done]. destruct (toISOString until); [|done].
  intros [= <-]. cbn [series]. intros (t & -> & (x & Ht & Hx)%list_elem_of_bind)%list_elem_of_fmap.
  change (series_ok (load_snapshot env) keys t).
  assert (load = inr x ∨ ping = inr x) as [|]; [|by eapply Hl|by eapply Hp].
  unfold values, both in Hv. clearbody load ping.
  destruct (some _ keys), (shows _ _ && _); destruct load, ping; try done; injection Hv as <-; set_solver.
Qed.

Lemma dispatch_series `{CaseMapping} lang parse snapshot env method p m s :
  dispatch lang parse snapshot env method p = inr (Metrics m) → s ∈ series m →
  series_ok (load_snapshot env) (requested_keys p) s.
Proof.
  unfold dispatch. cbn zeta. generalize (method_in method). intros mi.
  do 5 (destruct (mi _); [intros Hd; discriminate Hd|]).
  destruct (mi _).
  { unfold with_pings. destruct (allowed _ _ _); [|intros Hd; discriminate Hd].
    destruct (ping_answer env); [intros Hd; discriminate Hd|]. cbn [bind_result].
    destruct (pingMetrics _ _ _ _ _ _ _ _); intros Hd; discriminate Hd. }
  destruct (mi _); [apply query_series|]. unfold with_load.
  destruct (mi _).
  { destruct (allowed _ _ _); [|intros Hd; discriminate Hd]. destruct (load_answer env); [intros Hd; discriminate Hd|].
    cbn [bind_result]. destruct (loadRecords _ _ _ _); intros Hd; discriminate Hd. }
  destruct (mi _); [|intros Hd; discriminate Hd]. destruct (bool_decide _); [intros Hd; discriminate Hd|].
  destruct (allowed _ _ _); [|intros Hd; discriminate Hd]. destruct (load_answer env); [intros Hd; discriminate Hd|].
  cbn [bind_result]. destruct (loadRecords _ _ _ _); intros Hd; discriminate Hd.
Qed.

(** C13: the adapter reads only what is public.  When histories are not public,
    the result of a call does not depend on any history the server might send,
    and when latency is not public, it does not depend on the history of pings.
    Every series of a metrics query is of a ping metric, or of a metric that was
    asked for and is public. *)
Theorem captain_call_confined `{CaseMapping} lang parse snapshot env method p :
  (shows snapshot (js "history") = false → ∀ load ping,
     captainCall lang parse snapshot (with_answers load ping env) method p =
     captainCall lang parse snapshot env method p) ∧
  (shows snapshot (js "latency") = false → ∀ ping,
     captainCall lang parse snapshot (with_answers (load_answer env) ping env) method p =
     captainCall lang parse snapshot env method p) ∧
  (∀ m s, captainCall lang parse snapshot env method p = inr (Metrics m) → s ∈ series m →
     series_ok (load_snapshot env) (requested_keys p) s).
Proof.
  assert (∀ load ping A id (f : History → option A), (shows snapshot (js "history") = false ∨ load = load_answer env) →
    with_load snapshot (with_answers load ping env) id f = with_load snapshot env id f) as Hload.
  { intros load ping A id f Hor. unfold with_load. destruct (allowed snapshot id history) eqn:Ha; [|done].
    apply allowed_history in Ha. destruct Hor as [?| ->]; [congruence|done]. }
  assert (∀ load ping A id (f : NetworkHistory → option A),
    (shows snapshot (js "history") = false ∨ shows snapshot (js "latency") = false) →
    with_pings snapshot (with_answers load ping env) id f = with_pings snapshot env id f) as Hping.
  { intros load ping A id f Hor. unfold with_pings. destruct (allowed snapshot id pings) eqn:Ha; [|done].
    pose proof (allowed_history _ _ _ Ha). pose proof (allowed_latency _ _ Ha). destruct Hor; congruence. }
  assert (∀ load ping, (shows snapshot (js "history") = false ∨
      (shows snapshot (js "latency") = false ∧ load = load_answer env)) →
    captainCall lang parse snapshot (with_answers load ping env) method p =
    captainCall lang parse snapshot env method p) as Hsame.
  { intros load ping Hor. unfold captainCall, dispatch, query_metrics, both. cbn [with_answers aborted_before aborted_after
      now_before now_after load_snapshot ping_snapshot load_fails_first].
    by rewrite !Hload, !Hping by tauto. }
  split; [intros Hh load ping; apply Hsame; by left|]. split; [intros Hl ping; apply Hsame; by right|].
  intros m s. unfold captainCall. destruct (aborted_before env); [done|].
  destruct (dispatch _ _ _ _ _ _) as [|r] eqn:Hd; [done|]. cbn [bind_result].
  destruct (aborted_after env); [done|]. intros [= ->] Hs. by eapply dispatch_series.
Qed.

End CaptainCall.
