(* ===== verification/InitApp.v ===== *)
(** * Polling of the status page ([glass/src/utils/init.ts])

    The page asks for a snapshot, puts it into the stores, and asks again after
    a pause; a retry or a change of the system's colour scheme asks at once.

    [polling] has the variables of the module ([timer], [controller],
    [stopped]), the requests that are in flight and the timers that are
    pending; [page] has the parts of other components that a refresh changes:
    the snapshot box, the public settings, the node store ([NodesStore]) and
    the history cache ([HistoryCache]).  Requests and timers have numbers.  An aborted request
    fails with an [AbortError], whatever the server would answer.  The metadata
    of the document ([applyProbeMetadata]) are represented by the snapshot they
    come from. *)

From Stdlib Require Import SpecFloat.
From S2P Require Import Prelude JsMap JsString Json JsValue FloatFacts JsNumber.
From S2P Require Import JsText Calendar NodesStore NodeCost Ping Network NodeFacts Captain.

Open Scope Z_scope.

Module InitApp.
Import Snapshot.

(** ** What a refresh writes *)

(** [Object.fromEntries] of entries with integer keys: a later entry of a key
    replaces the value, and keys that are array indices come first, in
    ascending order. *)
Definition is_index (z : Z) : bool := bool_decide (0 ≤ z < 2 ^ 32 - 1).

Definition from_entries {A} (l : list (Z * A)) : jsmap jsstring A :=
  let m := foldl (λ m kv, jm_set kv.1 kv.2 m) [] l in
  (λ kv, (int_string kv.1, kv.2)) <$>
    (sort_on fst (bfilter (λ kv, is_index kv.1) m) ++ bfilter (λ kv, negb (is_index kv.1)) m).

Definition clients_of (s : Snapshot) : jsmap jsstring (option fields) :=
  from_entries (imap (λ i n, (id n, Some (clientFor (Some s) n (Z.of_nat i)))) (nodes s)).

Definition statuses_of (s : Snapshot) : jsmap jsstring (option fields) :=
  from_entries ((λ n, (id n, Some (statusFor (Some s) n))) <$> nodes s).

(** [byId]: the last node of an identifier. *)
Definition by_id (s : Snapshot) : jsmap jsstring Node :=
  foldl (λ m n, jm_set (int_string (id n)) n m) [] (nodes s).

(** The callback of [patchNodes]; [array] names the new array. *)
Definition patch_of (s : Snapshot) (array : nat) (f : fields) : option fields :=
  (λ source,
    [("captainTraffic"%string, VNum (pt_used (periodTraffic (Some s) source)));
     ("groups"%string, VObj (Env array) (JArr (match group source with
                                               | Some ((_ :: _) as g) => [JStr g]
                                               | _ => []
                                               end)))])
  <$> jm_get (NodesStore.uuid f) (by_id s).

Definition store_ops (s : Snapshot) (array : nat) : list NodesStore.op :=
  [NodesStore.UpdateClients (clients_of s); NodesStore.UpdateStatuses (statuses_of s);
   NodesStore.PatchNodes (patch_of s array)].

(** [s.appearance_scheme ?? s.appearance?.scheme] *)
Definition scheme_of (s : Snapshot) : option jsstring :=
  match appearance_scheme s with Some x => Some x | None => appearance s ≫= a_scheme end.

(** The settings that depend on the snapshot; [dark] is [system.matches]. *)
Record PublicSettings := {
  sitename : jsstring;
  description : jsstring;
  record_enabled : bool;
  ping_record_preserve_time : Z;
  theme_settings : jsmap string json;
}.

Definition card_keys (s : Snapshot) : list jsstring :=
  let on section keys := if shows (Some s) (js section) then js <$> keys else [] in
  on "memory" ["memory"]%string ++ on "disk" ["disk"]%string
  ++ (if shows (Some s) (js "info") then [js "remainingValue"] else [js "onlineNodes"])
  ++ on "traffic" ["totalTraffic"]%string ++ on "network" ["uploadSpeed"; "downloadSpeed"]%string.

Definition settings_of (dark : bool) (s : Snapshot) : PublicSettings :=
  let scheme := default (js "dark") (scheme_of s) in
  {| sitename := title s;
     description := default [] (Snapshot.description s);
     record_enabled := shows (Some s) (js "history");
     ping_record_preserve_time := if shows (Some s) (js "latency") && shows (Some s) (js "history") then 720 else 0;
     theme_settings :=
       [("themeMode", JStr (if bool_decide (scheme = js "auto") then if dark then js "dark" else js "light" else scheme));
        ("dataUpdateInterval", JNum (beat_seconds s));
        ("visitorInfoEnabled", JBool false);
        ("hideEarth", JBool (negb (show_globe s) || negb (shows (Some s) (js "system"))));
        ("defaultViewMode", JStr (if bool_decide (layout s = Some (js "compact")) then js "list" else js "card"));
        ("hidePriceWhenLoggedOut", JBool (negb (shows (Some s) (js "info"))));
        ("generalCardKeys", JStr (join (js ",") (card_keys s)))]%string |}.

(** ** State *)

(** A request: its number and whether it was aborted. *)
Record flight := { number : nat; aborted : bool }.

(** A timer is its number and its delay; [listening] is whether
    [systemChanged] is registered. *)
Record polling := mkPolling {
  stopped : bool;
  listening : bool;
  timer : option nat;
  pending : list (nat * num);
  controller : option nat;
  inflight : list flight;
  fresh : nat;
}.

(** [arrays] counts the arrays that patches made. *)
Record page := mkPage {
  snapshot : option Snapshot;
  settings : option PublicSettings;
  metadata : option Snapshot;
  store : NodesStore.t;
  histories : HistoryCache.t;
  loading : bool;
  connectionError : bool;
  reloads : nat;
  arrays : nat;
}.

Record t := mk { poll : polling; view : page }.

(** [loading] is true when the page is loaded. *)
Definition initial : t :=
  mk (mkPolling false false None [] None [] 0)
     (mkPage None None None NodesStore.initial HistoryCache.initial true false 0 0).

(** ** Requests and timers *)

(** [clearTimeout(timer)] *)
Definition clear_timer (p : polling) : polling :=
  mkPolling (stopped p) (listening p) (timer p)
    (bfilter (λ x, negb (bool_decide (Some x.1 = timer p))) (pending p)) (controller p) (inflight p) (fresh p).

(** [controller?.abort()] *)
Definition abort (p : polling) : polling :=
  mkPolling (stopped p) (listening p) (timer p) (pending p) (controller p)
    ((λ f, if bool_decide (controller p = Some (number f)) then {| number := number f; aborted := true |} else f)
     <$> inflight p) (fresh p).

(** [refresh] up to its [await]. *)
Definition refresh (p : polling) : polling :=
  let p := abort p in
  mkPolling (stopped p) (listening p) (timer p) (pending p) (Some (fresh p))
    (inflight p ++ [{| number := fresh p; aborted := false |}]) (S (fresh p)).

(** [Math.max(5, snapshot.value?.beat_seconds ?? 15) * 1000] *)
Definition delay (sn : option Snapshot) : num :=
  num_mul (math_max (num_of_Z 5) (match sn with Some sn => beat_seconds sn | None => num_of_Z 15 end)) (num_of_Z 1000).

(** [if (!stopped) timer = setTimeout(...)] *)
Definition schedule (d : num) (p : polling) : polling :=
  if stopped p then p
  else mkPolling (stopped p) (listening p) (Some (fresh p)) (pending p ++ [(fresh p, d)]) (controller p) (inflight p)
         (S (fresh p)).

(** A request has ended. *)
Definition landed (n : nat) (p : polling) : polling :=
  mkPolling (stopped p) (listening p) (timer p) (pending p) (controller p)
    (bfilter (λ f, negb (bool_decide (number f = n))) (inflight p)) (fresh p).

(** A timer has fired. *)
Definition fired (n : nat) (p : polling) : polling :=
  mkPolling (stopped p) (listening p) (timer p) (bfilter (λ x, negb (bool_decide (x.1 = n))) (pending p))
    (controller p) (inflight p) (fresh p).

Definition initApp (p : polling) : polling :=
  refresh (mkPolling false true (timer p) (pending p) (controller p) (inflight p) (fresh p)).

Definition retryInitApp (p : polling) : polling := refresh (clear_timer p).

Definition stop_polling (p : polling) : polling :=
  let p := abort (clear_timer p) in
  mkPolling true false (timer p) (pending p) (controller p) (inflight p) (fresh p).

(** ** Answers *)

(** What the server answers: a snapshot, or an error with its message. *)
Inductive answer := Answered (s : Snapshot) | Failed (message : jsstring).

(** The page is loaded again when its sections change; two arrays have the same
    JSON text exactly when they are equal. *)
Definition must_reload (old : option Snapshot) (sn : Snapshot) : bool :=
  match old with
  | Some o => negb (bool_decide ((appearance sn ≫= preset) = Some (js "glass")))
              || negb (bool_decide (public_sections o = public_sections sn))
  | None => false
  end.

(** The statements after the checks. *)
Definition accept (dark : bool) (sn : Snapshot) (g : page) : page :=
  mkPage (Some sn) (Some (settings_of dark sn)) (Some sn)
    (runs NodesStore.step (store_ops sn (arrays g)) (store g)) (histories g) (loading g) false (reloads g)
    (S (arrays g)).

Definition reload (g : page) : page :=
  mkPage (snapshot g) (settings g) (metadata g) (store g) (histories g) (loading g) (connectionError g)
    (S (reloads g)) (arrays g).

Definition is_denied (message : jsstring) : bool := bool_decide (message ∈ js <$> ["401"; "403"; "404"]%string).

(** The [catch] block, for an error that is no [AbortError]. *)
Definition fail (message : jsstring) (g : page) : page :=
  let denied := is_denied message in
  mkPage (if denied then None else snapshot g) (settings g) (metadata g)
    (if denied then NodesStore.step NodesStore.ClearNodes (store g) else store g)
    (if denied then HistoryCache.clearHistoryCache (histories g) else histories g)
    (loading g) true (reloads g) (arrays g).

(** [appStore.setLoading(false)] *)
Definition loaded (g : page) : page :=
  mkPage (snapshot g) (settings g) (metadata g) (store g) (histories g) false (connectionError g) (reloads g) (arrays g).

(** [refresh] from its [await] on, without the new timer. *)
Definition settle (dark was_aborted is_stopped : bool) (a : answer) (g : page) : page :=
  loaded (if was_aborted || is_stopped then g
          else match a with
               | Answered sn => if must_reload (snapshot g) sn then reload g else accept dark sn g
               | Failed m => fail m g
               end).

(** The page after [destroyInitManager]. *)
Definition leave (g : page) : page :=
  mkPage (snapshot g) (settings g) None (store g) (HistoryCache.clearHistoryCache (histories g)) (loading g)
    (connectionError g) (reloads g) (arrays g).

Definition read (privateAllowed : bool) (g : page) : page :=
  mkPage (snapshot g) (settings g) (metadata g) (NodesStore.step (NodesStore.GetState privateAllowed) (store g))
    (histories g) (loading g) (connectionError g) (reloads g) (arrays g).

Definition wants_system (s : t) : bool :=
  listening (poll s) && bool_decide ((snapshot (view s) ≫= scheme_of) = Some (js "auto")).

Definition systemChanged (s : t) : t := if wants_system s then mk (retryInitApp (poll s)) (view s) else s.

Definition destroyInitManager (s : t) : t := mk (stop_polling (poll s)) (leave (view s)).

Inductive event :=
  | Init
  | Retry
  | SystemChange
  | Destroy
  | Fire (timer : nat)
  | Answer (request : nat) (a : answer) (dark : bool)
  | Read (privateAllowed : bool).

Definition step (e : event) (s : t) : t :=
  match e with
  | Init => mk (initApp (poll s)) (view s)
  | Retry => mk (retryInitApp (poll s)) (view s)
  | SystemChange => systemChanged s
  | Destroy => destroyInitManager s
  | Fire n => if bool_decide (n ∈ (pending (poll s)).*1) then mk (refresh (fired n (poll s))) (view s) else s
  | Answer n a dark =>
      match list_find_first (λ f, bool_decide (number f = n)) (inflight (poll s)) with
      | Some f =>
          let g := settle dark (aborted f) (stopped (poll s)) a (view s) in
          mk (schedule (delay (snapshot g)) (landed n (poll s))) g
      | None => s
      end
  | Read p => mk (poll s) (read p (view s))
  end.

(** ** Polling goes on *)

Definition busy (p : polling) : Prop := stopped p = false → inflight p ≠ [] ∨ pending p ≠ [].

Lemma refresh_busy p : busy (refresh p).
Proof. intros _. left. unfold refresh. cbn. by destruct (_ <$> inflight p). Qed.

Lemma step_busy e s : busy (poll s) → busy (poll (step e s)).
Proof.
  intros Hs. destruct e as [| | | |n|n a dark|p]; cbn [step poll]; try apply refresh_busy; try done.
  - unfold systemChanged. destruct (wants_system s); [apply refresh_busy|done].
  - case_bool_decide; [apply refresh_busy|done].
  - destruct (list_find_first _ _); [|done]. cbn [poll]. unfold schedule. destruct (stopped _) eqn:Hst.
    + intros ?. congruence.
    + intros _. right. cbn. by destruct (pending (poll s)).
Qed.

(** ** Chains of polling

    A chain is a request that will schedule a timer, or a timer that will start
    a request. *)

Definition chains (p : polling) : nat := length (inflight p) + length (pending p).

(** Numbers are used once. *)
Record numbered (p : polling) : Prop := {
  flights_unique : NoDup (number <$> inflight p);
  flights_old : Forall (λ n, (n < fresh p)%nat) (number <$> inflight p);
  timers_unique : NoDup (pending p).*1;
  timers_old : Forall (λ n, (n < fresh p)%nat) (pending p).*1;
}.

Lemma numbered_sub p q :
  numbered p → number <$> inflight q `sublist_of` number <$> inflight p → (pending q).*1 `sublist_of` (pending p).*1 →
  (fresh p ≤ fresh q)%nat → numbered q.
Proof.
  intros [H1 H2 H3 H4] Hi Ht Hf. rewrite Forall_forall in H2, H4.
  split; [exact (sublist_NoDup _ _ H1 Hi)| |exact (sublist_NoDup _ _ H3 Ht)|]; apply Forall_forall; intros n Hn.
  - specialize (H2 n (elem_of_sublist _ _ _ Hn Hi)). lia.
  - specialize (H4 n (elem_of_sublist _ _ _ Hn Ht)). lia.
Qed.

(** A list of old numbers with the next one. *)
Lemma fresh_snoc (l : list nat) (n : nat) :
  NoDup l → Forall (λ k, (k < n)%nat) l → NoDup (l ++ [n]) ∧ Forall (λ k, (k < S n)%nat) (l ++ [n]).
Proof.
  intros Hl Hf. split.
  - apply NoDup_app. split; [done|]. split; [|apply NoDup_singleton]. intros k Hk ->%list_elem_of_singleton.
    rewrite Forall_forall in Hf. specialize (Hf _ Hk). cbn in Hf. lia.
  - apply Forall_app. split; [|by repeat constructor]. eapply Forall_impl; [exact Hf|]. cbn. lia.
Qed.

Lemma abort_numbers p : number <$> inflight (abort p) = number <$> inflight p.
Proof.
  unfold abort. cbn [inflight]. rewrite <-list_fmap_compose. apply list_fmap_ext. intros _ f _. cbn.
  by case_bool_decide.
Qed.

Lemma refresh_numbered p : numbered p → numbered (refresh p).
Proof.
  intros [H1 H2 H3 H4]. destruct (fresh_snoc _ _ H1 H2) as [Hn Hf].
  split; unfold refresh; cbn [inflight pending fresh]; rewrite ?fmap_app, ?abort_numbers; [done|done|done|].
  eapply Forall_impl; [exact H4|]. cbn. lia.
Qed.

Lemma schedule_numbered d p : numbered p → numbered (schedule d p).
Proof.
  intros Hp. unfold schedule. destruct (stopped p); [done|]. destruct Hp as [H1 H2 H3 H4].
  destruct (fresh_snoc _ _ H3 H4) as [Hn Hf]. split; cbn [inflight pending fresh]; rewrite ?fmap_app; [done| |done|done].
  eapply Forall_impl; [exact H2|]. cbn. lia.
Qed.

Lemma landed_numbered n p : numbered p → numbered (landed n p).
Proof. intros Hp. eapply numbered_sub; [exact Hp|apply sublist_map, bfilter_sublist|done|done]. Qed.

Lemma fired_numbered n p : numbered p → numbered (fired n p).
Proof. intros Hp. eapply numbered_sub; [exact Hp|done|apply sublist_map, bfilter_sublist|done]. Qed.

Lemma clear_numbered p : numbered p → numbered (clear_timer p).
Proof. intros Hp. eapply numbered_sub; [exact Hp|done|apply sublist_map, bfilter_sublist|done]. Qed.

Lemma step_numbered e s : numbered (poll s) → numbered (poll (step e s)).
Proof.
  intros Hs. destruct e as [| | | |n|n a dark|p]; cbn [step poll].
  - apply refresh_numbered. by eapply numbered_sub.
  - by apply refresh_numbered, clear_numbered.
  - unfold systemChanged. destruct (wants_system s); [|done]. by apply refresh_numbered, clear_numbered.
  - eapply numbered_sub; [by apply clear_numbered|unfold stop_polling; cbn [inflight]|done|done].
    change (number <$> inflight (abort (clear_timer (poll s))) `sublist_of` number <$> inflight (clear_timer (poll s))).
    by rewrite abort_numbers.
  - case_bool_decide; [by apply refresh_numbered, fired_numbered|done].
  - destruct (list_find_first _ _); [|done]. by apply schedule_numbered, landed_numbered.
  - done.
Qed.

(** Exactly one element of a list with different keys has a key it contains. *)
Lemma length_remove {A K} `{EqDecision K} (k : A → K) l x :
  NoDup (k <$> l) → x ∈ k <$> l → S (length (bfilter (λ y, negb (bool_decide (k y = x))) l)) = length l.
Proof.
  induction l as [|y l IH]; [by intros _ ?%not_elem_of_nil|]. cbn [fmap list_fmap bfilter length].
  intros [Hy Hl]%NoDup_cons Hx. case_bool_decide as He; cbn [negb length].
  - f_equal. rewrite bfilter_all; [done|]. intros z Hz. apply negb_true_iff, bool_decide_eq_false.
    intros Hk. apply Hy. rewrite He, <-Hk. by apply list_elem_of_fmap_2.
  - f_equal. apply IH; [done|]. apply elem_of_cons in Hx as [Hx|Hx]; [congruence|done].
Qed.

(** Firing a timer and landing a request keep the number of chains. *)
Definition routine (e : event) : bool := match e with Fire _ | Answer _ _ _ | Read _ => true | _ => false end.

Lemma refresh_chains p : chains (refresh p) = S (chains p).
Proof. unfold chains, refresh. cbn [inflight pending abort]. rewrite length_app, length_fmap. cbn. lia. Qed.

Lemma routine_chains e s :
  routine e = true → numbered (poll s) → stopped (poll s) = false →
  chains (poll (step e s)) = chains (poll s) ∧ stopped (poll (step e s)) = false.
Proof.
  intros He [H1 H2 H3 H4] Hst. destruct e as [| | | |n|n a dark|p]; try done; cbn [step poll].
  - case_bool_decide as Hn; [|done]. cbn [poll]. rewrite refresh_chains. split; [|done]. unfold chains, fired.
    cbn [inflight pending].
    assert (S (length (bfilter (λ x, negb (bool_decide (x.1 = n))) (pending (poll s)))) = length (pending (poll s)))
      by exact (length_remove fst (pending (poll s)) n H3 Hn). lia.
  - destruct (list_find_first _ _) as [f|] eqn:Hf; [|done]. apply list_find_first_Some in Hf as [Hin Hn%bool_decide_eq_true].
    cbn [poll]. unfold schedule. cbn [landed stopped]. rewrite Hst. split; [|done]. unfold chains. cbn [inflight pending landed].
    rewrite length_app. cbn [length].
    assert (S (length (bfilter (λ f, negb (bool_decide (number f = n))) (inflight (poll s)))) = length (inflight (poll s)));
      [|lia]. apply (length_remove number); [done|]. rewrite <-Hn. by apply list_elem_of_fmap_2.
Qed.

Lemma routine_runs es s :
  Forall (λ e, routine e = true) es → numbered (poll s) → stopped (poll s) = false →
  chains (poll (runs step es s)) = chains (poll s).
Proof.
  intros Hes Hn Hst.
  assert (numbered (poll (runs step es s)) ∧ stopped (poll (runs step es s)) = false ∧
          chains (poll (runs step es s)) = chains (poll s)) as (_ & _ & ?); [|done].
  induction es as [|e es IH] using rev_ind; [done|]. apply Forall_app in Hes as [Hes [He _]%Forall_cons].
  destruct (IH Hes) as (Hn' & Hst' & Hc). rewrite runs_snoc.
  destruct (routine_chains e _ He Hn' Hst') as [Hc' Hst'']. split_and!; [by apply step_numbered|done|by rewrite Hc'].
Qed.

(** The page polls along one chain.  From the start on, as long as only
    timers fire, requests end (however they end) and the store is read, there
    is at every moment exactly one request in flight or one timer pending. *)
Theorem one_polling_chain (es : list event) :
  Forall (λ e, routine e = true) es → chains (poll (runs step (Init :: es) initial)) = 1%nat.
Proof.
  intros Hes. change (runs step (Init :: es) initial) with (runs step es (step Init initial)).
  rewrite routine_runs; [done|done| |done]. split; vm_compute; repeat constructor; set_solver.
Qed.

(** A retry during a request doubles the polling for good.  When a retry (or
    a change of the colour scheme) falls into a request, the aborted request
    still schedules a timer, and so does its successor: from then on there are
    two chains, of which neither ends. *)
Theorem retry_doubles_polling (es : list event) :
  Forall (λ e, routine e = true) es → chains (poll (runs step (Init :: Retry :: es) initial)) = 2%nat.
Proof.
  intros Hes. change (runs step (Init :: Retry :: es) initial) with (runs step es (step Retry (step Init initial))).
  rewrite routine_runs; [done|done| |done]. split; vm_compute; repeat constructor; set_solver.
Qed.

(** C30: polling never stops by itself.  From the start on, whatever happens, as
    long as the page has not been left there is a request in flight or a timer
    pending, so that the next snapshot will be asked for. *)
Theorem polling_never_stops (es : list event) :
  let p := poll (runs step (Init :: es) initial) in
  stopped p = false → inflight p ≠ [] ∨ pending p ≠ [].
Proof.
  change (runs step (Init :: es) initial) with (runs step es (step Init initial)).
  apply (runs_invariant step (λ s, busy (poll s))); [apply step_busy|apply refresh_busy].
Qed.

(** After the page was left nothing of it changes any more, and no timer is
    added. *)
Definition quiet (e : event) : bool := match e with Init | Read _ => false | _ => true end.

Lemma stopped_final es s :
  stopped (poll s) = true → Forall (λ e, quiet e = true) es →
  let s' := runs step es s in
  stopped (poll s') = true ∧ pending (poll s') `sublist_of` pending (poll s) ∧
  snapshot (view s') = snapshot (view s) ∧ settings (view s') = settings (view s) ∧
  store (view s') = store (view s) ∧ connectionError (view s') = connectionError (view s).
Proof.
  cbn zeta. intros Hst Hes. induction es as [|e es IH] using rev_ind; [done|].
  apply Forall_app in Hes as [Hes [He _]%Forall_cons]. rewrite runs_snoc.
  destruct (IH Hes) as (H1 & H2 & <- & <- & <- & <-). set (r := runs step es s) in *. clearbody r. clear IH.
  destruct e as [| | | |n|n a dark|p]; try done; cbn [step].
  - split_and!; try done. etrans; [apply bfilter_sublist|done].
  - unfold systemChanged. destruct (wants_system r); split_and!; try done. etrans; [apply bfilter_sublist|done].
  - split_and!; try done. etrans; [apply bfilter_sublist|done].
  - case_bool_decide; split_and!; try done. etrans; [apply bfilter_sublist|done].
  - destruct (list_find_first _ _) as [f|]; [|done]. cbn [poll view]. unfold settle, schedule. cbn [landed stopped].
    rewrite H1, orb_true_r. done.
Qed.

(** ** Records keyed by integers *)

Lemma fold_set_id {A} (l : list (Z * A)) : NoDup l.*1 → foldl (λ m kv, jm_set kv.1 kv.2 m) [] l = l.
Proof.
  induction l as [|[k v] l IH] using rev_ind; [done|]. rewrite fmap_app, NoDup_app. intros (Hl & Hk & _).
  rewrite foldl_app, IH by done. cbn [foldl fst snd]. apply jm_set_fresh, jm_get_None.
  intros Hin. apply (Hk k); [done|]. set_solver.
Qed.

Lemma from_entries_perm {A} (l : list (Z * A)) :
  NoDup l.*1 → from_entries l ≡ₚ (λ kv, (int_string kv.1, kv.2)) <$> l.
Proof.
  intros Hl. unfold from_entries. rewrite fold_set_id by done. apply fmap_Permutation.
  rewrite sort_on_perm. symmetry. apply (bfilter_partition (λ kv, is_index kv.1)).
Qed.

Lemma from_entries_wf {A} (l : list (Z * A)) : NoDup l.*1 → jm_wf (from_entries l).
Proof.
  intros Hl. unfold jm_wf. rewrite from_entries_perm, <-list_fmap_compose by done.
  change (fst ∘ λ kv : Z * A, (int_string kv.1, kv.2)) with (int_string ∘ (fst : Z * A → Z)).
  rewrite list_fmap_compose. apply NoDup_fmap_2_strong; [|done]. intros a b _ _. apply Network.int_string_inj.
Qed.

Lemma from_entries_get {A} (l : list (Z * A)) u v :
  NoDup l.*1 → jm_get u (from_entries l) = Some v ↔ ∃ k, u = int_string k ∧ (k, v) ∈ l.
Proof.
  intros Hl. rewrite <-jm_elem_of by (by apply from_entries_wf). rewrite from_entries_perm by done.
  rewrite list_elem_of_fmap. split.
  - intros ([k w] & [= -> ->] & Hin). by exists k.
  - intros (k & -> & Hin). by exists (k, v).
Qed.

(** ** A refresh puts the snapshot into the store *)

(** Captain's identifiers are unique; weights are exact numbers. *)
Definition good_snapshot (sn : Snapshot) : Prop :=
  NoDup (id <$> nodes sn) ∧ Z.of_nat (length (nodes sn)) < 2 ^ 53.

Section accepted.
Context (sn : Snapshot) (array : nat) (Hsn : good_snapshot sn).

Lemma entry_keys {A} (f : nat → Node → A) : (imap (λ i n, (id n, f i n)) (nodes sn)).*1 = id <$> nodes sn.
Proof using.
  clear Hsn. revert f. induction (nodes sn) as [|n l IH]; intros f; [done|].
  cbn [imap fmap list_fmap fst]. f_equal. apply (IH (f ∘ S)).
Qed.

Lemma clients_entry u c :
  NodesStore.entry (clients_of sn) u = Some c ↔
  ∃ j n, nodes sn !! j = Some n ∧ u = int_string (id n) ∧ c = clientFor (Some sn) n (Z.of_nat j).
Proof using Hsn.
  assert (NoDup (imap (λ i n, (id n, Some (clientFor (Some sn) n (Z.of_nat i)))) (nodes sn)).*1) as Hnd.
  { rewrite (entry_keys (λ i n, Some (clientFor (Some sn) n (Z.of_nat i)))). apply Hsn. }
  unfold NodesStore.entry, clients_of.
  transitivity (jm_get u (from_entries (imap (λ i n, (id n, Some (clientFor (Some sn) n (Z.of_nat i)))) (nodes sn))) = Some (Some c)).
  { destruct (jm_get u _) as [[x|]|]; cbn; naive_solver. }
  rewrite from_entries_get by done. split.
  - intros (k & -> & (i & n & [= -> ->] & Hi)%elem_of_lookup_imap). naive_solver.
  - intros (j & n & Hj & -> & ->). exists (id n). split; [done|]. apply elem_of_lookup_imap. eauto.
Qed.

Lemma statuses_entry n :
  n ∈ nodes sn → NodesStore.entry (statuses_of sn) (int_string (id n)) = Some (statusFor (Some sn) n).
Proof using Hsn.
  intros Hn. unfold NodesStore.entry, statuses_of.
  assert (jm_get (int_string (id n)) (from_entries ((λ n, (id n, Some (statusFor (Some sn) n))) <$> nodes sn))
    = Some (Some (statusFor (Some sn) n))) as ->; [|done].
  apply from_entries_get; [rewrite <-list_fmap_compose; apply Hsn|]. exists (id n). split; [done|].
  apply list_elem_of_fmap. by exists n.
Qed.

Lemma client_uuid n w : NodesStore.uuid (clientFor (Some sn) n w) = int_string (id n).
Proof using. done. Qed.

Lemma client_weight n w : prop "weight" (clientFor (Some sn) n w) = VNum (num_of_Z w).
Proof using.
  unfold clientFor, prop. cbn zeta.
  destruct (addr n) as [[|x a]|]; [reflexivity| |reflexivity]. destruct (includes (x :: a) (js ":")); reflexivity.
Qed.

Lemma ops_proper : Forall NodesStore.proper_op (store_ops sn array).
Proof using Hsn.
  repeat constructor.
  - unfold clients_of. apply from_entries_wf.
    rewrite (entry_keys (λ i n, Some (clientFor (Some sn) n (Z.of_nat i)))). apply Hsn.
  - by apply clients_entry in H as (j & n & _ & -> & ->).
  - apply clients_entry in H as (j & n & Hj & -> & ->). unfold NodesStore.weight. rewrite client_weight.
    apply num_of_Z_not_nan. apply lookup_lt_Some in Hj. destruct Hsn as [_ Hlen]. lia.
  - unfold patch_of in H. destruct (jm_get _ (by_id sn)); [|done]. injection H as <-. decide_closed.
  - unfold patch_of in H. by destruct (jm_get _ (by_id sn)); [injection H as <-|].
  - unfold patch_of in H. by destruct (jm_get _ (by_id sn)); [injection H as <-|].
Qed.

(** The last node of an identifier is the only one. *)
Lemma by_id_get n : n ∈ nodes sn → jm_get (int_string (id n)) (by_id sn) = Some n.
Proof using Hsn.
  destruct Hsn as [Hnd _]. unfold by_id. induction (nodes sn) as [|m l IH] using rev_ind; [by intros ?%not_elem_of_nil|].
  rewrite fmap_app, NoDup_app in Hnd. destruct Hnd as (Hl & Hm & _). rewrite foldl_app. cbn [foldl].
  intros [Hn|Hn%list_elem_of_singleton]%elem_of_app; [|subst; by rewrite jm_get_set_eq].
  rewrite jm_get_set_ne; [by apply IH|]. intros He%Network.int_string_inj.
  apply (Hm (id n)); [by apply list_elem_of_fmap_2|]. rewrite He. set_solver.
Qed.
End accepted.

(** The properties that a merge sets. *)
Lemma status_get status k : k ∈ NodesStore.STATUS_FIELDS → jm_get k (NodesStore.status_sets status) = Some (prop k status).
Proof.
  unfold NodesStore.status_sets. generalize NodesStore.STATUS_FIELDS.
  intros l. induction l as [|x l IH]; [by intros ?%not_elem_of_nil|]. cbn [fmap list_fmap app jm_get].
  case_bool_decide as He; [by subst|]. intros [->|Hk]%elem_of_cons; [done|by apply IH].
Qed.

Lemma client_get client k :
  k ∈ NodesStore.CLIENT_FIELDS → jm_get k (NodesStore.client_sets client) = Some (prop k client).
Proof.
  unfold NodesStore.client_sets. generalize NodesStore.CLIENT_FIELDS.
  intros l. induction l as [|x l IH]; [by intros ?%not_elem_of_nil|]. cbn [fmap list_fmap app jm_get].
  case_bool_decide as He; [by subst|]. intros [->|Hk]%elem_of_cons; [done|by apply IH].
Qed.

Definition status_keys : list string := NodesStore.STATUS_FIELDS ++ ["gpu"; "status_updated_at"]%string.

Lemma fields_disjoint k :
  k ∈ NodesStore.CLIENT_FIELDS →
  (k ∉ status_keys) ∧ k ≠ "group"%string ∧ k ≠ "groups"%string ∧
  k ≠ "captainTraffic"%string.
Proof.
  intros Hk. assert (every (λ k, bool_decide ((k ∉ status_keys) ∧
    k ≠ "group"%string ∧ k ≠ "groups"%string ∧ k ≠ "captainTraffic"%string)) NodesStore.CLIENT_FIELDS = true) as He
    by (vm_compute; reflexivity).
  rewrite every_true in He. by apply He, bool_decide_eq_true in Hk.
Qed.

Lemma status_plain k :
  k ∈ NodesStore.STATUS_FIELDS → k ≠ "groups"%string ∧ k ≠ "captainTraffic"%string.
Proof.
  intros Hk. assert (every (λ k, bool_decide (k ≠ "groups"%string ∧ k ≠ "captainTraffic"%string))
    NodesStore.STATUS_FIELDS = true) as He by (vm_compute; reflexivity).
  rewrite every_true in He. by apply He, bool_decide_eq_true in Hk.
Qed.

Lemma weight_field : "weight"%string ∈ NodesStore.CLIENT_FIELDS.
Proof. decide_closed. Qed.

Lemma create_get client k :
  k ∈ NodesStore.CLIENT_FIELDS → prop k (NodesStore.createNodeFromClient 0 client) = prop k client.
Proof.
  unfold NodesStore.CLIENT_FIELDS. intros Hk.
  repeat (apply elem_of_cons in Hk as [->|Hk]; [reflexivity|]). by apply not_elem_of_nil in Hk.
Qed.

(** The properties of a node after a refresh, in the abstract store. *)
Definition refreshed (sn : Snapshot) (j : nat) (n : Node) (f : NodesStore.view) : Prop :=
  (∀ k, k ∈ NodesStore.STATUS_FIELDS → f k = prop k (statusFor (Some sn) n)) ∧
  (∀ k, k ∈ NodesStore.CLIENT_FIELDS → f k = prop k (clientFor (Some sn) n (Z.of_nat j))) ∧
  f "captainTraffic"%string = VNum (pt_used (periodTraffic (Some sn) n)).

Lemma spec_refreshed sn array A u :
  good_snapshot sn →
  match runs NodesStore.spec_step (store_ops sn array) A u with
  | Some f => ∃ j n, nodes sn !! j = Some n ∧ u = int_string (id n) ∧ refreshed sn j n f
  | None => ∀ n, n ∈ nodes sn → u ≠ int_string (id n)
  end.
Proof.
  intros Hsn. cbn [store_ops runs foldl NodesStore.spec_step]. unfold NodesStore.spec_merge.
  destruct (NodesStore.entry (clients_of sn) u) as [c|] eqn:Hc; cbn [fmap option_fmap option_map].
  - apply (clients_entry sn Hsn) in Hc as (j & n & Hj & -> & ->). exists j, n. split; [done|]. split; [done|].
    set (f0 := match A _ with Some _ => _ | None => _ end).
    assert (∀ k, k ∈ NodesStore.CLIENT_FIELDS → f0 k = prop k (clientFor (Some sn) n (Z.of_nat j))) as Hf0.
    { intros k Hk. destruct (fields_disjoint k Hk) as (_ & Hg & Hgs & _). unfold f0. destruct (A _).
      - unfold NodesStore.spec_client. rewrite !decide_False by done. unfold NodesStore.overlay. by rewrite client_get.
      - by apply create_get. }
    clearbody f0. unfold NodesStore.spec_statuses at 2. cbn [NodesStore.entry jm_get mjoin option_join].
    unfold NodesStore.spec_statuses. rewrite (statuses_entry sn Hsn) by (by eapply list_elem_of_lookup_2).
    unfold NodesStore.spec_patch, patch_of. change (NodesStore.uuid [("uuid"%string, VStr (int_string (id n)))]) with (int_string (id n)).
    rewrite (by_id_get sn Hsn) by (by eapply list_elem_of_lookup_2). cbn [fmap option_fmap option_map].
    unfold refreshed, NodesStore.overlay. split; [|split; [|done]]; intros k Hk.
    + destruct (status_plain k Hk) as [H1 H2]. cbn [jm_get]. rewrite !bool_decide_eq_false_2 by done.
      unfold NodesStore.spec_status, NodesStore.overlay. by rewrite status_get.
    + destruct (fields_disjoint k Hk) as (H1 & _ & H2 & H3). cbn [jm_get]. rewrite !bool_decide_eq_false_2 by done.
      unfold NodesStore.spec_status, NodesStore.overlay.
      assert (jm_get k (NodesStore.status_sets (statusFor (Some sn) n)) = None) as ->; [|by apply Hf0].
      apply jm_get_None. exact H1.
  - intros n Hn ->. apply list_elem_of_lookup in Hn as [j Hj].
    assert (NodesStore.entry (clients_of sn) (int_string (id n)) = Some (clientFor (Some sn) n (Z.of_nat j))) as He.
    { apply (clients_entry sn Hsn). eauto. }
    congruence.
Qed.

(** *** Order *)

Lemma StronglySorted_image {A B} (P : relation A) (R : relation B) (f : A → B) l :
  StronglySorted P l → (∀ x y, x ∈ l → y ∈ l → P x y → R (f x) (f y)) → StronglySorted R (f <$> l).
Proof.
  induction 1 as [|x l Hl IH Hx]; intros Hr; cbn [fmap list_fmap]; constructor.
  - apply IH. intros; apply Hr; set_solver.
  - apply Forall_fmap. rewrite Forall_forall in Hx |- *. intros y Hy. apply Hr; [set_solver|set_solver|by apply Hx].
Qed.

(** The order of the snapshot, on identifiers. *)
Definition before (sn : Snapshot) (u v : jsstring) : Prop :=
  ∃ j k n m, nodes sn !! j = Some n ∧ nodes sn !! k = Some m ∧ u = int_string (id n) ∧ v = int_string (id m) ∧
             (j ≤ k)%nat.

Lemma index_unique sn j k n m :
  good_snapshot sn → nodes sn !! j = Some n → nodes sn !! k = Some m → int_string (id n) = int_string (id m) → j = k.
Proof.
  intros [Hnd _] Hj Hk He%Network.int_string_inj. eapply (NoDup_lookup (id <$> nodes sn)); [done| |].
  - rewrite list_lookup_fmap, Hj. done.
  - rewrite list_lookup_fmap, Hk. cbn. by rewrite He.
Qed.

Lemma before_antisymm sn : good_snapshot sn → AntiSymm (=) (before sn).
Proof.
  intros Hsn u v (j & k & n & m & Hj & Hk & -> & -> & Hle) (k' & j' & m' & n' & Hk' & Hj' & He & He' & Hle').
  assert (j = j') by (by eapply index_unique). assert (k = k') by (by eapply index_unique).
  assert (j = k) as -> by lia. by simplify_eq.
Qed.

Lemma snapshot_sorted sn : StronglySorted (before sn) ((λ n, int_string (id n)) <$> nodes sn).
Proof.
  assert (∀ l o, (∀ j n, l !! j = Some n → nodes sn !! (o + j)%nat = Some n) →
    StronglySorted (before sn) ((λ n, int_string (id n)) <$> l)) as Hgen; [|by apply (Hgen (nodes sn) 0%nat)].
  induction l as [|n l IH]; intros o Hl; cbn [fmap list_fmap]; constructor.
  - apply (IH (S o)). intros j m Hj. replace (S o + j)%nat with (o + S j)%nat by lia. by apply Hl.
  - apply Forall_fmap, Forall_forall. intros m Hm. apply list_elem_of_lookup in Hm as [j Hj].
    exists (o + 0)%nat, (o + S j)%nat, n, m. split_and!; [by apply Hl|by apply Hl|done|done|lia].
Qed.

(** *** The page and the snapshot *)

Lemma same_bool v b : same v (VBool b) → v = VBool b.
Proof. by destruct v. Qed.
Lemma same_str v t : same v (VStr t) → v = VStr t.
Proof. by destruct v. Qed.
Lemma same_null v : same v VNull → v = VNull.
Proof. by destruct v. Qed.

(** A section is public: the list of public sections is missing, null, or
    contains it. *)
Definition public (sn : Snapshot) (section : string) : Prop :=
  ∀ l, public_sections sn = Sections l → js section ∈ l.

(** The measurement of a host that may be shown: its number, or 0 when it has
    none, if the section is public, there is a host, and the measurement is
    not marked as invalid; NaN otherwise. *)
Inductive reading (sn : Snapshot) (n : Node) (section validity key : string) : num → Prop :=
| reading_shown h :
    public sn section → host n = Some h → valid h ≫= jm_get validity ≠ Some false →
    reading sn n section validity key
      (match jm_get key (numbers h) with Some x => x | None => num_of_Z 0 end)
| reading_hidden : ¬ public sn section → reading sn n section validity key NaN
| reading_absent : host n = None → reading sn n section validity key NaN
| reading_invalid h :
    host n = Some h → valid h ≫= jm_get validity = Some false → reading sn n section validity key NaN.

(** The measurements of a node: field, section, validity flag and host key.
    [uptime] has no flag. *)
Definition measurements : list (string * string * string * string) :=
  [("cpu", "cpu", "cpu", "cpu_percent"); ("ram", "memory", "memory", "mem_used");
   ("swap", "memory", "swap", "swap_used"); ("disk", "disk", "disk", "disk_used");
   ("load", "system", "load", "load1"); ("load5", "system", "load", "load5");
   ("load15", "system", "load", "load15"); ("process", "system", "processes", "processes");
   ("connections", "system", "connections", "tcp"); ("connections_udp", "system", "connections", "udp");
   ("net_in", "network", "network", "net_down"); ("net_out", "network", "network", "net_up");
   ("mem_total", "memory", "memory", "mem_total"); ("swap_total", "memory", "swap", "swap_total");
   ("disk_total", "disk", "disk", "disk_total")]%string.

(** A traffic total that may be shown. *)
Inductive counted (sn : Snapshot) (v : value) : num → Prop :=
| counted_shown x :
    public sn "traffic" → v = VNum x → isFinite x = true → num_leb (num_of_Z 0) x = true → counted sn v x
| counted_hidden :
    ¬ (public sn "traffic" ∧ ∃ x, v = VNum x ∧ isFinite x = true ∧ num_leb (num_of_Z 0) x = true) →
    counted sn v NaN.

Lemma shows_public sn section : shows (Some sn) (js section) = true ↔ public sn section.
Proof.
  unfold shows, public. destruct (public_sections sn) as [| |l]; [by split|by split|].
  rewrite bool_decide_eq_true. split; [by intros ? ? [= <-]|auto].
Qed.

Lemma shows_not_public sn section : shows (Some sn) (js section) = false ↔ ¬ public sn section.
Proof. by rewrite <-shows_public, not_true_iff_false. Qed.

Lemma metric_reading sn n section validity key :
  reading sn n section validity key (metric (Some sn) (host n) (js section) validity key).
Proof.
  unfold metric. destruct (host n) as [h|] eqn:Hh; [|by apply reading_absent].
  destruct (shows (Some sn) (js section)) eqn:Hs; cbn [negb orb]; [|by apply reading_hidden, shows_not_public].
  case_bool_decide as Hv; [by apply (reading_invalid _ _ _ _ _ h)|].
  by apply (reading_shown _ _ _ _ _ h); [apply shows_public|..].
Qed.

Lemma traffic_counted sn v : counted sn v (traffic_count (Some sn) v).
Proof.
  unfold traffic_count. destruct v as [| | |x| |]; try (apply counted_hidden; by intros (_ & ? & [=] & _)).
  destruct (shows (Some sn) (js "traffic")) eqn:Hs; cbn [andb].
  - apply shows_public in Hs. destruct (isFinite x) eqn:Hf; cbn [andb]; [destruct (num_leb (num_of_Z 0) x) eqn:Hl|].
    + by apply counted_shown.
    + apply counted_hidden. intros (_ & ? & [= <-] & _ & ?). congruence.
    + apply counted_hidden. intros (_ & ? & [= <-] & ? & _). congruence.
  - apply shows_not_public in Hs. apply counted_hidden. by intros [? _].
Qed.

(** A node shows what the snapshot says: the status and the client data of the
    conversions; measurements, traffic and location are spelled out. *)
Definition node_shown (sn : Snapshot) (j : nat) (n : Node) (node : fields) : Prop :=
  let number field (P : num → Prop) := ∃ x, P x ∧ same (prop field node) (VNum x) in
  prop "online" node = VBool (online n) ∧ prop "name" node = VStr (name n) ∧
  Forall (λ '(field, section, validity, key), number field (reading sn n section validity key)) measurements ∧
  number "uptime"%string (λ x, (public sn "system" ∧ ∃ h, host n = Some h ∧
      x = match jm_get "uptime"%string (numbers h) with Some x => x | None => num_of_Z 0 end) ∨
    ((¬ public sn "system" ∨ host n = None) ∧ x = NaN)) ∧
  number "traffic_up"%string (counted sn (used_up (traffic n))) ∧
  number "net_total_up"%string (counted sn (used_up (traffic n))) ∧
  number "traffic_down"%string (counted sn (used_down (traffic n))) ∧
  number "net_total_down"%string (counted sn (used_down (traffic n))) ∧
  number "captainTraffic"%string (counted sn (used (traffic n))) ∧
  number "traffic_limit"%string (λ x, (public sn "traffic" ∧ x = limit (traffic n)) ∨ (¬ public sn "traffic" ∧ x = NaN)) ∧
  (public sn "info" → same (prop "location" node) (location (info n))) ∧
  (¬ public sn "info" → prop "location" node = VNull) ∧
  (∀ k, k ∈ NodesStore.STATUS_FIELDS → same (prop k node) (prop k (statusFor (Some sn) n))) ∧
  (∀ k, k ∈ NodesStore.CLIENT_FIELDS → same (prop k node) (prop k (clientFor (Some sn) n (Z.of_nat j)))).

(** The node list is the snapshot's: same nodes, same order. *)
Definition shows_snapshot (sn : Snapshot) (s : NodesStore.t) : Prop :=
  NodesStore.uuids s (NodesStore.list_of s) = (λ n, int_string (id n)) <$> nodes sn ∧
  ∀ j n i, nodes sn !! j = Some n → NodesStore.list_of s !! j = Some i →
    node_shown sn j n (NodesStore.obj s i).

Ltac client_field :=
  unfold clientFor, prop; cbn zeta;
  match goal with |- context [addr ?n] => destruct (addr n) as [[|? ?]|] end;
  [reflexivity| |reflexivity]; destruct (includes _ _); reflexivity.

(** The fields of the conversions, one by one. *)
Lemma conversions_shown sn n j (node : fields) :
  (∀ k, k ∈ NodesStore.STATUS_FIELDS → same (prop k node) (prop k (statusFor (Some sn) n))) →
  (∀ k, k ∈ NodesStore.CLIENT_FIELDS → same (prop k node) (prop k (clientFor (Some sn) n j))) →
  let number field (P : num → Prop) := ∃ x, P x ∧ same (prop field node) (VNum x) in
  Forall (λ '(field, section, validity, key), number field (reading sn n section validity key)) measurements.
Proof.
  intros Hs Hc number. unfold measurements.
  assert (∀ field section validity key, field ∈ NodesStore.STATUS_FIELDS →
    prop field (statusFor (Some sn) n) = VNum (metric (Some sn) (host n) (js section) validity key) →
    number field (reading sn n section validity key)) as Hst.
  { intros field section validity key Hin He. eexists. split; [apply metric_reading|]. rewrite <-He. by apply Hs. }
  assert (∀ field section validity key, field ∈ NodesStore.CLIENT_FIELDS →
    prop field (clientFor (Some sn) n j) = VNum (metric (Some sn) (host n) (js section) validity key) →
    number field (reading sn n section validity key)) as Hcl.
  { intros field section validity key Hin He. eexists. split; [apply metric_reading|]. rewrite <-He. by apply Hc. }
  repeat apply Forall_cons_2; try apply Forall_nil_2;
    first [apply Hst; [decide_closed|reflexivity]|apply Hcl; [decide_closed|client_field]].
Qed.

Lemma fields_shown sn n j (node : fields) :
  (∀ k, k ∈ NodesStore.STATUS_FIELDS → same (prop k node) (prop k (statusFor (Some sn) n))) →
  (∀ k, k ∈ NodesStore.CLIENT_FIELDS → same (prop k node) (prop k (clientFor (Some sn) n (Z.of_nat j)))) →
  same (prop "captainTraffic" node) (VNum (pt_used (periodTraffic (Some sn) n))) →
  node_shown sn j n node.
Proof.
  intros Hs Hc Ht. unfold node_shown. cbn zeta.
  assert (∀ k v, k ∈ NodesStore.STATUS_FIELDS → prop k (statusFor (Some sn) n) = v → same (prop k node) v) as Hst
    by (intros k v ? <-; by apply Hs).
  assert (∀ k v, k ∈ NodesStore.CLIENT_FIELDS → prop k (clientFor (Some sn) n (Z.of_nat j)) = v → same (prop k node) v)
    as Hcl by (intros k v ? <-; by apply Hc).
  split_and!; [| |by eapply conversions_shown| |..|done|done].
  - by apply same_bool, Hst; [decide_closed|].
  - apply same_str, Hcl; [decide_closed|client_field].
  - exists (uptime (Some sn) (host n)). split; [|by apply Hst; [decide_closed|]].
    unfold uptime. destruct (host n) as [h|]; [|by right; split; [right|]].
    destruct (shows (Some sn) (js "system")) eqn:Hx.
    + left. split; [by apply shows_public|by exists h].
    + right. split; [left; by apply shows_not_public|done].
  - eexists. split; [apply traffic_counted|]. by apply Hst; [decide_closed|].
  - eexists. split; [apply traffic_counted|]. by apply Hst; [decide_closed|].
  - eexists. split; [apply traffic_counted|]. by apply Hst; [decide_closed|].
  - eexists. split; [apply traffic_counted|]. by apply Hst; [decide_closed|].
  - eexists. split; [apply traffic_counted|exact Ht].
  - exists (traffic_limit (Some sn) (traffic n)). split; [|apply Hcl; [decide_closed|client_field]].
    unfold traffic_limit. destruct (shows (Some sn) (js "traffic")) eqn:Hx.
    + left. split; [by apply shows_public|done].
    + right. split; [by apply shows_not_public|done].
  - intros Hp%shows_public. apply Hcl; [decide_closed|].
    transitivity (public_location (Some sn) (info n)); [client_field|]. unfold public_location. by rewrite Hp.
  - intros Hp%shows_not_public. apply same_null, Hcl; [decide_closed|].
    transitivity (public_location (Some sn) (info n)); [client_field|]. unfold public_location. by rewrite Hp.
Qed.

Lemma refreshed_order sn s A :
  good_snapshot sn → NodesStore.refines s A →
  (∀ u, match A u with
        | Some f => ∃ j n, nodes sn !! j = Some n ∧ u = int_string (id n) ∧ refreshed sn j n f
        | None => ∀ n, n ∈ nodes sn → u ≠ int_string (id n)
        end) →
  NodesStore.uuids s (NodesStore.list_of s) = (λ n, int_string (id n)) <$> nodes sn.
Proof.
  intros Hsn [_ [_ Hnd Hdom Hview _] Hsort] HA. pose proof (before_antisymm sn Hsn). apply (StronglySorted_unique (before sn)).
  - eapply StronglySorted_image; [exact Hsort|]. intros i i' Hi Hi' Hle.
    destruct (Hview i Hi) as (f & Hf & Hv), (Hview i' Hi') as (f' & Hf' & Hv').
    pose proof (HA (NodesStore.uuid (NodesStore.obj s i))) as H1. rewrite Hf in H1.
    destruct H1 as (j & n & Hj & Hu & (_ & Hc & _)).
    pose proof (HA (NodesStore.uuid (NodesStore.obj s i'))) as H1. rewrite Hf' in H1.
    destruct H1 as (j' & n' & Hj' & Hu' & (_ & Hc' & _)).
    exists j, j', n, n'. split_and!; try done.
    apply NodesStore.view_same_weight in Hv, Hv'.
    assert (∀ g k m, g "weight"%string = prop "weight" (clientFor (Some sn) m k) → NodesStore.weight_of g = num_of_Z k) as Hw.
    { intros g k m Hg. unfold NodesStore.weight_of. by rewrite Hg, client_weight. }
    rewrite (Hw f (Z.of_nat j) n) in Hv by (apply Hc, weight_field).
    rewrite (Hw f' (Z.of_nat j') n') in Hv' by (apply Hc', weight_field).
    change (num_leb (NodesStore.weight_of (NodesStore.view_of (NodesStore.obj s i)))
      (NodesStore.weight_of (NodesStore.view_of (NodesStore.obj s i'))) = true) in Hle.
    rewrite (NodesStore.same_num_leb _ _ _ _ Hv Hv') in Hle.
    apply lookup_lt_Some in Hj, Hj'. destruct Hsn as [_ Hlen].
    rewrite num_of_Z_leb, bool_decide_eq_true in Hle by lia. lia.
  - apply snapshot_sorted.
  - apply NoDup_Permutation; [done| |].
    + change (λ n, int_string (id n)) with (int_string ∘ id). rewrite list_fmap_compose.
      apply NoDup_fmap_2_strong; [|apply Hsn]. intros a b _ _. apply Network.int_string_inj.
    + intros u. rewrite Hdom, list_elem_of_fmap. specialize (HA u). destruct (A u) as [f|].
      * destruct HA as (j & n & Hj & -> & _). split; [intros _; exists n; split; [done|by eapply list_elem_of_lookup_2]|eauto].
      * split; [by intros []|]. intros (n & -> & Hn). by destruct (HA n Hn).
Qed.

Lemma refreshed_shown sn s A :
  good_snapshot sn → NodesStore.refines s A →
  (∀ u, match A u with
        | Some f => ∃ j n, nodes sn !! j = Some n ∧ u = int_string (id n) ∧ refreshed sn j n f
        | None => ∀ n, n ∈ nodes sn → u ≠ int_string (id n)
        end) →
  shows_snapshot sn s.
Proof.
  intros Hsn Hr HA. pose proof (refreshed_order sn s A Hsn Hr HA) as Ho. split; [done|].
  intros j n i Hj Hi. set (node := NodesStore.obj s i). destruct Hr as [_ [_ _ _ Hview _] _].
  destruct (Hview i) as (f & Hf & Hv); [by eapply list_elem_of_lookup_2|].
  assert (NodesStore.uuid (NodesStore.obj s i) = int_string (id n)) as Hu.
  { apply (f_equal (λ l, l !! j)) in Ho. unfold NodesStore.uuids in Ho.
    rewrite !list_lookup_fmap, Hi, Hj in Ho. by injection Ho. }
  pose proof (HA (NodesStore.uuid (NodesStore.obj s i))) as H1. rewrite Hf in H1.
  destruct H1 as (j' & n' & Hj' & Hu' & (Hstatus & Hclient & Htraffic)). rewrite Hu in Hu'.
  assert (j = j') as <- by (by eapply index_unique). rewrite Hj in Hj'. injection Hj' as <-.
  assert (∀ k v, k ≠ "groups"%string → f k = v → same (prop k node) v) as Hk.
  { intros k v Hne <-. specialize (Hv k). unfold NodesStore.field_same in Hv. by rewrite decide_False in Hv. }
  assert (∀ k, k ∈ NodesStore.STATUS_FIELDS → same (prop k node) (prop k (statusFor (Some sn) n))) as Hst.
  { intros k Hin. apply Hk; [by apply status_plain|by apply Hstatus]. }
  assert (∀ k, k ∈ NodesStore.CLIENT_FIELDS → same (prop k node) (prop k (clientFor (Some sn) n (Z.of_nat j)))) as Hcl.
  { intros k Hin. apply Hk; [by apply fields_disjoint|by apply Hclient]. }
  apply fields_shown; [done|done|by apply Hk].
Qed.

(** What the store went through. *)
Definition reached (s : NodesStore.t) : Prop :=
  ∃ ops, Forall NodesStore.proper_op ops ∧ s = runs NodesStore.step ops NodesStore.initial.

Lemma reached_app s ops :
  reached s → Forall NodesStore.proper_op ops → reached (runs NodesStore.step ops s).
Proof.
  intros (ops0 & Hops0 & ->) Hops. exists (ops0 ++ ops). split; [by apply Forall_app|]. by rewrite runs_app.
Qed.

Lemma read_same p s :
  reached s → let s' := NodesStore.step (NodesStore.GetState p) s in
  NodesStore.list_of s' = NodesStore.list_of s ∧ ∀ i, NodesStore.obj s' i = NodesStore.obj s i.
Proof.
  intros (ops & _ & ->). cbn zeta. cbn [NodesStore.step]. destruct (NodesStore.derive p _) as [d s'] eqn:Hd.
  apply NodesStore.derive_spec in Hd as (_ & _ & Ho & Hl & _); [|apply NodesStore.runs_sound..].
  split; [done|]. intros i. by apply NodesStore.obj_objects.
Qed.

Lemma cleared_empty s : reached s → NodesStore.list_of (NodesStore.step NodesStore.ClearNodes s) = [].
Proof.
  intros (ops & Hops & ->). rewrite <-runs_snoc.
  destruct (NodesStore.runs_refines (ops ++ [NodesStore.ClearNodes])) as [_ [_ _ Hdom _ _] _];
    [apply Forall_app; by repeat constructor|].
  set (S := runs NodesStore.step (ops ++ [NodesStore.ClearNodes]) NodesStore.initial) in *.
  destruct (NodesStore.list_of S) as [|i l]; [done|]. exfalso.
  destruct (Hdom (NodesStore.uuid (NodesStore.obj S i))) as [Hd _].
  rewrite runs_snoc in Hd. destruct Hd as [? Hd]; [unfold NodesStore.uuids; set_solver|discriminate Hd].
Qed.

Lemma accepted_shown sn array s :
  good_snapshot sn → reached s → shows_snapshot sn (runs NodesStore.step (store_ops sn array) s).
Proof.
  intros Hsn (ops & Hops & ->). rewrite <-runs_app.
  eapply (refreshed_shown _ _ (runs NodesStore.spec_step (ops ++ store_ops sn array) (λ _, None))); [done| |].
  - apply NodesStore.runs_refines, Forall_app. split; [done|by apply ops_proper].
  - intros u. rewrite runs_app. by apply spec_refreshed.
Qed.

(** ** The page is always consistent *)

Definition good_event (e : event) : Prop :=
  match e with Answer _ (Answered sn) _ => good_snapshot sn | _ => True end.

Definition consistent (g : page) : Prop :=
  reached (store g) ∧
  match snapshot g with Some sn => shows_snapshot sn (store g) | None => NodesStore.list_of (store g) = [] end.

Lemma settle_consistent dark was_aborted is_stopped a g :
  (∀ sn, a = Answered sn → good_snapshot sn) → consistent g → consistent (settle dark was_aborted is_stopped a g).
Proof.
  intros Ha [Hr Hg]. unfold settle. destruct (was_aborted || is_stopped); [done|]. destruct a as [sn|m].
  - destruct (must_reload (snapshot g) sn); [done|]. specialize (Ha sn eq_refl). split; cbn [loaded accept store snapshot].
    + apply reached_app; [done|by apply ops_proper].
    + by apply accepted_shown.
  - unfold fail. cbn zeta. destruct (is_denied m); [|done]. split; cbn [loaded store snapshot]; [|by apply cleared_empty].
    apply (reached_app _ [NodesStore.ClearNodes]); [done|by repeat constructor].
Qed.

Lemma step_consistent e s : good_event e → consistent (view s) → consistent (view (step e s)).
Proof.
  intros He Hs. destruct e as [| | | |n|n a dark|p]; cbn [step view]; try done.
  - unfold systemChanged. by destruct (wants_system s).
  - by case_bool_decide.
  - destruct (list_find_first _ _) as [f|]; [|done]. cbn [view]. apply settle_consistent; [|done].
    intros sn ->. exact He.
  - destruct Hs as [Hr Hg]. destruct (read_same p (store (view s)) Hr) as [Hl Ho]. split; cbn [read store snapshot].
    + apply (reached_app _ [NodesStore.GetState p]); [done|by repeat constructor].
    + destruct (snapshot (view s)) as [sn|]; [|by rewrite Hl]. destruct Hg as [H1 H2].
      unfold shows_snapshot, NodesStore.uuids. rewrite Hl. setoid_rewrite Ho. by split.
Qed.

(** C2: the page always shows the current snapshot.  After any sequence of
    polls, retries, failures, redirections and reads, in which the nodes of
    every answered snapshot have unique identifiers and are fewer than 2^53,
    the node list is exactly the list of nodes of the snapshot in the box, in
    its order, and empty when there is none.  Every status field of a node is
    that of [statusFor] and every client field that of [clientFor] for the
    snapshot's node; in particular a measurement (table [measurements]) is the
    number of the host, or 0 when it has none, if its section is public (the
    list of public sections is missing or contains it) and it is not marked
    as invalid, and NaN otherwise; a traffic total is shown only if "traffic" is
    public and it is a finite number not below zero, and is NaN otherwise;
    and the location is null when "info" is not public.  The other fields
    (names, versions, region, note, expiry) have no such check in the adapter
    and are shown as the server sends them. *)
Theorem page_shows_snapshot (es : list event) :
  Forall good_event es →
  let g := view (runs step es initial) in
  match snapshot g with
  | Some sn => shows_snapshot sn (store g)
  | None => NodesStore.list_of (store g) = []
  end.
Proof.
  intros Hes. cbn zeta. apply (runs_invariant_cond step good_event (λ s, consistent (view s))); [|done|].
  - intros e s. apply step_consistent.
  - split; [by exists []|done].
Qed.

(** ** Witnesses *)

Definition example_events : list event :=
  [Answer 0 (Answered HistoryCache.sample_page) true; Read false; Fire 1; Answer 2 (Failed (js "500")) true].

Lemma example_good : Forall good_event example_events.
Proof. repeat constructor. set_solver. Qed.

Lemma page_shows_snapshot_witness :
  let g := view (runs step (Init :: example_events) initial) in
  snapshot g = Some HistoryCache.sample_page ∧ shows_snapshot HistoryCache.sample_page (store g) ∧
  connectionError g = true.
Proof.
  assert (Forall good_event (Init :: example_events)) as Hes by (constructor; [done|apply example_good]).
  pose proof (page_shows_snapshot (Init :: example_events) Hes) as Hg. cbn zeta in Hg |- *.
  assert (snapshot (view (runs step (Init :: example_events) initial)) = Some HistoryCache.sample_page) as Hs
    by (vm_compute; reflexivity).
  rewrite Hs in Hg. split; [exact Hs|]. split; [exact Hg|vm_compute; reflexivity].
Defined.

Lemma one_polling_chain_witness : chains (poll (runs step (Init :: example_events) initial)) = 1%nat.
Proof. apply (one_polling_chain example_events). decide_closed. Defined.

Lemma retry_doubles_polling_witness : chains (poll (runs step (Init :: Retry :: example_events) initial)) = 2%nat.
Proof. apply (retry_doubles_polling example_events). decide_closed. Defined.

Lemma polling_never_stops_witness :
  let p := poll (runs step (Init :: [Retry]) initial) in inflight p ≠ [] ∨ pending p ≠ [].
Proof. apply (polling_never_stops [Retry]). reflexivity. Defined.

End InitApp.
