(* ===== verification/MetricSeries.v ===== *)
(** * Metric series ([glass-shared/utils/metricSeries.ts])

    The keys of series, their normalisation into groups of points with the
    same tags, the order of ping tasks, and the smoothing of values; and the
    texts of [charts/metricSeries.ts].  Tags are objects with their properties
    in order; [labels], [tag] and [tags] are [None] when they are no plain
    objects.  The parser of dates and the comparison [localeCompare] with
    numeric order are parameters. *)

From Stdlib Require Import SpecFloat.
From S2P Require Import Prelude JsMap JsString Json JsValue JsNumber JsText Network Format.

Open Scope Z_scope.

Module MetricSeries.

Definition PING_LATENCY_METRIC : jsstring := js "ping.latency_ms".
Definition PING_LOSS_METRIC : jsstring := js "ping.loss".

Abbreviation Tags := (jsmap jsstring json).

(** The three sources of tags of a series or a point. *)
Record TagSource := { labels : option Tags; tag : option Tags; tags : option Tags }.

(** [None] is [undefined]. *)
Definition stringifyTagValue (v : option json) : jsstring :=
  match v with
  | None | Some JNull => []
  | Some (JStr s) => s
  | Some (JNum x) => number_string x
  | Some (JBool b) => if b then js "true" else js "false"
  | Some v => json_text v
  end.

(** [{ ...o, ...p }] *)
Definition merge (o p : Tags) : Tags := foldl (λ o kv, jm_set kv.1 kv.2 o) o p.

Definition metricTags (v : TagSource) : Tags :=
  merge (merge (merge [] (default [] (labels v))) (default [] (tag v))) (default [] (tags v)).

(** A key with its value as text. *)
Definition tag_entry (t : Tags) (key : jsstring) : jsstring * jsstring := (key, stringifyTagValue (jm_get key t)).

(** [JSON.stringify] of an array of pairs of strings. *)
Definition pair_text (kv : jsstring * jsstring) : jsstring := 91 :: quote kv.1 ++ 44 :: quote kv.2 ++ [93].
Definition pairs_text (l : list (jsstring * jsstring)) : jsstring := 91 :: join [44] (pair_text <$> l) ++ [93].

(** [None] is [null] or [undefined]. *)
Definition metricTagsKey (t : option Tags) : jsstring :=
  match t with Some t => pairs_text (tag_entry t <$> sort_strings (jm_keys t)) | None => [] end.

Record MetricPoint := { time : jsstring; p_value : option num; p_tags : TagSource }.

(** What is used of a series. *)
Record Series := { metric_key : jsstring; entity_id : jsstring; s_tags : TagSource; points : option (list MetricPoint) }.

Definition metricSeriesKey (s : Series) : jsstring :=
  metric_key s ++ js ":" ++ entity_id s ++ js ":" ++ metricTagsKey (Some (metricTags (s_tags s))).

Definition metricSeriesDataKey (s : Series) (p : MetricPoint) : jsstring :=
  metric_key s ++ js ":" ++ entity_id s ++ js ":" ++ time p ++ js ":" ++ metricTagsKey (Some (metricTags (p_tags p))).

(** A normalised point has only [tags]. *)
Record NormalizedPoint := { n_time : jsstring; n_value : option num; n_tags : Tags }.

Record NormalizedMetricSeries := {
  ns_metric_key : jsstring;
  ns_entity_id : jsstring;
  ns_tags : Tags;
  ns_points : list NormalizedPoint;
}.

Record group := { g_tags : Tags; g_points : list NormalizedPoint }.

Definition point_tags (s : Series) (p : MetricPoint) : Tags := merge (metricTags (s_tags s)) (metricTags (p_tags p)).

Definition add_point (s : Series) (groups : jsmap jsstring group) (p : MetricPoint) : jsmap jsstring group :=
  match time p with
  | [] => groups
  | _ =>
      let t := point_tags s p in
      let key := metricTagsKey (Some t) in
      let g := default {| g_tags := t; g_points := [] |} (jm_get key groups) in
      jm_set key {| g_tags := g_tags g;
                    g_points := g_points g ++ [{| n_time := time p; n_value := p_value p; n_tags := t |}] |} groups
  end.

Definition group_series (s : Series) : jsmap jsstring group := foldl (add_point s) [] (default [] (points s)).

Section times.
Context (parse : jsstring → option Z).

(** [sort] by time: an invalid time compares as equal to every other, and the
    order is then up to the engine; it is taken as 0. *)
Definition time_of (p : NormalizedPoint) : Z := default 0 (parse (n_time p)).

Definition normalized (s : Series) (g : group) : NormalizedMetricSeries :=
  {| ns_metric_key := metric_key s; ns_entity_id := entity_id s; ns_tags := g_tags g;
     ns_points := sort_on time_of (g_points g) |}.

Definition normalizeMetricSeries (s : Series) : list NormalizedMetricSeries :=
  match group_series s with
  | [] => [{| ns_metric_key := metric_key s; ns_entity_id := entity_id s; ns_tags := metricTags (s_tags s);
              ns_points := [] |}]
  | groups => normalized s <$> jm_values groups
  end.

Definition normalizeMetricSeriesList (l : option (list Series)) : list NormalizedMetricSeries :=
  default [] l ≫= normalizeMetricSeries.
End times.

Definition isPingMetric (s : option Series) : bool :=
  match s with Some s => bool_decide (metric_key s = PING_LATENCY_METRIC) | None => false end.

(** [a || b] of tag values. *)
Definition falsy (v : option json) : bool := match v with Some v => json_falsy v | None => true end.
Definition or_value (a b : option json) : option json := if falsy a then b else a.

(** [direct] is [value.task_id]. *)
Definition pingTaskId (direct : option json) (v : TagSource) : jsstring :=
  let t := metricTags v in
  stringifyTagValue
    (or_value (or_value (or_value direct (jm_get (js "task_id") t)) (jm_get (js "task") t)) (jm_get (js "id") t)).

(** [directName] is [value.name]. *)
Definition pingTaskName (directName : option jsstring) (direct : option json) (v : TagSource) : jsstring :=
  let t := metricTags v in
  match trim (default [] directName) with
  | [] =>
      match stringifyTagValue
        (or_value (or_value (jm_get (js "task_name") t) (jm_get (js "name") t)) (jm_get (js "task") t)) with
      | [] => pingTaskId direct v
      | name => name
      end
  | name => name
  end.

Definition createPingTaskOrderMap (ids : list jsstring) : jsmap jsstring Z :=
  foldl (λ m xi, jm_set xi.1 xi.2 m) [] (imap (λ i x, (x, Z.of_nat i)) ids).

Section order.
(** [localeCompare] with [numeric]: negative, zero or positive. *)
Context (localeCompare : jsstring → jsstring → Z).

Definition comparePingTaskIds (l r : jsstring) (taskOrder : jsmap jsstring Z) : Z :=
  match jm_get l taskOrder, jm_get r taskOrder with
  | Some i, Some j => i - j
  | Some _, None => -1
  | None, Some _ => 1
  | None, None =>
      if bool_decide (l = r) then 0
      else match l, r with
      | [], _ => 1
      | _, [] => -1
      | _, _ => localeCompare l r
      end
  end.

Definition comparePingTaskOrder (l r : Tags) (taskOrder : jsmap jsstring Z) : Z :=
  let id t := pingTaskId None {| labels := None; tag := None; tags := Some t |} in
  comparePingTaskIds (id l) (id r) taskOrder.

(** The stable sort by a comparator. *)
Fixpoint insert_by {A} (cmp : A → A → Z) (x : A) (l : list A) : list A :=
  match l with
  | [] => [x]
  | y :: l => if bool_decide (cmp x y ≤ 0) then x :: y :: l else y :: insert_by cmp x l
  end.
Definition sort_by {A} (cmp : A → A → Z) (l : list A) : list A := foldr (insert_by cmp) [] l.

(** Tasks are given with the text of their identifiers. *)
Definition orderPingTasksByBackend {A} (id : A → jsstring) (tasks : list A) (backend : list jsstring) : list A :=
  sort_by (λ a b, comparePingTaskIds (id a) (id b) (createPingTaskOrderMap backend)) tasks.
End order.

Definition pingMetricStatKey (entity_id task_id : jsstring) : jsstring := entity_id ++ js ":" ++ task_id.

(** [alpha = 0.35] *)
Definition DEFAULT_ALPHA : num := decimal 35 (-2).

Definition safe_alpha (alpha : num) : num :=
  if isFinite alpha && num_ltb (num_of_Z 0) alpha && num_leb alpha (num_of_Z 1) then alpha else DEFAULT_ALPHA.

Definition smooth (alpha : num) (previous : option num) (x : num) : num :=
  match previous with
  | None => x
  | Some p => num_add (num_mul alpha x) (num_mul (num_sub (num_of_Z 1) alpha) p)
  end.

Fixpoint ewma (alpha : num) (previous : option num) (l : list (option num)) : list (option num) :=
  match l with
  | [] => []
  | Some x :: l =>
      if isFinite x then let y := smooth alpha previous x in Some y :: ewma alpha (Some y) l
      else None :: ewma alpha previous l
  | None :: l => None :: ewma alpha previous l
  end.

Definition applyMetricEwma (l : list (option num)) (alpha : num) : list (option num) := ewma (safe_alpha alpha) None l.

(** ** Keys of tags are canonical *)

Definition text_pair (kv : jsstring * jsstring) : Prop := Forall code_unit kv.1 ∧ Forall code_unit kv.2.

Lemma join_pair_tail x l : join [44] (pair_text <$> x :: l) = pair_text x ++ match l with [] => [] | _ => 44 :: join [44] (pair_text <$> l) end.
Proof. destruct l; [by rewrite app_nil_r|done]. Qed.

Lemma pairs_inj l l' r r' :
  Forall text_pair l → Forall text_pair l' →
  join [44] (pair_text <$> l) ++ 93 :: r = join [44] (pair_text <$> l') ++ 93 :: r' → l = l' ∧ r = r'.
Proof.
  intros Hl. revert l' r r'. induction Hl as [|[k v] l [Hk Hv] Hl IH]; intros l' r r' Hl' He.
  - destruct Hl' as [|[k' v'] l' _ _]; [by injection He|]. rewrite join_pair_tail in He. discriminate He.
  - destruct Hl' as [|[k' v'] l' [Hk' Hv'] Hl']; [rewrite join_pair_tail in He; discriminate He|].
    rewrite !join_pair_tail, <-!app_assoc in He. unfold pair_text in He. cbn [fst snd app] in *.
    apply (f_equal tail) in He. cbn [tail] in He. rewrite <-!app_assoc in He.
    apply quote_app_inj in He as [-> He]; [|done..]. cbn [app] in He. apply (f_equal tail) in He. cbn [tail] in He.
    rewrite <-!app_assoc in He. apply quote_app_inj in He as [-> He]; [|done..]. cbn [app] in He.
    apply (f_equal tail) in He. cbn [tail] in He.
    assert (l = l' ∧ r = r') as [-> ->]; [|done].
    destruct l as [|x l], l' as [|x' l']; try discriminate He.
    + by injection He.
    + cbn [app] in He. apply (f_equal tail) in He. cbn [tail] in He. by apply IH.
Qed.

#[global] Instance text_pair_dec kv : Decision (text_pair kv).
Proof. unfold text_pair, code_unit. apply _. Defined.

(** The texts of a set of tags. *)
Definition well_formed_tags (t : Tags) : Prop := jm_wf t ∧ ∀ k, k ∈ jm_keys t → text_pair (tag_entry t k).

Lemma entries_well_formed t : well_formed_tags t → Forall text_pair (tag_entry t <$> sort_strings (jm_keys t)).
Proof.
  intros [_ Ht]. apply Forall_fmap, Forall_forall. intros k Hk. apply Ht.
  by rewrite sort_strings_perm in Hk.
Qed.

(** C38: the key of a set of tags is canonical: two sets of tags have the same
    key exactly when they have the same keys with values of the same text,
    whatever the order in which they were written. *)
Theorem metric_tags_key_exact (t t' : Tags) :
  well_formed_tags t → well_formed_tags t' →
  metricTagsKey (Some t) = metricTagsKey (Some t') ↔
  ∀ k, (stringifyTagValue ∘ Some <$> jm_get k t) = (stringifyTagValue ∘ Some <$> jm_get k t').
Proof.
  intros Ht Ht'. cbn [metricTagsKey]. unfold pairs_text. split.
  - intros He. apply (f_equal tail) in He. cbn [tail] in He.
    apply pairs_inj in He as [He _]; [|by apply entries_well_formed..].
    assert (sort_strings (jm_keys t) = sort_strings (jm_keys t')) as Hs.
    { apply (f_equal (fmap fst)) in He. rewrite <-!list_fmap_compose in He. unfold tag_entry, compose in He.
      cbn [fst] in He. by rewrite !list_fmap_id in He. }
    assert (∀ k, k ∈ jm_keys t ↔ k ∈ jm_keys t') as Hkeys.
    { intros k. rewrite <-(sort_strings_perm (jm_keys t)), <-(sort_strings_perm (jm_keys t')). by rewrite Hs. }
    intros k. destruct (jm_get k t) as [v|] eqn:Hv.
    + assert (k ∈ jm_keys t) as Hk by (apply jm_get_is_Some; eauto).
      destruct (jm_get k t') as [v'|] eqn:Hv'.
      2:{ apply jm_get_None in Hv'. by apply Hkeys in Hk. }
      cbn. f_equal. assert (tag_entry t k ∈ tag_entry t' <$> sort_strings (jm_keys t')) as Hin.
      { rewrite <-He. apply list_elem_of_fmap_2. by rewrite sort_strings_perm. }
      apply list_elem_of_fmap in Hin as (k' & Hk' & _). unfold tag_entry in Hk'. injection Hk' as <- Hk'.
      by rewrite Hv, Hv' in Hk'.
    + destruct (jm_get k t') as [v'|] eqn:Hv'; [|done]. apply jm_get_None in Hv.
      exfalso. apply Hv, Hkeys, jm_get_is_Some. eauto.
  - intros Hk. assert (sort_strings (jm_keys t) = sort_strings (jm_keys t')) as ->.
    { apply sort_strings_eq, NoDup_Permutation; [apply Ht|apply Ht'|]. intros k. unfold jm_keys.
      rewrite <-!jm_get_is_Some. specialize (Hk k). destruct (jm_get k t), (jm_get k t'); cbn in Hk; naive_solver. }
    assert (∀ k, tag_entry t k = tag_entry t' k) as Hentry.
    { intros k. unfold tag_entry. f_equal. specialize (Hk k).
      destruct (jm_get k t), (jm_get k t'); cbn in Hk; [by injection Hk|done|done|done]. }
    by rewrite (list_fmap_ext (tag_entry t) (tag_entry t') _ (λ _ k _, Hentry k)).
Qed.

(** ** Normalisation loses nothing *)

Definition timed (p : MetricPoint) : bool := negb (bool_decide (time p = [])).

Definition norm_point (s : Series) (p : MetricPoint) : NormalizedPoint :=
  {| n_time := time p; n_value := p_value p; n_tags := point_tags s p |}.

Definition all_points (m : jsmap jsstring group) : list NormalizedPoint := m ≫= (λ kg, g_points kg.2).

Record grouped (s : Series) (l : list MetricPoint) (m : jsmap jsstring group) : Prop := {
  groups_wf : jm_wf m;
  groups_keyed : ∀ k g, (k, g) ∈ m → metricTagsKey (Some (g_tags g)) = k ∧ g_points g ≠ [] ∧
                   ∀ p, p ∈ g_points g → metricTagsKey (Some (n_tags p)) = k;
  groups_points : all_points m ≡ₚ norm_point s <$> bfilter timed l;
}.

Lemma add_point_grouped s l m p : grouped s l m → grouped s (l ++ [p]) (add_point s m p).
Proof.
  intros [Hwf Hk Hp]. unfold add_point.
  destruct (time p) as [|u r] eqn:Ht.
  { split; [done|done|]. rewrite bfilter_app. cbn [bfilter]. unfold timed at 2. rewrite Ht. by rewrite app_nil_r. }
  rewrite <-Ht. set (t := point_tags s p). set (key := metricTagsKey (Some t)).
  assert (bfilter timed (l ++ [p]) = bfilter timed l ++ [p]) as Hf.
  { rewrite bfilter_app. cbn [bfilter]. unfold timed at 2. rewrite Ht. done. }
  destruct (jm_get key m) as [g|] eqn:Hg; cbn [default].
  - pose proof (jm_get_elem_of _ _ _ Hg) as Hin. destruct (Hk key g Hin) as (H1 & H2 & H3).
    split; [by apply jm_wf_set| |].
    + intros k g' Hin'. apply jm_elem_of_set in Hin' as [[= -> ->]|[Hin' _]]; [|by apply Hk|done].
      cbn [g_tags g_points]. split_and!; [done|by destruct (g_points g)|].
      intros q [Hq|Hq%list_elem_of_singleton]%elem_of_app; [by apply H3|by subst q].
    + rewrite Hf, fmap_app. unfold all_points in *. rewrite jm_set_perm by (done || apply jm_get_is_Some; eauto).
      rewrite (jm_delete_perm key g m Hwf Hin) in Hp. cbn [mbind list_bind snd g_points] in *.
      rewrite <-Hp. change (id g) with g. rewrite <-!app_assoc. apply Permutation_app_head, Permutation_app_comm.
  - rewrite jm_set_fresh by done. split.
    + unfold jm_wf. rewrite fmap_app, NoDup_app. split; [done|]. split; [|apply NoDup_singleton].
      intros k Hin ->%list_elem_of_singleton. by apply jm_get_None in Hg.
    + intros k g' [Hin|Hin%list_elem_of_singleton]%elem_of_app; [by apply Hk|]. injection Hin as -> ->.
      cbn [g_tags g_points]. split_and!; [done|done|]. by intros q ->%list_elem_of_singleton.
    + rewrite Hf, fmap_app. unfold all_points in *. rewrite bind_app, Hp. done.
Qed.

Lemma group_series_grouped s : grouped s (default [] (points s)) (group_series s).
Proof.
  unfold group_series. induction (default [] (points s)) as [|p l IH] using rev_ind.
  - split; [constructor|by intros k g ?%not_elem_of_nil|done].
  - rewrite foldl_app. by apply add_point_grouped.
Qed.

(** Normalising a series loses no point and mixes no tags.  The points of
    the normalised series together are exactly the points that have a time, each
    once, with the tags of the series and their own; every normalised series
    holds points of one tag key, and different series have different keys; and
    the points of each are in order of time. *)
Theorem normalize_series_partition parse (s : Series) :
  let l := normalizeMetricSeries parse s in
  (l ≫= ns_points) ≡ₚ norm_point s <$> bfilter timed (default [] (points s)) ∧
  NoDup ((λ ns, metricTagsKey (Some (ns_tags ns))) <$> l) ∧
  Forall (λ ns, StronglySorted (on_le (time_of parse)) (ns_points ns) ∧
                ∀ p, p ∈ ns_points ns → metricTagsKey (Some (n_tags p)) = metricTagsKey (Some (ns_tags ns))) l.
Proof.
  cbn zeta. unfold normalizeMetricSeries. destruct (group_series_grouped s) as [Hwf Hk Hp].
  destruct (group_series s) as [|kg m] eqn:Hm.
  { split; [exact Hp|]. split; [apply NoDup_singleton|]. repeat constructor. by intros p ?%not_elem_of_nil. }
  rewrite <-Hm in *. clear Hm kg m. set (m := group_series s) in *. split; [|split].
  - rewrite <-Hp. unfold all_points, jm_values. clear. induction m as [|[k g] m IH]; [done|].
    cbn [fmap list_fmap mbind list_bind snd normalized ns_points]. rewrite sort_on_perm. by apply Permutation_app_head.
  - unfold jm_values. rewrite <-!list_fmap_compose. unfold jm_wf in Hwf.
    erewrite list_fmap_ext; [exact Hwf|]. intros i [k g] Hi. apply list_elem_of_lookup_2 in Hi.
    apply Hk in Hi as [Hi _]. exact Hi.
  - apply Forall_forall. intros ns (g & -> & Hg)%list_elem_of_fmap. apply list_elem_of_fmap in Hg as ([k g'] & -> & Hin).
    apply Hk in Hin as (H1 & _ & H3). cbn [normalized ns_points ns_tags snd] in *. split; [apply sort_on_sorted|].
    intros p Hp'. rewrite elem_of_sort_on in Hp'. rewrite H1. by apply H3.
Qed.

(** Smoothing keeps the gaps where they are. *)
Lemma ewma_gaps alpha l :
  Forall2 (λ x y, is_Some y ↔ ∃ v, x = Some v ∧ isFinite v = true) l (applyMetricEwma l alpha).
Proof.
  unfold applyMetricEwma. generalize (safe_alpha alpha). intros a. generalize (@None num).
  induction l as [|[x|] l IH]; intros prev; cbn [ewma]; [constructor| |].
  - destruct (isFinite x) eqn:Hx; constructor; [naive_solver|apply IH| |apply IH].
    split; [by intros []|]. intros (v & [= ->] & Hv). congruence.
  - constructor; [|apply IH]. split; [by intros []|]. by intros (v & ? & _).
Qed.

Definition example_tags : Tags := [(js "task", JNum (num_of_Z 1)); (js "name", JStr (js "x"))].
Definition example_tags' : Tags := [(js "name", JStr (js "x")); (js "task", JStr (js "1"))].

Lemma metric_tags_key_exact_witness : metricTagsKey (Some example_tags) = metricTagsKey (Some example_tags').
Proof.
  apply (metric_tags_key_exact example_tags example_tags').
  - split; [decide_closed|]. intros k Hk. apply (every_true (λ k, bool_decide (text_pair (tag_entry example_tags k)))
      (jm_keys example_tags)) in Hk; [by apply bool_decide_eq_true in Hk|vm_compute; reflexivity].
  - split; [decide_closed|]. intros k Hk. apply (every_true (λ k, bool_decide (text_pair (tag_entry example_tags' k)))
      (jm_keys example_tags')) in Hk; [by apply bool_decide_eq_true in Hk|vm_compute; reflexivity].
  - intros k. unfold example_tags, example_tags'. cbn [jm_get].
    repeat case_bool_decide; subst; try discriminate; vm_compute; reflexivity.
Defined.

End MetricSeries.

(** ** Texts of the charts *)

Module MetricChart.

Inductive kind := bytes | bytesPerSecond | milliseconds | percent | temperature | other.

(** What is used of [MetricChartSeriesData]. *)
Record ChartSeries := { cs_name : jsstring; cs_kind : kind; cs_data : list (jsstring * option num) }.

Section texts.
Context `{Format.ByteIndex} (localeNumber : num → jsstring).

(** [None] is [null] or [undefined]; [toFixed] of these digits does not throw. *)
Definition formatMetricValue (v : option num) (k : kind) : jsstring :=
  match v with
  | Some x =>
      if negb (isFinite x) then js "-"
      else match k with
      | bytes => default [] (Format.formatBytes x 2)
      | bytesPerSecond => default [] (Format.formatBytes x 2) ++ js "/s"
      | milliseconds => default [] (toFixed x (if num_leb (num_of_Z 100) x then 0 else 1)) ++ js " ms"
      | percent => default [] (toFixed x 1) ++ js "%"
      | temperature => default [] (toFixed x 1) ++ js " °C"
      | other => localeNumber (math_round x)
      end
  | None => js "-"
  end.

Definition measured (p : jsstring * option num) : bool := match p.2 with Some x => isFinite x | None => false end.

Definition latest_of (s : ChartSeries) : option jsstring :=
  (λ p, cs_name s ++ js " " ++ formatMetricValue p.2 (cs_kind s)) <$> list_find_first measured (reverse (cs_data s)).

(** The loop over the series returns with the first that has a value. *)
Fixpoint first_latest (l : list ChartSeries) : jsstring :=
  match l with
  | [] => js "-"
  | s :: l => match latest_of s with Some text => text | None => first_latest l end
  end.

Definition metricSeriesLatestText (latest : jsstring) (series : list ChartSeries) : jsstring :=
  match latest with [] => first_latest series | _ => latest end.
End texts.

End MetricChart.
