(* ===== verification/Finance.v ===== *)
(** * Finance of nodes ([glass-shared/utils/financeHelper.ts])

    Currencies, exchange rates with the overrides a visitor stores, the metered
    estimate with its stored settings, and the values and costs of nodes in
    yuan.

    [Storage] is [localStorage]: it may be blocked (reading and writing throw)
    or full (writing throws); the helpers catch both.  [JSON.parse] and
    [JSON.stringify] are parameters with the law that what was written is read
    back ([JsonCodec]); dates are parsed by a parameter. *)

From Stdlib Require Import SpecFloat.
From S2P Require Import Prelude JsMap JsString Json JsValue FloatFacts JsNumber JsText TagHelper.

Open Scope Z_scope.

(** Data that JSON text keeps: no [NaN], no infinity, no negative zero. *)
Definition plain_num (x : num) : bool :=
  match x with S754_zero false | S754_finite _ _ _ => true | _ => false end.

Fixpoint plain (v : json) : bool :=
  match v with
  | JNum x => plain_num x
  | JArr l => every plain l
  | JObj m => every (λ kv, plain kv.2) m
  | _ => true
  end.

Class JsonCodec := {
  JSON_stringify : json → jsstring;
  JSON_read : jsstring → option json;
  JSON_read_stringify : ∀ v, plain v = true → JSON_read (JSON_stringify v) = Some v;
  (** The text of an object is not empty. *)
  JSON_stringify_ne : ∀ m, JSON_stringify (JObj m) ≠ [];
}.

Module Finance.

Inductive CurrencyCode := CNY | USD | HKD | EUR | GBP | JPY | RUB | CHF | INR | VND | THB | CAD.

#[global] Instance CurrencyCode_eq_dec : EqDecision CurrencyCode.
Proof. solve_decision. Defined.

Definition SUPPORTED_CURRENCIES : list CurrencyCode :=
  [CNY; USD; HKD; EUR; GBP; JPY; RUB; CHF; INR; VND; THB; CAD].

Definition code_text (c : CurrencyCode) : string :=
  match c with
  | CNY => "CNY" | USD => "USD" | HKD => "HKD" | EUR => "EUR" | GBP => "GBP" | JPY => "JPY"
  | RUB => "RUB" | CHF => "CHF" | INR => "INR" | VND => "VND" | THB => "THB" | CAD => "CAD"
  end.

Definition ExchangeRates := CurrencyCode → num.

Inductive ExchangeRateSource := rates_cache | rates_network | rates_stale_cache | rates_default.

Definition DEFAULT_EXCHANGE_RATES : ExchangeRates := λ c,
  match c with
  | CNY => num_of_Z 1
  | USD => decimal 142536 (-6)
  | HKD => decimal 1108377 (-6)
  | EUR => decimal 12102 (-5)
  | GBP => decimal 105581 (-6)
  | JPY => decimal 22231552 (-6)
  | RUB => decimal 135 (-1)
  | CHF => decimal 12 (-2)
  | INR => decimal 118 (-1)
  | VND => num_of_Z 3500
  | THB => num_of_Z 5
  | CAD => decimal 19 (-2)
  end.

Definition CURRENCY_SYMBOLS (c : CurrencyCode) : jsstring :=
  match c with
  | CNY => js "¥" | USD => js "$" | HKD => js "HK$" | EUR => js "€" | GBP => js "£" | JPY => js "¥"
  | RUB => js "₽" | CHF => js "₣" | INR => js "₹" | VND => js "₫" | THB => js "฿" | CAD => js "CA$"
  end.

(** The texts of each code, in the order of the tests. *)
Definition currency_texts : list (CurrencyCode * list jsstring) :=
  [(USD, [js "USD"; js "$"]); (HKD, [js "HKD"; js "HK$"]); (EUR, [js "EUR"; js "€"]); (GBP, [js "GBP"; js "£"]);
   (JPY, [js "JPY"]); (RUB, [js "RUB"; js "₽"]); (CHF, [js "CHF"; js "₣"]); (INR, [js "INR"; js "₹"]);
   (VND, [js "VND"; js "₫"]); (THB, [js "THB"; js "฿"]); (CAD, [js "CAD"; js "CA$"; js "C$"; js "CAD$"])].

Section currency.
Context `{CaseMapping}.

(** [null] and [undefined] are [None]; an empty text is as good as none. *)
Definition normalizeCurrency (currency : option jsstring) : CurrencyCode :=
  let text := match currency with Some ((_ :: _) as s) => s | _ => js "CNY" end in
  let value := toUpperCase (trim text) in
  match list_find_first (λ t, bool_decide (value ∈ t.2)) currency_texts with Some t => t.1 | None => CNY end.
End currency.

(** ** Storage *)

Record Storage := mkStorage { blocked : bool; full : bool; items : jsmap jsstring jsstring }.

Definition getLocalStorageItem (key : jsstring) (s : Storage) : option jsstring :=
  if blocked s then None else jm_get key (items s).

Definition setLocalStorageItem (key v : jsstring) (s : Storage) : Storage :=
  if blocked s || full s then s else mkStorage (blocked s) (full s) (jm_set key v (items s)).

Definition removeLocalStorageItem (key : jsstring) (s : Storage) : Storage :=
  if blocked s then s else mkStorage (blocked s) (full s) (jm_delete key (items s)).

Definition OVERRIDES_KEY : jsstring := js "komari_finance_exchange_rate_overrides_v1".
Definition FINANCE_CURRENCY_KEY : jsstring := js "fin_currency".
Definition EXCLUDE_FREE_KEY : jsstring := js "fin_exclude_free".
Definition METERED_SETTINGS_KEY_PREFIX : jsstring := js "theme:usage-estimator:v1:".

(** The largest input of an estimate: 1e12. *)
Definition MAX_ESTIMATE_INPUT : num := num_of_Z 1000000000000.

(** [Number(value)]; [None] is [undefined]. *)
Definition number_of (v : option json) : num :=
  match v with
  | None => NaN
  | Some JNull => num_of_Z 0
  | Some (JBool b) => num_of_Z (if b then 1 else 0)
  | Some (JNum x) => x
  | Some (JStr s) => string_number s
  | Some v => string_number (json_string v)
  end.

Definition normalize_cost (amount : num) : num :=
  if isFinite amount && num_leb (num_of_Z 0) amount && num_leb amount MAX_ESTIMATE_INPUT then amount else num_of_Z 0.

Definition normalizeOptionalCost (v : option json) : num := normalize_cost (number_of v).

Definition shouldExcludeFreeNodes (s : Storage) : bool :=
  match getLocalStorageItem EXCLUDE_FREE_KEY s with None => true | Some v => bool_decide (v = js "true") end.

Definition setExcludeFreeNodes (exclude : bool) (s : Storage) : Storage :=
  setLocalStorageItem EXCLUDE_FREE_KEY (if exclude then js "true" else js "false") s.

Inductive MeteredTrafficMode := mode_sum | mode_max | mode_up | mode_down.

Definition mode_text (m : MeteredTrafficMode) : jsstring :=
  match m with mode_sum => js "sum" | mode_max => js "max" | mode_up => js "up" | mode_down => js "down" end.

Definition read_mode (v : option json) : MeteredTrafficMode :=
  match v with
  | Some (JStr s) => if bool_decide (s = js "max") then mode_max else if bool_decide (s = js "up") then mode_up
                     else if bool_decide (s = js "down") then mode_down else mode_sum
  | _ => mode_sum
  end.

Record MeteredEstimateSettings := {
  currency : CurrencyCode;
  trafficMode : MeteredTrafficMode;
  trafficRate : num;
  timeRate : num;
  manualHours : num;
  oneTimeFee : num;
}.

Definition metered_defaults : MeteredEstimateSettings :=
  {| currency := USD; trafficMode := mode_sum; trafficRate := num_of_Z 0; timeRate := num_of_Z 0;
     manualHours := num_of_Z 0; oneTimeFee := num_of_Z 0 |}.

Definition metered_key (nodeUuid : jsstring) : jsstring := METERED_SETTINGS_KEY_PREFIX ++ nodeUuid.

Section stored.
Context `{CaseMapping} `{JsonCodec}.

Definition getStoredFinanceCurrency (s : Storage) : CurrencyCode :=
  normalizeCurrency (getLocalStorageItem FINANCE_CURRENCY_KEY s).

Definition setStoredFinanceCurrency (c : CurrencyCode) (s : Storage) : Storage :=
  setLocalStorageItem FINANCE_CURRENCY_KEY (js (code_text c)) s.

(** [value.key] of parsed data: reading a property of [null] throws. *)
Definition stored_field (v : json) (k : string) : option json := json_prop k v.

Definition getStoredMeteredEstimateSettings (nodeUuid : jsstring) (s : Storage) : MeteredEstimateSettings :=
  match getLocalStorageItem (metered_key nodeUuid) s with
  | None | Some [] => metered_defaults
  | Some rawValue =>
      match JSON_read rawValue with
      | None | Some JNull => metered_defaults
      | Some v =>
          let cost k := normalizeOptionalCost (stored_field v k) in
          {| currency := normalizeCurrency (Some (match stored_field v "currency" with
                                                  | Some (JStr c) => c
                                                  | _ => js "USD"
                                                  end));
             trafficMode := read_mode (stored_field v "trafficMode");
             trafficRate := cost "trafficRate"%string; timeRate := cost "timeRate"%string;
             manualHours := cost "manualHours"%string; oneTimeFee := cost "oneTimeFee"%string |}
      end
  end.

Definition metered_json (m : MeteredEstimateSettings) : json :=
  JObj [("currency", JStr (js (code_text (normalizeCurrency (Some (js (code_text (currency m)))))))); ("trafficMode", JStr (mode_text (trafficMode m)));
        ("trafficRate", JNum (normalize_cost (trafficRate m))); ("timeRate", JNum (normalize_cost (timeRate m)));
        ("manualHours", JNum (normalize_cost (manualHours m)));
        ("oneTimeFee", JNum (normalize_cost (oneTimeFee m)))]%string.

Definition setStoredMeteredEstimateSettings (nodeUuid : jsstring) (m : MeteredEstimateSettings) (s : Storage) : Storage :=
  if bool_decide (trim nodeUuid = []) then s
  else setLocalStorageItem (metered_key nodeUuid) (JSON_stringify (metered_json m)) s.

Definition clearStoredMeteredEstimateSettings (nodeUuid : jsstring) (s : Storage) : Storage :=
  if bool_decide (trim nodeUuid = []) then s else removeLocalStorageItem (metered_key nodeUuid) s.

(** ** Exchange rates *)

Definition override_of (record : json) (c : CurrencyCode) : option num :=
  if bool_decide (c = CNY) then None
  else let v := number_of (json_prop (code_text c) record) in
       if isFinite v && num_ltb (num_of_Z 0) v then Some v else None.

(** The overrides in the order of [SUPPORTED_CURRENCIES]. *)
Definition readExchangeRateOverrides (s : Storage) : list (CurrencyCode * num) :=
  match getLocalStorageItem OVERRIDES_KEY s with
  | None | Some [] => []
  | Some rawValue =>
      match JSON_read rawValue with
      | None | Some JNull => []
      | Some record => omap (λ c, (λ v, (c, v)) <$> override_of record c) SUPPORTED_CURRENCIES
      end
  end.

(** [{ ...rates, ...overrides, CNY: 1 }] *)
Definition applyExchangeRateOverrides (rates : ExchangeRates) (s : Storage) : ExchangeRates := λ c,
  if bool_decide (c = CNY) then num_of_Z 1 else default (rates c) (jm_get c (readExchangeRateOverrides s)).

Definition overrides_json (l : list (CurrencyCode * num)) : json :=
  JObj ((λ cv, (code_text cv.1, JNum cv.2)) <$> l).

Definition setExchangeRateOverride (c : CurrencyCode) (v : num) (s : Storage) : Storage :=
  if bool_decide (c = CNY) || negb (isFinite v) || num_leb v (num_of_Z 0) then s
  else setLocalStorageItem OVERRIDES_KEY
         (JSON_stringify (overrides_json (jm_set c v (readExchangeRateOverrides s)))) s.

Definition clearExchangeRateOverrides (s : Storage) : Storage := removeLocalStorageItem OVERRIDES_KEY s.
End stored.

(** ** Estimates and costs *)

Record MeteredEstimate := {
  trafficBytes : num;
  trafficTiB : num;
  runtimeHours : num;
  trafficCost : num;
  timeCost : num;
  oneTimeCost : num;
  totalCost : num;
}.

Definition MAX_SAFE_INTEGER : num := num_of_Z (2 ^ 53 - 1).

Definition normalizeTrafficCounter (v : num) : num :=
  if negb (isFinite v) || num_leb v (num_of_Z 0) then num_of_Z 0 else math_min v MAX_SAFE_INTEGER.

Definition traffic_of (m : MeteredTrafficMode) (up down : num) : num :=
  match m with
  | mode_sum => num_add up down
  | mode_max => math_max up down
  | mode_up => up
  | mode_down => down
  end.

Definition calculateMeteredEstimate (net_total_up net_total_down : num) (m : MeteredEstimateSettings) : MeteredEstimate :=
  let trafficBytes := traffic_of (trafficMode m) (normalizeTrafficCounter net_total_up)
                        (normalizeTrafficCounter net_total_down) in
  let trafficTiB := num_div trafficBytes (num_of_Z (1024 ^ 4)) in
  let runtimeHours := normalize_cost (manualHours m) in
  let trafficCost := num_mul trafficTiB (normalize_cost (trafficRate m)) in
  let timeCost := num_mul runtimeHours (normalize_cost (timeRate m)) in
  let oneTimeCost := normalize_cost (oneTimeFee m) in
  {| trafficBytes := trafficBytes; trafficTiB := trafficTiB; runtimeHours := runtimeHours; trafficCost := trafficCost;
     timeCost := timeCost; oneTimeCost := oneTimeCost;
     totalCost := num_add (num_add trafficCost timeCost) oneTimeCost |}.

(** What is read of a node; prices and cycles are numbers. *)
Record NodeData := {
  price : num;
  n_currency : option jsstring;
  billing_cycle : num;
  expired_at : option jsstring;
  tags : option jsstring;
}.

Definition MS_PER_DAY : Z := 24 * 60 * 60 * 1000.
Definition LONG_TERM_YEARS : Z := 100.

Section costs.
Context `{CaseMapping} (parse : jsstring → option Z).

Definition getPriceCNY (n : NodeData) (rates : ExchangeRates) : num :=
  if negb (isFinite (price n)) || num_leb (price n) (num_of_Z 0) then num_of_Z 0
  else
    let c := normalizeCurrency (n_currency n) in
    if bool_decide (c = CNY) then price n else num_div (price n) (rates c).

Definition bad_cycle (n : NodeData) : bool := negb (isFinite (billing_cycle n)) || num_leb (billing_cycle n) (num_of_Z 0).

Definition calculateMonthlyCostCNY (n : NodeData) (rates : ExchangeRates) : num :=
  let priceCNY := getPriceCNY n rates in
  if num_leb priceCNY (num_of_Z 0) then num_of_Z 0
  else if bad_cycle n then priceCNY
  else num_mul (num_div priceCNY (billing_cycle n)) (num_of_Z 30).

Definition calculatePeriodCostCNY (n : NodeData) (rates : ExchangeRates) (periodDays : num) : num :=
  let monthlyCostCNY := calculateMonthlyCostCNY n rates in
  if num_leb monthlyCostCNY (num_of_Z 0) then num_of_Z 0
  else num_mul (num_div monthlyCostCNY (num_of_Z 30)) periodDays.

(** [now] is in milliseconds; [Math.ceil] of the quotient of whole
    milliseconds is exact. *)
Definition calculateRemainingValueCNY (n : NodeData) (rates : ExchangeRates) (now : Z) : num :=
  match expired_at n with
  | None | Some [] => num_of_Z 0
  | Some text =>
      let priceCNY := getPriceCNY n rates in
      if num_leb priceCNY (num_of_Z 0) then num_of_Z 0
      else match parse text with
      | None => num_of_Z 0
      | Some expiredAt =>
          let diffMs := expiredAt - now in
          if bool_decide (diffMs ≤ 0) then num_of_Z 0
          else if num_ltb (num_of_Z LONG_TERM_YEARS) (num_div (num_of_Z diffMs) (num_of_Z (MS_PER_DAY * 365)))
          then priceCNY
          else if bad_cycle n then priceCNY
          else
            let remainingDays := - ((- diffMs) / MS_PER_DAY) in
            num_mul priceCNY (num_div (num_of_Z remainingDays) (billing_cycle n))
      end
  end.

(** The reductions over nodes; [excluded] is [excludeFreeTags && isFreeNode(node)]. *)
Definition excluded (excludeFreeTags : bool) (n : NodeData) : bool :=
  excludeFreeTags && TagHelper.isFreeNode (price n) (tags n).

Definition total (value_of : NodeData → num) (excludeFreeTags : bool) (nodes : list NodeData) : num :=
  foldl (λ sum n, if excluded excludeFreeTags n then sum else num_add sum (value_of n)) (num_of_Z 0) nodes.

Definition calculateTotalRemainingValueCNY (nodes : list NodeData) (rates : ExchangeRates) (excludeFreeTags : bool)
    (now : Z) : num := total (λ n, calculateRemainingValueCNY n rates now) excludeFreeTags nodes.

Definition calculateTotalValueCNY (nodes : list NodeData) (rates : ExchangeRates) (excludeFreeTags : bool) : num :=
  total (λ n, getPriceCNY n rates) excludeFreeTags nodes.

Definition calculateTotalMonthlyCostCNY (nodes : list NodeData) (rates : ExchangeRates) (excludeFreeTags : bool) : num :=
  total (λ n, calculateMonthlyCostCNY n rates) excludeFreeTags nodes.
End costs.

Definition getDailyExchangeRates : ExchangeRates * ExchangeRateSource * option Z :=
  (DEFAULT_EXCHANGE_RATES, rates_default, None).

(** The options of the number format: the digits after the point and whether
    the notation is compact; [format] is [Intl.NumberFormat]. *)
Definition formatFinanceAmount (format : Z → bool → num → jsstring) (amount : num) (c : CurrencyCode)
    : CurrencyCode * jsstring * jsstring :=
  let safeAmount := if isFinite amount then amount else num_of_Z 0 in
  let large := num_leb (num_of_Z 100000) (SFabs safeAmount) in
  (c, CURRENCY_SYMBOLS c, format (if large then 0 else 2) large safeAmount).

(** ** Currencies and rates *)

Lemma normalizeCurrency_code `{CaseMapping} c : normalizeCurrency (Some (js (code_text c))) = c.
Proof.
  unfold normalizeCurrency. destruct c; cbn [code_text];
    (rewrite toUpperCase_covered by (vm_compute; reflexivity); vm_compute; reflexivity).
Qed.

Definition good_rates (rates : ExchangeRates) : Prop := ∀ c, isFinite (rates c) = true ∧ is_positive (rates c) = true.

Lemma default_rates_good : good_rates DEFAULT_EXCHANGE_RATES.
Proof. intros c. destruct c; vm_compute; done. Qed.

Lemma code_text_inj c d : code_text c = code_text d → c = d.
Proof. by destruct c, d. Qed.

Section overrides.
Context `{CaseMapping} `{JsonCodec}.

Lemma override_good record c v : override_of record c = Some v → c ≠ CNY ∧ isFinite v = true ∧ is_positive v = true.
Proof using.
  unfold override_of. case_bool_decide as Hc; [done|]. set (x := number_of _). rewrite positive_ltb.
  destruct (isFinite x) eqn:Hf; [|done]. destruct (is_positive x) eqn:Hp; [|done]. by intros [= <-].
Qed.

Lemma overrides_good s c v :
  (c, v) ∈ readExchangeRateOverrides s → c ≠ CNY ∧ isFinite v = true ∧ is_positive v = true.
Proof using.
  unfold readExchangeRateOverrides. destruct (getLocalStorageItem _ s) as [[|u raw]|]; [by intros ?%not_elem_of_nil| |by intros ?%not_elem_of_nil].
  assert (∀ record, (c, v) ∈ omap (λ c, (λ v, (c, v)) <$> override_of record c) SUPPORTED_CURRENCIES →
    c ≠ CNY ∧ isFinite v = true ∧ is_positive v = true) as Hr.
  { intros record (d & _ & Hd)%list_elem_of_omap. destruct (override_of record d) as [x|] eqn:Ho; [|done].
    injection Hd as -> ->. by eapply override_good. }
  destruct (JSON_read _) as [[]|]; try (by intros ?%not_elem_of_nil); apply Hr.
Qed.

Lemma collected_get (f : CurrencyCode → option num) d :
  jm_get d (omap (λ c, (λ v, (c, v)) <$> f c) SUPPORTED_CURRENCIES) = f d.
Proof using.
  assert (∀ l, NoDup l → jm_get d (omap (λ c, (λ v, (c, v)) <$> f c) l) = if bool_decide (d ∈ l) then f d else None) as Hl.
  { induction l as [|c l IH]; [done|]. intros [Hc Hnd]%NoDup_cons. cbn [omap list_omap]. destruct (f c) as [v|] eqn:Hf.
    - cbn [fmap option_fmap option_map jm_get]. destruct (decide (d = c)) as [->|Hne].
      { rewrite !bool_decide_eq_true_2 by set_solver. by rewrite Hf. }
      rewrite (bool_decide_eq_false_2 (d = c)) by done. change (list_omap _ _ ?g l) with (omap g l). rewrite IH by done.
      by rewrite (bool_decide_ext (d ∈ c :: l) (d ∈ l)) by set_solver.
    - cbn [fmap option_fmap option_map]. change (list_omap _ _ ?g l) with (omap g l). rewrite IH by done.
      destruct (decide (d = c)) as [->|]; [rewrite Hf; by repeat case_bool_decide|].
      by rewrite (bool_decide_ext (d ∈ c :: l) (d ∈ l)) by set_solver. }
  rewrite Hl by decide_closed. rewrite bool_decide_eq_true_2; [done|]. destruct d; decide_closed.
Qed.

Lemma overrides_json_get M d : json_prop (code_text d) (overrides_json M) = JNum <$> jm_get d M.
Proof using.
  unfold overrides_json. cbn [json_prop]. induction M as [|[c v] M IH]; [done|]. cbn [fmap list_fmap fst snd jm_get].
  case_bool_decide as H1; [apply code_text_inj in H1 as ->; by rewrite bool_decide_eq_true_2|].
  rewrite bool_decide_eq_false_2 by congruence. apply IH.
Qed.

(** What is stored is read back. *)
Definition good_overrides (M : list (CurrencyCode * num)) : Prop :=
  ∀ c v, (c, v) ∈ M → c ≠ CNY ∧ isFinite v = true ∧ is_positive v = true.

Lemma overrides_plain M : good_overrides M → plain (overrides_json M) = true.
Proof using.
  intros HM. cbn [overrides_json plain]. apply every_true. intros kv (cv & -> & Hin)%list_elem_of_fmap.
  destruct cv as [c v]. destruct (HM c v Hin) as (_ & Hf & Hp). cbn. by destruct v as [[]|[]| |[] m e].
Qed.

Lemma read_stored_overrides s M d :
  blocked s = false → full s = false → good_overrides M →
  jm_get d (readExchangeRateOverrides (setLocalStorageItem OVERRIDES_KEY (JSON_stringify (overrides_json M)) s)) =
  jm_get d M.
Proof using.
  intros Hb Hf HM. unfold readExchangeRateOverrides, getLocalStorageItem, setLocalStorageItem. rewrite Hb, Hf.
  cbn [orb blocked items]. rewrite jm_get_set_eq.
  pose proof (JSON_stringify_ne ((λ cv : CurrencyCode * num, (code_text cv.1, JNum cv.2)) <$> M)) as Hne.
  pose proof (JSON_read_stringify (overrides_json M) (overrides_plain M HM)) as Hread. fold (overrides_json M) in Hne.
  destruct (JSON_stringify (overrides_json M)) as [|u raw]; [done|]. rewrite Hread. cbn [overrides_json].
  fold (overrides_json M). rewrite collected_get. unfold override_of. rewrite overrides_json_get, positive_ltb.
  destruct (jm_get d M) as [v|] eqn:Hd; cbn [fmap option_fmap option_map number_of].
  - destruct (HM d v) as (Hne' & Hfin & Hpos); [by apply jm_get_elem_of|].
    rewrite bool_decide_eq_false_2 by done. by rewrite Hfin, Hpos.
  - by case_bool_decide.
Qed.

Lemma good_set M c v :
  good_overrides M → c ≠ CNY → isFinite v = true → is_positive v = true → good_overrides (jm_set c v M).
Proof using.
  intros HM Hc Hf Hp. induction M as [|[e y] M IH]; cbn [jm_set].
  - intros d x Hin%list_elem_of_singleton. by injection Hin as -> ->.
  - assert (good_overrides M) as HM' by (intros d x Hin; apply HM; set_solver).
    case_bool_decide as He; intros d x [Hin|Hin]%elem_of_cons.
    + injection Hin as -> ->. by rewrite <-He.
    + by apply HM'.
    + injection Hin as -> ->. apply HM. set_solver.
    + by apply IH.
Qed.
End overrides.

(** Exchange rates survive whatever is stored.  Whatever the storage holds,
    the rates in use are finite and positive, and the yuan is 1; an override
    that was stored is used from then on and changes no other rate; and
    clearing the overrides brings back the rates. *)
Theorem exchange_overrides_exact `{CaseMapping} `{JsonCodec} (rates : ExchangeRates) (s : Storage) :
  good_rates rates →
  good_rates (applyExchangeRateOverrides rates s) ∧
  applyExchangeRateOverrides rates s CNY = num_of_Z 1 ∧
  (∀ c v d, blocked s = false → full s = false → c ≠ CNY → isFinite v = true → is_positive v = true →
     applyExchangeRateOverrides rates (setExchangeRateOverride c v s) d =
     if bool_decide (d = c) then v else applyExchangeRateOverrides rates s d) ∧
  (∀ d, blocked s = false →
     applyExchangeRateOverrides rates (clearExchangeRateOverrides s) d =
     if bool_decide (d = CNY) then num_of_Z 1 else rates d).
Proof.
  intros Hr. split; [|split; [done|split]].
  - intros c. unfold applyExchangeRateOverrides. case_bool_decide; [done|].
    destruct (jm_get c _) as [v|] eqn:Hv; [|apply Hr]. by apply jm_get_elem_of, overrides_good in Hv as (_ & ? & ?).
  - intros c v d Hb Hf Hc Hfin Hpos. unfold applyExchangeRateOverrides, setExchangeRateOverride.
    rewrite (bool_decide_eq_false_2 (c = CNY)) by done. rewrite Hfin. cbn [negb orb].
    rewrite (positive_not_leb v Hpos).
    rewrite read_stored_overrides; [|done|done|].
    2:{ apply good_set; [|done..]. intros e x. apply overrides_good. }
    rewrite jm_get_set. destruct (decide (d = c)) as [->|Hne].
    + rewrite bool_decide_eq_false_2, !bool_decide_eq_true_2 by done. done.
    + rewrite !(bool_decide_eq_false_2 (d = c)) by done. done.
  - intros d Hb. unfold applyExchangeRateOverrides, clearExchangeRateOverrides, readExchangeRateOverrides,
      getLocalStorageItem, removeLocalStorageItem. rewrite Hb. cbn [blocked items].
    by rewrite jm_get_delete_eq.
Qed.

(** ** The stored settings of an estimate *)

Lemma normalize_cost_idemp x : normalize_cost (normalize_cost x) = normalize_cost x.
Proof.
  unfold normalize_cost at 2 3. destruct (isFinite x && _ && _) eqn:Hx; [|done]. unfold normalize_cost. by rewrite Hx.
Qed.

Lemma normalize_cost_plain x : x ≠ S754_zero true → plain_num (normalize_cost x) = true.
Proof.
  intros Hx. unfold normalize_cost. destruct (isFinite x) eqn:Hf; [|done]. cbn [andb].
  destruct (_ && _); [|done]. by destruct x as [[]|[]| |[] m e].
Qed.

Lemma read_mode_text m : read_mode (Some (JStr (mode_text m))) = m.
Proof. destruct m; vm_compute; reflexivity. Qed.

Definition no_negative_zero (m : MeteredEstimateSettings) : Prop :=
  Forall (λ x, x ≠ S754_zero true) [trafficRate m; timeRate m; manualHours m; oneTimeFee m].

(** The settings of an estimate are read back as they were stored, with
    amounts out of range as zero, and are kept apart by node. *)
Theorem metered_settings_roundtrip `{CaseMapping} `{JsonCodec} (uuid : jsstring) (m : MeteredEstimateSettings)
    (s : Storage) :
  blocked s = false → full s = false → trim uuid ≠ [] → no_negative_zero m →
  getStoredMeteredEstimateSettings uuid (setStoredMeteredEstimateSettings uuid m s) =
    {| currency := currency m; trafficMode := trafficMode m; trafficRate := normalize_cost (trafficRate m);
       timeRate := normalize_cost (timeRate m); manualHours := normalize_cost (manualHours m);
       oneTimeFee := normalize_cost (oneTimeFee m) |} ∧
  ∀ other, other ≠ uuid →
    getStoredMeteredEstimateSettings other (setStoredMeteredEstimateSettings uuid m s) =
    getStoredMeteredEstimateSettings other s.
Proof.
  intros Hb Hf Ht Hz. unfold setStoredMeteredEstimateSettings. rewrite bool_decide_eq_false_2 by done.
  unfold getStoredMeteredEstimateSettings, getLocalStorageItem, setLocalStorageItem. rewrite Hb, Hf.
  cbn [orb blocked items]. split.
  - rewrite jm_get_set_eq.
    assert (plain (metered_json m) = true) as Hp.
    { unfold no_negative_zero in Hz. rewrite !Forall_cons in Hz. destruct Hz as (H1 & H2 & H3 & H4 & _).
      unfold metered_json. cbn [plain]. unfold every. cbn [forallb plain snd].
      by rewrite !normalize_cost_plain by done. }
    pose proof (JSON_read_stringify _ Hp) as Hread.
    assert (JSON_stringify (metered_json m) ≠ []) as Hne by apply JSON_stringify_ne.
    destruct (JSON_stringify (metered_json m)) as [|u raw]; [done|]. rewrite Hread.
    unfold metered_json, stored_field. rewrite (normalizeCurrency_code (currency m)).
    f_equal; [apply normalizeCurrency_code|apply read_mode_text|apply normalize_cost_idemp..].
  - intros other Ho. rewrite jm_get_set_ne; [done|]. unfold metered_key. intros He%app_inv_head. congruence.
Qed.

End Finance.

(** ** A codec

    Data as trees, and trees as numbers: a coding with the laws. *)

Module TreeCodec.

Abbreviation leaf := (unit + (bool + (num + (jsstring + string))))%type.

#[global] Instance num_countable : Countable num.
Proof.
  apply (inj_countable'
    (λ x : num, match x with
      | S754_zero s => inl (inl s) | S754_infinity s => inl (inr s) | S754_nan => inr (inl tt)
      | S754_finite s m e => inr (inr (s, m, e))
      end : (bool + bool) + (unit + bool * positive * Z))
    (λ y, match y with
      | inl (inl s) => S754_zero s | inl (inr s) => S754_infinity s | inr (inl _) => S754_nan
      | inr (inr (s, m, e)) => S754_finite s m e
      end)).
  by intros [].
Defined.

Fixpoint tree (v : json) : gen_tree leaf :=
  match v with
  | JNull => GenLeaf (inl tt)
  | JBool b => GenLeaf (inr (inl b))
  | JNum x => GenLeaf (inr (inr (inl x)))
  | JStr s => GenLeaf (inr (inr (inr (inl s))))
  | JArr l => GenNode 0 (tree <$> l)
  | JObj m => GenNode 1 ((λ kv, GenNode 2 [GenLeaf (inr (inr (inr (inr kv.1)))); tree kv.2]) <$> m)
  end.

Fixpoint untree (t : gen_tree leaf) : option json :=
  match t with
  | GenLeaf (inl _) => Some JNull
  | GenLeaf (inr (inl b)) => Some (JBool b)
  | GenLeaf (inr (inr (inl x))) => Some (JNum x)
  | GenLeaf (inr (inr (inr (inl s)))) => Some (JStr s)
  | GenNode 0 l => JArr <$> mapM untree l
  | GenNode 1 l =>
      JObj <$> mapM (λ t, match t with
        | GenNode 2 [GenLeaf (inr (inr (inr (inr k)))); t] => (λ v, (k, v)) <$> untree t
        | _ => None
        end) l
  | _ => None
  end.

Lemma untree_tree : ∀ v, untree (tree v) = Some v.
Proof.
  fix IH 1. intros [|b|x|s|l|m]; try reflexivity; cbn [tree untree].
  - assert (mapM untree (tree <$> l) = Some l) as ->; [|reflexivity].
    induction l as [|v l IHl]; [reflexivity|]. cbn [fmap list_fmap mapM]. rewrite IH, IHl. reflexivity.
  - assert (∀ f, (∀ k v, f (GenNode 2 [GenLeaf (inr (inr (inr (inr k)))); tree v]) = (λ v, (k, v)) <$> untree (tree v)) →
      mapM f ((λ kv, GenNode 2 [GenLeaf (inr (inr (inr (inr kv.1)))); tree kv.2]) <$> m) = Some m) as Hm.
    { intros f Hf. induction m as [|[k v] m IHm]; [reflexivity|]. cbn [fmap list_fmap mapM fst snd].
      rewrite Hf, IH. cbn [fmap option_fmap option_map mbind option_bind]. rewrite IHm. reflexivity. }
    rewrite Hm; reflexivity.
Qed.

#[refine] Instance tree_codec : JsonCodec := {|
  JSON_stringify v := [Zpos (encode (tree v))];
  JSON_read s := match s with [Zpos p] => decode p ≫= untree | _ => None end;
|}.
Proof.
  - intros v _. rewrite decode_encode. cbn [mbind option_bind]. apply untree_tree.
  - done.
Defined.

Definition sample_storage : Finance.Storage := Finance.mkStorage false false [(Finance.OVERRIDES_KEY, [Zpos 5])].

Lemma exchange_overrides_exact_witness :
  Finance.applyExchangeRateOverrides Finance.DEFAULT_EXCHANGE_RATES
    (Finance.setExchangeRateOverride Finance.USD (num_of_Z 2) sample_storage) Finance.USD = num_of_Z 2.
Proof.
  destruct (Finance.exchange_overrides_exact Finance.DEFAULT_EXCHANGE_RATES sample_storage Finance.default_rates_good)
    as (_ & _ & Hset & _).
  rewrite Hset; reflexivity || discriminate.
Defined.

Definition sample_settings : Finance.MeteredEstimateSettings :=
  {| Finance.currency := Finance.EUR; Finance.trafficMode := Finance.mode_up; Finance.trafficRate := num_of_Z 3;
     Finance.timeRate := NaN; Finance.manualHours := num_of_Z 10; Finance.oneTimeFee := num_of_Z 0 |}.

Lemma metered_settings_roundtrip_witness :
  Finance.trafficRate (Finance.getStoredMeteredEstimateSettings (js "7")
    (Finance.setStoredMeteredEstimateSettings (js "7") sample_settings sample_storage)) = num_of_Z 3.
Proof.
  destruct (Finance.metered_settings_roundtrip (js "7") sample_settings sample_storage) as [Hget _].
  - reflexivity.
  - reflexivity.
  - vm_compute. discriminate.
  - repeat constructor; vm_compute; discriminate.
  - rewrite Hget. vm_compute. reflexivity.
Defined.

End TreeCodec.
