(* ===== verification/AppStore.v ===== *)
(** * Preferences store of the status page

    [glass/src/stores/app.ts] and [glass/src/stores/storage.ts].  The raw state
    of the store, the memory of its derivation, the visitor's [localStorage]
    and the queue of [storage] events from other tabs form one state; every
    method is a step.  Values that may come from the storage are kept as JSON
    values: a text is [JStr], [null] is [JNull].  The parsed favourites are
    objects, compared by identity: they live in [arrays], and the state holds
    an index; so do the public settings, a new object for every call.  The raw
    state is identified by its [version].

    Subscribers of the store only read it.  The sign-in state is the one of
    [AuthSession]; JSON texts, letter case and the hour in Beijing are
    parameters. *)

From S2P Require Import Prelude JsMap JsString Json JsValue JsNumber AuthSession.
From S2P Require Import AppSettings Finance.

Open Scope Z_scope.

(** ** [storage.ts] *)

Module Stored.
Import Finance.

Inductive StorageKind := kind_string | kind_json.

Section stored.
Context `{JsonCodec}.

(** [value === null || value === undefined] removes the item. *)
Definition writeStored (key : jsstring) (v : json) (kind : StorageKind) (s : Storage) : Storage :=
  match v with
  | JNull => removeLocalStorageItem key s
  | _ => setLocalStorageItem key (match kind with kind_json => JSON_stringify v | kind_string => json_string v end) s
  end.

(** The value and the storage, into which an absent default is written;
    [None] stands for the fallback object itself. *)
Definition readStored (key : jsstring) (fallback : json) (kind : StorageKind) (s : Storage)
    : option json * Storage :=
  match getLocalStorageItem key s with
  | None => (None, match fallback with JNull => s | _ => writeStored key fallback kind s end)
  | Some raw => (match kind with kind_json => JSON_read raw | kind_string => Some (JStr raw) end, s)
  end.
End stored.
End Stored.

(** ** [app.ts] *)

Module AppStore.
Import Finance Stored.

Definition KEY_THEME_MODE : jsstring := js "themeMode".
Definition KEY_GROUP : jsstring := js "nodeSelectedGroup".
Definition KEY_FAVORITES : jsstring := js "theme:favorite-nodes:v1".
Definition KEY_VIEW_MODE : jsstring := js "nodeViewMode".

Definition text (s : string) : json := JStr (js s).

Definition isValidViewMode (v : json) : bool :=
  AppSettings.is_member [js "card"; js "list"] (Some v).

(** The fields of the public settings that the store reads. *)
Record PublicSettings := { theme_settings : option json; visitor_audit_enabled : option json }.

Record AppRawState := mkRaw {
  loading : bool;
  themeMode : json;
  lang : jsstring;
  publicSettings : option nat;
  nodeSelectedGroup : json;
  favoriteNodeIds : nat;
  isLoggedIn : bool;
  authStatus : AuthSession.AuthStatus;
  connectionError : bool;
  homeAdvancedToolsVisible : bool;
  homeScrollPosition : num;
  storedViewMode : json;
  beijingTimeTick : Z;
}.

#[global] Instance AppRawState_eq_dec : EqDecision AppRawState.
Proof. solve_decision. Defined.

(** The state that views read; the spread settings are [derived]. *)
Record AppState := mkState {
  derived : AppSettings.DerivedAppSettings;
  a_raw : AppRawState;
  managedThemeMode : json;
  isBeijingDaytime : bool;
  isDark : bool;
  resolvedThemeMode : jsstring;
  favoriteNodeIdSet : list jsstring;
  nodeViewMode : json;
  visitorAuditSupported : bool;
  visitorAuditEnabled : bool;
  currentBackgroundUrl : jsstring;
  privateFeaturesAllowed : bool;
  themeSettings : AppSettings.ThemeSettings;
}.

(** [lastPublicSettings], which starts as [null], to [lastState]. *)
Record memory := mkMemory {
  lastPublicSettings : option (option nat);
  lastThemeSettings : AppSettings.ThemeSettings;
  lastDerived : AppSettings.DerivedAppSettings;
  lastFavoriteIds : option nat;
  lastFavoriteSet : list jsstring;
  lastState : option (nat * AppState);
}.

Section store.
Context `{AppSettings.JsonParse, JsonCodec, CaseMapping} {MeInfo : Type} (logged_in : MeInfo → bool)
  (beijingHour : Z → Z).

Record t := mkStore {
  raw : AppRawState;
  version : nat;
  memo : memory;
  arrays : list json;
  settings : list PublicSettings;
  storage : Storage;
  tabs : list (option jsstring);
  auth : @AuthSession.t MeInfo;
}.

Definition with_raw (r : AppRawState) (s : t) : t :=
  mkStore r (S (version s)) (memo s) (arrays s) (settings s) (storage s) (tabs s) (auth s).
Definition with_memo (m : memory) (s : t) : t :=
  mkStore (raw s) (version s) m (arrays s) (settings s) (storage s) (tabs s) (auth s).
Definition with_storage (st : Storage) (s : t) : t :=
  mkStore (raw s) (version s) (memo s) (arrays s) (settings s) st (tabs s) (auth s).
Definition with_tabs (l : list (option jsstring)) (s : t) : t :=
  mkStore (raw s) (version s) (memo s) (arrays s) (settings s) (storage s) l (auth s).
Definition with_auth (a : AuthSession.t) (s : t) : t :=
  mkStore (raw s) (version s) (memo s) (arrays s) (settings s) (storage s) (tabs s) a.

(** A parsed or built value becomes an object of its own. *)
Definition alloc (v : json) (s : t) : nat * t :=
  (length (arrays s),
   mkStore (raw s) (version s) (memo s) (arrays s ++ [v]) (settings s) (storage s) (tabs s) (auth s)).

Definition array (s : t) (i : nat) : json := default JNull (arrays s !! i).

(** [Object.is] on two favourites values: by content unless they are objects. *)
Definition same_array (s : t) (i j : nat) : bool :=
  bool_decide (i = j) ||
  match array s i with JArr _ | JObj _ => false | v => bool_decide (array s j = v) end.

(** *** Derivation *)

(** [typeof id === 'string' && Boolean(id.trim())], and the insertion order of a set. *)
Definition favorite_set (v : json) : list jsstring :=
  foldl (λ l x, if bool_decide (x ∈ l) then l else l ++ [x]) []
    (omap (λ x, match x with JStr i => if bool_decide (trim i = []) then None else Some i | _ => None end)
       (match v with JArr l => l | _ => [] end)).

Definition public_of (s : t) : option PublicSettings := publicSettings (raw s) ≫= λ i, settings s !! i.

(** The first block of [derive]: [None] when the derivation throws, and then the
    memory already has the new settings. *)
Definition refresh_settings (s : t) : memory * bool :=
  let m := memo s in
  if bool_decide (lastPublicSettings m = Some (publicSettings (raw s))) then (m, true)
  else
    let theme := default [] (AppSettings.normalizeThemeSettings (public_of s ≫= theme_settings)) in
    match AppSettings.deriveAppSettings theme with
    | Some d => (mkMemory (Some (publicSettings (raw s))) theme d (lastFavoriteIds m) (lastFavoriteSet m) (lastState m), true)
    | None => (mkMemory (Some (publicSettings (raw s))) theme (lastDerived m) (lastFavoriteIds m) (lastFavoriteSet m) (lastState m), false)
    end.

Definition refresh_favorites (s : t) (m : memory) : memory :=
  let i := favoriteNodeIds (raw s) in
  if match lastFavoriteIds m with Some j => same_array s i j | None => false end then m
  else mkMemory (lastPublicSettings m) (lastThemeSettings m) (lastDerived m) (Some i)
         (favorite_set (array s i)) (lastState m).

(** The rest of [derive], from the remembered settings and favourites. *)
Definition state_of (r : AppRawState) (public : option PublicSettings) (theme : AppSettings.ThemeSettings)
    (d : AppSettings.DerivedAppSettings) (favorites : list jsstring) : AppState :=
  let managed := match AppSettings.setting "themeMode" theme with
                 | Some v => if AppSettings.isValidManagedThemeMode (Some v) then v else text "beijing"
                 | None => text "beijing"
                 end in
  let hour := beijingHour (beijingTimeTick r) in
  let daytime := bool_decide (7 ≤ hour) && bool_decide (hour < 19) in
  let localMode := if AppSettings.isValidThemeMode (Some (themeMode r)) then themeMode r else text "auto" in
  let dark := if bool_decide (localMode = text "light") then false
              else if bool_decide (localMode = text "dark") then true
              else if bool_decide (managed = text "beijing") then negb daytime
              else bool_decide (managed = text "dark") in
  {| derived := d; a_raw := r; managedThemeMode := managed; isBeijingDaytime := daytime; isDark := dark;
     resolvedThemeMode := if dark then js "dark" else js "light";
     favoriteNodeIdSet := favorites;
     nodeViewMode := if isValidViewMode (storedViewMode r) then storedViewMode r else JStr (AppSettings.defaultViewMode d);
     visitorAuditSupported := match public ≫= visitor_audit_enabled with Some (JBool _) => true | _ => false end;
     visitorAuditEnabled := match public ≫= visitor_audit_enabled with Some (JBool b) => b | _ => false end;
     currentBackgroundUrl := if dark then AppSettings.darkBackgroundUrl d else AppSettings.lightBackgroundUrl d;
     privateFeaturesAllowed := bool_decide (authStatus r = AuthSession.authenticated_);
     themeSettings := theme |}.

(** [lastRaw === state && lastState] *)
Definition remembered (s : t) : option AppState :=
  match lastState (memo s) with
  | Some (v, st) => if bool_decide (v = version s) then Some st else None
  | None => None
  end.

(** [None]: the derivation of the settings throws. *)
Definition derive (s : t) : option AppState * t :=
  match remembered s with
  | Some st => (Some st, s)
  | None =>
      let '(m, ok) := refresh_settings s in
      if ok then
        let m := refresh_favorites s m in
        let st := state_of (raw s) (public_of s) (lastThemeSettings m) (lastDerived m) (lastFavoriteSet m) in
        (Some st, with_memo (mkMemory (lastPublicSettings m) (lastThemeSettings m) (lastDerived m) (lastFavoriteIds m)
                               (lastFavoriteSet m) (Some (version s, st))) s)
      else (None, with_memo m s)
  end.

(** *** Changes *)

Definition set_themeMode (v : json) (r : AppRawState) : AppRawState :=
  mkRaw (loading r) v (lang r) (publicSettings r) (nodeSelectedGroup r) (favoriteNodeIds r) (isLoggedIn r)
    (authStatus r) (connectionError r) (homeAdvancedToolsVisible r) (homeScrollPosition r) (storedViewMode r)
    (beijingTimeTick r).
Definition set_group (v : json) (r : AppRawState) : AppRawState :=
  mkRaw (loading r) (themeMode r) (lang r) (publicSettings r) v (favoriteNodeIds r) (isLoggedIn r)
    (authStatus r) (connectionError r) (homeAdvancedToolsVisible r) (homeScrollPosition r) (storedViewMode r)
    (beijingTimeTick r).
Definition set_favorites (i : nat) (r : AppRawState) : AppRawState :=
  mkRaw (loading r) (themeMode r) (lang r) (publicSettings r) (nodeSelectedGroup r) i (isLoggedIn r)
    (authStatus r) (connectionError r) (homeAdvancedToolsVisible r) (homeScrollPosition r) (storedViewMode r)
    (beijingTimeTick r).
Definition set_viewMode (v : json) (r : AppRawState) : AppRawState :=
  mkRaw (loading r) (themeMode r) (lang r) (publicSettings r) (nodeSelectedGroup r) (favoriteNodeIds r) (isLoggedIn r)
    (authStatus r) (connectionError r) (homeAdvancedToolsVisible r) (homeScrollPosition r) v (beijingTimeTick r).
Definition set_publicSettings (p : option nat) (r : AppRawState) : AppRawState :=
  mkRaw (loading r) (themeMode r) (lang r) p (nodeSelectedGroup r) (favoriteNodeIds r) (isLoggedIn r)
    (authStatus r) (connectionError r) (homeAdvancedToolsVisible r) (homeScrollPosition r) (storedViewMode r)
    (beijingTimeTick r).
Definition set_auth (loggedIn : bool) (st : AuthSession.AuthStatus) (r : AppRawState) : AppRawState :=
  mkRaw (loading r) (themeMode r) (lang r) (publicSettings r) (nodeSelectedGroup r) (favoriteNodeIds r) loggedIn
    st (connectionError r) (homeAdvancedToolsVisible r) (homeScrollPosition r) (storedViewMode r)
    (beijingTimeTick r).
(** The fields that are neither persisted nor derived from elsewhere. *)
Definition set_flags (l e v : option bool) (scroll : option num) (tick : option Z) (r : AppRawState) : AppRawState :=
  mkRaw (default (loading r) l) (themeMode r) (lang r) (publicSettings r) (nodeSelectedGroup r) (favoriteNodeIds r)
    (isLoggedIn r) (authStatus r) (default (connectionError r) e) (default (homeAdvancedToolsVisible r) v)
    (default (homeScrollPosition r) scroll) (storedViewMode r) (default (beijingTimeTick r) tick).

(** No field of the patch differs by [Object.is]. *)
Definition same_raw (s : t) (r next : AppRawState) : bool :=
  bool_decide (set_favorites (favoriteNodeIds r) next = r)
  && same_array s (favoriteNodeIds r) (favoriteNodeIds next).

(** [raw.setState] *)
Definition setState (next : AppRawState) (s : t) : t :=
  if same_raw s (raw s) next then s else with_raw next s.

(** One statement of [persist]. *)
Definition write (changed : bool) (key : jsstring) (v : json) (kind : StorageKind) (st : Storage) : Storage :=
  if changed then writeStored key v kind st else st.

Definition persist (prev next : AppRawState) (s : t) : t :=
  with_storage
    (write (negb (bool_decide (storedViewMode prev = storedViewMode next))) KEY_VIEW_MODE (storedViewMode next) kind_string
    (write (negb (same_array s (favoriteNodeIds prev) (favoriteNodeIds next))) KEY_FAVORITES
       (array s (favoriteNodeIds next)) kind_json
    (write (negb (bool_decide (nodeSelectedGroup prev = nodeSelectedGroup next))) KEY_GROUP (nodeSelectedGroup next) kind_string
    (write (negb (bool_decide (themeMode prev = themeMode next))) KEY_THEME_MODE (themeMode next) kind_string
       (storage s))))) s.

Definition setRaw (f : AppRawState → AppRawState) (s : t) : t :=
  let s' := setState (f (raw s)) s in
  if bool_decide (version s' = version s) then s' else persist (raw s) (raw s') s'.

(** The flag is false when the derivation throws. *)
Definition normalise (s : t) : bool * t :=
  let s' := if AppSettings.isValidThemeMode (Some (themeMode (raw s))) then s
            else setRaw (set_themeMode (text "auto")) s in
  if bool_decide (is_Some (publicSettings (raw s))) && negb (isValidViewMode (storedViewMode (raw s))) then
    match derive s' with
    | (Some st, s'') => (true, setRaw (set_viewMode (JStr (AppSettings.defaultViewMode (derived st)))) s'')
    | (None, s'') => (false, s'')
    end
  else (true, s').

Definition syncAuthState (s : t) : t :=
  let current := AuthSession.authSession (auth s) in
  setRaw (set_auth (AuthSession.authenticated current) (AuthSession.status current)) s.

(** *** Methods *)

Definition getState (s : t) : option AppState * t := derive s.

Definition setPublicSettings (p : option PublicSettings) (s : t) : bool * t :=
  match p with
  | Some p =>
      let i := length (settings s) in
      let s := mkStore (raw s) (version s) (memo s) (arrays s) (settings s ++ [p]) (storage s) (tabs s) (auth s) in
      normalise (setRaw (set_publicSettings (Some i)) s)
  | None => normalise (setRaw (set_publicSettings None) s)
  end.

Definition isFavoriteNode (uuid : jsstring) (s : t) : option bool * t :=
  let '(st, s) := derive s in ((λ st, bool_decide (uuid ∈ favoriteNodeIdSet st)) <$> st, s).

Definition toggled (uuid : jsstring) (l : list jsstring) : list jsstring :=
  if bool_decide (uuid ∈ l) then bfilter (λ i, negb (bool_decide (i = uuid))) l else l ++ [uuid].

Definition toggleFavoriteNode (uuid : jsstring) (s : t) : t :=
  let normalized := trim uuid in
  if bool_decide (normalized = []) then s
  else match derive s with
       | (Some st, s) =>
           let '(i, s) := alloc (JArr (JStr <$> toggled normalized (favoriteNodeIdSet st))) s in
           setRaw (set_favorites i) s
       | (None, s) => s
       end.

(** [nextMode] *)
Definition next_mode (v : json) : json :=
  if bool_decide (v = text "auto") then text "light" else if bool_decide (v = text "light") then text "dark" else text "auto".

Definition updateThemeMode (mode : option jsstring) (s : t) : t :=
  match mode with
  | Some ((_ :: _) as m) =>
      setRaw (set_themeMode (if AppSettings.isValidThemeMode (Some (JStr m)) then JStr m else text "auto")) s
  | _ =>
      let current := themeMode (raw s) in
      setRaw (set_themeMode (next_mode (if AppSettings.isValidThemeMode (Some current) then current else text "auto"))) s
  end.

Definition updateLoginState (loggedIn : bool) (u : option MeInfo) (now : Z) (s : t) : t :=
  syncAuthState (with_auth (AuthSession.setAuthSessionFromLogin loggedIn u now (auth s)) s).

(** *** Other tabs

    Another tab writes, removes or clears; the [storage] event, with the key or
    [null], is delivered later. *)

Definition other_tab (k : jsstring) (v : option jsstring) (s : t) : t :=
  let st := storage s in
  with_tabs (tabs s ++ [Some k])
    (with_storage (mkStorage (blocked st) (full st)
       (match v with Some v => jm_set k v (items st) | None => jm_delete k (items st) end)) s).

Definition other_clear (s : t) : t :=
  with_tabs (tabs s ++ [None]) (with_storage (mkStorage (blocked (storage s)) (full (storage s)) []) s).

(** The fallback of the favourites' handler is one object, made when the page starts. *)
Definition handler_fallback : nat := 1.

(** The callback of [onStoredChange] for a text. *)
Definition on_text (key : jsstring) (fallback : json) (set : json → AppRawState → AppRawState) (s : t) : t :=
  let '(v, st) := readStored key fallback kind_string (storage s) in
  let s := with_storage st s in
  setState (set (default fallback v) (raw s)) s.

Definition on_favorites (s : t) : t :=
  let '(v, st) := readStored KEY_FAVORITES (JArr []) kind_json (storage s) in
  let s := with_storage st s in
  let '(i, s) := match v with Some v => alloc v s | None => (handler_fallback, s) end in
  setState (set_favorites i (raw s)) s.

(** The four listeners, in the order of their registration. *)
Definition dispatch (key : option jsstring) (s : t) : t :=
  let on k (f : t → t) s := if match key with Some k' => bool_decide (k' = k) | None => true end then f s else s in
  on KEY_VIEW_MODE (on_text KEY_VIEW_MODE JNull set_viewMode)
    (on KEY_FAVORITES on_favorites
      (on KEY_GROUP (on_text KEY_GROUP (text "all") set_group)
        (on KEY_THEME_MODE (on_text KEY_THEME_MODE (text "auto") set_themeMode) s))).

Definition deliver (s : t) : t :=
  match tabs s with
  | k :: l => dispatch k (with_tabs l s)
  | [] => s
  end.

(** *** The page starts *)

Definition no_memory (d : AppSettings.DerivedAppSettings) : memory := mkMemory None [] d None [] None.

(** [None]: the settings of an empty object cannot be derived. *)
Definition boot (language : jsstring) (st : Storage) (a : @AuthSession.t MeInfo) (now : Z) : option t :=
  d ← AppSettings.deriveAppSettings [];
  let '(mode, st) := readStored KEY_THEME_MODE (text "auto") kind_string st in
  let '(group, st) := readStored KEY_GROUP (text "all") kind_string st in
  let '(favorites, st) := readStored KEY_FAVORITES (JArr []) kind_json st in
  let '(view, st) := readStored KEY_VIEW_MODE JNull kind_string st in
  let session := AuthSession.authSession a in
  Some (normalise (mkStore
    (mkRaw true (default (text "auto") mode) language None (default (text "all") group) 0
       (AuthSession.authenticated session) (AuthSession.status session) false false (num_of_Z 0)
       (default JNull view) now)
    0 (no_memory d) [default (JArr []) favorites; JArr []] [] st [] a)).2.

(** *** Runs *)

Inductive event :=
  | SetLoading (b : bool)
  | SetPublicSettings (p : option PublicSettings)
  | SetConnectionError (b : bool)
  | SetNodeSelectedGroup (g : jsstring)
  | SetNodeViewMode (m : jsstring)
  | SetHomeScrollPosition (x : num)
  | SetHomeAdvancedToolsVisible (b : bool)
  | ToggleFavoriteNode (uuid : jsstring)
  | UpdateThemeMode (mode : option jsstring)
  | UpdateLoginState (loggedIn : bool) (u : option MeInfo) (now : Z)
  | Auth (e : @AuthSession.event MeInfo)
  | Synced
  | Tick (now : Z)
  | Read
  | OtherTab (k : jsstring) (v : option jsstring)
  | OtherClear
  | Deliver.

(** [Synced]: [verifyLoginState] or [requireLoginPermission] after its [await]. *)
Definition step (e : event) (s : t) : t :=
  match e with
  | SetLoading b => setRaw (set_flags (Some b) None None None None) s
  | SetPublicSettings p => (setPublicSettings p s).2
  | SetConnectionError b => setRaw (set_flags None (Some b) None None None) s
  | SetNodeSelectedGroup g => setRaw (set_group (JStr g)) s
  | SetNodeViewMode m => setRaw (set_viewMode (JStr m)) s
  | SetHomeScrollPosition x => setRaw (set_flags None None None (Some x) None) s
  | SetHomeAdvancedToolsVisible b => setRaw (set_flags None None (Some b) None None) s
  | ToggleFavoriteNode u => toggleFavoriteNode u s
  | UpdateThemeMode m => updateThemeMode m s
  | UpdateLoginState b u now => updateLoginState b u now s
  | Auth e => with_auth (AuthSession.step logged_in e (auth s)) s
  | Synced => syncAuthState s
  | Tick now => setState (set_flags None None None None (Some now) (raw s)) s
  | Read => (getState s).2
  | OtherTab k v => other_tab k v s
  | OtherClear => other_clear s
  | Deliver => deliver s
  end.

(** ** The storage follows the state *)

Inductive slot := slot_theme | slot_group | slot_favorites | slot_view.

#[local] Instance slot_eq_dec : EqDecision slot.
Proof using. solve_decision. Defined.

Definition key_of (sl : slot) : jsstring :=
  match sl with
  | slot_theme => KEY_THEME_MODE | slot_group => KEY_GROUP
  | slot_favorites => KEY_FAVORITES | slot_view => KEY_VIEW_MODE
  end.

Definition kind_of (sl : slot) : StorageKind := match sl with slot_favorites => kind_json | _ => kind_string end.

Definition fallback_of (sl : slot) : json :=
  match sl with
  | slot_theme => text "auto" | slot_group => text "all" | slot_favorites => JArr [] | slot_view => JNull
  end.

(** What the state holds, and what a page that starts now reads. *)
Definition value_in (sl : slot) (s : t) (r : AppRawState) : json :=
  match sl with
  | slot_theme => themeMode r
  | slot_group => nodeSelectedGroup r
  | slot_favorites => array s (favoriteNodeIds r)
  | slot_view => storedViewMode r
  end.

Definition state_value (sl : slot) (s : t) : json := value_in sl s (raw s).

Definition stored_value (sl : slot) (st : Storage) : json :=
  default (fallback_of sl) (readStored (key_of sl) (fallback_of sl) (kind_of sl) st).1.

Definition writable (st : Storage) : Prop := blocked st = false ∧ full st = false.

(** The values that the store itself writes. *)
Definition storable (sl : slot) (v : json) : Prop :=
  match sl with
  | slot_theme | slot_group => ∃ x, v = JStr x
  | slot_favorites => ∃ l, v = JArr (JStr <$> l)
  | slot_view => v = JNull ∨ ∃ x, v = JStr x
  end.

Lemma key_of_inj sl sl' : key_of sl = key_of sl' → sl = sl'.
Proof using. destruct sl, sl'; try reflexivity; intros E; vm_compute in E; discriminate. Qed.

(** Conversion compares the names of the keys, not their texts. *)
#[local] Strategy opaque [KEY_THEME_MODE KEY_GROUP KEY_FAVORITES KEY_VIEW_MODE js].

Lemma plain_texts l : plain (JArr (JStr <$> l)) = true.
Proof using. cbn [plain]. apply every_true. intros x Hx. apply list_elem_of_fmap in Hx as (? & -> & _). reflexivity. Qed.

Lemma stored_write sl v st sl' :
  writable st → storable sl v →
  writable (writeStored (key_of sl) v (kind_of sl) st) ∧
  stored_value sl' (writeStored (key_of sl) v (kind_of sl) st) = if bool_decide (sl = sl') then v else stored_value sl' st.
Proof using.
  intros [Hb Hf] Hv. unfold stored_value, readStored, getLocalStorageItem.
  assert (∃ m, writeStored (key_of sl) v (kind_of sl) st = mkStorage (blocked st) (full st) m ∧
    (sl ≠ sl' → jm_get (key_of sl') m = jm_get (key_of sl') (items st)) ∧
    jm_get (key_of sl) m = match v with JNull => None | _ => Some (match kind_of sl with kind_json => JSON_stringify v | kind_string => json_string v end) end)
    as (m & -> & Hm & Hk).
  { unfold writeStored, setLocalStorageItem, removeLocalStorageItem. rewrite Hb, Hf. cbn [orb].
    assert (sl ≠ sl' → key_of sl' ≠ key_of sl) as Hne by (intros Hne E; by apply key_of_inj in E).
    destruct v; eexists; (split; [reflexivity|split]);
      rewrite ?jm_get_set_eq, ?jm_get_delete_eq; try done; intros; by rewrite ?jm_get_set_ne, ?jm_get_delete_ne by auto. }
  split; [done|]. cbn [blocked full items]. rewrite Hb. case_bool_decide as Hs.
  - subst sl'. rewrite Hk. destruct sl; cbn [storable] in Hv; cbn [kind_of].
    + destruct Hv as [x ->]. reflexivity.
    + destruct Hv as [x ->]. reflexivity.
    + destruct Hv as [l ->]. cbn [fst]. rewrite JSON_read_stringify by apply plain_texts. reflexivity.
    + destruct Hv as [->|[x ->]]; reflexivity.
  - rewrite Hm by done. destruct (jm_get (key_of sl') (items st)); reflexivity.
Qed.

Lemma write_if (b : bool) key v kind sl st sl' :
  key = key_of sl → kind = kind_of sl → writable st → (b = true → storable sl v) →
  writable (write b key v kind st) ∧
  stored_value sl' (write b key v kind st) = if b && bool_decide (sl = sl') then v else stored_value sl' st.
Proof using. intros -> -> Hw Hv. destruct b; [by apply stored_write; auto|done]. Qed.

Lemma same_array_value s i j : same_array s i j = true → array s i = array s j.
Proof using.
  unfold same_array. intros [->%bool_decide_eq_true|Hc]%orb_true_iff; [done|].
  destruct (array s i); try done; by apply bool_decide_eq_true in Hc.
Qed.

Definition unchanged (sl : slot) (s : t) (prev next : AppRawState) : bool :=
  match sl with
  | slot_theme => bool_decide (themeMode prev = themeMode next)
  | slot_group => bool_decide (nodeSelectedGroup prev = nodeSelectedGroup next)
  | slot_favorites => same_array s (favoriteNodeIds prev) (favoriteNodeIds next)
  | slot_view => bool_decide (storedViewMode prev = storedViewMode next)
  end.

Lemma unchanged_value sl s prev next : unchanged sl s prev next = true → value_in sl s prev = value_in sl s next.
Proof using. destruct sl; cbn [unchanged value_in]; try apply bool_decide_eq_true; apply same_array_value. Qed.

Lemma persist_stored prev next s sl :
  writable (storage s) → (∀ sl, unchanged sl s prev next = false → storable sl (value_in sl s next)) →
  writable (storage (persist prev next s)) ∧
  stored_value sl (storage (persist prev next s))
  = if unchanged sl s prev next then stored_value sl (storage s) else value_in sl s next.
Proof using.
  intros Hw Hv. unfold persist. cbn [storage with_storage].
  assert (∀ sl, negb (unchanged sl s prev next) = true → storable sl (value_in sl s next)) as Hc.
  { intros sl' ?%negb_true_iff. by apply Hv. }
  assert (∀ sl b, negb (unchanged sl s prev next) = b → b = true → storable sl (value_in sl s next)) as Hb.
  { intros sl' b <-. apply Hc. }
  set (b1 := negb (bool_decide (themeMode prev = themeMode next))).
  set (b2 := negb (bool_decide (nodeSelectedGroup prev = nodeSelectedGroup next))).
  set (b3 := negb (same_array s (favoriteNodeIds prev) (favoriteNodeIds next))).
  set (b4 := negb (bool_decide (storedViewMode prev = storedViewMode next))).
  destruct (write_if b1 KEY_THEME_MODE (themeMode next) kind_string slot_theme (storage s) sl eq_refl eq_refl Hw
              (Hb slot_theme b1 eq_refl)) as [W1 E1].
  revert W1 E1. generalize (write b1 KEY_THEME_MODE (themeMode next) kind_string (storage s)). intros st1 W1 E1.
  destruct (write_if b2 KEY_GROUP (nodeSelectedGroup next) kind_string slot_group st1 sl eq_refl eq_refl W1
              (Hb slot_group b2 eq_refl)) as [W2 E2].
  revert W2 E2. generalize (write b2 KEY_GROUP (nodeSelectedGroup next) kind_string st1). intros st2 W2 E2.
  destruct (write_if b3 KEY_FAVORITES (array s (favoriteNodeIds next)) kind_json slot_favorites st2 sl eq_refl eq_refl W2
              (Hb slot_favorites b3 eq_refl)) as [W3 E3].
  revert W3 E3. generalize (write b3 KEY_FAVORITES (array s (favoriteNodeIds next)) kind_json st2). intros st3 W3 E3.
  destruct (write_if b4 KEY_VIEW_MODE (storedViewMode next) kind_string slot_view st3 sl eq_refl eq_refl W3
              (Hb slot_view b4 eq_refl)) as [W4 E4].
  split; [done|]. rewrite E4, E3, E2, E1. subst b1 b2 b3 b4. unfold unchanged, value_in.
  clear. destruct sl; repeat case_bool_decide; try destruct (same_array _ _ _); cbn; try done.
Qed.

(** A [storage] event for the key is still to be delivered. *)
Definition awaited (k : jsstring) (l : list (option jsstring)) : Prop := None ∈ l ∨ Some k ∈ l.

Record store_ok (s : t) : Prop := {
  o_writable : writable (storage s);
  o_texts : ∀ sl, sl ≠ slot_favorites → storable sl (state_value sl s);
  o_index : (favoriteNodeIds (raw s) < length (arrays s))%nat;
  o_fallback : arrays s !! handler_fallback = Some (JArr []);
  o_synced : ∀ sl, ¬ awaited (key_of sl) (tabs s) → state_value sl s = stored_value sl (storage s);
}.

(** What a change of the raw state must respect. *)
Record good_next (s : t) (next : AppRawState) : Prop := {
  g_texts : ∀ sl, sl ≠ slot_favorites → storable sl (value_in sl s next);
  g_index : (favoriteNodeIds next < length (arrays s))%nat;
  g_favorites : favoriteNodeIds next ≠ favoriteNodeIds (raw s) → storable slot_favorites (value_in slot_favorites s next);
}.

Lemma texts_intro (P : slot → Prop) :
  P slot_theme → P slot_group → P slot_view → ∀ sl, sl ≠ slot_favorites → P sl.
Proof using. by intros ??? []. Qed.

Lemma good_same s next :
  store_ok s → themeMode next = themeMode (raw s) → nodeSelectedGroup next = nodeSelectedGroup (raw s) →
  favoriteNodeIds next = favoriteNodeIds (raw s) → storedViewMode next = storedViewMode (raw s) → good_next s next.
Proof using.
  intros Hok E1 E2 E3 E4. split.
  - apply texts_intro; cbn [value_in]; rewrite ?E1, ?E2, ?E4;
      [apply (o_texts s Hok slot_theme)|apply (o_texts s Hok slot_group)|apply (o_texts s Hok slot_view)]; done.
  - rewrite E3. apply Hok.
  - done.
Qed.

Lemma setRaw_ok f s : store_ok s → good_next s (f (raw s)) → store_ok (setRaw f s).
Proof using.
  intros Hok Hg. unfold setRaw, setState. cbn zeta. destruct (same_raw s (raw s) (f (raw s))) eqn:Hsame.
  { by rewrite bool_decide_eq_true_2. }
  rewrite bool_decide_eq_false_2 by (cbn; lia).
  set (next := f (raw s)) in *. set (s1 := with_raw next s).
  assert (∀ sl, unchanged sl s1 (raw s) next = false → storable sl (value_in sl s1 next)) as Hst.
  { intros [] Hu; try (by apply (g_texts s next Hg)). apply (g_favorites s next Hg). intros E. revert Hu.
    cbn [unchanged]. rewrite E. unfold same_array. by rewrite bool_decide_eq_true_2. }
  pose proof (λ sl, persist_stored (raw s) next s1 sl (o_writable s Hok) Hst) as Hp.
  split.
  - apply (Hp slot_theme).
  - intros sl Hne. by apply (g_texts s next Hg).
  - apply Hg.
  - apply Hok.
  - intros sl Ha. destruct (Hp sl) as [_ E]. change (state_value sl _) with (value_in sl s1 next).
    etrans; [|symmetry; exact E]. destruct (unchanged sl s1 (raw s) next) eqn:Hu; [|done].
    rewrite <-(unchanged_value _ _ _ _ Hu). by apply Hok.
Qed.

Lemma with_memo_ok m s : store_ok s → store_ok (with_memo m s).
Proof using. intros [A B C D E]. by split. Qed.

Lemma derive_raw s : raw (derive s).2 = raw s ∧ arrays (derive s).2 = arrays s ∧ settings (derive s).2 = settings s.
Proof using.
  unfold derive. destruct (remembered s); [done|]. destruct (refresh_settings s) as [m []]; done.
Qed.

Lemma derive_ok s : store_ok s → store_ok (derive s).2.
Proof using.
  intros Hok. unfold derive. destruct (remembered s); [done|].
  destruct (refresh_settings s) as [m []]; cbn [snd]; by apply with_memo_ok.
Qed.

Lemma set_themeMode_ok v s : store_ok s → (∃ x, v = JStr x) → store_ok (setRaw (set_themeMode v) s).
Proof using.
  intros Hok Hv. apply setRaw_ok; [done|]. split; [|apply Hok|done].
  apply texts_intro; [exact Hv|by apply (o_texts s Hok slot_group)|by apply (o_texts s Hok slot_view)].
Qed.

Lemma set_viewMode_ok v s : store_ok s → (v = JNull ∨ ∃ x, v = JStr x) → store_ok (setRaw (set_viewMode v) s).
Proof using.
  intros Hok Hv. apply setRaw_ok; [done|]. split; [|apply Hok|done].
  apply texts_intro; [by apply (o_texts s Hok slot_theme)|by apply (o_texts s Hok slot_group)|exact Hv].
Qed.

Lemma set_group_ok x s : store_ok s → store_ok (setRaw (set_group (JStr x)) s).
Proof using.
  intros Hok. apply setRaw_ok; [done|]. split; [|apply Hok|done].
  apply texts_intro; [by apply (o_texts s Hok slot_theme)|by eexists|by apply (o_texts s Hok slot_view)].
Qed.

Lemma normalise_ok s : store_ok s → store_ok (normalise s).2.
Proof using.
  intros Hok. unfold normalise. cbn zeta.
  set (s1 := if AppSettings.isValidThemeMode _ then s else _).
  assert (store_ok s1) as Hs1.
  { subst s1. case_match; [done|]. apply set_themeMode_ok; [done|by eexists]. }
  case_match; [|done]. pose proof (derive_ok s1 Hs1) as Hs2. destruct (derive s1) as [[st|] s2]; [|done].
  apply set_viewMode_ok; [done|by right; eexists].
Qed.

Lemma setPublicSettings_ok p s : store_ok s → store_ok (setPublicSettings p s).2.
Proof using.
  intros Hok. unfold setPublicSettings. destruct p as [p|]; apply normalise_ok, setRaw_ok.
  - destruct Hok. by split.
  - apply good_same; try done. destruct Hok. by split.
  - done.
  - by apply good_same.
Qed.

Lemma alloc_ok v s : store_ok s → store_ok (alloc v s).2.
Proof using.
  intros [A B C D E]. 
  assert (∀ i, (i < length (arrays s))%nat → array (alloc v s).2 i = array s i) as Ha.
  { intros i Hi. unfold array. cbn. by rewrite lookup_app_l. }
  split; [done| | | |].
  - apply texts_intro; [by apply (B slot_theme)|by apply (B slot_group)|by apply (B slot_view)].
  - cbn. rewrite length_app. cbn. lia.
  - cbn. by rewrite lookup_app_l by (eapply lookup_lt_Some; exact D).
  - intros [] Hw; try (by apply (E slot_theme) || by apply (E slot_group) || by apply (E slot_view)).
    etrans; [|by apply (E slot_favorites)]. apply Ha, C.
Qed.

Lemma toggle_ok u s : store_ok s → store_ok (toggleFavoriteNode u s).
Proof using.
  intros Hok. unfold toggleFavoriteNode. cbn zeta. case_bool_decide; [done|].
  pose proof (derive_ok s Hok) as Hd. destruct (derive s) as [[st|] s1]; [|done]. cbn [snd] in Hd.
  pose proof (alloc_ok (JArr (JStr <$> toggled (trim u) (favoriteNodeIdSet st))) s1 Hd) as Hr.
  unfold alloc in *. cbn [fst snd] in *. apply setRaw_ok; [done|]. split.
  - apply texts_intro; [by apply (o_texts _ Hr slot_theme)|by apply (o_texts _ Hr slot_group)|by apply (o_texts _ Hr slot_view)].
  - cbn. rewrite length_app. cbn. lia.
  - intros _. eexists. cbn [value_in set_favorites favoriteNodeIds]. unfold array. cbn [arrays].
    by rewrite lookup_app_r, Nat.sub_diag by done.
Qed.

(** *** Delivery *)

Lemma storable_fallback sl : storable sl (fallback_of sl).
Proof using. destruct sl; cbn [storable fallback_of]; [by eexists|by eexists|by exists []|by left]. Qed.

(** Writing a default does not change what a page would read. *)
Lemma read_stored sl st :
  writable st →
  writable (readStored (key_of sl) (fallback_of sl) (kind_of sl) st).2 ∧
  ∀ sl', stored_value sl' (readStored (key_of sl) (fallback_of sl) (kind_of sl) st).2 = stored_value sl' st.
Proof using.
  intros Hw. unfold readStored. destruct (getLocalStorageItem (key_of sl) st) eqn:Hg; [done|].
  pose proof (λ sl', stored_write sl (fallback_of sl) st sl' Hw (storable_fallback sl)) as Hs.
  assert (stored_value sl st = fallback_of sl) as Hv by (unfold stored_value, readStored; by rewrite Hg).
  assert (∀ sl', (if bool_decide (sl = sl') then fallback_of sl else stored_value sl' st) = stored_value sl' st) as He.
  { intros sl'. case_bool_decide; by subst. }
  destruct (fallback_of sl); cbn [snd]; try done;
    (split; [apply (Hs sl)|intros sl'; etrans; [apply (Hs sl')|apply He]]).
Qed.

(** The state agrees with the storage on the slots of [P]. *)
Record ok_for (P : slot → Prop) (s : t) : Prop := {
  p_writable : writable (storage s);
  p_texts : ∀ sl, sl ≠ slot_favorites → storable sl (state_value sl s);
  p_index : (favoriteNodeIds (raw s) < length (arrays s))%nat;
  p_fallback : arrays s !! handler_fallback = Some (JArr []);
  p_synced : ∀ sl, P sl → state_value sl s = stored_value sl (storage s);
}.

Lemma ok_for_all s : ok_for (λ sl, ¬ awaited (key_of sl) (tabs s)) s → store_ok s.
Proof using. intros []. by split. Qed.

Lemma ok_for_weaken (P Q : slot → Prop) s : (∀ sl, Q sl → P sl) → ok_for P s → ok_for Q s.
Proof using. intros HPQ []. split; auto. Qed.

(** A handler sets its slot to what the storage holds. *)
Lemma setState_slot P sl next s s0 :
  ok_for P s0 → raw s = raw s0 → arrays s0 `prefix_of` arrays s → writable (storage s) →
  (∀ sl', stored_value sl' (storage s) = stored_value sl' (storage s0)) →
  (∀ sl', sl' ≠ sl → value_in sl' s next = value_in sl' s (raw s)) →
  (sl = slot_favorites → (favoriteNodeIds next < length (arrays s))%nat) →
  (sl ≠ slot_favorites → favoriteNodeIds next = favoriteNodeIds (raw s)) →
  (sl ≠ slot_favorites → storable sl (value_in sl s next)) →
  value_in sl s next = stored_value sl (storage s) →
  ok_for (λ sl', sl' = sl ∨ P sl') (setState next s).
Proof using.
  intros [Hw Ht Hi Hf Hs] Hr [l Ha] Hw' Hst Hother Hidx Hsame Htext Hval.
  assert (∀ i, (i < length (arrays s0))%nat → array s i = array s0 i) as Harr.
  { intros i Hlt. unfold array. by rewrite Ha, lookup_app_l. }
  assert (∀ sl', value_in sl' s (raw s) = value_in sl' s0 (raw s0)) as Hold.
  { intros []; cbn [value_in]; rewrite Hr; try done. by apply Harr. }
  assert (∀ sl', value_in sl' s next = if bool_decide (sl' = sl) then stored_value sl (storage s0) else state_value sl' s0) as Hnew.
  { intros sl'. case_bool_decide; [subst; by rewrite Hval|]. by rewrite Hother, Hold. }
  assert (∀ sl', sl' = sl ∨ P sl' → value_in sl' s next = stored_value sl' (storage s)) as Hfin.
  { intros sl' HP. rewrite Hnew, Hst. case_bool_decide; [by subst|]. destruct HP as [->|HP]; [done|by apply Hs]. }
  assert (∀ sl', sl' ≠ slot_favorites → storable sl' (value_in sl' s next)) as Hstor.
  { intros sl' Hne. destruct (decide (sl' = sl)) as [->|Hn]; [by apply Htext|]. rewrite Hother, Hold by done. by apply Ht. }
  assert (arrays s !! handler_fallback = Some (JArr [])) as Hfb.
  { rewrite Ha. by apply lookup_app_l_Some. }
  unfold setState. destruct (same_raw s (raw s) next) eqn:Hsm.
  - unfold same_raw in Hsm. apply andb_true_iff in Hsm as [He%bool_decide_eq_true Hsa%same_array_value].
    assert (∀ sl', value_in sl' s next = value_in sl' s (raw s)) as Heq.
    { intros []; cbn [value_in]; [by rewrite <-He|by rewrite <-He|done|by rewrite <-He]. }
    split; [done| | |done|].
    + intros sl' Hne. change (state_value sl' s) with (value_in sl' s (raw s)). rewrite <-Heq. by apply Hstor.
    + rewrite Hr, Ha, length_app. lia.
    + intros sl' HP. change (state_value sl' s) with (value_in sl' s (raw s)). rewrite <-Heq. by apply Hfin.
  - split; [done|exact Hstor| |done|exact Hfin].
    destruct (decide (sl = slot_favorites)) as [Hsl|Hsl]; [by apply Hidx|]. cbn. rewrite Hsame, Hr, Ha, length_app by done. lia.
Qed.

Definition setter_of (sl : slot) : json → AppRawState → AppRawState :=
  match sl with slot_theme => set_themeMode | slot_group => set_group | _ => set_viewMode end.

Lemma on_text_ok P sl s :
  sl ≠ slot_favorites → ok_for P s →
  ok_for (λ sl', sl' = sl ∨ P sl') (on_text (key_of sl) (fallback_of sl) (setter_of sl) s).
Proof using.
  intros Hne Hok. destruct (read_stored sl (storage s) (p_writable P s Hok)) as [Hw Hs]. unfold on_text.
  assert (kind_of sl = kind_string) as Hk by by destruct sl.
  pose proof (eq_refl (stored_value sl (storage s))) as Hv. unfold stored_value at 1 in Hv. rewrite Hk in Hw, Hs, Hv.
  assert (storable sl (stored_value sl (storage s))) as Hst.
  { rewrite <-Hv. unfold readStored. destruct (getLocalStorageItem _ _); cbn [fst default]; [|apply storable_fallback].
    destruct sl; try done; cbn [storable]; eauto. }
  destruct (readStored (key_of sl) (fallback_of sl) kind_string (storage s)) as [v st]. cbn [fst snd] in *.
  apply (setState_slot P sl _ _ s Hok); try done.
  - intros [] ?; destruct sl; done.
  - intros _. destruct sl; done.
  - intros _. rewrite Hv. destruct sl; done.
  - etrans; [|symmetry; apply Hs]. rewrite <-Hv. destruct sl; done.
Qed.

Lemma on_favorites_ok P s : ok_for P s → ok_for (λ sl', sl' = slot_favorites ∨ P sl') (on_favorites s).
Proof using.
  intros Hok. destruct (read_stored slot_favorites (storage s) (p_writable P s Hok)) as [Hw Hs]. unfold on_favorites.
  pose proof (eq_refl (stored_value slot_favorites (storage s))) as Hv. unfold stored_value at 1 in Hv.
  cbn [key_of fallback_of kind_of] in Hw, Hs, Hv.
  destruct (readStored KEY_FAVORITES (JArr []) kind_json (storage s)) as [[v|] st]; cbn [fst snd alloc default] in *.
  - apply (setState_slot P slot_favorites _ _ s Hok); try done.
    + cbn. by apply prefix_app_r.
    + intros [] ?; done.
    + intros _. cbn. rewrite length_app. cbn. lia.
    + etrans; [|symmetry; apply Hs]. rewrite <-Hv. cbn [value_in set_favorites favoriteNodeIds]. unfold array. cbn [arrays with_storage].
      by rewrite lookup_app_r, Nat.sub_diag by done.
  - apply (setState_slot P slot_favorites _ _ s Hok); try done.
    + intros [] ?; done.
    + intros _. cbn [favoriteNodeIds set_favorites with_storage arrays]. eapply lookup_lt_Some. apply Hok.
    + etrans; [|symmetry; apply Hs]. rewrite <-Hv. cbn [value_in set_favorites favoriteNodeIds]. unfold array. cbn [arrays with_storage].
      by rewrite (p_fallback P s Hok).
Qed.

Lemma ok_for_if (b : bool) P sl f s :
  ok_for P s → (ok_for P s → ok_for (λ sl', sl' = sl ∨ P sl') (f s)) →
  ok_for (λ sl', (b = true ∧ sl' = sl) ∨ P sl') (if b then f s else s).
Proof using.
  intros Hok Hf. destruct b.
  - eapply ok_for_weaken; [|by apply Hf]. cbn. naive_solver.
  - eapply ok_for_weaken; [|done]. cbn. naive_solver.
Qed.

Lemma setState_tabs next s : tabs (setState next s) = tabs s.
Proof using. unfold setState. by destruct (same_raw _ _ _). Qed.

Lemma on_text_tabs k fb f s : tabs (on_text k fb f s) = tabs s.
Proof using. unfold on_text. destruct (readStored _ _ _ _). by rewrite setState_tabs. Qed.

Lemma on_favorites_tabs s : tabs (on_favorites s) = tabs s.
Proof using. unfold on_favorites. destruct (readStored _ _ _ _) as [[v|] st]; exact (setState_tabs _ _). Qed.

Definition matches (key : option jsstring) (sl : slot) : bool :=
  match key with Some k => bool_decide (k = key_of sl) | None => true end.

Lemma dispatch_ok P key s :
  ok_for P s → ok_for (λ sl, matches key sl = true ∨ P sl) (dispatch key s) ∧ tabs (dispatch key s) = tabs s.
Proof using.
  intros Hok. unfold dispatch. cbn zeta. split.
  - eapply ok_for_weaken;
      [|eapply ok_for_if; [|intros Hp; exact (on_text_ok _ slot_view _ ltac:(done) Hp)];
        eapply ok_for_if; [|intros Hp; exact (on_favorites_ok _ _ Hp)];
        eapply ok_for_if; [|intros Hp; exact (on_text_ok _ slot_group _ ltac:(done) Hp)];
        eapply ok_for_if; [exact Hok|intros Hp; exact (on_text_ok _ slot_theme _ ltac:(done) Hp)]].
    intros sl [Hm|Hp]; [|auto 10]. destruct sl; auto 10.
  - repeat match goal with
    | |- tabs (if ?b then _ else _) = _ => destruct b
    | |- tabs (on_text _ _ _ _) = _ => rewrite on_text_tabs
    | |- tabs (on_favorites _) = _ => rewrite on_favorites_tabs
    end; reflexivity.
Qed.

Lemma deliver_ok s : store_ok s → store_ok (deliver s).
Proof using.
  intros [A B C D E]. unfold deliver. destruct (tabs s) as [|k l] eqn:Ht; [by split; rewrite ?Ht|].
  assert (ok_for (λ sl, matches k sl = false ∧ ¬ awaited (key_of sl) l) (with_tabs l s)) as Hok.
  { split; try done. intros sl [Hm Ha]. apply E. unfold awaited. rewrite !elem_of_cons.
    intros [[<-|?]|[<-|?]]; try (apply Ha; unfold awaited; tauto); cbn in Hm; [done|].
    by rewrite bool_decide_eq_true_2 in Hm. }
  destruct (dispatch_ok _ k _ Hok) as [Hd Htabs]. apply ok_for_all. rewrite Htabs.
  eapply ok_for_weaken; [|exact Hd]. cbn [with_tabs tabs]. intros sl Ha. destruct (matches k sl); [by left|by right].
Qed.

Lemma other_ok k st s :
  store_ok s → writable st → (∀ sl, k ≠ None → k ≠ Some (key_of sl) → stored_value sl st = stored_value sl (storage s)) →
  store_ok (with_tabs (tabs s ++ [k]) (with_storage st s)).
Proof using.
  intros [A B C D E] Hw Hs. split; try done. cbn [tabs with_tabs storage with_storage].
  intros sl Ha. unfold awaited in Ha. rewrite !elem_of_app, !list_elem_of_singleton in Ha.
  rewrite Hs by (intros ->; tauto). apply E. unfold awaited. tauto.
Qed.

Lemma store_step_ok e s : store_ok s → store_ok (step e s).
Proof using.
  intros Hok. destruct e; cbn [step]; try (apply setRaw_ok; [done|by apply good_same]).
  - by apply setPublicSettings_ok.
  - by apply set_group_ok.
  - apply set_viewMode_ok; [done|eauto].
  - by apply toggle_ok.
  - unfold updateThemeMode. destruct mode as [[|]|]; apply set_themeMode_ok; try done;
      unfold next_mode; repeat case_match; by eexists.
  - unfold updateLoginState, syncAuthState. destruct Hok. apply setRaw_ok; [by split|].
    by apply good_same.
  - destruct Hok. by split.
  - unfold setState. case_match; [done|]. destruct Hok. by split.
  - by apply derive_ok.
  - unfold other_tab. cbn zeta. apply other_ok; [done|apply Hok|].
    intros sl _ Hk. unfold stored_value, readStored, getLocalStorageItem. cbn [blocked full items].
    destruct (o_writable s Hok) as [-> _].
    assert (jm_get (key_of sl) match v with Some v0 => jm_set k v0 (items (storage s)) | None => jm_delete k (items (storage s)) end
            = jm_get (key_of sl) (items (storage s))) as ->; [|by destruct (jm_get _ _)].
    destruct v; [apply jm_get_set_ne|apply jm_get_delete_ne]; congruence.
  - apply other_ok; [done|apply Hok|done].
  - by apply deliver_ok.
Qed.

Lemma empty_settings_derive : is_Some (AppSettings.deriveAppSettings []).
Proof using.
  apply AppSettings.derivation_succeeds.
  - intros k _ x Hx. discriminate Hx.
  - intros k _. by eexists.
Qed.

(** The raw state of a page that starts, before [normalise]. *)
Lemma boot_state language st a now :
  writable st →
  ∃ s0, store_ok s0 ∧ boot language st a now = Some (normalise s0).2 ∧ publicSettings (raw s0) = None ∧
    (∀ sl, state_value sl s0 = stored_value sl st).
Proof using.
  intros Hw. destruct empty_settings_derive as [d Hd]. unfold boot. rewrite Hd. cbn [mbind option_bind].
  destruct (read_stored slot_theme st Hw) as [W1 E1].
  pose proof (eq_refl (stored_value slot_theme st)) as V1. unfold stored_value at 1 in V1.
  cbn [key_of kind_of fallback_of] in W1, E1, V1.
  destruct (readStored KEY_THEME_MODE (text "auto") kind_string st) as [v1 st1] eqn:R1. cbn [fst snd] in *.
  destruct (read_stored slot_group st1 W1) as [W2 E2].
  pose proof (eq_refl (stored_value slot_group st1)) as V2. unfold stored_value at 1 in V2.
  cbn [key_of kind_of fallback_of] in W2, E2, V2.
  destruct (readStored KEY_GROUP (text "all") kind_string st1) as [v2 st2] eqn:R2. cbn [fst snd] in *.
  destruct (read_stored slot_favorites st2 W2) as [W3 E3].
  pose proof (eq_refl (stored_value slot_favorites st2)) as V3. unfold stored_value at 1 in V3.
  cbn [key_of kind_of fallback_of] in W3, E3, V3.
  destruct (readStored KEY_FAVORITES (JArr []) kind_json st2) as [v3 st3] eqn:R3. cbn [fst snd] in *.
  destruct (read_stored slot_view st3 W3) as [W4 E4].
  pose proof (eq_refl (stored_value slot_view st3)) as V4. unfold stored_value at 1 in V4.
  cbn [key_of kind_of fallback_of] in W4, E4, V4.
  destruct (readStored KEY_VIEW_MODE JNull kind_string st3) as [v4 st4] eqn:R4. cbn [fst snd] in *.
  eexists. split; [|split; [reflexivity|split; [reflexivity|]]].
  2: { intros []; cbn [state_value value_in raw themeMode nodeSelectedGroup storedViewMode favoriteNodeIds array];
         [exact V1|by rewrite V2, E1| |by rewrite V4, E3, E2, E1].
       unfold array. cbn [arrays lookup list_lookup default]. by rewrite V3, E2, E1. }
  assert (∀ sl v st', (readStored (key_of sl) (fallback_of sl) kind_string st').1 = v → sl ≠ slot_favorites →
    storable sl (default (fallback_of sl) v)) as Htext.
  { intros sl v st' <- Hne. unfold readStored. destruct (getLocalStorageItem _ _); cbn [fst default]; [|apply storable_fallback].
    destruct sl; try done; cbn [storable]; eauto. }
  split; [done| | |done|].
  - apply texts_intro; cbn [state_value value_in raw themeMode nodeSelectedGroup storedViewMode].
    + by apply (Htext slot_theme v1 st); [cbn [key_of fallback_of]; rewrite R1|].
    + by apply (Htext slot_group v2 st1); [cbn [key_of fallback_of]; rewrite R2|].
    + by apply (Htext slot_view v4 st3); [cbn [key_of fallback_of]; rewrite R4|].
  - cbn. lia.
  - intros sl _. destruct sl; cbn [state_value value_in raw themeMode nodeSelectedGroup storedViewMode favoriteNodeIds storage].
    + by rewrite E4, E3, E2, E1, <-V1.
    + by rewrite E4, E3, E2, <-V2.
    + rewrite E4, E3, <-V3. reflexivity.
    + by rewrite E4, <-V4.
Qed.

Lemma boot_ok language st a now s0 : writable st → boot language st a now = Some s0 → store_ok s0.
Proof using.
  intros Hw Hb. destruct (boot_state language st a now Hw) as (s & Hok & E & _). rewrite Hb in E.
  injection E as ->. by apply normalise_ok.
Qed.

Lemma runs_ok es s : store_ok s → store_ok (runs step es s).
Proof using. apply runs_invariant. intros. by apply store_step_ok. Qed.

(** Without settings, [normalise] only repairs the theme mode. *)
Lemma normalise_values s :
  publicSettings (raw s) = None →
  themeMode (raw (normalise s).2)
    = (if AppSettings.isValidThemeMode (Some (themeMode (raw s))) then themeMode (raw s) else text "auto") ∧
  ∀ sl, sl ≠ slot_theme → state_value sl (normalise s).2 = state_value sl s.
Proof using.
  intros Hn. unfold normalise. cbn zeta. rewrite Hn, bool_decide_eq_false_2 by by intros []. cbn [andb snd].
  case_match eqn:Hv; [done|]. unfold setRaw, setState. cbn zeta. destruct (same_raw s (raw s) _) eqn:Hs.
  - exfalso. unfold same_raw in Hs. apply andb_true_iff in Hs as [Hs%bool_decide_eq_true _].
    assert (themeMode (raw s) = text "auto") as Ht by (rewrite <-Hs; reflexivity). rewrite Ht in Hv.
    vm_compute in Hv. discriminate.
  - rewrite bool_decide_eq_false_2 by (cbn; lia). split; [done|]. by intros [].
Qed.

(** C24: The visitor's choices survive.  After any run of the store on a
    writable storage (changes in this tab, changes and clearings by other tabs,
    whose events arrive late), once every storage event has been delivered, a
    page that starts from the storage has the group, the favourites and the
    view mode of the running page, and its theme mode unless that is no mode at
    all, in which case it is the automatic one. *)
Theorem preferences_survive_reload language st a now s0 es :
  writable st → boot language st a now = Some s0 →
  let s := runs step es s0 in
  tabs s = [] →
  ∀ language' a' now', ∃ s1, boot language' (storage s) a' now' = Some s1 ∧
    nodeSelectedGroup (raw s1) = nodeSelectedGroup (raw s) ∧
    array s1 (favoriteNodeIds (raw s1)) = array s (favoriteNodeIds (raw s)) ∧
    storedViewMode (raw s1) = storedViewMode (raw s) ∧
    themeMode (raw s1) = (if AppSettings.isValidThemeMode (Some (themeMode (raw s))) then themeMode (raw s)
                          else text "auto").
Proof using.
  intros Hw Hb s Ht language' a' now'.
  assert (store_ok s) as Hok by (apply runs_ok; by eapply boot_ok).
  destruct (boot_state language' (storage s) a' now' (o_writable s Hok)) as (s' & _ & Hb' & Hn & Hv).
  exists (normalise s').2. split; [done|]. destruct (normalise_values s' Hn) as [Hm Ho].
  assert (∀ sl, state_value sl s' = state_value sl s) as Hs.
  { intros sl. rewrite Hv. symmetry. apply (o_synced s Hok). rewrite Ht. unfold awaited. set_solver. }
  pose proof (λ sl H, eq_trans (Ho sl H) (Hs sl)) as Hfin.
  split_and!; [exact (Hfin slot_group ltac:(done))|exact (Hfin slot_favorites ltac:(done))|exact (Hfin slot_view ltac:(done))|].
  rewrite Hm. pose proof (Hs slot_theme) as Ht'. cbn in Ht'. by rewrite Ht'.
Qed.

(** ** The derived state *)

Definition theme_of (p : option PublicSettings) : AppSettings.ThemeSettings :=
  default [] (AppSettings.normalizeThemeSettings (p ≫= theme_settings)).

(** The state that views should see. *)
Definition view_of (s : t) : option AppState :=
  (λ d, state_of (raw s) (public_of s) (theme_of (public_of s)) d (favorite_set (array s (favoriteNodeIds (raw s)))))
  <$> AppSettings.deriveAppSettings (theme_of (public_of s)).

Definition derivable (p : option PublicSettings) : Prop := is_Some (AppSettings.deriveAppSettings (theme_of p)).

Record memo_ok (s : t) : Prop := {
  mo_public : ∀ p, lastPublicSettings (memo s) = Some p →
    lastThemeSettings (memo s) = theme_of (p ≫= λ i, settings s !! i) ∧
    AppSettings.deriveAppSettings (lastThemeSettings (memo s)) = Some (lastDerived (memo s)) ∧
    ∀ i, p = Some i → (i < length (settings s))%nat;
  mo_favorites : ∀ i, lastFavoriteIds (memo s) = Some i →
    (i < length (arrays s))%nat ∧ lastFavoriteSet (memo s) = favorite_set (array s i);
  mo_state : ∀ v st, lastState (memo s) = Some (v, st) → (v ≤ version s)%nat ∧ (v = version s → view_of s = Some st);
  mo_index : (favoriteNodeIds (raw s) < length (arrays s))%nat;
  mo_arrays : (handler_fallback < length (arrays s))%nat;
  mo_settings : ∀ i, publicSettings (raw s) = Some i → (i < length (settings s))%nat;
  mo_derivable : ∀ p, p ∈ settings s → derivable (Some p);
}.

Lemma none_derivable : derivable None.
Proof using. apply empty_settings_derive. Qed.

Lemma public_derivable s : memo_ok s → derivable (public_of s).
Proof using.
  intros Hm. unfold public_of. destruct (publicSettings (raw s)) as [i|]; cbn [mbind option_bind]; [|apply none_derivable].
  destruct (settings s !! i) eqn:Hi; [|apply none_derivable]. by apply Hm, list_elem_of_lookup_2 with i.
Qed.

Lemma refresh_settings_spec s :
  memo_ok s →
  ∃ m, refresh_settings s = (m, true) ∧ lastPublicSettings m = Some (publicSettings (raw s)) ∧
    lastThemeSettings m = theme_of (public_of s) ∧ AppSettings.deriveAppSettings (lastThemeSettings m) = Some (lastDerived m) ∧
    lastFavoriteIds m = lastFavoriteIds (memo s) ∧ lastFavoriteSet m = lastFavoriteSet (memo s) ∧ lastState m = lastState (memo s).
Proof using.
  intros Hm. unfold refresh_settings. cbn zeta. case_bool_decide as Hp.
  - destruct (mo_public s Hm _ Hp) as (H1' & H2' & _). eexists. split_and!; try done.
  - destruct (public_derivable s Hm) as [d Hd]. unfold theme_of in Hd. rewrite Hd. eexists. split_and!; try done.
Qed.

Lemma app_derive_spec s : memo_ok s → (derive s).1 = view_of s ∧ is_Some (view_of s) ∧ memo_ok (derive s).2.
Proof using.
  intros Hm. assert (is_Some (view_of s)) as Hv by (apply fmap_is_Some, public_derivable, Hm).
  unfold derive. destruct (remembered s) as [st|] eqn:Hr.
  { unfold remembered in Hr. destruct (lastState (memo s)) as [[v st']|] eqn:Hl; [|done].
    case_bool_decide; [|done]. injection Hr as ->. split_and!; [|done|done]. symmetry. by eapply mo_state. }
  destruct (refresh_settings_spec s Hm) as (m & -> & Ep & Et & Ed & Ef & Es & El). cbn zeta.
  set (m' := refresh_favorites s m).
  assert (lastPublicSettings m' = Some (publicSettings (raw s)) ∧ lastThemeSettings m' = theme_of (public_of s) ∧
    AppSettings.deriveAppSettings (lastThemeSettings m') = Some (lastDerived m') ∧
    lastFavoriteSet m' = favorite_set (array s (favoriteNodeIds (raw s))) ∧
    ∀ i, lastFavoriteIds m' = Some i → (i < length (arrays s))%nat ∧ lastFavoriteSet m' = favorite_set (array s i))
    as (Ep' & Et' & Ed' & Es' & Ef').
  { subst m'. unfold refresh_favorites. cbn zeta. destruct (lastFavoriteIds m) as [j|] eqn:Hj.
    - symmetry in Ef. destruct (mo_favorites s Hm j Ef) as [Hlt Hset].
      destruct (same_array s (favoriteNodeIds (raw s)) j) eqn:Hsame.
      + apply same_array_value in Hsame. rewrite <-Es in Hset. split_and!; try done; [by rewrite Hset, Hsame|].
        rewrite Hj. intros i [= <-]. done.
      + split_and!; [exact Ep|exact Et|exact Ed|reflexivity|]. cbn [lastFavoriteIds]. intros i [= <-]. split; [apply (mo_index s Hm)|reflexivity].
    - split_and!; [exact Ep|exact Et|exact Ed|reflexivity|]. cbn [lastFavoriteIds]. intros i [= <-]. split; [apply (mo_index s Hm)|reflexivity]. }
  assert (view_of s = Some (state_of (raw s) (public_of s) (lastThemeSettings m') (lastDerived m') (lastFavoriteSet m'))) as Hview.
  { unfold view_of. rewrite Et' in Ed'. by rewrite Ed', Es', Et'. }
  split_and!; [done|done|]. cbn [snd].
  split; cbn [memo with_memo lastPublicSettings lastThemeSettings lastDerived lastFavoriteIds lastFavoriteSet lastState raw arrays settings version].
  - intros p Hp. rewrite Ep' in Hp. injection Hp as <-. split_and!; [exact Et'|done|]. apply (mo_settings s Hm).
  - exact Ef'.
  - intros v st [= <- <-]. split; [done|]. intros _. exact Hview.
  - apply (mo_index s Hm).
  - apply (mo_arrays s Hm).
  - apply (mo_settings s Hm).
  - apply (mo_derivable s Hm).
Qed.

(** The memory stays good when objects are added and the state is replaced. *)
Lemma memo_grow s s' :
  memo_ok s → memo s' = memo s → arrays s `prefix_of` arrays s' → settings s `prefix_of` settings s' →
  (∀ p, p ∈ settings s' → derivable (Some p)) → (favoriteNodeIds (raw s') < length (arrays s'))%nat →
  (∀ i, publicSettings (raw s') = Some i → (i < length (settings s'))%nat) →
  (raw s' = raw s ∧ version s' = version s ∨ (version s < version s')%nat) → memo_ok s'.
Proof using.
  intros Hm Em [la Ha] [lp Hp] Hd Hi Hpi Hv.
  assert (∀ i, (i < length (arrays s))%nat → array s' i = array s i) as Harr.
  { intros i Hlt. unfold array. by rewrite Ha, lookup_app_l. }
  assert (∀ i : option nat, (∀ j, i = Some j → (j < length (settings s))%nat) →
    (i ≫= λ i, settings s' !! i) = (i ≫= λ i, settings s !! i)) as Hset.
  { intros [i|] Hlt; [|done]. cbn. by rewrite Hp, lookup_app_l by by apply Hlt. }
  split; rewrite ?Em.
  - intros p Hl. destruct (mo_public s Hm p Hl) as (E1 & E2 & E3). rewrite Hset by done. split_and!; [done|done|].
    intros i ->. rewrite Hp, length_app. pose proof (E3 i eq_refl). lia.
  - intros i Hl. destruct (mo_favorites s Hm i Hl) as [Hlt E]. rewrite Harr by done. split; [|done].
    rewrite Ha, length_app. lia.
  - intros v st Hl. destruct (mo_state s Hm v st Hl) as [Hle E]. destruct Hv as [[Er Ev]|Hv]; [|split; [lia|lia]].
    split; [lia|]. rewrite Ev. intros Hvv. rewrite <-(E Hvv). unfold view_of, public_of. rewrite Er, Harr by apply (mo_index s Hm).
    by rewrite Hset by apply (mo_settings s Hm).
  - done.
  - rewrite Ha, length_app. pose proof (mo_arrays s Hm). lia.
  - done.
  - done.
Qed.

Lemma memo_setState next s :
  memo_ok s → (favoriteNodeIds next < length (arrays s))%nat →
  (∀ i, publicSettings next = Some i → (i < length (settings s))%nat) → memo_ok (setState next s).
Proof using.
  intros Hm Hi Hp. unfold setState. case_match; [done|]. apply (memo_grow s); cbn; try done; try apply Hm. by right; lia.
Qed.

Lemma memo_setRaw f s :
  memo_ok s → (favoriteNodeIds (f (raw s)) < length (arrays s))%nat →
  (∀ i, publicSettings (f (raw s)) = Some i → (i < length (settings s))%nat) → memo_ok (setRaw f s).
Proof using.
  intros Hm Hi Hp. pose proof (memo_setState _ _ Hm Hi Hp) as Hs. unfold setRaw. cbn zeta. case_bool_decide; [done|].
  apply (memo_grow _ (persist (raw s) (raw (setState (f (raw s)) s)) (setState (f (raw s)) s)) Hs); try done.
  - apply (mo_derivable _ Hs).
  - apply (mo_index _ Hs).
  - apply (mo_settings _ Hs).
  - by left.
Qed.

Ltac keep Hm := first [apply (mo_index _ Hm) | apply (mo_settings _ Hm) | exact Hm].

Lemma memo_normalise s : memo_ok s → memo_ok (normalise s).2.
Proof using.
  intros Hm. unfold normalise. cbn zeta. set (s1 := if AppSettings.isValidThemeMode _ then s else _).
  assert (memo_ok s1) as Hm1 by (subst s1; case_match; [done|apply memo_setRaw; keep Hm]).
  case_match; [|done]. destruct (app_derive_spec s1 Hm1) as (_ & _ & Hm2). destruct (derive s1) as [[st|] s2]; [|done].
  apply memo_setRaw; keep Hm2.
Qed.

Lemma memo_public p s : memo_ok s → (∀ q, p = Some q → derivable (Some q)) → memo_ok (setPublicSettings p s).2.
Proof using.
  intros Hm Hd. unfold setPublicSettings. destruct p as [p|]; apply memo_normalise, memo_setRaw; try keep Hm; try done.
  - apply (memo_grow s); cbn; try done; try keep Hm; [by apply prefix_app_r| | |by left].
    + intros q [Hq|Hq%list_elem_of_singleton]%elem_of_app; [by apply (mo_derivable s Hm)|subst; by apply Hd].
    + intros i Hi%(mo_settings s Hm). rewrite length_app. lia.
  - cbn. intros i [= <-]. rewrite length_app. cbn. lia.
Qed.

Lemma memo_alloc v s : memo_ok s → memo_ok (alloc v s).2.
Proof using.
  intros Hm. apply (memo_grow s); cbn; try done; try keep Hm.
  - by apply prefix_app_r.
  - apply (mo_derivable s Hm).
  - rewrite length_app. pose proof (mo_index s Hm). lia.
  - by left.
Qed.

Lemma memo_toggle u s : memo_ok s → memo_ok (toggleFavoriteNode u s).
Proof using.
  intros Hm. unfold toggleFavoriteNode. cbn zeta. case_bool_decide; [done|].
  destruct (app_derive_spec s Hm) as (_ & _ & Hm1). destruct (derive s) as [[st|] s1]; [|done].
  pose proof (memo_alloc (JArr (JStr <$> toggled (trim u) (favoriteNodeIdSet st))) s1 Hm1) as Hm2.
  unfold alloc in *. cbn [fst snd] in *. apply memo_setRaw; [done| |keep Hm2].
  cbn. rewrite length_app. cbn. lia.
Qed.

Lemma memo_same s s' :
  memo_ok s → raw s' = raw s → version s' = version s → memo s' = memo s → arrays s' = arrays s →
  settings s' = settings s → memo_ok s'.
Proof using.
  intros Hm E1 E2 E3 E4 E5. apply (memo_grow s); rewrite ?E1, ?E4, ?E5; try done; try keep Hm; [apply (mo_derivable s Hm)|by left].
Qed.

Lemma memo_on_text k fb (f : json → AppRawState → AppRawState) s :
  (∀ v r, favoriteNodeIds (f v r) = favoriteNodeIds r ∧ publicSettings (f v r) = publicSettings r) →
  memo_ok s → memo_ok (on_text k fb f s).
Proof using.
  intros Hf Hm. unfold on_text. destruct (readStored _ _ _ _) as [v st].
  assert (memo_ok (with_storage st s)) as Hm' by by apply (memo_same s).
  destruct (Hf (default fb v) (raw (with_storage st s))) as [E1 E2].
  apply memo_setState; rewrite ?E1, ?E2; keep Hm'.
Qed.

Lemma memo_on_favorites s : memo_ok s → memo_ok (on_favorites s).
Proof using.
  intros Hm. unfold on_favorites. destruct (readStored _ _ _ _) as [v st].
  assert (memo_ok (with_storage st s)) as Hm' by by apply (memo_same s).
  destruct v as [v|].
  - pose proof (memo_alloc v _ Hm') as Ha. unfold alloc in *. cbn [fst snd] in *. apply memo_setState; [done| |keep Ha].
    cbn. rewrite length_app. cbn. lia.
  - apply memo_setState; [done| |keep Hm']. cbn. apply (mo_arrays s Hm).
Qed.

(** Settings that a run puts into the store can be derived. *)
Definition good_event (e : event) : Prop :=
  match e with SetPublicSettings (Some p) => derivable (Some p) | _ => True end.

Lemma memo_step e s : good_event e → memo_ok s → memo_ok (step e s).
Proof using.
  intros He Hm. destruct e; cbn [step]; try (apply memo_setRaw; keep Hm).
  - apply memo_public; [done|]. by intros q ->.
  - by apply memo_toggle.
  - unfold updateThemeMode. destruct mode as [[|]|]; apply memo_setRaw; keep Hm.
  - assert (memo_ok (with_auth (AuthSession.setAuthSessionFromLogin loggedIn u now (auth s)) s)) as Ha by by apply (memo_same s).
    apply memo_setRaw; keep Ha.
  - by apply (memo_same s).
  - apply memo_setState; keep Hm.
  - by apply app_derive_spec.
  - by apply (memo_same s).
  - by apply (memo_same s).
  - unfold deliver. destruct (tabs s); [done|]. unfold dispatch. cbn zeta.
    repeat match goal with
    | |- memo_ok (if ?b then _ else _) => destruct b
    | |- memo_ok (on_text _ _ _ _) => apply memo_on_text; [done|]
    | |- memo_ok (on_favorites _) => apply memo_on_favorites
    end; by apply (memo_same s).
Qed.

Lemma boot_memo language st a now s0 : boot language st a now = Some s0 → memo_ok s0.
Proof using.
  unfold boot. destruct (AppSettings.deriveAppSettings []) as [d|] eqn:Hd; [|done]. cbn [mbind option_bind].
  repeat (destruct (readStored _ _ _ _)). intros Hs. rewrite <-(Some_inj _ _ Hs). apply memo_normalise.
  split; cbn [memo no_memory lastPublicSettings lastFavoriteIds lastState raw favoriteNodeIds publicSettings settings arrays length];
    [done|done|done|lia|unfold handler_fallback; lia|done|].
  intros p Hp. by apply elem_of_nil in Hp.
Qed.

(** C23: What views read is always the state they should see: however the store
    was changed and read before, in this tab and from others, with settings
    that can be derived, the memoised derivation returns exactly what a fresh
    computation on the current state, settings and favourites gives. *)
Theorem app_state_exact language st a now s0 es :
  boot language st a now = Some s0 → Forall good_event es →
  let s := runs step es s0 in
  (getState s).1 = view_of s ∧ is_Some (view_of s).
Proof using.
  intros Hb Hes s. assert (memo_ok s) as Hm.
  { apply (runs_invariant_cond _ good_event); [intros; by apply memo_step|done|by eapply boot_memo]. }
  by destruct (app_derive_spec s Hm) as (? & ? & _).
Qed.

(** ** Favourites *)

Definition blank (x : jsstring) : Prop := trim x = [].

Lemma favorite_step_ok (l : list jsstring) x :
  NoDup l → NoDup (if bool_decide (x ∈ l) then l else l ++ [x]).
Proof using.
  intros Hl. case_bool_decide; [done|]. apply NoDup_app. split_and!; [done| |apply NoDup_singleton].
  intros y Hy ->%list_elem_of_singleton. done.
Qed.

Lemma favorite_set_ok v : NoDup (favorite_set v) ∧ Forall (λ x, ¬ blank x) (favorite_set v).
Proof using.
  unfold favorite_set. set (l := omap _ _).
  assert (Forall (λ x, ¬ blank x) l) as Hl.
  { apply Forall_forall. intros x (y & _ & Hy)%list_elem_of_omap. destruct y; try done. case_bool_decide; [done|].
    by injection Hy as ->. }
  clearbody l. assert (∀ acc, NoDup acc → Forall (λ x, ¬ blank x) acc →
    let r := foldl (λ l x, if bool_decide (x ∈ l) then l else l ++ [x]) acc l in
    NoDup r ∧ Forall (λ x, ¬ blank x) r) as Hgen; [|by apply Hgen; [apply NoDup_nil_2|]].
  induction Hl as [|x l Hx Hl IH]; intros acc Hn Hf; [done|]. cbn [foldl]. apply IH; [by apply favorite_step_ok|].
  case_bool_decide; [done|]. by apply Forall_app_2; [|apply Forall_singleton].
Qed.

Lemma favorite_set_id l :
  NoDup l → Forall (λ x, ¬ blank x) l → favorite_set (JArr (JStr <$> l)) = l.
Proof using.
  intros Hn Hf. unfold favorite_set.
  assert (omap (λ x, match x with JStr i => if bool_decide (trim i = []) then None else Some i | _ => None end) (JStr <$> l) = l) as ->.
  { induction Hf as [|x l Hx Hf IH]; [done|]. cbn. rewrite bool_decide_eq_false_2 by done. f_equal. apply IH.
    by apply NoDup_cons in Hn as [_ ?]. }
  clear Hf. assert (∀ acc, NoDup (acc ++ l) → foldl (λ l x, if bool_decide (x ∈ l) then l else l ++ [x]) acc l = acc ++ l)
    as Hgen; [|by apply (Hgen [])].
  clear Hn. induction l as [|x l IH]; intros acc Hn; cbn [foldl]; [by rewrite app_nil_r|].
  rewrite bool_decide_eq_false_2.
  - rewrite IH; by rewrite <-app_assoc.
  - intros Hx. apply NoDup_app in Hn as (_ & Hd & _). apply (Hd x Hx). set_solver.
Qed.

Lemma toggled_ok u l :
  NoDup l → Forall (λ x, ¬ blank x) l → ¬ blank u →
  NoDup (toggled u l) ∧ Forall (λ x, ¬ blank x) (toggled u l) ∧ ∀ v, v ∈ toggled u l ↔ (v = u ↔ ¬ v ∈ l).
Proof using.
  intros Hn Hf Hu. unfold toggled. case_bool_decide as Hin.
  - split_and!; [by apply NoDup_bfilter| |].
    { apply Forall_forall. intros x [_ Hx]%elem_of_bfilter. by eapply Forall_forall in Hf. }
    intros v. rewrite elem_of_bfilter. destruct (decide (v = u)) as [->|Hne].
    + rewrite bool_decide_eq_true_2 by done. naive_solver.
    + rewrite bool_decide_eq_false_2 by done. cbn. destruct (decide (v ∈ l)); naive_solver.
  - split_and!.
    + apply NoDup_app. split_and!; [done| |apply NoDup_singleton]. intros y Hy ->%list_elem_of_singleton. done.
    + by apply Forall_app_2; [|apply Forall_singleton].
    + intros v. rewrite elem_of_app, list_elem_of_singleton. destruct (decide (v = u)) as [->|Hne]; [naive_solver|].
      destruct (decide (v ∈ l)); naive_solver.
Qed.

Lemma is_favorite_spec s v :
  memo_ok s → (isFavoriteNode v s).1 = Some (bool_decide (v ∈ favorite_set (array s (favoriteNodeIds (raw s))))).
Proof using.
  intros Hm. destruct (app_derive_spec s Hm) as (E & _ & _). unfold isFavoriteNode. destruct (derive s) as [st s'].
  cbn [fst] in *. subst st. unfold view_of. destruct (public_derivable s Hm) as [d Hd]. unfold derivable in Hd.
  rewrite Hd. reflexivity.
Qed.

Lemma toggle_favorites u s :
  memo_ok s → trim u ≠ [] →
  array (toggleFavoriteNode u s) (favoriteNodeIds (raw (toggleFavoriteNode u s)))
  = JArr (JStr <$> toggled (trim u) (favorite_set (array s (favoriteNodeIds (raw s))))).
Proof using.
  intros Hm Hu. destruct (app_derive_spec s Hm) as (E & _ & Hm').
  unfold toggleFavoriteNode. cbn zeta. rewrite bool_decide_eq_false_2 by done.
  destruct (derive_raw s) as (Er & Ea & _). destruct (derive s) as [st s']. cbn [fst snd] in *. subst st.
  unfold view_of. destruct (public_derivable s Hm) as [d Hd]. rewrite Hd. cbn [fmap option_fmap option_map].
  unfold alloc. cbn [favoriteNodeIdSet state_of]. unfold setRaw, setState. cbn zeta.
  destruct (same_raw _ _ _) eqn:Hs.
  - exfalso. unfold same_raw in Hs. apply andb_true_iff in Hs as [_ Hs]. unfold same_array in Hs.
    apply orb_true_iff in Hs as [Hs%bool_decide_eq_true|Hs].
    + cbn in Hs. pose proof (mo_index s' Hm'). lia.
    + unfold array in Hs. cbn in Hs. rewrite lookup_app_l in Hs by apply (mo_index s' Hm').
      rewrite lookup_app_r, Nat.sub_diag in Hs by done. cbn in Hs.
      destruct (default JNull _); first [discriminate Hs|apply bool_decide_eq_true in Hs; discriminate Hs].
  - rewrite bool_decide_eq_false_2 by (cbn; lia). cbn [raw persist with_storage with_raw set_favorites favoriteNodeIds].
    unfold array at 1. cbn [arrays persist with_storage with_raw]. by rewrite lookup_app_r, Nat.sub_diag by done.
Qed.

(** Marking a node changes its mark and no other: in every reachable state a
    node is a favourite after the call exactly when it was one before, except
    the named node, for which the answer is reversed. *)
Theorem favorite_toggles language st a now s0 es u :
  boot language st a now = Some s0 → Forall good_event es → trim u ≠ [] →
  let s := runs step es s0 in
  ∀ v, ∃ before, (isFavoriteNode v s).1 = Some before ∧
    (isFavoriteNode v (toggleFavoriteNode u s)).1 = Some (if bool_decide (v = trim u) then negb before else before).
Proof using.
  intros Hb Hes Hu s v. assert (memo_ok s) as Hm.
  { apply (runs_invariant_cond _ good_event); [intros; by apply memo_step|done|by eapply boot_memo]. }
  rewrite !is_favorite_spec, toggle_favorites by (try apply memo_toggle; done).
  set (l := favorite_set (array s (favoriteNodeIds (raw s)))).
  destruct (favorite_set_ok (array s (favoriteNodeIds (raw s)))) as [Hn Hf]. fold l in Hn, Hf.
  assert (¬ blank (trim u)) as Hbl by (unfold blank; by rewrite trim_idemp).
  destruct (toggled_ok (trim u) l Hn Hf Hbl) as (Hn' & Hf' & Hel).
  eexists. split; [done|]. f_equal. rewrite favorite_set_id by done. specialize (Hel v).
  repeat case_bool_decide; cbn; naive_solver.
Qed.

(** ** Sign-in *)

Definition agree (r : AppRawState) : Prop := isLoggedIn r = true ↔ authStatus r = AuthSession.authenticated_.

Definition coherent (s : t) : Prop := AuthSession.inv (auth s) ∧ agree (raw s).

Lemma coherent_setState next s : agree next → coherent s → coherent (setState next s).
Proof using. intros Hn [Ha Hc]. unfold setState. by case_match. Qed.

Lemma coherent_setRaw f s : agree (f (raw s)) → coherent s → coherent (setRaw f s).
Proof using.
  intros Hn Hc. unfold setRaw. cbn zeta. pose proof (coherent_setState _ _ Hn Hc). by case_bool_decide.
Qed.

Lemma coherent_derive s : coherent s → coherent (derive s).2.
Proof using.
  intros Hc. unfold derive. destruct (remembered s); [done|]. by destruct (refresh_settings s) as [m []].
Qed.

Lemma coherent_normalise s : coherent s → coherent (normalise s).2.
Proof using.
  intros Hc. unfold normalise. cbn zeta. set (s1 := if AppSettings.isValidThemeMode _ then s else _).
  assert (coherent s1) as Hc1 by (subst s1; case_match; [done|apply coherent_setRaw; [apply Hc|done]]).
  case_match; [|done]. pose proof (coherent_derive s1 Hc1) as Hc2. destruct (derive s1) as [[st|] s2]; [|done].
  apply coherent_setRaw; [apply Hc2|done].
Qed.

Lemma coherent_sync s : coherent s → coherent (syncAuthState s).
Proof using. intros Hc. apply coherent_setRaw; [|done]. apply (AuthSession.i_session _ (proj1 Hc)). Qed.

Lemma coherent_on_text k fb (f : json → AppRawState → AppRawState) s :
  (∀ v r, agree r → agree (f v r)) → coherent s → coherent (on_text k fb f s).
Proof using.
  intros Hf Hc. unfold on_text. destruct (readStored _ _ _ _) as [v st]. apply coherent_setState; [|done].
  apply Hf, Hc.
Qed.

Lemma coherent_on_favorites s : coherent s → coherent (on_favorites s).
Proof using.
  intros Hc. unfold on_favorites. destruct (readStored _ _ _ _) as [[v|] st]; unfold alloc;
    (apply coherent_setState; [apply Hc|exact Hc]).
Qed.

Lemma coherent_step e s : coherent s → coherent (step e s).
Proof using.
  intros Hc. destruct e; cbn [step]; try (apply coherent_setRaw; [apply Hc|done]).
  - unfold setPublicSettings. destruct p; (apply coherent_normalise, coherent_setRaw; [apply Hc|exact Hc]).
  - unfold toggleFavoriteNode. cbn zeta. case_bool_decide; [done|]. pose proof (coherent_derive s Hc) as Hd.
    destruct (derive s) as [[st|] s2]; [|done]. unfold alloc. apply coherent_setRaw; [apply Hd|exact Hd].
  - unfold updateThemeMode. destruct mode as [[|]|]; (apply coherent_setRaw; [apply Hc|done]).
  - apply coherent_sync. split; [|apply Hc].
    apply (AuthSession.auth_inv_step logged_in (AuthSession.ELogin loggedIn u now)), Hc.
  - split; [|apply Hc]. apply AuthSession.auth_inv_step, Hc.
  - apply coherent_setState; [apply Hc|done].
  - by apply coherent_derive.
  - done.
  - done.
  - unfold deliver. destruct (tabs s); [done|]. unfold dispatch. cbn zeta.
    repeat match goal with
    | |- coherent (if ?b then _ else _) => destruct b
    | |- coherent (on_text _ _ _ _) => apply coherent_on_text; [done|]
    | |- coherent (on_favorites _) => apply coherent_on_favorites
    end; exact Hc.
Qed.

(** Private features are offered only to a visitor who is signed in: in every
    run the two sign-in fields of the store agree. *)
Theorem sign_in_coherent language st a now s0 es :
  AuthSession.inv a → boot language st a now = Some s0 →
  let s := runs step es s0 in
  isLoggedIn (raw s) = true ↔ authStatus (raw s) = AuthSession.authenticated_.
Proof using.
  intros Ha Hb s. enough (coherent s) as [_ Hc] by exact Hc.
  apply runs_invariant; [intros; by apply coherent_step|]. revert Hb. unfold boot.
  destruct (AppSettings.deriveAppSettings []) as [d|]; [|done]. cbn [mbind option_bind].
  repeat (destruct (readStored _ _ _ _)). intros Hs. rewrite <-(Some_inj _ _ Hs). apply coherent_normalise.
  split; [exact Ha|]. apply (AuthSession.i_session _ Ha).
Qed.

(** Three presses of the theme button return to a valid mode. *)
Lemma theme_cycle v : AppSettings.isValidThemeMode (Some v) = true → next_mode (next_mode (next_mode v)) = v.
Proof using.
  unfold AppSettings.isValidThemeMode, AppSettings.is_member. destruct v; try done. intros Hs%bool_decide_eq_true.
  repeat (apply elem_of_cons in Hs as [->|Hs]); [reflexivity..|]. by apply elem_of_nil in Hs.
Qed.
End store.

(** ** Settings that cannot be derived *)

Section example.
#[local] Existing Instance AppSettings.no_json.
#[local] Existing Instance TreeCodec.tree_codec.
#[local] Existing Instance simple_case.

Definition start (st : Storage) : option (@t unit) :=
  boot (λ _, 12) (js "en") st AuthSession.initial 0.

Definition bad_settings : PublicSettings :=
  {| theme_settings := Some (JObj [("generalCardPreset"%string, JStr (js "constructor"));
                                   ("hideEarth"%string, JBool true)]);
     visitor_audit_enabled := None |}.

Definition run (es : list event) (st : Storage) : option (@t unit) := runs (step (λ _, true) (λ _, 12)) es <$> start st.

Definition empty_storage : Storage := mkStorage false false [(KEY_VIEW_MODE, js "card")].

(** After settings that throw, the first reading of the state throws, but the
    memory already holds the new settings: the second reading succeeds and
    shows the settings derived before, with the new settings object beside
    them. *)
Theorem stale_settings_after_error :
  ∃ s, run [SetPublicSettings (Some bad_settings)] empty_storage = Some s ∧
    (getState (λ _, 12) s).1 = None ∧
    ∃ st, (getState (λ _, 12) (getState (λ _, 12) s).2).1 = Some st ∧
      AppSettings.hideEarth (derived st) = false ∧
      jm_get "hideEarth"%string (themeSettings st) = Some (JBool true).
Proof.
  assert (match run [SetPublicSettings (Some bad_settings)] empty_storage with
          | Some s =>
              match (getState (λ _, 12) s).1, (getState (λ _, 12) (getState (λ _, 12) s).2).1 with
              | None, Some st => negb (AppSettings.hideEarth (derived st)) &&
                  match jm_get "hideEarth"%string (themeSettings st) with Some (JBool true) => true | _ => false end
              | _, _ => false
              end
          | None => false
          end = true) as Hrun by (vm_compute; reflexivity).
  destruct (run _ _) as [s|]; [|done]. exists s. split; [done|].
  destruct (getState (λ _, 12) s).1; [done|]. split; [done|].
  destruct (getState (λ _, 12) (getState (λ _, 12) s).2).1 as [st|]; [|done]. exists st.
  apply andb_true_iff in Hrun as [Hh%negb_true_iff Hj]. split_and!; [done|done|].
  destruct (jm_get _ (themeSettings st)) as [[| [] | | | |]|]; done.
Qed.

Definition sample_events : list (@event unit) :=
  [UpdateThemeMode (Some (js "dark")); ToggleFavoriteNode (js " 7 "); OtherTab KEY_GROUP (Some (js "eu")); Read; Deliver].

Lemma sample_run :
  ∃ s0 : @t unit, boot (λ _, 12) (js "en") empty_storage AuthSession.initial 0 = Some s0 ∧
    tabs (runs (step (λ _, true) (λ _, 12)) sample_events s0) = [] ∧
    nodeSelectedGroup (raw (runs (step (λ _, true) (λ _, 12)) sample_events s0)) = text "eu" ∧
    themeMode (raw (runs (step (λ _, true) (λ _, 12)) sample_events s0)) = text "dark".
Proof.
  assert (match start empty_storage with
          | Some s0 =>
              let s := runs (step (λ _, true) (λ _, 12)) sample_events s0 in
              bool_decide (tabs s = []) && bool_decide (nodeSelectedGroup (raw s) = text "eu")
              && bool_decide (themeMode (raw s) = text "dark")
          | None => false
          end = true) as Hrun by (vm_compute; reflexivity).
  fold (start empty_storage). destruct (start empty_storage) as [s0|]; [|discriminate Hrun]. exists s0.
  cbn zeta in Hrun. rewrite !andb_true_iff, !bool_decide_eq_true in Hrun. destruct Hrun as [[? ?] ?]. split_and!; done.
Qed.

Lemma preferences_survive_reload_witness :
  ∃ (s0 s1 : @t unit),
    boot (λ _, 12) (js "de") (storage (runs (step (λ _, true) (λ _, 12)) sample_events s0)) AuthSession.initial 5 = Some s1 ∧
    nodeSelectedGroup (raw s1) = text "eu".
Proof.
  destruct sample_run as (s0 & Hs & Ht & Hg & Hm).
  destruct (preferences_survive_reload (λ _, true) (λ _, 12) (js "en") empty_storage AuthSession.initial 0 s0 sample_events
    (conj eq_refl eq_refl) Hs Ht (js "de") AuthSession.initial 5) as (s1 & Hb & H1 & _).
  exists s0, s1. split; [exact Hb|rewrite H1; exact Hg].
Defined.

Lemma app_state_exact_witness :
  ∃ s0 : @t unit, boot (λ _, 12) (js "en") empty_storage AuthSession.initial 0 = Some s0 ∧
    is_Some (view_of (λ _, 12) (runs (step (λ _, true) (λ _, 12)) sample_events s0)).
Proof.
  destruct sample_run as (s0 & Hs & _). exists s0. split; [exact Hs|].
  assert (Forall good_event sample_events) as Hes by repeat constructor.
  destruct (app_state_exact (λ _, true) (λ _, 12) (js "en") empty_storage AuthSession.initial 0 s0 sample_events Hs Hes)
    as [_ Hv]. exact Hv.
Defined.
End example.
End AppStore.
