(* ===== verification/Prediction.v ===== *)
(** * Disk prediction ([glass-shared/services/prediction.service.ts])

    A least-squares line through the disk usage of a node.  Times are whole
    milliseconds ([parse] is the parser of dates), usage is a binary64 number;
    the square [x ** 2] is the product [x * x]. *)

From Stdlib Require Import SpecFloat.
From S2P Require Import Prelude JsMap JsString Json JsValue FloatFacts JsNumber Constants.

Open Scope Z_scope.

Module Prediction.

Record NodeDiskPrediction := {
  daysUntilFull : num;
  dailyGrowthBytes : num;
  currentDiskBytes : num;
  diskTotalBytes : num;
  p_sampleDays : num;
  confidence : num;
}.

Inductive DiskPredictionUnavailableReason :=
  | no_samples | insufficient_samples | insufficient_duration | no_growth | invalid_total.

Record DiskPredictionState := {
  prediction : option NodeDiskPrediction;
  reason : option DiskPredictionUnavailableReason;
  sampleDays : num;
  sampleCount : Z;
}.

Definition numberOrZero (v : value) : num :=
  match v with VNum x => if isFinite x then x else num_of_Z 0 | _ => num_of_Z 0 end.

(** What is read of a [StatusRecord]. *)
Record StatusRecord := { time : jsstring; disk : value; disk_total : value }.

Record sample := { timestamp : Z; s_disk : num; s_total : num }.

(** [a || b] *)
Definition or_else (a b : num) : num := if num_truthy a then a else b.

Definition zero : num := num_of_Z 0.

Section analysis.
Context (parse : jsstring → option Z).

Definition sample_of (fallbackDiskTotal : num) (r : StatusRecord) : option sample :=
  match parse (time r) with
  | Some t =>
      let d := numberOrZero (disk r) in
      let total := or_else (numberOrZero (disk_total r)) fallbackDiskTotal in
      if num_ltb zero d && num_ltb zero total then Some {| timestamp := t; s_disk := d; s_total := total |} else None
  | None => None
  end.

Definition samples_of (fallbackDiskTotal : num) (records : list StatusRecord) : list sample :=
  sort_on timestamp (omap (sample_of fallbackDiskTotal) records).

Definition days (ms : Z) : num := num_div (num_of_Z ms) (num_of_Z TIME_MS.day).

Definition sum (l : list num) : num := foldl num_add zero l.
Definition mean (l : list num) : num := num_div (sum l) (num_of_Z (Z.of_nat (length l))).
Definition square (x : num) : num := num_mul x x.

Definition unavailable (r : DiskPredictionUnavailableReason) (d : num) (n : Z) : DiskPredictionState :=
  {| prediction := None; reason := Some r; sampleDays := d; sampleCount := n |}.

Definition analyzeDiskPrediction (records : list StatusRecord) (fallbackDiskTotal : num) : DiskPredictionState :=
  let samples := samples_of fallbackDiskTotal records in
  match samples, last samples with
  | first :: _, Some latest =>
      let sampleDays := days (timestamp latest - timestamp first) in
      let sampleCount := Z.of_nat (length samples) in
      let none r := unavailable r sampleDays sampleCount in
      let predicted p := {| prediction := Some p; reason := None; sampleDays := sampleDays; sampleCount := sampleCount |} in
      if bool_decide (sampleCount < 2) then none insufficient_samples
      else if num_ltb sampleDays (num_of_Z LOAD_CONFIG.diskPrediction_minSampleDays) then none insufficient_duration
      else
        let xs := (λ s, days (timestamp s - timestamp first)) <$> samples in
        let ys := s_disk <$> samples in
        let avgX := mean xs in
        let avgY := mean ys in
        let numerator := sum (zip_with (λ x y, num_mul (num_sub x avgX) (num_sub y avgY)) xs ys) in
        let denominator := sum ((λ x, square (num_sub x avgX)) <$> xs) in
        let totalVariance := sum ((λ y, square (num_sub y avgY)) <$> ys) in
        if num_leb denominator zero then none insufficient_duration
        else
          let dailyGrowthBytes := num_div numerator denominator in
          if negb (isFinite dailyGrowthBytes) || num_leb dailyGrowthBytes zero then none no_growth
          else
            let diskTotalBytes := or_else (s_total latest) fallbackDiskTotal in
            if negb (isFinite diskTotalBytes) || num_leb diskTotalBytes zero then none invalid_total
            else
              let currentDiskBytes := s_disk latest in
              let remainingBytes := num_sub diskTotalBytes currentDiskBytes in
              let result d c := predicted {| daysUntilFull := d; dailyGrowthBytes := dailyGrowthBytes;
                                             currentDiskBytes := currentDiskBytes; diskTotalBytes := diskTotalBytes;
                                             p_sampleDays := sampleDays; confidence := c |} in
              if num_leb remainingBytes zero then result zero (num_of_Z 1)
              else
                let residualVariance :=
                  sum (zip_with (λ x y, square (num_sub y (num_add avgY (num_mul dailyGrowthBytes (num_sub x avgX))))) xs ys) in
                let confidence :=
                  if num_leb totalVariance zero then zero
                  else math_min (math_max (num_sub (num_of_Z 1) (num_div residualVariance totalVariance)) zero) (num_of_Z 1) in
                result (num_div remainingBytes dailyGrowthBytes) confidence
  | _, _ => unavailable no_samples zero 0
  end.

Definition buildDiskPrediction (records : list StatusRecord) (fallbackDiskTotal : num) : option NodeDiskPrediction :=
  prediction (analyzeDiskPrediction records fallbackDiskTotal).
End analysis.

(** ** What a prediction says *)

Lemma sorted_last l (x : sample) :
  StronglySorted (on_le timestamp) l → last l = Some x → x ∈ l ∧ ∀ y, y ∈ l → timestamp y ≤ timestamp x.
Proof.
  induction 1 as [|y l Hl IH Hy]; [done|]. destruct l as [|z l]; [intros [= <-]; split; [set_solver|]|].
  - intros w ->%list_elem_of_singleton. lia.
  - intros Hx. destruct (IH Hx) as [Hin Hmax]. split; [set_solver|].
    intros w [->|Hw]%elem_of_cons; [|by apply Hmax]. rewrite Forall_forall in Hy. by apply Hy.
Qed.

Lemma samples_elem parse fb records s :
  s ∈ samples_of parse fb records ↔ ∃ r, r ∈ records ∧ sample_of parse fb r = Some s.
Proof. unfold samples_of. by rewrite elem_of_sort_on, list_elem_of_omap. Qed.

Lemma sample_positive parse fb r s : sample_of parse fb r = Some s → is_positive (s_disk s) = true ∧ is_positive (s_total s) = true.
Proof.
  unfold sample_of. destruct (parse (time r)) as [t|]; [|done]. rewrite !positive_ltb.
  destruct (is_positive (numberOrZero _)) eqn:H1; [|done]. destruct (is_positive (or_else _ _)) eqn:H2; [|done].
  by intros [= <-].
Qed.

(** The properties of a prediction made from these samples. *)
Definition sound_prediction (samples : list sample) (p : NodeDiskPrediction) : Prop :=
  (∃ s, s ∈ samples ∧ (∀ s', s' ∈ samples → timestamp s' ≤ timestamp s) ∧ currentDiskBytes p = s_disk s) ∧
  isFinite (dailyGrowthBytes p) = true ∧ is_positive (dailyGrowthBytes p) = true ∧
  isFinite (diskTotalBytes p) = true ∧ is_positive (diskTotalBytes p) = true ∧
  nonneg (daysUntilFull p) = true ∧
  (num_leb (num_sub (diskTotalBytes p) (currentDiskBytes p)) zero = true → daysUntilFull p = zero) ∧
  (is_nan (confidence p) = true ∨
   (num_leb zero (confidence p) = true ∧ num_leb (confidence p) (num_of_Z 1) = true)).

(** The difference of a finite and a positive number is a number. *)
Lemma difference_not_nan x y : isFinite x = true → is_positive y = true → is_nan (num_sub x y) = true → False.
Proof.
  destruct x as [sx|sx| |sx m e], y as [[]|[]| |[] m' e']; try done; try (by destruct sx). intros _ _.
  unfold num_sub, SFsub, binary_normalize. destruct (_ - _) as [|p|p]; [done| |].
  - by destruct (binary_round_sign false p (Z.min e e')) as [->|[->|(? & ? & ->)]].
  - by destruct (binary_round_sign true p (Z.min e e')) as [->|[->|(? & ? & ->)]].
Qed.

Lemma confidence_range variance residual :
  let c := if num_leb variance zero then zero
           else math_min (math_max (num_sub (num_of_Z 1) (num_div residual variance)) zero) (num_of_Z 1) in
  is_nan c = true ∨ (num_leb zero c = true ∧ num_leb c (num_of_Z 1) = true).
Proof.
  cbn zeta. destruct (num_leb variance zero); [by right|]. generalize (num_sub (num_of_Z 1) (num_div residual variance)).
  intros c. destruct (is_nan c) eqn:Hc; [left; by destruct c|right; by apply unit_clamp].
Qed.

Ltac no_prediction := split; [split; [by eauto|done]|split; [done|intros ? Hp; discriminate Hp]].

(** A disk prediction is given exactly when no reason against it is, from at
    least two samples, over at least two days by the [sampleDays] it reports; it
    starts from the usage of the latest sample, its growth and its total are
    finite and positive, the number of days is not negative (zero when the disk
    is already full), and the confidence is NaN or lies between 0 and 1. *)
Theorem disk_prediction_sound parse records fallbackDiskTotal :
  let st := analyzeDiskPrediction parse records fallbackDiskTotal in
  let samples := samples_of parse fallbackDiskTotal records in
  (prediction st = None ↔ is_Some (reason st)) ∧
  sampleCount st = Z.of_nat (length samples) ∧
  ∀ p, prediction st = Some p →
    2 ≤ sampleCount st ∧ num_ltb (sampleDays st) (num_of_Z 2) = false ∧ sound_prediction samples p.
Proof.
  cbn zeta. unfold analyzeDiskPrediction. set (samples := samples_of parse fallbackDiskTotal records).
  assert (StronglySorted (on_le timestamp) samples) as Hsort by apply sort_on_sorted.
  assert (∀ s, s ∈ samples → is_positive (s_disk s) = true) as Hpos.
  { intros s (r & _ & Hr)%samples_elem. by apply sample_positive in Hr as [? _]. }
  destruct samples as [|first l]; [no_prediction|].
  destruct (last (first :: l)) as [latest|] eqn:Hlast; [|by apply last_None in Hlast].
  pose proof (sorted_last _ _ Hsort Hlast) as [Hin Hmax]. cbn zeta.
  case_bool_decide as Hcount; [no_prediction|].
  destruct (num_ltb (days _) _) eqn:Hdays; [no_prediction|].
  destruct (num_leb (sum ((λ x, square _) <$> _)) zero) eqn:Hden; [no_prediction|].
  set (growth := num_div _ _). destruct (negb (isFinite growth) || num_leb growth zero) eqn:Hg; [no_prediction|].
  set (total := or_else _ _). destruct (negb (isFinite total) || num_leb total zero) eqn:Ht; [no_prediction|].
  apply orb_false_iff in Hg as [Hgf%negb_false_iff Hg], Ht as [Htf%negb_false_iff Ht].
  assert (∀ x, isFinite x = true → is_nan x = false) as Hfn by (by intros []).
  assert (is_positive growth = true) by (apply not_leb_positive; [by apply Hfn|done]).
  assert (is_positive total = true) by (apply not_leb_positive; [by apply Hfn|done]).
  destruct (num_leb (num_sub total (s_disk latest)) zero) eqn:Hrem.
  - split; [split; [done|by intros []]|]. split; [done|]. intros p [= <-]. split; [cbn [sampleCount]; lia|]. split; [done|].
    split_and!; try done; [by exists latest|by right].
  - split; [split; [done|by intros []]|]. split; [done|]. intros p [= <-]. split; [cbn [sampleCount]; lia|]. split; [done|].
    split_and!; try done; [by exists latest| | |].
    + cbn [daysUntilFull]. destruct (is_nan (num_sub total (s_disk latest))) eqn:Hn.
      * exfalso. apply (difference_not_nan total (s_disk latest)); [done| |done].
        by apply Hpos.
      * apply num_div_nonneg_r; [by apply positive_nonneg, not_leb_positive|done|done].
    + cbn [currentDiskBytes diskTotalBytes]. intros He. congruence.
    + apply confidence_range.
Qed.

End Prediction.
