(* ===== verification/SharedCache.v ===== *)
(** * The shared cache ([glass-shared/services/cache.service.ts])

    [SharedCache] is a bounded cache with a time to live, reference counts
    and least-recently-used eviction.  Clock readings ([Date.now()], integral
    milliseconds) are arguments; an operation that reads the clock twice takes
    two readings.  [onEvict] callbacks are recorded as the list of calls made.
    The closures returned by [retain] are heap objects of the model: a closure
    is an index into [releasers], which holds its key and its [released] flag.
    The class [PromiseCache] of the same source is in the file [PromiseCache]. *)

From S2P Require Import Prelude JsMap.

Open Scope Z_scope.

Module SharedCache.

Section cache.
Context {T : Type}.

Record SharedCacheOptions := mkOptions {
  maxSize : Z;
  ttl : Z;
  cleanupInterval : option Z;
  opt_canEvict : option (T → bool);
  opt_onEvict : bool;
}.

Record SharedCacheRecord := mkRecord {
  value : T;
  createdAt : Z;
  expiresAt : Z;
  lastAccessedAt : Z;
  references : Z;
}.

Record t := mkCache {
  entries : jsmap string SharedCacheRecord;
  cleanupTimer : bool;
  evictions : list (T * string);
  releasers : list (string * bool);
}.

Definition with_entries (es : jsmap string SharedCacheRecord) (c : t) : t :=
  mkCache es (cleanupTimer c) (evictions c) (releasers c).

Definition constructor (hasWindow : bool) (o : SharedCacheOptions) : t :=
  mkCache []
    (hasWindow && match cleanupInterval o with Some i => bool_decide (0 < i) | None => false end)
    [] [].

Definition size (c : t) : Z := jm_size (entries c).

Definition canEvict (o : SharedCacheOptions) (entry : SharedCacheRecord) : bool :=
  if bool_decide (references entry > 0) then false
  else match opt_canEvict o with Some f => f (value entry) | None => true end.

Definition evict (o : SharedCacheOptions) (key : string) (entry : SharedCacheRecord) (c : t) : t :=
  if jm_has key (entries c)
  then mkCache (jm_delete key (entries c)) (cleanupTimer c)
         (evictions c ++ if opt_onEvict o then [(value entry, key)] else [])
         (releasers c)
  else c.

Definition touch (now : Z) (e : SharedCacheRecord) : SharedCacheRecord :=
  mkRecord (value e) (createdAt e) (expiresAt e) now (references e).

Definition with_references (f : Z → Z) (e : SharedCacheRecord) : SharedCacheRecord :=
  mkRecord (value e) (createdAt e) (expiresAt e) (lastAccessedAt e) (f (references e)).

Definition get (o : SharedCacheOptions) (now : Z) (key : string) (c : t) : option T * t :=
  match jm_get key (entries c) with
  | None => (None, c)
  | Some entry =>
      if bool_decide (expiresAt entry ≤ now) && canEvict o entry
      then (None, evict o key entry c)
      else (Some (value entry), with_entries (jm_alter (touch now) key (entries c)) c)
  end.

Definition expired (o : SharedCacheOptions) (now : Z) (kv : string * SharedCacheRecord) : bool :=
  bool_decide (expiresAt kv.2 ≤ now) && canEvict o kv.2.

(** The second loop of [sweep]: evict while the cache is over capacity. *)
Fixpoint evict_idle (o : SharedCacheOptions) (idle : jsmap string SharedCacheRecord) (c : t) : t :=
  match idle with
  | [] => c
  | (key, entry) :: idle =>
      if bool_decide (size c ≤ maxSize o) then c
      else evict_idle o idle (evict o key entry c)
  end.

Definition sweep_expired (o : SharedCacheOptions) (now : Z) (c : t) : t :=
  foldl (λ c kv, if expired o now kv then evict o kv.1 kv.2 c else c) c (entries c).

Definition idleEntries (o : SharedCacheOptions) (c : t) : jsmap string SharedCacheRecord :=
  sort_on (λ kv, lastAccessedAt kv.2) (bfilter (λ kv, canEvict o kv.2) (entries c)).

Definition sweep (o : SharedCacheOptions) (now : Z) (c : t) : t :=
  let c1 := sweep_expired o now c in
  if bool_decide (size c1 ≤ maxSize o) then c1
  else evict_idle o (idleEntries o c1) c1.

Definition set (o : SharedCacheOptions) (now now' : Z) (key : string) (v : T) (c : t) : T * t :=
  let previous := jm_get key (entries c) in
  let entry := mkRecord v
    (match previous with Some p => createdAt p | None => now end)
    (now + ttl o) now
    (match previous with Some p => references p | None => 0 end) in
  (v, sweep o now' (with_entries (jm_set key entry (entries c)) c)).

(** [createValue] may itself use the cache. *)
Definition getOrCreate (o : SharedCacheOptions) (now0 now now' : Z) (key : string)
    (createValue : t → T * t) (c : t) : T * t :=
  match get o now0 key c with
  | (Some cached, c') => (cached, c')
  | (None, c') => let '(v, c'') := createValue c' in set o now now' key v c''
  end.

(** [retain] returns the release closure: [None] is the closure that does
    nothing, [Some h] the [h]-th closure with its own [released] flag. *)
Definition retain (key : string) (c : t) : option nat * t :=
  match jm_get key (entries c) with
  | None => (None, c)
  | Some _ =>
      (Some (length (releasers c)),
       mkCache (jm_alter (with_references (λ r, r + 1)) key (entries c)) (cleanupTimer c)
         (evictions c) (releasers c ++ [(key, false)]))
  end.

Definition release (o : SharedCacheOptions) (now : Z) (h : nat) (c : t) : t :=
  match releasers c !! h with
  | Some (key, false) =>
      sweep o now
        (mkCache (jm_alter (with_references (λ r, Z.max 0 (r - 1))) key (entries c))
           (cleanupTimer c) (evictions c) (<[h := (key, true)]> (releasers c)))
  | _ => c
  end.

Definition delete (o : SharedCacheOptions) (key : string) (c : t) : t :=
  match jm_get key (entries c) with
  | Some entry => evict o key entry c
  | None => c
  end.

Definition clear (o : SharedCacheOptions) (c : t) : t :=
  foldl (λ c kv, evict o kv.1 kv.2 c) c (entries c).

Definition dispose (o : SharedCacheOptions) (c : t) : t :=
  clear o (mkCache (entries c) false (evictions c) (releasers c)).

(** ** Runs of a cache *)

Inductive op :=
  | OpGet (now : Z) (key : string)
  | OpSet (now now' : Z) (key : string) (v : T)
  | OpRetain (key : string)
  | OpRelease (now : Z) (h : nat)
  | OpSweep (now : Z)
  | OpDelete (key : string)
  | OpClear
  | OpDispose.

Definition step (o : SharedCacheOptions) (x : op) (c : t) : t :=
  match x with
  | OpGet now key => (get o now key c).2
  | OpSet now now' key v => (set o now now' key v c).2
  | OpRetain key => (retain key c).2
  | OpRelease now h => release o now h c
  | OpSweep now => sweep o now c
  | OpDelete key => delete o key c
  | OpClear => clear o c
  | OpDispose => dispose o c
  end.

(** ** Invariant *)

Definition wf (c : t) : Prop :=
  jm_wf (entries c) ∧ ∀ k e, jm_get k (entries c) = Some e → 0 ≤ references e.

(** ** Bulk eviction

    Both loops of [sweep], and [clear], evict a list of entries. *)

Definition evict_all (o : SharedCacheOptions) (l : jsmap string SharedCacheRecord) (c : t) : t :=
  foldl (λ c kv, evict o kv.1 kv.2 c) c l.

Lemma evict_entries o k e c : entries (evict o k e c) = jm_delete k (entries c).
Proof.
  unfold evict. destruct (jm_has k (entries c)) eqn:Hk; [done|].
  symmetry. apply jm_delete_not_in. rewrite <-jm_has_true. by rewrite Hk.
Qed.

Lemma evict_releasers o k e c : releasers (evict o k e c) = releasers c.
Proof. unfold evict. by case_match. Qed.

Lemma evict_all_releasers o l c : releasers (evict_all o l c) = releasers c.
Proof.
  revert c. induction l as [|kv l IH]; intros c; simpl; [done|].
  by rewrite IH, evict_releasers.
Qed.

Lemma evict_all_entries o l c :
  entries (evict_all o l c)
  = bfilter (λ kv, negb (bool_decide (kv.1 ∈ l.*1))) (entries c).
Proof.
  revert c. induction l as [|[k e] l IH]; intros c.
  - symmetry. by apply bfilter_all.
  - change (evict_all o ((k, e) :: l) c) with (evict_all o l (evict o k e c)).
    rewrite IH, evict_entries. unfold jm_delete. rewrite bfilter_bfilter.
    apply bfilter_ext. intros kv _. simpl.
    repeat case_bool_decide; simpl; try done; set_solver.
Qed.

Lemma evict_all_evictions o l c :
  NoDup (l.*1) → l.*1 ⊆ (entries c).*1 →
  evictions (evict_all o l c)
  = evictions c ++ if opt_onEvict o then (λ kv, (value kv.2, kv.1)) <$> l else [].
Proof.
  revert c. induction l as [|[k e] l IH]; intros c; csimpl.
  - intros _ _. case_match; by rewrite app_nil_r.
  - intros [Hk Hnd]%NoDup_cons Hsub. rewrite IH.
    + unfold evict. replace (jm_has k (entries c)) with true.
      * simpl. rewrite <-(assoc_L _). f_equal. by destruct (opt_onEvict o).
      * symmetry. apply jm_has_true. set_solver.
    + done.
    + rewrite evict_entries. intros k' Hk'. apply jm_get_is_Some.
      rewrite jm_get_delete_ne by (intros ->; done).
      apply jm_get_is_Some. set_solver.
Qed.

Lemma evict_all_length o l c :
  jm_wf (entries c) → NoDup (l.*1) → l.*1 ⊆ (entries c).*1 →
  length (entries c) = (length (entries (evict_all o l c)) + length l)%nat.
Proof.
  revert c. induction l as [|[k e] l IH]; intros c Hwf; csimpl; [lia|].
  intros [Hk Hnd]%NoDup_cons Hsub.
  assert (k ∈ (entries c).*1) as Hin by set_solver.
  pose proof (jm_length_delete k (entries c) Hwf Hin) as Hlen.
  rewrite <-(evict_entries o k e c) in Hlen.
  specialize (IH (evict o k e c)). rewrite <-Hlen, IH; [lia|..].
  - rewrite evict_entries. eauto with js.
  - done.
  - rewrite evict_entries. intros k' Hk'. apply jm_get_is_Some.
    rewrite jm_get_delete_ne by (intros ->; done). apply jm_get_is_Some. set_solver.
Qed.

Lemma evict_all_app o l1 l2 c : evict_all o (l1 ++ l2) c = evict_all o l2 (evict_all o l1 c).
Proof. apply foldl_app. Qed.

Lemma sweep_expired_all o now c :
  sweep_expired o now c = evict_all o (bfilter (expired o now) (entries c)) c.
Proof.
  unfold sweep_expired, evict_all. generalize (entries c) as l. intros l. revert c.
  induction l as [|kv l IH]; intros c; simpl; [done|].
  rewrite IH. by destruct (expired o now kv).
Qed.

Lemma evict_idle_all o idle c :
  jm_wf (entries c) → NoDup (idle.*1) → idle.*1 ⊆ (entries c).*1 →
  evict_idle o idle c = evict_all o (take (Z.to_nat (size c - maxSize o)) idle) c.
Proof.
  revert c. induction idle as [|[k e] l IH]; intros c Hwf; csimpl.
  - intros _ _. by rewrite take_nil.
  - intros [Hk Hnd]%NoDup_cons Hsub. case_bool_decide as Hsz.
    + by replace (Z.to_nat (size c - maxSize o)) with 0%nat by lia.
    + assert (k ∈ (entries c).*1) as Hin by set_solver.
      pose proof (jm_length_delete k (entries c) Hwf Hin) as Hlen.
      assert (size (evict o k e c) = size c - 1) as Hs.
      { unfold size, jm_size. rewrite evict_entries. lia. }
      destruct (Z.to_nat (size c - maxSize o)) as [|n] eqn:Hn; [lia|]. csimpl.
      rewrite IH; [|rewrite evict_entries; eauto with js|done|].
      * unfold evict_all; simpl. do 3 f_equal. lia.
      * rewrite evict_entries. intros k' Hk'. apply jm_get_is_Some.
        rewrite jm_get_delete_ne by (intros ->; done). apply jm_get_is_Some. set_solver.
Qed.

(** What a sweep evicts, in order: the expired entries, then the least
    recently used evictable ones beyond the capacity. *)
Definition capacity_victims (o : SharedCacheOptions) (c1 : t) : jsmap string SharedCacheRecord :=
  take (Z.to_nat (size c1 - maxSize o)) (idleEntries o c1).

Definition victims (o : SharedCacheOptions) (now : Z) (c : t) : jsmap string SharedCacheRecord :=
  bfilter (expired o now) (entries c) ++ capacity_victims o (sweep_expired o now c).

Lemma idleEntries_elem o c kv :
  kv ∈ idleEntries o c ↔ canEvict o kv.2 = true ∧ kv ∈ entries c.
Proof. unfold idleEntries. by rewrite elem_of_sort_on, elem_of_bfilter. Qed.

Lemma idleEntries_keys o c : (idleEntries o c).*1 ≡ₚ (bfilter (λ kv, canEvict o kv.2) (entries c)).*1.
Proof. unfold idleEntries. by rewrite sort_on_perm. Qed.

Lemma idleEntries_NoDup o c : jm_wf (entries c) → NoDup ((idleEntries o c).*1).
Proof. intros. rewrite idleEntries_keys. by apply jm_wf_bfilter. Qed.

Lemma idleEntries_sub o c : (idleEntries o c).*1 ⊆ (entries c).*1.
Proof. intros k. rewrite idleEntries_keys. intros. by eapply elem_of_sublist, jm_keys_bfilter. Qed.

Lemma take_keys_sub (n : nat) (l : jsmap string SharedCacheRecord) : (take n l).*1 ⊆ l.*1.
Proof. rewrite fmap_take. apply sublist_subseteq, sublist_take. Qed.

Lemma sweep_expired_entries o now c :
  jm_wf (entries c) →
  entries (sweep_expired o now c) = bfilter (λ kv, negb (expired o now kv)) (entries c).
Proof.
  intros Hwf. rewrite sweep_expired_all, evict_all_entries. apply bfilter_ext.
  intros [k e] Hin. f_equal.
  pose proof (jm_keys_bfilter_elem (expired o now) k e _ Hwf Hin) as Hiff. simpl.
  case_bool_decide as Hk; destruct (expired o now (k, e)); naive_solver.
Qed.

Lemma sweep_expired_wf o now c : jm_wf (entries c) → jm_wf (entries (sweep_expired o now c)).
Proof. intros. rewrite sweep_expired_entries by done. eauto with js. Qed.

(** [sweep] evicts exactly its victims. *)
Lemma sweep_victims o now c :
  jm_wf (entries c) → sweep o now c = evict_all o (victims o now c) c.
Proof.
  intros Hwf. pose proof (sweep_expired_wf o now c Hwf) as Hwf1.
  unfold victims, sweep. rewrite evict_all_app, <-sweep_expired_all.
  unfold capacity_victims. case_bool_decide as Hsz.
  - replace (Z.to_nat _) with 0%nat by lia. done.
  - apply evict_idle_all; auto using idleEntries_NoDup, idleEntries_sub.
Qed.

Lemma capacity_victims_elem o now c kv :
  jm_wf (entries c) →
  kv ∈ capacity_victims o (sweep_expired o now c) →
  canEvict o kv.2 = true ∧ kv ∈ entries c ∧ expired o now kv = false.
Proof.
  intros Hwf Hin. unfold capacity_victims in Hin.
  apply (elem_of_sublist _ (idleEntries o (sweep_expired o now c))) in Hin; [|apply sublist_take].
  apply idleEntries_elem in Hin as [Hev Hin].
  rewrite sweep_expired_entries in Hin by done.
  apply elem_of_bfilter in Hin as [Hx Hin]. apply negb_true_iff in Hx. done.
Qed.

Lemma victims_elem o now c kv :
  jm_wf (entries c) → kv ∈ victims o now c → canEvict o kv.2 = true ∧ kv ∈ entries c.
Proof.
  intros Hwf [Hin|Hin]%elem_of_app.
  - apply elem_of_bfilter in Hin as [Hx Hin]. unfold expired in Hx. reflect_bools. done.
  - apply capacity_victims_elem in Hin; tauto.
Qed.

Lemma victims_sub o now c : jm_wf (entries c) → (victims o now c).*1 ⊆ (entries c).*1.
Proof.
  intros Hwf k. rewrite !list_elem_of_fmap. intros (kv & -> & Hin).
  apply victims_elem in Hin as [_ Hin]; [|done]. eauto.
Qed.

Lemma victims_NoDup o now c : jm_wf (entries c) → NoDup ((victims o now c).*1).
Proof.
  intros Hwf. unfold victims. rewrite fmap_app. apply NoDup_app. split_and!.
  - by apply jm_wf_bfilter.
  - intros k Hk1 (kv & -> & Hk2)%list_elem_of_fmap.
    apply capacity_victims_elem in Hk2 as (_ & Hin & Hx); [|done].
    destruct kv as [k e]. apply (jm_keys_bfilter_elem _ k e) in Hk1; [|done..].
    simpl in *. congruence.
  - unfold capacity_victims. rewrite fmap_take.
    eapply sublist_NoDup, sublist_take. by apply idleEntries_NoDup, sweep_expired_wf.
Qed.

Lemma sweep_entries o now c :
  jm_wf (entries c) →
  entries (sweep o now c)
  = bfilter (λ kv, negb (bool_decide (kv.1 ∈ (victims o now c).*1))) (entries c).
Proof. intros. by rewrite sweep_victims, evict_all_entries. Qed.

Lemma sweep_releasers o now c : jm_wf (entries c) → releasers (sweep o now c) = releasers c.
Proof. intros. by rewrite sweep_victims, evict_all_releasers. Qed.

(** The lookups after a sweep: a key keeps its entry unless it is a victim. *)
Lemma sweep_get o now c k :
  jm_wf (entries c) →
  jm_get k (entries (sweep o now c))
  = if bool_decide (k ∈ (victims o now c).*1) then None else jm_get k (entries c).
Proof.
  intros Hwf. rewrite sweep_entries, jm_get_bfilter by done. simpl.
  case_bool_decide as Hk; simpl; destruct (jm_get k (entries c)); done.
Qed.

Lemma not_evictable_survives o now c k e :
  jm_wf (entries c) → jm_get k (entries c) = Some e → canEvict o e = false →
  jm_get k (entries (sweep o now c)) = Some e.
Proof.
  intros Hwf Hg Hev. rewrite sweep_get by done. case_bool_decide as Hk; [|done].
  apply list_elem_of_fmap in Hk as ([k' e'] & Heq & Hin). simpl in Heq. subst k'.
  apply victims_elem in Hin as [Hev' Hin]; [|done]. apply jm_elem_of in Hin; [|done].
  simpl in *. congruence.
Qed.

Lemma sweep_wf o now c : wf c → wf (sweep o now c).
Proof.
  intros [Hwf Href]. split.
  - rewrite sweep_entries by done. eauto with js.
  - intros k e. rewrite sweep_get by done. case_bool_decide; [done|]. apply Href.
Qed.

Lemma evict_all_wf o l c : wf c → wf (evict_all o l c).
Proof.
  intros [Hwf Href]. unfold wf. rewrite evict_all_entries. split; [eauto with js|].
  intros k e. rewrite jm_get_bfilter by done. case_match eqn:Hg; [|done].
  case_match; intros; simplify_eq. eauto.
Qed.

Lemma evict_wf o k e c : wf c → wf (evict o k e c).
Proof. apply (evict_all_wf o [(k, e)]). Qed.

Lemma alter_wf f k c :
  (∀ e, 0 ≤ references e → 0 ≤ references (f e)) →
  wf c → wf (with_entries (jm_alter f k (entries c)) c).
Proof.
  intros Hf [Hwf Href]. split; simpl; [eauto with js|].
  intros k' e. rewrite jm_get_alter. case_bool_decide; [subst|eauto].
  destruct (jm_get k (entries c)) eqn:Hg; simpl; intros; simplify_eq. eauto.
Qed.

Lemma wf_entries c c' : entries c = entries c' → wf c → wf c'.
Proof. unfold wf. by intros ->. Qed.

#[local] Hint Resolve sweep_wf evict_wf : js.

Lemma step_wf o x c : wf c → wf (step o x c).
Proof.
  intros Hwf. destruct x as [now key|now now' key v|key|now h|now|key| |]; simpl; [..|by eauto with js| | |].
  - unfold get. destruct (jm_get key (entries c)); [|done].
    case_match; simpl; [eauto with js|]. by apply alter_wf.
  - apply sweep_wf. destruct Hwf as [Hwf Href]. split; simpl; [eauto with js|].
    intros k e. rewrite jm_get_set. case_bool_decide; [|eauto].
    intros; simplify_eq/=. destruct (jm_get key (entries c)) eqn:Hg; [eauto|lia].
  - unfold retain. case_match; simpl; [|done].
    eapply wf_entries; [|apply (alter_wf (with_references (λ r, r + 1)) key c)]; simpl; [done|lia|done].
  - unfold release. repeat case_match; try done. apply sweep_wf.
    eapply wf_entries;
      [|apply (alter_wf (with_references (λ r, Z.max 0 (r - 1))) s c)]; simpl; [done|lia|done].
  - unfold delete. case_match; eauto with js.
  - by apply evict_all_wf.
  - apply (evict_all_wf o (entries c)). eapply wf_entries; [|done]. done.
Qed.

Lemma runs_wf o ops c : wf c → wf (runs (step o) ops c).
Proof. apply runs_invariant. intros. by apply step_wf. Qed.

Lemma constructor_wf w o : wf (constructor w o).
Proof. split; [constructor|done]. Qed.

(** ** Capacity and eviction order *)

Lemma sweep_length o now c :
  jm_wf (entries c) →
  length (entries c) = (length (entries (sweep o now c)) + length (victims o now c))%nat.
Proof.
  intros. rewrite sweep_victims by done.
  by apply evict_all_length; [|apply victims_NoDup|apply victims_sub].
Qed.

Lemma sweep_size o now c :
  jm_wf (entries c) →
  size (sweep o now c)
  = size (sweep_expired o now c) - Z.of_nat (length (capacity_victims o (sweep_expired o now c))).
Proof.
  intros Hwf. unfold size, jm_size.
  pose proof (sweep_length o now c Hwf) as H1. unfold victims in H1. rewrite length_app in H1.
  pose proof (length_bfilter_negb (expired o now) (entries c)) as H2.
  rewrite <-(sweep_expired_entries o now c) in H2 by done. lia.
Qed.

Lemma sweep_capacity_or_pinned o now c :
  jm_wf (entries c) →
  size (sweep o now c) ≤ maxSize o
  ∨ ∀ k e, jm_get k (entries (sweep o now c)) = Some e → canEvict o e = false.
Proof.
  intros Hwf. pose proof (sweep_size o now c Hwf) as Hsz.
  set (c1 := sweep_expired o now c) in *.
  destruct (decide (length (idleEntries o c1) ≤ Z.to_nat (size c1 - maxSize o))%nat) as [Hle|Hgt].
  - right. intros k e. rewrite sweep_get by done. case_bool_decide as Hk; [done|].
    intros Hg. destruct (canEvict o e) eqn:Hev; [|done]. exfalso. apply Hk.
    unfold victims. rewrite fmap_app, elem_of_app.
    destruct (expired o now (k, e)) eqn:Hx.
    + left. apply (jm_keys_bfilter_elem _ k e); [done|by apply jm_get_elem_of|done].
    + right. unfold capacity_victims. fold c1. rewrite take_ge by lia.
      rewrite list_elem_of_fmap. exists (k, e). split; [done|].
      apply idleEntries_elem. split; [done|]. unfold c1.
      rewrite sweep_expired_entries by done. apply elem_of_bfilter.
      rewrite Hx. split; [done|]. by apply jm_get_elem_of.
  - left. unfold capacity_victims in Hsz. rewrite length_take in Hsz. lia.
Qed.

(** Never more than needed: when a live entry is evicted the cache is left
    exactly full. *)
Lemma sweep_minimal o now c :
  jm_wf (entries c) →
  capacity_victims o (sweep_expired o now c) ≠ [] → 0 ≤ maxSize o →
  maxSize o ≤ size (sweep o now c).
Proof.
  intros Hwf Hne Hmax. rewrite sweep_size by done.
  unfold capacity_victims in *. rewrite length_take.
  destruct (Z.to_nat _) eqn:Hn; [done|]. lia.
Qed.

Lemma sweep_order o now c k e k' e' :
  jm_wf (entries c) →
  jm_get k (entries c) = Some e → jm_get k (entries (sweep o now c)) = None →
  expired o now (k, e) = false →
  jm_get k' (entries (sweep o now c)) = Some e' → canEvict o e' = true →
  lastAccessedAt e ≤ lastAccessedAt e'.
Proof.
  intros Hwf Hg Hgone Hx Hg' Hev'. rewrite sweep_get in Hgone by done.
  case_bool_decide as Hk; [|congruence].
  rewrite sweep_get in Hg' by done. case_bool_decide as Hk'; [done|].
  unfold victims in *. rewrite fmap_app, elem_of_app in Hk, Hk'.
  set (c1 := sweep_expired o now c) in *.
  destruct Hk as [Hk|Hk].
  { apply (jm_keys_bfilter_elem _ k e) in Hk; [|done|by apply jm_get_elem_of]. congruence. }
  apply list_elem_of_fmap in Hk as ([k2 e2] & Heq & Hin). simpl in Heq. subst k2.
  assert (e2 = e) as ->.
  { apply capacity_victims_elem in Hin as (_ & Hin & _); [|done].
    apply jm_elem_of in Hin; [|done]. congruence. }
  assert ((k', e') ∈ idleEntries o c1) as Hidle.
  { apply idleEntries_elem. split; [done|]. unfold c1. rewrite sweep_expired_entries by done.
    apply elem_of_bfilter. split; [|by apply jm_get_elem_of].
    destruct (expired o now (k', e')) eqn:Hx'; [|done]. exfalso. apply Hk'. left.
    apply (jm_keys_bfilter_elem _ k' e'); [done|by apply jm_get_elem_of|done]. }
  unfold capacity_victims in Hin, Hk'.
  rewrite <-(take_drop (Z.to_nat (size c1 - maxSize o)) (idleEntries o c1)) in Hidle.
  apply elem_of_app in Hidle as [Hidle|Hidle].
  { exfalso. apply Hk'. right. rewrite list_elem_of_fmap. by exists (k', e'). }
  pose proof (sort_on_sorted (λ kv, lastAccessedAt kv.2)
    (bfilter (λ kv, canEvict o kv.2) (entries c1))) as Hs.
  fold (idleEntries o c1) in Hs.
  rewrite <-(take_drop (Z.to_nat (size c1 - maxSize o)) (idleEntries o c1)) in Hs.
  by apply (StronglySorted_app_1_elem_of _ _ _ _ _ Hs Hin Hidle).
Qed.

(** ** Reference counts *)

(** Number of release closures of [k] that have not run yet. *)
Definition live (k : string) (c : t) : Z :=
  Z.of_nat (length (bfilter (λ r, bool_decide (r = (k, false))) (releasers c))).

Definition refcounted (c : t) : Prop :=
  jm_wf (entries c) ∧
  ∀ k, live k c = match jm_get k (entries c) with Some e => references e | None => 0 end.

(** The operations that never remove an entry against its references. *)
Definition respects_references (x : op) : Prop :=
  match x with OpDelete _ | OpClear | OpDispose => False | _ => True end.

Lemma canEvict_unreferenced o e : canEvict o e = true → references e ≤ 0.
Proof. unfold canEvict. case_bool_decide; [done|lia]. Qed.

Lemma sweep_refcounted o now c : refcounted c → refcounted (sweep o now c).
Proof.
  intros [Hwf Href]. split; [rewrite sweep_entries by done; eauto with js|].
  intros k. unfold live. rewrite sweep_releasers, sweep_get by done.
  specialize (Href k). unfold live in Href. rewrite Href. case_bool_decide as Hk; [|done].
  apply list_elem_of_fmap in Hk as ([k2 e] & Heq & Hin). simpl in Heq. subst k2.
  apply victims_elem in Hin as [Hev Hin]; [|done]. apply jm_elem_of in Hin; [|done].
  rewrite Hin in Href |- *. apply canEvict_unreferenced in Hev. simpl in Hev. lia.
Qed.

Lemma get_refcounted o now key c : refcounted c → refcounted (get o now key c).2.
Proof.
  intros [Hwf Href]. unfold get. destruct (jm_get key (entries c)) as [e|] eqn:Hg; [|done].
  destruct (_ && _) eqn:Hx; simpl.
  - reflect_bools. split; [rewrite evict_entries; eauto with js|].
    intros k. unfold live. rewrite evict_releasers, evict_entries, jm_get_delete.
    specialize (Href k). unfold live in Href. rewrite Href.
    case_bool_decide as Hk; [subst k|done]. rewrite Hg in Href |- *.
    match goal with H : canEvict _ _ = _ |- _ => apply canEvict_unreferenced in H end. lia.
  - split; simpl; [eauto with js|].
    intros k. specialize (Href k). unfold live in *. simpl. rewrite Href, jm_get_alter.
    destruct (decide (k = key)) as [->|Hne].
    + rewrite bool_decide_eq_true_2 by done. by rewrite Hg.
    + by rewrite bool_decide_eq_false_2 by done.
Qed.

Lemma set_refcounted o now now' key v c : refcounted c → refcounted (set o now now' key v c).2.
Proof.
  intros [Hwf Href]. apply sweep_refcounted. split; simpl; [eauto with js|].
  intros k. specialize (Href k). unfold live in *. simpl. rewrite Href, jm_get_set.
  case_bool_decide; [subst|done]. simpl. by destruct (jm_get key (entries c)).
Qed.

Lemma retain_refcounted key c : refcounted c → refcounted (retain key c).2.
Proof.
  intros [Hwf Href]. unfold retain. destruct (jm_get key (entries c)) as [e|] eqn:Hg; [|done].
  split; simpl; [eauto with js|]. intros k. specialize (Href k). unfold live in *. simpl.
  rewrite bfilter_app, length_app, jm_get_alter. simpl.
  destruct (decide (k = key)) as [->|Hne].
  - rewrite (bool_decide_eq_true_2 (key = key)) by done. rewrite Hg in Href |- *. simpl.
    rewrite bool_decide_eq_true_2 by done. simpl. lia.
  - rewrite (bool_decide_eq_false_2 (k = key)) by done.
    rewrite bool_decide_eq_false_2 by congruence. simpl. lia.
Qed.

Lemma release_refcounted o now h c : refcounted c → refcounted (release o now h c).
Proof.
  intros [Hwf Href]. unfold release.
  destruct (releasers c !! h) as [[key []]|] eqn:Hh; [done| |done].
  apply sweep_refcounted. split; simpl; [eauto with js|]. intros k.
  pose proof (Href k) as Hk. unfold live in *. simpl.
  pose proof (length_bfilter_insert (λ r, bool_decide (r = (k, false))) _ _ _ (key, true) Hh) as Hl.
  simpl in Hl. rewrite (bool_decide_eq_false_2 ((key, true) = (k, false))) in Hl by congruence.
  rewrite jm_get_alter. destruct (decide (k = key)) as [->|Hne].
  - rewrite (bool_decide_eq_true_2 ((key, false) = _)) in Hl by done.
    rewrite (bool_decide_eq_true_2 (key = key)) by done.
    destruct (jm_get key (entries c)) as [e|]; simpl; [|lia]. lia.
  - rewrite (bool_decide_eq_false_2 ((key, false) = _)) in Hl by congruence.
    rewrite (bool_decide_eq_false_2 (k = key)) by done. lia.
Qed.

#[local] Hint Resolve sweep_refcounted get_refcounted set_refcounted
  retain_refcounted release_refcounted : js.

Lemma runs_refcounted o ops c :
  Forall respects_references ops → refcounted c → refcounted (runs (step o) ops c).
Proof.
  intros Hops Hc. eapply runs_invariant_cond; [|done|done].
  intros [] c' Hok Hc'; cbn [respects_references step] in *; try done; eauto with js.
Qed.

(** ** Insert and look up *)

(** How many entries cannot be evicted. *)
Definition pinned (o : SharedCacheOptions) (c : t) : Z :=
  jm_size (bfilter (λ kv, negb (canEvict o kv.2)) (entries c)).

Lemma fresh_not_victim o now now' key e c :
  jm_wf (entries c) → jm_get key (entries c) = None →
  (∀ kv, kv ∈ entries c → lastAccessedAt kv.2 ≤ now) →
  lastAccessedAt e = now → now' < expiresAt e → pinned o c < maxSize o →
  key ∉ (victims o now' (with_entries (entries c ++ [(key, e)]) c)).*1.
Proof.
  intros Hwf Hfresh Hlru He Hlive Hpin.
  set (c1 := with_entries (entries c ++ [(key, e)]) c).
  assert (jm_wf (entries c1)) as Hwf1.
  { simpl. rewrite <-jm_set_fresh by done. eauto with js. }
  assert (expired o now' (key, e) = false) as Hx.
  { unfold expired. simpl. by rewrite bool_decide_eq_false_2 by lia. }
  unfold victims. rewrite fmap_app, elem_of_app. intros [Hin|Hin].
  { apply (jm_keys_bfilter_elem _ key e) in Hin; [congruence|done|set_solver]. }
  unfold capacity_victims, idleEntries in Hin. unfold size, jm_size in Hin.
  rewrite sweep_expired_entries in Hin by done. simpl in Hin.
  rewrite bfilter_app in Hin. simpl in Hin. rewrite Hx in Hin. simpl in Hin.
  rewrite bfilter_app, length_app in Hin. simpl in Hin.
  set (rest := bfilter (λ kv, negb (expired o now' kv)) (entries c)) in *.
  assert (pinned o c = jm_size (bfilter (λ kv, negb (canEvict o kv.2)) rest)) as Hp.
  { unfold pinned, rest. rewrite bfilter_bfilter. f_equal. apply bfilter_ext.
    intros kv _. unfold expired. by destruct (canEvict o kv.2), (bool_decide _). }
  pose proof (length_bfilter_negb (λ kv, canEvict o kv.2) rest) as Hlen.
  unfold jm_size in Hp.
  assert (key ∉ rest.*1) as Hni.
  { intros Hk. apply jm_get_None in Hfresh. apply Hfresh.
    eapply elem_of_sublist; [done|apply jm_keys_bfilter]. }
  assert (∀ l', l' ⊆ rest → key ∉ l'.*1) as Hni'.
  { intros l' Hsub (kv & -> & Hk)%list_elem_of_fmap. apply Hni, list_elem_of_fmap. eauto. }
  destruct (canEvict o e); simpl in Hin.
  - rewrite sort_on_snoc_max in Hin.
    2: { intros kv Hkv. unfold on_le. simpl. rewrite He. apply Hlru.
         by apply elem_of_bfilter in Hkv as [_ [_ Hkv]%elem_of_bfilter]. }
    rewrite take_app_le in Hin by (rewrite length_sort_on; lia).
    apply take_keys_sub in Hin. revert Hin. apply Hni'. intros kv.
    rewrite elem_of_sort_on, elem_of_bfilter. tauto.
  - rewrite app_nil_r in Hin. apply take_keys_sub in Hin. revert Hin. apply Hni'. intros kv.
    rewrite elem_of_sort_on, elem_of_bfilter. tauto.
Qed.
End cache.
Arguments SharedCacheOptions : clear implicits.
Arguments SharedCacheRecord : clear implicits.
Arguments t : clear implicits.
Arguments op : clear implicits.

(** ** Properties *)

Section properties.
Context {T : Type} (o : SharedCacheOptions T).


(** A sweep evicts the least recently used entries and no more than
    needed: an entry evicted although its time to live has not passed was last
    accessed no later than any evictable entry that survives; and whenever
    such an entry is evicted the cache is left exactly full or fuller. *)
Theorem sweep_lru (now : Z) (c : t T) (k k' : string) (e e' : SharedCacheRecord T) :
  wf c → 0 ≤ maxSize o →
  jm_get k (entries c) = Some e → expired o now (k, e) = false →
  jm_get k (entries (sweep o now c)) = None →
  maxSize o ≤ size (sweep o now c) ∧
  (jm_get k' (entries (sweep o now c)) = Some e' → canEvict o e' = true →
   lastAccessedAt e ≤ lastAccessedAt e').
Proof.
  intros [Hwf _] Hmax Hg Hx Hgone. split; [|intros; by eapply sweep_order].
  apply sweep_minimal; [done| |done]. intros Hnil.
  rewrite sweep_get in Hgone by done. case_bool_decide as Hk; [|congruence].
  unfold victims in Hk. rewrite Hnil, app_nil_r in Hk.
  apply (jm_keys_bfilter_elem _ k e) in Hk; [congruence|done|by apply jm_get_elem_of].
Qed.

(** A sweep loses nothing silently: the entries before it are, as a
    multiset, the entries after it plus the evicted ones, and [onEvict] (when
    given) is called exactly once for each evicted entry, with its value and
    key; every evicted entry was evictable and every expired evictable entry
    is gone. *)
Theorem sweep_conservation (now : Z) (c : t T) :
  wf c →
  entries c ≡ₚ entries (sweep o now c) ++ victims o now c ∧
  evictions (sweep o now c)
  = evictions c ++ (if opt_onEvict o then (λ kv, (value kv.2, kv.1)) <$> victims o now c else []) ∧
  (∀ kv, kv ∈ victims o now c → canEvict o kv.2 = true) ∧
  (∀ kv, kv ∈ entries (sweep o now c) → expired o now kv = false).
Proof.
  intros [Hwf _]. split_and!.
  - apply NoDup_Permutation.
    + by eapply NoDup_fmap_1.
    + eapply (NoDup_fmap_1 fst). rewrite fmap_app. apply NoDup_app. split_and!.
      * rewrite sweep_entries by done. by apply jm_wf_bfilter.
      * intros k Hk Hv. rewrite <-jm_get_is_Some, sweep_get in Hk by done.
        rewrite bool_decide_eq_true_2 in Hk by done. by destruct Hk.
      * by apply victims_NoDup.
    + intros [k e]. rewrite elem_of_app. rewrite sweep_entries, elem_of_bfilter by done. split.
      * intros Hin. destruct (decide (k ∈ (victims o now c).*1)) as [Hk|Hk].
        -- right. apply list_elem_of_fmap in Hk as ([k2 e2] & Heq & Hv). simpl in Heq. subst k2.
           pose proof Hv as [_ Hin2]%victims_elem; [|done].
           apply jm_elem_of in Hin, Hin2; [|done..]. congruence.
        -- left. simpl. by rewrite bool_decide_eq_false_2.
      * intros [[_ ?]|Hv]; [done|]. by apply victims_elem in Hv as [_ ?].
  - rewrite sweep_victims by done. by apply evict_all_evictions; [apply victims_NoDup|apply victims_sub].
  - intros kv Hin. by apply victims_elem in Hin as [? _].
  - intros [k e] Hin. rewrite sweep_entries in Hin by done.
    apply elem_of_bfilter in Hin as [Hk Hin]. simpl in Hk. reflect_bools.
    destruct (expired o now (k, e)) eqn:Hx; [|done]. exfalso. apply Hk.
    unfold victims. rewrite fmap_app, elem_of_app. left.
    by apply (jm_keys_bfilter_elem _ k e).
Qed.

(** C7: reference counting: in a run that never deletes, clears or disposes,
    an entry's count is the number of its release closures that have not run,
    so the entry of every unreleased [retain] is still in the cache, whatever
    expiry, capacity pressure or replacement of its value happened. *)
Theorem retained_entry_present (w : bool) (ops : list (op T)) (h : nat) (k : string) :
  Forall respects_references ops →
  let c := runs (step o) ops (constructor w o) in
  releasers c !! h = Some (k, false) →
  ∃ e, jm_get k (entries c) = Some e ∧ references e = live k c ∧ 0 < references e.
Proof.
  intros Hops c Hh.
  assert (refcounted c) as [_ Hc] by (apply runs_refcounted; [done|split; [constructor|done]]).
  specialize (Hc k). assert (0 < live k c) as Hpos.
  { unfold live. assert ((k, false) ∈ bfilter (λ r, bool_decide (r = (k, false))) (releasers c)) as Hin.
    { apply elem_of_bfilter. split; [by apply bool_decide_eq_true_2|].
      by eapply list_elem_of_lookup_2. }
    destruct (bfilter _ _); [by apply not_elem_of_nil in Hin|simpl; lia]. }
  destruct (jm_get k (entries c)) as [e|]; [|lia]. exists e. split_and!; [done|lia|lia].
Qed.

(** Insert then look up: a value set under a new key is returned by a
    later [get] before its time to live passes, provided the pinned entries
    leave room for one more and no entry was touched after the insertion time;
    the sweep run by [set] never evicts the entry it has just inserted. *)
Theorem set_get (now now' now'' : Z) (key : string) (v : T) (c : t T) :
  wf c → jm_get key (entries c) = None →
  (∀ kv, kv ∈ entries c → lastAccessedAt kv.2 ≤ now) →
  now' < now + ttl o → now'' < now + ttl o → pinned o c < maxSize o →
  (get o now'' key (set o now now' key v c).2).1 = Some v.
Proof.
  intros [Hwf _] Hfresh Hlru Hlive Hlive' Hpin. unfold get, set. simpl.
  rewrite Hfresh. rewrite jm_set_fresh by done.
  set (e := mkRecord v now (now + ttl o) now 0).
  rewrite sweep_get.
  - rewrite bool_decide_eq_false_2; [|by apply (fresh_not_victim _ now)].
    simpl. rewrite <-jm_set_fresh by done. rewrite jm_get_set_eq. simpl.
    by rewrite bool_decide_eq_false_2 by lia.
  - simpl. rewrite <-jm_set_fresh by done. by apply jm_wf_set.
Qed.
End properties.

(** ** Witnesses *)

Definition example_options : SharedCacheOptions nat := mkOptions 1 10 None None true.

Definition example_cache : t nat :=
  runs (step example_options) [OpSet 0 0 "a" 1%nat; OpRetain "a"; OpSet 1 1 "b" 2%nat]
    (constructor false example_options).

Definition two_entries : t nat :=
  mkCache [("a"%string, mkRecord 1%nat 0 100 0 0); ("b"%string, mkRecord 2%nat 0 100 5 0)] false [] [].

Lemma sweep_lru_witness :
  maxSize example_options ≤ size (sweep example_options 7 two_entries) ∧
  (jm_get "b"%string (entries (sweep example_options 7 two_entries))
     = Some (mkRecord 2%nat 0 100 5 0) →
   canEvict example_options (mkRecord 2%nat 0 100 5 0) = true → 0 ≤ 5).
Proof.
  refine (sweep_lru example_options 7 two_entries "a" "b"
    (mkRecord 1%nat 0 100 0 0) (mkRecord 2%nat 0 100 5 0) _ _ eq_refl eq_refl eq_refl).
  - split; [vm_compute; repeat constructor; set_solver|].
    intros k e Hg%jm_get_elem_of. vm_compute in Hg. set_solver.
  - vm_compute. done.
Defined.

Lemma sweep_conservation_witness :
  entries two_entries
  ≡ₚ entries (sweep example_options 7 two_entries) ++ victims example_options 7 two_entries ∧
  evictions (sweep example_options 7 two_entries) = [(1%nat, "a"%string)] ∧
  (∀ kv, kv ∈ victims example_options 7 two_entries → canEvict example_options kv.2 = true) ∧
  (∀ kv, kv ∈ entries (sweep example_options 7 two_entries) → expired example_options 7 kv = false).
Proof.
  refine (sweep_conservation example_options 7 two_entries _).
  split; [vm_compute; repeat constructor; set_solver|].
  intros k e Hg%jm_get_elem_of. vm_compute in Hg. set_solver.
Defined.

Lemma retained_entry_present_witness :
  ∃ e, jm_get "a"%string (entries (runs (step example_options)
         [OpSet 0 0 "a" 1%nat; OpRetain "a"; OpSet 1 1 "b" 2%nat; OpSweep 100]
         (constructor false example_options))) = Some e ∧
       references e = 1 ∧ 0 < references e.
Proof.
  refine (retained_entry_present example_options false
    [OpSet 0 0 "a" 1%nat; OpRetain "a"; OpSet 1 1 "b" 2%nat; OpSweep 100] 0 "a" _ eq_refl).
  repeat constructor.
Defined.

Lemma set_get_witness :
  (get example_options 8 "b" (set example_options 5 6 "b" 2%nat
     (runs (step example_options) [OpSet 0 0 "a" 1%nat] (constructor false example_options))).2).1
  = Some 2%nat.
Proof.
  refine (set_get example_options 5 6 8 "b" 2%nat
    (runs (step example_options) [OpSet 0 0 "a" 1%nat] (constructor false example_options))
    _ eq_refl _ _ _ _).
  - apply runs_wf, constructor_wf.
  - intros kv Hin. change (kv ∈ [("a"%string, mkRecord 1%nat 0 10 0 0)]) in Hin.
    apply list_elem_of_singleton in Hin. subst kv. vm_compute. done.
  - vm_compute. done.
  - vm_compute. done.
  - vm_compute. done.
Defined.

(** Reference counts are per key, not per entry: when a retained entry is
    deleted and its key inserted and retained again, the first closure's
    release takes the new holder's reference away, and the next sweep evicts
    an entry whose own [retain] is still unreleased. *)
Theorem stale_release_drops_new_reference :
  let c := runs (step example_options)
    [OpSet 0 0 "k" 1%nat; OpRetain "k"; OpDelete "k";
     OpSet 1 1 "k" 2%nat; OpRetain "k"; OpRelease 2 0; OpSweep 20]
    (constructor false example_options) in
  releasers c !! 1%nat = Some ("k"%string, false) ∧ jm_get "k"%string (entries c) = None.
Proof. by vm_compute. Qed.
End SharedCache.
