(* ===== verification/PromiseCache.v ===== *)
(** * The promise cache ([glass-shared/services/cache.service.ts])

    [PromiseCache] shares one promise per key among concurrent callers.  It is
    a client of [SharedCache]: [KeyedCache] states what a cache promises to its
    clients, [SharedCache] implements it, and the lemmas on [PromiseCache] use
    the interface only.

    A promise is named by its position in [promises], which records its key
    and how far it has come.  The [catch] and [finally] callbacks attached to a
    promise are events; [createPromise] runs inside [getOrCreate] and may
    itself use the cache, so the event of a call carries the calls made
    meanwhile. *)

From S2P Require Import Prelude JsMap SharedCache.

Open Scope Z_scope.

(** ** The interface of a keyed cache *)

Class CacheOps (C V : Type) := {
  cache_get : Z → string → C → option V * C;
  cache_set : Z → Z → string → V → C → V * C;
  cache_delete : string → C → C;
  cache_clear : C → C;
  (** The value stored under a key with the time it expires. *)
  cache_peek : string → C → option (V * Z);
  cache_inv : C → Prop;
  cache_capacity : Z;
  cache_ttl : Z;
}.

(** Every key in use belongs to a list that fits into the cache. *)
Definition fits {C V} `{CacheOps C V} (Ks : list string) (c : C) : Prop :=
  (∀ k, is_Some (cache_peek k c) → k ∈ Ks) ∧ Z.of_nat (length Ks) ≤ cache_capacity.

Class KeyedCache (C V : Type) `{CacheOps C V} : Prop := {
  get_inv now k c : cache_inv c → cache_inv (cache_get now k c).2;
  set_inv now now' k v c : cache_inv c → cache_inv (cache_set now now' k v c).2;
  delete_inv k c : cache_inv c → cache_inv (cache_delete k c);
  clear_inv c : cache_inv c → cache_inv (cache_clear c);
  (** [get] answers what is stored, unless it has expired. *)
  get_hit now k c v c' :
    cache_get now k c = (Some v, c') → ∃ e, cache_peek k c = Some (v, e);
  get_live now k c v e :
    cache_peek k c = Some (v, e) → now < e → (cache_get now k c).1 = Some v;
  get_peek now k k' c :
    cache_peek k' (cache_get now k c).2
    = if bool_decide (k = k' ∧ (cache_get now k c).1 = None) then None else cache_peek k' c;
  (** [set] stores its value and may drop others. *)
  set_peek now now' k v k' c w e :
    cache_inv c → cache_peek k' (cache_set now now' k v c).2 = Some (w, e) →
    (k' = k ∧ w = v ∧ e = now + cache_ttl) ∨ (k' ≠ k ∧ cache_peek k' c = Some (w, e));
  (** It drops nothing that is live while the keys fit. *)
  set_keeps Ks now now' k v k' c w e :
    cache_inv c → fits Ks c → k ∈ Ks →
    cache_peek k' c = Some (w, e) → k' ≠ k → now' < e →
    cache_peek k' (cache_set now now' k v c).2 = Some (w, e);
  set_stores Ks now now' k v c :
    cache_inv c → fits Ks c → k ∈ Ks → now' < now + cache_ttl →
    cache_peek k (cache_set now now' k v c).2 = Some (v, now + cache_ttl);
  delete_peek k k' c :
    cache_peek k' (cache_delete k c) = if bool_decide (k = k') then None else cache_peek k' c;
  clear_peek k c : cache_peek k (cache_clear c) = None;
}.

(** ** [SharedCache] implements the interface *)

Section shared.
Import SharedCache.
Context {T : Type} (o : SharedCacheOptions T).

Definition peek (k : string) (c : t T) : option (T * Z) :=
  (λ e, (value e, expiresAt e)) <$> jm_get k (entries c).

#[local] Instance shared_cache_ops : CacheOps (t T) T := {|
  cache_get := get o; cache_set := set o; cache_delete := delete o; cache_clear := clear o;
  cache_peek := peek; cache_inv := wf; cache_capacity := maxSize o; cache_ttl := ttl o |}.

(** While all keys fit, a sweep evicts expired entries only. *)
Lemma sweep_fits (Ks : list string) now c k e :
  jm_wf (entries c) → (entries c).*1 ⊆ Ks → Z.of_nat (length Ks) ≤ maxSize o →
  jm_get k (entries c) = Some e → now < expiresAt e →
  jm_get k (entries (sweep o now c)) = Some e.
Proof using.
  intros Hwf Hsub Hmax Hk Hlive. rewrite sweep_get by done.
  rewrite bool_decide_eq_false_2; [done|]. unfold victims, capacity_victims.
  assert (size (sweep_expired o now c) ≤ maxSize o) as Hsize.
  { assert (length (entries (sweep_expired o now c)) ≤ length Ks)%nat; [|unfold size, jm_size; lia].
    rewrite <-(length_fmap fst). apply submseteq_length, NoDup_submseteq.
    - by apply sweep_expired_wf.
    - intros k' Hk'. rewrite sweep_expired_entries in Hk' by done.
      apply Hsub. by eapply elem_of_sublist, jm_keys_bfilter. }
  replace (Z.to_nat _) with 0%nat by lia. rewrite take_0, app_nil_r.
  intros Hin. apply (jm_keys_bfilter_elem _ k e) in Hin; [|done|by apply jm_get_elem_of].
  unfold expired in Hin. reflect_bools. simpl in *. lia.
Qed.

Lemma fits_keys Ks c : fits Ks c → (entries c).*1 ⊆ Ks.
Proof using.
  intros [Hsub _] k Hk. apply Hsub. cbn [cache_peek shared_cache_ops]. unfold peek.
  by apply fmap_is_Some, jm_get_is_Some.
Qed.

Lemma set_entry_fits Ks now now' key v c k e :
  wf c → fits Ks c → key ∈ Ks →
  jm_get k (jm_set key (mkRecord v
      (match jm_get key (entries c) with Some p => createdAt p | None => now end)
      (now + ttl o) now
      (match jm_get key (entries c) with Some p => references p | None => 0 end)) (entries c))
    = Some e →
  now' < expiresAt e → jm_get k (entries (set o now now' key v c).2) = Some e.
Proof using.
  intros [Hwf _] Hfits Hkey Hk Hlive. apply (sweep_fits Ks); simpl; [by apply jm_wf_set| |apply Hfits|done|done].
  intros k' Hk'%jm_get_is_Some. rewrite jm_get_set in Hk'. case_bool_decide; [by subst|].
  by apply (fits_keys Ks c), jm_get_is_Some.
Qed.

#[local] Instance shared_cache_laws : KeyedCache (t T) T.
Proof using.
  split; cbn [cache_get cache_set cache_delete cache_clear cache_peek cache_inv cache_capacity
    cache_ttl shared_cache_ops]; unfold peek.
  - intros now k c. apply (step_wf o (OpGet now k)).
  - intros now now' k v c. apply (step_wf o (OpSet now now' k v)).
  - intros k c. apply (step_wf o (OpDelete k)).
  - intros c. apply (step_wf o OpClear).
  - intros now k c v c' Hget. unfold get in Hget. split_cases. eauto.
  - intros now k c v e Hk Hlive. unfold get. destruct (jm_get k (entries c)); simplify_eq/=.
    by rewrite bool_decide_eq_false_2 by lia.
  - intros now k k' c. unfold get. destruct (jm_get k (entries c)) as [en|] eqn:Hk; simpl.
    + destruct (bool_decide _ && canEvict o en); simpl.
      * rewrite evict_entries, jm_get_delete. repeat case_bool_decide; naive_solver.
      * rewrite bool_decide_eq_false_2 by naive_solver. rewrite jm_get_alter.
        case_bool_decide; subst; [by rewrite Hk|done].
    + case_bool_decide as Hd; [|done]. destruct Hd as [<- _]. by rewrite Hk.
  - intros now now' k v k' c w e [Hwf _] Hk. unfold set in Hk. simpl in Hk.
    rewrite sweep_get in Hk by (simpl; by apply jm_wf_set). case_bool_decide; [done|]. simpl in Hk.
    rewrite jm_get_set in Hk. case_bool_decide; simplify_eq/=; [by left|by right].
  - intros Ks now now' k v k' c w e Hc Hfits HK Hk Hne Hlive.
    apply fmap_Some in Hk as (en & Hk' & [= -> ->]). apply fmap_Some. exists en. split; [|done].
    apply (set_entry_fits Ks); [done..| |done]. by rewrite jm_get_set_ne.
  - intros Ks now now' k v c Hc Hfits HK Hlive.
    apply fmap_Some. eexists. split; [apply (set_entry_fits Ks)|]; [done..|apply jm_get_set_eq|done|done].
  - intros k k' c. unfold delete. destruct (jm_get k (entries c)) eqn:Hk.
    + rewrite evict_entries, jm_get_delete. repeat case_bool_decide; naive_solver.
    + case_bool_decide; [by subst; rewrite Hk|done].
  - intros k c. change (clear o c) with (evict_all o (entries c) c).
    rewrite evict_all_entries, fmap_None. apply jm_get_None.
    intros (kv & -> & Hin)%list_elem_of_fmap. apply elem_of_bfilter in Hin as [Hb Hin].
    reflect_bools. apply Hb, list_elem_of_fmap. eauto.
Qed.
End shared.

(** ** The promise cache *)

Module PromiseCache.

(** How far a promise returned by [getOrCreate] has come: nothing ran yet,
    its [catch] callback ran, its [finally] callback ran. *)
Inductive stage := Pending | Caught | Settled.

#[export] Instance stage_eq_dec : EqDecision stage.
Proof. solve_decision. Defined.

Section promises.
Context {C : Type} `{KeyedCache C nat}.

Record t := mkPromiseCache {
  cache : C;
  promises : list (string * stage);
}.

Definition with_cache (c : C) (s : t) : t := mkPromiseCache c (promises s).

(** [createPromise] returns a promise ([true]) or throws; [None] is the
    exception rethrown to the caller.  The promise that [catch] and [finally]
    derive from it is allocated when they are attached. *)
Definition getOrCreate (now0 now now' : Z) (key : string) (createPromise : t → bool * t)
    (s : t) : option nat * t :=
  match cache_get now0 key (cache s) with
  | (Some cached, c) => (Some cached, with_cache c s)
  | (None, c) =>
      match createPromise (with_cache c s) with
      | (false, s1) => (None, with_cache (cache_delete key (cache s1)) s1)
      | (true, s1) =>
          let promise := length (promises s1) in
          (Some promise,
           mkPromiseCache (cache_set now now' key promise (cache s1)).2
             (promises s1 ++ [(key, Pending)]))
      end
  end.

(** The callback given to [catch], when the source promise is rejected. *)
Definition onRejected (p : nat) (s : t) : t :=
  match promises s !! p with
  | Some (key, Pending) =>
      mkPromiseCache (cache_delete key (cache s)) (<[p := (key, Caught)]> (promises s))
  | _ => s
  end.

(** The callback given to [finally]. *)
Definition onFinally (p : nat) (s : t) : t :=
  match promises s !! p with
  | Some (key, (Pending | Caught)) =>
      mkPromiseCache (cache_delete key (cache s)) (<[p := (key, Settled)]> (promises s))
  | _ => s
  end.

Definition clear (s : t) : t := with_cache (cache_clear (cache s)) s.

(** An event of the cache's life; [inner] is what [createPromise] does with
    the cache before it returns ([ok]) or throws. *)
Inductive op :=
  | GetOrCreate (now0 now now' : Z) (key : string) (inner : list op) (ok : bool)
  | Rejected (p : nat)
  | Finally (p : nat)
  | Clear.

Fixpoint step (x : op) (s : t) {struct x} : t :=
  match x with
  | GetOrCreate now0 now now' key inner ok =>
      (getOrCreate now0 now now' key (λ s, (ok, foldl (λ s x, step x s) s inner)) s).2
  | Rejected p => onRejected p s
  | Finally p => onFinally p s
  | Clear => clear s
  end.

Definition op_nested_ind (P : op → Prop)
    (Hcall : ∀ now0 now now' key inner ok, Forall P inner → P (GetOrCreate now0 now now' key inner ok))
    (Hrej : ∀ p, P (Rejected p)) (Hfin : ∀ p, P (Finally p)) (Hclear : P Clear) : ∀ x, P x :=
  fix go x := match x with
  | GetOrCreate now0 now now' key inner ok =>
      Hcall now0 now now' key inner ok
        ((fix all (l : list op) : Forall P l :=
            match l with [] => Forall_nil_2 P | y :: l => Forall_cons_2 P y l (go y) (all l) end) inner)
  | Rejected p => Hrej p
  | Finally p => Hfin p
  | Clear => Hclear
  end.

(** ** Only pending promises are cached *)

Definition pending (s : t) : Prop :=
  cache_inv (cache s) ∧
  ∀ k p e, cache_peek k (cache s) = Some (p, e) → promises s !! p = Some (k, Pending).

Lemma peek_delete_ne (k k' : string) (c : C) v :
  cache_peek k' (cache_delete k c) = Some v → k ≠ k' ∧ cache_peek k' c = Some v.
Proof using Type*. rewrite delete_peek. case_bool_decide; [done|]. auto. Qed.

Lemma peek_get (now : Z) (k k' : string) (c : C) v :
  cache_peek k' (cache_get now k c).2 = Some v → cache_peek k' c = Some v.
Proof using Type*. rewrite get_peek. by case_bool_decide. Qed.

(** Removing entries keeps the invariant. *)
Lemma pending_with_cache (c : C) s :
  cache_inv c → (∀ k v, cache_peek k c = Some v → cache_peek k (cache s) = Some v) →
  pending s → pending (with_cache c s).
Proof using Type*. intros Hc Hsub [_ Hs]. split; [done|]. intros k p e Hk. by eapply Hs, Hsub. Qed.

(** The promise of a deleted key may take any stage. *)
Lemma pending_settle (p : nat) (key : string) (st : stage) s :
  promises s !! p = Some (key, Pending) ∨ promises s !! p = Some (key, Caught) → pending s →
  pending (mkPromiseCache (cache_delete key (cache s)) (<[p := (key, st)]> (promises s))).
Proof using Type*.
  intros Hp [Hc Hs]. split; [by apply delete_inv|]. simpl.
  intros k q e [Hne Hk]%peek_delete_ne. specialize (Hs _ _ _ Hk).
  rewrite list_lookup_insert_ne; [done|]. intros ->. naive_solver.
Qed.

Lemma pending_callbacks (p : nat) s : pending s → pending (onRejected p s) ∧ pending (onFinally p s).
Proof using Type*.
  intros Hs. unfold onRejected, onFinally.
  destruct (promises s !! p) as [[key []]|] eqn:Hp; split; auto using pending_settle.
Qed.

Lemma pending_getOrCreate now0 now now' key createPromise s :
  (∀ s, pending s → pending (createPromise s).2) →
  pending s → pending (getOrCreate now0 now now' key createPromise s).2.
Proof using Type*.
  intros Hcreate Hs. unfold getOrCreate.
  destruct (cache_get now0 key (cache s)) as [[v|] c] eqn:Hget;
    assert (pending (with_cache c s)) as Hc
      by (replace c with (cache_get now0 key (cache s)).2 by (by rewrite Hget);
          apply pending_with_cache; [apply get_inv, Hs|eauto using peek_get|done]); [done|].
  specialize (Hcreate _ Hc). destruct (createPromise (with_cache c s)) as [[] s1]; simpl in *.
  - destruct Hcreate as [Hc1 Hs1]. split; [by apply set_inv|]. simpl.
    intros k p e [(-> & -> & _)|[_ Hk]]%set_peek; [|by apply lookup_app_l_Some, (Hs1 _ _ e)|done].
    by rewrite list_lookup_middle.
  - apply pending_with_cache; [apply delete_inv, Hcreate| |done].
    intros k v [_ ?]%peek_delete_ne. done.
Qed.

Lemma foldl_invariant (P : t → Prop) inner s :
  Forall (λ x, ∀ s, P s → P (step x s)) inner → P s → P (foldl (λ s x, step x s) s inner).
Proof using Type*. intros Hin. revert s. induction Hin; simpl; auto. Qed.

Lemma pending_step x s : pending s → pending (step x s).
Proof using Type*.
  revert s. induction x as [now0 now now' key inner ok IH|p|p|] using op_nested_ind; intros s Hs.
  - apply pending_getOrCreate; [|done]. intros s' Hs'. by apply foldl_invariant.
  - by apply pending_callbacks.
  - by apply pending_callbacks.
  - apply pending_with_cache; [apply clear_inv, Hs| |done]. intros k v. by rewrite clear_peek.
Qed.

(** What a caller gets: a new promise, or one of the key that nothing has
    settled yet. *)
Lemma getOrCreate_pending now0 now now' key createPromise s p s' :
  (∀ s, pending s → pending (createPromise s).2) → pending s →
  getOrCreate now0 now now' key createPromise s = (Some p, s') →
  promises s' !! p = Some (key, Pending).
Proof using Type*.
  intros Hcreate [_ Hs] Hg. unfold getOrCreate in Hg.
  destruct (cache_get now0 key (cache s)) as [[v|] c] eqn:Hget.
  - simplify_eq/=. destruct (get_hit _ _ _ _ _ Hget) as [e Hk]. by apply (Hs _ _ e).
  - destruct (createPromise _) as [[] s1]; simplify_eq/=. by rewrite list_lookup_middle.
Qed.

(** ** Single flight *)

(** Events that leave the promise [p] of a key alone: the clock stays below
    [deadline], the keys stay in [Ks], [p] does not settle, and the cache is
    not cleared. *)
Fixpoint quiet (p : nat) (deadline : Z) (Ks : list string) (x : op) : Prop :=
  match x with
  | GetOrCreate now0 now now' key inner _ =>
      now0 < deadline ∧ now' < deadline ∧ key ∈ Ks ∧
      foldr (λ x P, quiet p deadline Ks x ∧ P) True inner
  | Rejected q | Finally q => q ≠ p
  | Clear => False
  end.

(** The promise [p] is cached under [k] until [deadline] at least, and it is
    the only promise of [k] whose callbacks have not run. *)
Definition in_flight (k : string) (p : nat) (deadline : Z) (Ks : list string) (s : t) : Prop :=
  cache_inv (cache s) ∧ fits Ks (cache s) ∧
  (∃ e, cache_peek k (cache s) = Some (p, e) ∧ deadline ≤ e) ∧
  ∀ q st, promises s !! q = Some (k, st) → st = Settled ∨ q = p.

Section flight.
Context (k : string) (p : nat) (deadline : Z) (Ks : list string).
Abbreviation flying := (in_flight k p deadline Ks).

Lemma fits_sub (c c' : C) :
  (∀ k' v, cache_peek k' c' = Some v → cache_peek k' c = Some v) → fits Ks c → fits Ks c'.
Proof using Type*. intros Hsub [Hk ?]. split; [|done]. intros k' [v ?]. eauto. Qed.

Lemma flying_hit now0 now now' createPromise s :
  now0 < deadline → flying s →
  getOrCreate now0 now now' k createPromise s
  = (Some p, with_cache (cache_get now0 k (cache s)).2 s).
Proof using Type*.
  intros Hnow (_ & _ & (e & Hk & He) & _). unfold getOrCreate.
  pose proof (get_live now0 k (cache s) p e Hk ltac:(lia)) as Hlive.
  destruct (cache_get now0 k (cache s)); simplify_eq/=. done.
Qed.

Lemma flying_get now0 key s :
  now0 < deadline → flying s → flying (with_cache (cache_get now0 key (cache s)).2 s).
Proof using Type*.
  intros Hnow (Hc & Hf & (e & Hk & He) & Hu). split_and!; simpl; [by apply get_inv| | |done].
  - eapply fits_sub, Hf. eauto using peek_get.
  - exists e. split; [|done]. rewrite get_peek. rewrite bool_decide_eq_false_2; [done|].
    intros [-> Hn]. rewrite (get_live _ _ _ _ _ Hk) in Hn by lia. done.
Qed.

Lemma flying_delete key s : key ≠ k → flying s → flying (with_cache (cache_delete key (cache s)) s).
Proof using Type*.
  intros Hne (Hc & Hf & (e & Hk & He) & Hu). split_and!; simpl; [by apply delete_inv| | |done].
  - eapply fits_sub, Hf. intros k' v. by intros [_ ?]%peek_delete_ne.
  - exists e. split; [|done]. rewrite delete_peek. by rewrite bool_decide_eq_false_2.
Qed.

Lemma flying_set now now' key s :
  key ≠ k → key ∈ Ks → now' < deadline → flying s →
  flying (mkPromiseCache (cache_set now now' key (length (promises s)) (cache s)).2
    (promises s ++ [(key, Pending)])).
Proof using Type*.
  intros Hne HK Hnow (Hc & Hf & (e & Hk & He) & Hu). split_and!; simpl; [by apply set_inv| | |].
  - split; [|apply Hf]. intros k' [[w e'] [(-> & _)|[_ Hk']]%set_peek]; [done| |done].
    apply Hf. eauto.
  - exists e. split; [|done]. by apply (set_keeps Ks); [done..|lia].
  - intros q st [Hq|[_ Hq]]%lookup_app_Some; [by eapply Hu|].
    apply list_lookup_singleton_Some in Hq as [_ ?]. congruence.
Qed.

Lemma flying_settle key q old st s :
  q ≠ p → promises s !! q = Some (key, old) → old ≠ Settled → flying s →
  flying (mkPromiseCache (cache_delete key (cache s)) (<[q := (key, st)]> (promises s))).
Proof using Type*.
  intros Hq Hl Hold Hs. assert (key ≠ k) as Hne.
  { intros ->. by destruct (proj2 (proj2 (proj2 Hs)) _ _ Hl). }
  destruct (flying_delete key s Hne Hs) as (? & ? & ? & Hu). split_and!; [done..|]. simpl in *.
  intros q' st'. destruct (decide (q = q')) as [<-|].
  - rewrite list_lookup_insert_eq by eauto using lookup_lt_Some. congruence.
  - rewrite list_lookup_insert_ne by done. apply Hu.
Qed.

Lemma flying_getOrCreate now0 now now' key createPromise s :
  now0 < deadline → now' < deadline → key ∈ Ks →
  (∀ s, flying s → flying (createPromise s).2) →
  flying s → flying (getOrCreate now0 now now' key createPromise s).2.
Proof using Type*.
  intros Hn Hn' HK Hcreate Hs. pose proof (flying_get now0 key s Hn Hs) as Hg.
  destruct (decide (key = k)) as [->|Hne]; [by rewrite flying_hit|].
  unfold getOrCreate. destruct (cache_get now0 key (cache s)) as [[v|] c]; [done|].
  specialize (Hcreate _ Hg). simpl in *.
  destruct (createPromise (with_cache c s)) as [[] s1]; simpl in *; auto using flying_set, flying_delete.
Qed.

Lemma flying_step x s : quiet p deadline Ks x → flying s → flying (step x s).
Proof using Type*.
  revert s. induction x as [now0 now now' key inner ok IH|q|q|] using op_nested_ind; intros s; simpl.
  - intros (Hn & Hn' & HK & Hinner). apply flying_getOrCreate; [done..|].
    intros s' Hs'. apply (foldl_invariant flying); [|done]. clear Hs'.
    induction IH as [|y l Hy _ IH]; [done|]. destruct Hinner as [? ?]. constructor; auto.
  - intros Hq. unfold onRejected. split_cases; eauto using flying_settle.
  - intros Hq. unfold onFinally. split_cases; eauto using flying_settle.
  - done.
Qed.
End flight.
End promises.

Arguments t : clear implicits.

(** ** Properties of the class as written, on a [SharedCache] *)

(** [canEvict] is always [() => true]; the options' own is not accepted. *)
Definition constructor_options (maxSize ttl : Z) (cleanupInterval : option Z) (onEvict : bool)
    : SharedCache.SharedCacheOptions nat :=
  SharedCache.mkOptions maxSize ttl cleanupInterval (Some (λ _, true)) onEvict.

Definition constructor (hasWindow : bool) (o : SharedCache.SharedCacheOptions nat)
    : t (SharedCache.t nat) :=
  mkPromiseCache (SharedCache.constructor hasWindow o) [].

Section properties.
Context (o : SharedCache.SharedCacheOptions nat).
#[local] Existing Instance shared_cache_ops.
#[local] Existing Instance shared_cache_laws.

#[local] Instance ops : CacheOps (SharedCache.t nat) nat := shared_cache_ops o.
#[local] Instance laws : KeyedCache (SharedCache.t nat) nat := shared_cache_laws o.

Lemma constructor_pending w : pending (constructor w o).
Proof using. split; [apply SharedCache.constructor_wf|done]. Qed.

Lemma reachable_pending w es : pending (runs step es (constructor w o)).
Proof using. apply runs_invariant; [apply pending_step|apply constructor_pending]. Qed.

(** No result is served after the fact: whatever calls, rejections,
    completions and clears happened, also from inside [createPromise], a
    promise returned by [getOrCreate] is one made for that key whose [catch]
    and [finally] callbacks have not run yet. *)
Theorem served_promise_pending (w : bool) (es inner : list op) (now0 now now' : Z) (key : string)
    (ok : bool) (p : nat) (s' : t (SharedCache.t nat)) :
  getOrCreate now0 now now' key (λ s, (ok, runs step inner s)) (runs step es (constructor w o))
  = (Some p, s') →
  promises s' !! p = Some (key, Pending).
Proof using.
  apply getOrCreate_pending; [|apply reachable_pending].
  intros s Hs. simpl. by apply runs_invariant; [apply pending_step|].
Qed.

(** Single flight: once a key's promise [p] is cached and every older
    promise of that key has settled, all further calls for the key get [p] and
    make no promise of their own, until [p] settles, its time to live passes or
    the cache is cleared; calls for other keys, also from inside
    [createPromise], and their settlements do not disturb it, as long as the
    keys in use do not exceed the capacity. *)
Theorem single_flight (w : bool) (es quiet_es : list op) (Ks : list string) (k : string) (p : nat)
    (e deadline now0 now now' : Z)
    (createPromise : t (SharedCache.t nat) → bool * t (SharedCache.t nat)) :
  let s := runs step es (constructor w o) in
  let s' := runs step quiet_es s in
  peek k (cache s) = Some (p, e) → deadline ≤ e →
  (∀ q st, promises s !! q = Some (k, st) → st = Settled ∨ q = p) →
  (∀ k', is_Some (peek k' (cache s)) → k' ∈ Ks) → Z.of_nat (length Ks) ≤ SharedCache.maxSize o →
  Forall (quiet p deadline Ks) quiet_es → now0 < deadline →
  (getOrCreate now0 now now' k createPromise s').1 = Some p ∧
  promises (getOrCreate now0 now now' k createPromise s').2 = promises s'.
Proof using.
  intros s s' Hk He Hu HKs Hlen Hq Hnow.
  assert (in_flight k p deadline Ks s') as Hs'.
  { unfold s'. eapply (runs_invariant_cond step (quiet p deadline Ks)); [|done|].
    - intros x st. apply flying_step.
    - split_and!; [apply (reachable_pending w es)|done|eauto|done]. }
  by rewrite (flying_hit k p deadline Ks).
Qed.
End properties.

(** ** Witnesses *)

Definition example_options := constructor_options 4 10 None false.
#[local] Existing Instance ops.

(** Two calls share a promise, a third key is loaded from inside another. *)
Definition example_events : list op :=
  [GetOrCreate 0 0 0 "a" [GetOrCreate 0 0 0 "b" [] true] true; GetOrCreate 1 1 1 "a" [] true].

Lemma served_promise_pending_witness :
  ∃ s', let ops := ops example_options in
  getOrCreate 2 2 2 "a" (λ s, (true, runs step [] s))
    (runs step example_events (constructor false example_options)) = (Some 1%nat, s')
  ∧ promises s' !! 1%nat = Some ("a", Pending).
Proof.
  eexists. split.
  - vm_compute. reflexivity.
  - apply (served_promise_pending example_options false example_events [] 2 2 2 "a" true).
    vm_compute. reflexivity.
Defined.

Lemma single_flight_witness :
  let ops := ops example_options in
  let s := runs step [Finally 0; GetOrCreate 2 2 2 "c" [] true]
             (runs step example_events (constructor false example_options)) in
  (getOrCreate 9 9 9 "a" (λ s, (true, s)) s).1 = Some 1%nat ∧
  promises (getOrCreate 9 9 9 "a" (λ s, (true, s)) s).2 = promises s.
Proof.
  apply (single_flight example_options false example_events _ ["a"; "b"; "c"] "a" 1 10 10).
  - reflexivity.
  - lia.
  - intros [|[|q]] st; vm_compute; naive_solver.
  - intros k. unfold peek. rewrite fmap_is_Some, jm_get_is_Some. vm_compute (_.*1). set_solver.
  - vm_compute. done.
  - repeat constructor; set_solver.
  - lia.
Defined.

(** The callbacks do not check that the cached promise is their own: when
    a promise outlives its time to live and a second call has replaced it, the
    settling of the first removes the entry of the second, and a third call
    starts a third promise while the second is still pending. *)
Theorem stale_settle_evicts_successor :
  let ops := ops example_options in
  let s := runs step [GetOrCreate 0 0 0 "a" [] true; GetOrCreate 10 10 10 "a" [] true; Finally 0]
             (constructor false example_options) in
  promises s !! 1%nat = Some ("a", Pending) ∧
  (getOrCreate 11 11 11 "a" (λ s, (true, s)) s).1 = Some 2%nat.
Proof. split; vm_compute; reflexivity. Qed.

End PromiseCache.
