(* ===== verification/RequestManager.v ===== *)
(** * The request manager ([glass-shared/services/request.service.ts])

    A pool that runs at most [REQUEST_CONFIG.pool.maxConcurrent] tasks, shares
    one promise per key, retries failed attempts and supports cancellation.

    The synchronous parts ([run], [abort], [abortAll], [drainQueue], the body
    of the attempt loop) are functions on the manager's state.  Every
    asynchronous continuation is an event: a task or its abort race settling
    ([TaskSettled]), the [finally] block of [startActiveRequest] ([Finished]),
    and the [finally] callback attached to the returned promise
    ([FinallyRun]).  Events may come in any order: the model has every
    interleaving a JavaScript engine can produce, and more.

    A request's identity [id] stands for its abort controller and for the
    resolvers of its promise.  [settled], [launched] and [tasks] record the
    outcome of each promise, the requests given a slot, and the calls of
    [request.task]. *)

From S2P Require Import Prelude JsMap Constants.

Open Scope Z_scope.

Module RequestManager.

Section manager.
Context {V E : Type}.

Inductive error :=
  | AbortError
  | RequestFailed
  | TaskError (e : E).

Inductive outcome :=
  | Resolved (v : V)
  | Rejected (e : error).

Record RequestManagerOptions := mkOptions {
  opt_timeout : option Z;
  opt_retryAttempts : option Z;
  opt_shouldRetry : option (error → bool);
}.

Record QueuedRequest := mkRequest {
  key : string;
  id : nat;
  timeout : Z;
  retryAttempts : Z;
  shouldRetry : error → bool;
}.

Record t := mkManager {
  pending : jsmap string nat;
  queue : list QueuedRequest;
  activeCount : Z;
  next_id : nat;
  aborted : list nat;
  running : list (QueuedRequest * Z);
  finishing : list nat;
  finallies : list (string * nat);
  settled : jsmap nat outcome;
  launched : list QueuedRequest;
  tasks : list nat;
}.

Definition constructor : t := mkManager [] [] 0 0 [] [] [] [] [] [] [].

(** [request.resolve] and [request.reject]: the first call settles the
    promise and schedules its [finally] callback, later calls do nothing. *)
Definition settle (r : QueuedRequest) (x : outcome) (m : t) : t :=
  if jm_has (id r) (settled m) then m
  else mkManager (pending m) (queue m) (activeCount m) (next_id m) (aborted m) (running m)
         (finishing m) (finallies m ++ [(key r, id r)]) (jm_set (id r) x (settled m))
         (launched m) (tasks m).

(** [execute] settles the promise; the [finally] of [startActiveRequest] is
    then due. *)
Definition execute_done (r : QueuedRequest) (x : outcome) (m : t) : t :=
  let m := settle r x m in
  mkManager (pending m) (queue m) (activeCount m) (next_id m) (aborted m) (running m)
    (finishing m ++ [id r]) (finallies m) (settled m) (launched m) (tasks m).

Definition is_aborted (r : QueuedRequest) (m : t) : bool := bool_decide (id r ∈ aborted m).

(** One iteration of the attempt loop of [runWithTimeoutAndRetry], up to the
    [await]: the loop test, the abort test, the call of [request.task]. *)
Definition begin_attempt (r : QueuedRequest) (attempt : Z) (m : t) : t :=
  if bool_decide (attempt ≤ retryAttempts r) then
    if is_aborted r m then execute_done r (Rejected AbortError) m
    else mkManager (pending m) (queue m) (activeCount m) (next_id m) (aborted m)
           (running m ++ [(r, attempt)]) (finishing m) (finallies m) (settled m)
           (launched m) (tasks m ++ [id r])
  else execute_done r (Rejected RequestFailed) m.

Definition take_slot (r : QueuedRequest) (m : t) : t :=
  mkManager (pending m) (queue m) (activeCount m + 1) (next_id m) (aborted m) (running m)
    (finishing m) (finallies m) (settled m) (launched m ++ [r]) (tasks m).

Definition startActiveRequest (r : QueuedRequest) (m : t) : t :=
  begin_attempt r 0 (take_slot r m).

Definition with_queue (q : list QueuedRequest) (m : t) : t :=
  mkManager (pending m) q (activeCount m) (next_id m) (aborted m) (running m)
    (finishing m) (finallies m) (settled m) (launched m) (tasks m).

Fixpoint drain (q : list QueuedRequest) (m : t) : t :=
  match q with
  | [] => with_queue [] m
  | r :: q' =>
      if bool_decide (activeCount m < REQUEST_CONFIG.pool_maxConcurrent) then
        if is_aborted r m then drain q' (settle r (Rejected AbortError) m)
        else drain q' (startActiveRequest r m)
      else with_queue q m
  end.

Definition drainQueue (m : t) : t := drain (queue m) m.

Definition with_pending (p : jsmap string nat) (m : t) : t :=
  mkManager p (queue m) (activeCount m) (next_id m) (aborted m) (running m)
    (finishing m) (finallies m) (settled m) (launched m) (tasks m).

Definition queuedRequest (k : string) (i : nat) (o : RequestManagerOptions) : QueuedRequest :=
  mkRequest k i
    (default REQUEST_CONFIG.timeout_default (opt_timeout o))
    (default REQUEST_CONFIG.default_retry_attempts (opt_retryAttempts o))
    (default (λ _, true) (opt_shouldRetry o)).

(** [run] returns the identity of the promise it hands out. *)
Definition run (k : string) (o : RequestManagerOptions) (m : t) : nat * t :=
  match jm_get k (pending m) with
  | Some existing => (existing, m)
  | None =>
      let i := next_id m in
      let m1 := mkManager (pending m) (queue m ++ [queuedRequest k i o]) (activeCount m)
                  (S i) (aborted m) (running m) (finishing m) (finallies m) (settled m)
                  (launched m) (tasks m) in
      let m2 := drainQueue m1 in
      (i, with_pending (jm_set k i (pending m2)) m2)
  end.

Definition with_aborted (a : list nat) (m : t) : t :=
  mkManager (pending m) (queue m) (activeCount m) (next_id m) a (running m)
    (finishing m) (finallies m) (settled m) (launched m) (tasks m).

(** [queue.findIndex] and [queue.splice]: the first queued request of a key
    and the queue without it. *)
Fixpoint splice_key (k : string) (q : list QueuedRequest) : option (QueuedRequest * list QueuedRequest) :=
  match q with
  | [] => None
  | r :: q' =>
      if bool_decide (key r = k) then Some (r, q')
      else match splice_key k q' with Some (x, q'') => Some (x, r :: q'') | None => None end
  end.

Definition abort (k : string) (m : t) : t :=
  match jm_get k (pending m) with
  | None => m
  | Some i =>
      let m1 := with_pending (jm_delete k (pending m)) (with_aborted (aborted m ++ [i]) m) in
      match splice_key k (queue m1) with
      | None => m1
      | Some (r, q) => settle r (Rejected AbortError) (with_queue q m1)
      end
  end.

Definition abortAll (m : t) : t :=
  let m1 := with_aborted (aborted m ++ jm_values (pending m)) m in
  let m2 := foldl (λ m r, settle r (Rejected AbortError) m) m1 (queue m1) in
  with_queue [] (with_pending [] m2).

(** The rest of an attempt after its race settled: success, or the [catch]
    block that decides between giving up and the next iteration. *)
Definition attempt_settled (r : QueuedRequest) (attempt : Z) (x : V + error) (m : t) : t :=
  match x with
  | inl v => execute_done r (Resolved v) m
  | inr e =>
      if is_aborted r m then execute_done r (Rejected e) m
      else if bool_decide (retryAttempts r ≤ attempt) || negb (shouldRetry r e)
      then execute_done r (Rejected e) m
      else begin_attempt r (attempt + 1) m
  end.

Definition with_running (l : list (QueuedRequest * Z)) (m : t) : t :=
  mkManager (pending m) (queue m) (activeCount m) (next_id m) (aborted m) l
    (finishing m) (finallies m) (settled m) (launched m) (tasks m).

Inductive event :=
  | Run (k : string) (o : RequestManagerOptions)
  | Abort (k : string)
  | AbortAll
  | TaskSettled (i : nat) (x : V + error)
  | Finished (i : nat)
  | FinallyRun (k : string) (i : nat).

Definition has_id (i : nat) (p : QueuedRequest * Z) : bool := bool_decide (id p.1 = i).

(** The [finally] of [startActiveRequest]. *)
Definition finished (l : list nat) (m : t) : t :=
  drainQueue
    (mkManager (pending m) (queue m) (Z.max 0 (activeCount m - 1)) (next_id m) (aborted m)
       (running m) l (finallies m) (settled m) (launched m) (tasks m)).

Definition step (ev : event) (m : t) : t :=
  match ev with
  | Run k o => (run k o m).2
  | Abort k => abort k m
  | AbortAll => abortAll m
  | TaskSettled i x =>
      match list_find_first (has_id i) (running m) with
      | Some (r, attempt) =>
          attempt_settled r attempt x
            (with_running (bfilter (λ p, negb (has_id i p)) (running m)) m)
      | None => m
      end
  | Finished i =>
      match remove_one i (finishing m) with
      | Some l => finished l m
      | None => m
      end
  | FinallyRun k i =>
      match remove_one (k, i) (finallies m) with
      | Some l =>
          mkManager (jm_delete k (pending m)) (queue m) (activeCount m) (next_id m) (aborted m)
            (running m) (finishing m) l (settled m) (launched m) (tasks m)
      | None => m
      end
  end.

(** ** No request is lost, the pool is bounded and work-conserving

    [core q m] is the invariant while [q] is the part of the queue not yet
    processed: the slot counter counts exactly the requests that hold a slot,
    and every identity handed out is, exactly once, queued, running or
    settled. *)

Definition ids (q : list QueuedRequest) (m : t) : list nat :=
  (id <$> q) ++ (id ∘ fst <$> running m) ++ (settled m).*1.

Definition core (q : list QueuedRequest) (m : t) : Prop :=
  activeCount m = Z.of_nat (length (running m)) + Z.of_nat (length (finishing m)) ∧
  activeCount m ≤ REQUEST_CONFIG.pool_maxConcurrent ∧
  ids q m ≡ₚ seq 0 (next_id m).

Definition inv (m : t) : Prop :=
  core (queue m) m ∧ (queue m ≠ [] → activeCount m = REQUEST_CONFIG.pool_maxConcurrent).

Lemma ids_NoDup q m : core q m → NoDup (ids q m).
Proof. intros (_ & _ & Hp). rewrite Hp. apply NoDup_seq. Qed.

Lemma core_unsettled_queue q m r : core q m → r ∈ q → jm_has (id r) (settled m) = false.
Proof.
  intros Hc Hr. apply ids_NoDup in Hc. unfold ids in Hc.
  apply NoDup_app in Hc as (_ & Hd & _).
  destruct (jm_has (id r) (settled m)) eqn:Hs; [|done].
  apply jm_has_true in Hs. exfalso. apply (Hd (id r)); [|set_solver].
  apply list_elem_of_fmap. eauto.
Qed.

Lemma settled_set_fresh i x (s : jsmap nat outcome) :
  jm_has i s = false → (jm_set i x s).*1 = s.*1 ++ [i].
Proof.
  intros Hi. rewrite jm_keys_set, bool_decide_eq_false_2; [done|].
  rewrite <-jm_has_true. by rewrite Hi.
Qed.

(** Settling the head of the queue moves its identity from one side to the other. *)
Lemma settle_core r q m x : core (r :: q) m → core q (settle r x m).
Proof.
  intros Hc. pose proof (core_unsettled_queue _ _ r Hc ltac:(set_solver)) as Hs.
  destruct Hc as (Ha & Hb & Hp). unfold settle. rewrite Hs.
  split_and!; [done|done|]. unfold ids in *. cbn [running settled next_id] in *.
  rewrite settled_set_fresh by done. perm_solve.
Qed.

(** The invariant of a request that holds a slot but is neither queued nor
    running nor settled: the state inside [startActiveRequest] and inside
    [attempt_settled]. *)
Definition core_with (r : QueuedRequest) (q : list QueuedRequest) (m : t) : Prop :=
  activeCount m = Z.of_nat (length (running m)) + Z.of_nat (length (finishing m)) + 1 ∧
  activeCount m ≤ REQUEST_CONFIG.pool_maxConcurrent ∧
  id r :: ids q m ≡ₚ seq 0 (next_id m).

Lemma core_with_unsettled r q m :
  id r :: ids q m ≡ₚ seq 0 (next_id m) → jm_has (id r) (settled m) = false.
Proof.
  intros Hp. destruct (jm_has (id r) (settled m)) eqn:Hs; [|done]. apply jm_has_true in Hs.
  pose proof (NoDup_seq 0 (next_id m)) as Hnd. rewrite <-Hp in Hnd.
  apply NoDup_cons in Hnd as [Hni _]. exfalso. apply Hni. unfold ids. set_solver.
Qed.

Lemma execute_done_core r q m x : core_with r q m → core q (execute_done r x m).
Proof.
  intros (Ha & Hb & Hp).
  assert (jm_has (id r) (settled m) = false) as Hs by by eapply core_with_unsettled.
  unfold execute_done, settle. rewrite Hs. split_and!; cbn [activeCount running finishing].
  - rewrite length_app. simpl. lia.
  - done.
  - unfold ids in *. cbn [running settled next_id] in *.
    rewrite settled_set_fresh by done. perm_solve.
Qed.

Lemma begin_attempt_core r a q m : core_with r q m → core q (begin_attempt r a m).
Proof.
  intros Hc. unfold begin_attempt. repeat case_match; try by apply execute_done_core.
  destruct Hc as (Ha & Hb & Hp). split_and!; cbn [activeCount running finishing].
  - rewrite length_app. simpl. lia.
  - done.
  - unfold ids in *. cbn [running settled next_id] in *. rewrite fmap_app. perm_solve.
Qed.

Lemma start_core r q m :
  core (r :: q) m → activeCount m < REQUEST_CONFIG.pool_maxConcurrent →
  core q (startActiveRequest r m).
Proof.
  intros (Ha & Hb & Hp) Hlt. apply begin_attempt_core. split_and!; cbn; [lia|lia|].
  unfold ids in *. cbn [running settled next_id] in *. perm_solve.
Qed.

Lemma core_with_queue q q' m : core q m → core q (with_queue q' m).
Proof. done. Qed.

(** [drainQueue] keeps the invariant and leaves no free slot beside a waiting
    request. *)
Lemma drain_inv q m : core q m → inv (drain q m).
Proof.
  revert m. induction q as [|r q IH]; intros m Hc; cbn [drain].
  - split; [by apply core_with_queue|done].
  - case_bool_decide as Hlt.
    + case_match; apply IH; [by apply settle_core|by apply start_core].
    + split; [by apply core_with_queue|]. intros _. cbn.
      destruct Hc as (_ & Hb & _). lia.
Qed.

Lemma inv_with_pending p m : inv m → inv (with_pending p m).
Proof. done. Qed.
Lemma inv_with_aborted a m : inv m → inv (with_aborted a m).
Proof. done. Qed.

Lemma run_inv k o m : inv m → inv (run k o m).2.
Proof.
  intros [(Ha & Hb & Hp) Hfull]. unfold run. case_match; [done|].
  apply inv_with_pending, drain_inv. split_and!; [done|done|].
  unfold ids in *. cbn [running settled next_id queue] in *. rewrite fmap_app, seq_S. perm_solve.
Qed.

Lemma splice_key_perm k q r q' : splice_key k q = Some (r, q') → q ≡ₚ r :: q' ∧ key r = k.
Proof.
  revert q'. induction q as [|x q IH]; intros q'; cbn [splice_key]; [done|].
  case_bool_decide; [naive_solver|].
  destruct (splice_key k q) as [[y q2]|]; intros; simplify_eq.
  destruct (IH q2) as [Hp Hk]; [done|]. split; [|done]. rewrite Hp. constructor.
Qed.

Lemma core_perm q q' m : q ≡ₚ q' → core q m → core q' m.
Proof. intros Hq (Ha & Hb & Hp). split_and!; [done..|]. unfold ids in *. by rewrite <-Hq. Qed.

Lemma settle_fields r x m :
  queue (settle r x m) = queue m ∧ activeCount (settle r x m) = activeCount m
  ∧ running (settle r x m) = running m ∧ aborted (settle r x m) = aborted m.
Proof. unfold settle. by case_match. Qed.

Lemma abort_inv k m : inv m → inv (abort k m).
Proof.
  intros Hm. unfold abort. destruct (jm_get k (pending m)) as [i|]; [|done].
  cbn [queue with_pending with_aborted].
  destruct (splice_key k (queue m)) as [[r q]|] eqn:Hs; [|done].
  apply splice_key_perm in Hs as [Hq _]. destruct Hm as [Hc Hfull].
  set (m1 := with_queue q _). destruct (settle_fields r (Rejected AbortError) m1) as (E1 & E2 & _).
  unfold inv. rewrite E1, E2. split.
  - apply settle_core. apply core_with_queue. by apply (core_perm (queue m)).
  - cbn. intros Hne. apply Hfull. intros Hnil. rewrite Hnil in Hq.
    by apply Permutation_nil_cons in Hq.
Qed.

Lemma settle_all_core q m : core q m → core [] (foldl (λ m r, settle r (Rejected AbortError) m) m q).
Proof. revert m. induction q as [|r q IH]; intros m Hc; [done|]. by apply IH, settle_core. Qed.

Lemma abortAll_inv m : inv m → inv (abortAll m).
Proof. intros [Hc _]. split; [|done]. by apply (settle_all_core (queue m)). Qed.

Lemma core_remove_running m i r a :
  core (queue m) m → list_find_first (has_id i) (running m) = Some (r, a) →
  core_with r (queue m) (with_running (bfilter (λ p, negb (has_id i p)) (running m)) m) ∧ id r = i.
Proof.
  intros Hc Hf. pose proof (ids_NoDup _ _ Hc) as Hnd. destruct Hc as (Ha & Hb & Hp).
  pose proof (list_find_first_Some _ _ _ Hf) as [_ Hi]. unfold has_id in Hi. reflect_bools. simpl in Hi.
  subst i. split; [|done].
  assert (running m ≡ₚ (r, a) :: bfilter (λ p, negb (has_id (id r) p)) (running m)) as Hr.
  { apply (bfilter_remove_perm (id ∘ fst) (running m) (r, a)); [|done].
    unfold ids in Hnd. apply NoDup_app in Hnd as (_ & _ & Hnd).
    by apply NoDup_app in Hnd as (? & _). }
  split_and!; cbn.
  - rewrite Hr in Ha at 1. simpl in Ha. lia.
  - done.
  - unfold ids in *. cbn [running settled next_id with_running] in *.
    rewrite <-Hp. rewrite Hr at 2. perm_solve.
Qed.

Lemma attempt_settled_fields r a x m :
  queue (attempt_settled r a x m) = queue m.
Proof.
  unfold attempt_settled, begin_attempt, execute_done.
  repeat case_match; cbn; try done; apply settle_fields.
Qed.

Lemma attempt_settled_active r a x m :
  activeCount (attempt_settled r a x m) = activeCount m.
Proof.
  unfold attempt_settled, begin_attempt, execute_done.
  repeat case_match; cbn; try done; apply settle_fields.
Qed.

Lemma attempt_settled_core r a x q m : core_with r q m → core q (attempt_settled r a x m).
Proof.
  intros Hc. unfold attempt_settled.
  repeat case_match; by (apply execute_done_core || apply begin_attempt_core).
Qed.

Lemma finished_inv i l m : inv m → remove_one i (finishing m) = Some l → inv (finished l m).
Proof.
  intros [(Ha & Hb & Hp) _] Hr%remove_one_Some. apply drain_inv. split_and!; cbn.
  - rewrite Hr in Ha. simpl in Ha. lia.
  - lia.
  - done.
Qed.

Lemma step_inv ev m : inv m → inv (step ev m).
Proof.
  intros Hm. destruct ev as [k o|k| |i x|i|k i]; cbn [step].
  - by apply run_inv.
  - by apply abort_inv.
  - by apply abortAll_inv.
  - destruct (list_find_first (has_id i) (running m)) as [[r a]|] eqn:Hf; [|done].
    destruct Hm as [Hc Hfull]. destruct (core_remove_running m i r a Hc Hf) as [Hcw _].
    unfold inv. rewrite attempt_settled_fields, attempt_settled_active. split; [|done].
    by apply attempt_settled_core.
  - case_match eqn:Hr; [|done]. by eapply finished_inv.
  - by case_match.
Qed.

Lemma runs_inv evs : inv (runs step evs constructor).
Proof. apply runs_invariant; [intros; by apply step_inv|]. split; [by split_and!|done]. Qed.

(** ** Order of service and number of attempts *)

(** Slots are granted in the order of arrival. *)
Definition fifo (q : list QueuedRequest) (m : t) : Prop :=
  StronglySorted lt ((id <$> launched m) ++ (id <$> q)) ∧
  (∀ r, r ∈ launched m → (id r < next_id m)%nat).

(** [request.task] was called once per attempt, and at most
    [retryAttempts + 1] times. *)
Definition attempts_ok (q : list QueuedRequest) (m : t) : Prop :=
  (∀ r a, (r, a) ∈ running m →
     r ∈ launched m ∧ 0 ≤ a ≤ retryAttempts r ∧ Z.of_nat (count_of (id r) (tasks m)) = a + 1) ∧
  (∀ r, r ∈ launched m → Z.of_nat (count_of (id r) (tasks m)) ≤ Z.max 0 (retryAttempts r + 1)) ∧
  (∀ i, i ∈ (id <$> q) ∨ (next_id m ≤ i)%nat → count_of i (tasks m) = 0%nat).

Definition served (q : list QueuedRequest) (m : t) : Prop := fifo q m ∧ attempts_ok q m.

Lemma launched_unique q m r r' :
  fifo q m → r ∈ launched m → r' ∈ launched m → id r = id r' → r = r'.
Proof.
  intros [Hs _]. apply StronglySorted_app_1_l in Hs. induction (launched m) as [|x l IH]; [set_solver|].
  csimpl in Hs. apply StronglySorted_inv in Hs as [Hs Hf]. rewrite Forall_fmap, Forall_forall in Hf.
  intros [->|Hr]%elem_of_cons [->|Hr']%elem_of_cons Heq; [done|..|by apply IH].
  - specialize (Hf r' Hr'). simpl in Hf. lia.
  - specialize (Hf r Hr). simpl in Hf. lia.
Qed.

Lemma settle_served r q m x : served (r :: q) m → served q (settle r x m).
Proof.
  intros [[Hs Hl] (H1 & H2 & H3)].
  assert (StronglySorted lt ((id <$> launched m) ++ (id <$> q))) as Hs'.
  { csimpl in Hs. apply StronglySorted_app in Hs as (Hd & Ha & Hb).
    apply StronglySorted_inv in Hb as [Hb _].
    apply StronglySorted_app. split_and!; [|done|done]. intros; apply Hd; set_solver. }
  unfold settle. case_match; (split; [by split|]); (split_and!; cbn; [done|done|]);
    intros i Hi; apply H3; set_solver.
Qed.

Lemma execute_done_served r q m x : served q m → served q (execute_done r x m).
Proof. intros [[Hs Hl] (H1 & H2 & H3)]. unfold execute_done, settle. by case_match. Qed.

(** The attempt about to begin: the request was launched, is in no list, and
    its task was called once per earlier attempt. *)
Definition due (r : QueuedRequest) (a : Z) (q : list QueuedRequest) (m : t) : Prop :=
  r ∈ launched m ∧ 0 ≤ a ∧ Z.of_nat (count_of (id r) (tasks m)) = a ∧
  (id r ∉ id <$> q) ∧ (id r ∉ id ∘ fst <$> running m).

Lemma begin_attempt_served r a q m :
  due r a q m → served q m → served q (begin_attempt r a m).
Proof.
  intros (Hr & Ha & Hcnt & Hq & Hrun) Hserved. unfold begin_attempt.
  case_bool_decide as Hle; [|by apply execute_done_served].
  case_match; [by apply execute_done_served|].
  pose proof Hserved as [Hfifo (H1 & H2 & H3)]. split; [done|].
  pose proof (proj2 Hfifo r Hr) as Hlt.
  split_and!; cbn [running launched tasks next_id].
  - intros r' a' [Hin|Hin]%elem_of_app.
    + destruct (H1 r' a' Hin) as (? & ? & Hc). split_and!; [done|lia|lia|].
      rewrite count_of_app, (count_of_0 _ [_]); [lia|].
      apply not_elem_of_cons. split; [|apply not_elem_of_nil]. intros Heq. apply Hrun.
      rewrite <-Heq. apply list_elem_of_fmap. by exists (r', a').
    + apply list_elem_of_singleton in Hin as [= -> ->]. split_and!; [done|lia|lia|].
      rewrite count_of_app, count_of_cons, count_of_nil. rewrite decide_True by done. lia.
  - intros r' Hr'. rewrite count_of_app, count_of_cons, count_of_nil. case_decide as Heq.
    + rewrite (launched_unique q m r r' Hfifo Hr Hr' Heq) in *. lia.
    + specialize (H2 r' Hr'). lia.
  - intros i Hi. rewrite count_of_app, H3, count_of_cons, count_of_nil by done.
    rewrite decide_False; [done|]. intros Heq. subst i. destruct Hi as [Hi|Hi]; [done|lia].
Qed.

Lemma start_served r q m :
  core (r :: q) m → served (r :: q) m → served q (startActiveRequest r m).
Proof.
  intros Hc [[Hs Hl] (H1 & H2 & H3)]. apply begin_attempt_served.
  - pose proof (ids_NoDup _ _ Hc) as Hnd. unfold ids in Hnd. csimpl in Hnd.
    apply NoDup_cons in Hnd as [Hni _]. rewrite !not_elem_of_app in Hni.
    split_and!; cbn [take_slot launched running tasks next_id]; [set_solver|lia| |tauto|tauto].
    rewrite H3; [done|set_solver].
  - csimpl in Hs. split; [split|split_and!]; cbn [take_slot launched running tasks next_id].
    + rewrite fmap_app, <-(assoc_L (++)). done.
    + intros r' [?|Heq]%elem_of_app; [auto|]. apply list_elem_of_singleton in Heq as ->.
      destruct Hc as (_ & _ & Hp).
      assert (id r ∈ seq 0 (next_id m)) as Hin by (rewrite <-Hp; unfold ids; set_solver).
      apply elem_of_seq in Hin. lia.
    + intros r' a' Hin. destruct (H1 r' a' Hin) as (? & ? & ?). split_and!; try done; set_solver.
    + intros r' [?|Heq]%elem_of_app; [auto|]. apply list_elem_of_singleton in Heq as ->.
      rewrite (H3 (id r)) by set_solver. lia.
    + intros i Hi. apply H3. set_solver.
Qed.

Lemma served_with_queue q q' m : served q m → served q (with_queue q' m).
Proof. done. Qed.

Lemma drain_served q m :
  core q m → served q m → served (queue (drain q m)) (drain q m).
Proof.
  revert m. induction q as [|r q IH]; intros m Hc Hs; cbn [drain]; [done|].
  case_bool_decide as Hlt; [|done].
  case_match; apply IH; auto using settle_core, settle_served, start_core, start_served.
Qed.

Lemma run_served k o m : inv m → served (queue m) m → served (queue (run k o m).2) (run k o m).2.
Proof.
  intros Hm Hs. unfold run. case_match; [done|]. destruct Hm as [(Ha & Hb & Hp) _].
  set (m1 := mkManager _ _ _ _ _ _ _ _ _ _ _).
  assert (core (queue m1) m1) as Hc1.
  { split_and!; [done|done|]. unfold ids in *. cbn [m1 running settled next_id queue] in *.
    rewrite fmap_app, seq_S. perm_solve. }
  apply (drain_served (queue m1) m1); [done|].
  destruct Hs as [[Hs Hl] (H1 & H2 & H3)]. split; [split|split_and!]; cbn [m1 queue launched running tasks next_id].
  - rewrite fmap_app, (assoc_L (++)). apply StronglySorted_app. split_and!; [|done|].
    + intros i j Hi [Hj|Hj]%elem_of_cons; [|by apply not_elem_of_nil in Hj]. subst j. simpl.
      apply elem_of_app in Hi as [Hi|Hi].
      * apply list_elem_of_fmap in Hi as (r & -> & Hr). auto.
      * assert (i ∈ seq 0 (next_id m)) as Hin by (rewrite <-Hp; unfold ids; set_solver).
        apply elem_of_seq in Hin. lia.
    + repeat constructor.
  - intros r Hr. specialize (Hl r Hr). lia.
  - done.
  - done.
  - intros i [Hi|Hi]; apply H3; [|lia]. rewrite fmap_app, elem_of_app in Hi.
    destruct Hi as [Hi|Hi]; [by left|]. right. csimpl in Hi. set_solver by lia.
Qed.

Lemma served_sublist q q' m : q' `sublist_of` q → served q m → served q' m.
Proof.
  intros Hsub [[Hs Hl] (H1 & H2 & H3)].
  assert ((id <$> q') `sublist_of` (id <$> q)) as Hsub' by by apply sublist_map.
  split; [split; [|done]|split_and!; [done|done|]].
  - apply StronglySorted_app in Hs as (Hd & Ha & Hb).
    apply StronglySorted_app. split_and!; [|done|by eapply StronglySorted_sublist].
    intros i j Hi Hj. apply Hd; [done|]. by eapply elem_of_sublist.
  - intros i [Hi|Hi]; apply H3; [left|by right]. by eapply elem_of_sublist.
Qed.

Lemma splice_key_sublist k q r q' : splice_key k q = Some (r, q') → q' `sublist_of` q.
Proof.
  revert q'. induction q as [|x q IH]; intros q'; cbn [splice_key]; [done|].
  case_bool_decide; [intros; simplify_eq; by constructor|].
  destruct (splice_key k q) as [[y q2]|]; intros; simplify_eq. constructor. by apply IH.
Qed.

Lemma settle_served_same r q m x : served q m → served q (settle r x m).
Proof. intros [[Hs Hl] (H1 & H2 & H3)]. unfold settle. by case_match. Qed.

Lemma settle_all_served q l m :
  served q m → served q (foldl (λ m r, settle r (Rejected AbortError) m) m l).
Proof. revert m. induction l as [|r l IH]; intros m Hs; [done|]. by apply IH, settle_served_same. Qed.

Lemma attempt_served i r a x m :
  core (queue m) m → served (queue m) m →
  list_find_first (has_id i) (running m) = Some (r, a) →
  served (queue m)
    (attempt_settled r a x (with_running (bfilter (λ p, negb (has_id i p)) (running m)) m)).
Proof.
  intros Hc Hs Hf. pose proof (list_find_first_Some _ _ _ Hf) as [Hin _].
  destruct (core_remove_running m i r a Hc Hf) as [(_ & _ & Hp) <-].
  pose proof (NoDup_seq 0 (next_id m)) as Hnd.
  change (next_id m) with (next_id (with_running (bfilter (λ p, negb (has_id (id r) p)) (running m)) m)) in Hnd.
  rewrite <-Hp in Hnd. unfold ids in Hnd. apply NoDup_cons in Hnd as [Hni _].
  rewrite !not_elem_of_app in Hni. destruct Hni as (Hq & Hr & _).
  destruct Hs as [Hfifo (H1 & H2 & H3)]. destruct (H1 r a Hin) as (Hla & Hra & Hcnt).
  set (m' := with_running _ _) in *.
  assert (served (queue m) m') as Hs'.
  { split; [done|]. split_and!; [|done|done]. intros r' a' Hin'. apply H1.
    cbn in Hin'. by apply elem_of_bfilter in Hin' as [_ ?]. }
  unfold attempt_settled. repeat case_match; try by apply execute_done_served.
  apply begin_attempt_served; [|done]. split_and!; cbn [launched tasks running]; try done; cbn; lia.
Qed.

Lemma step_served ev m : inv m → served (queue m) m → served (queue (step ev m)) (step ev m).
Proof.
  intros Hm Hs. destruct ev as [k o|k| |i x|i|k i]; cbn [step].
  - by apply run_served.
  - unfold abort. destruct (jm_get k (pending m)); [|done]. cbn [queue with_pending with_aborted].
    destruct (splice_key k (queue m)) as [[r q]|] eqn:Hk; [|done].
    apply splice_key_sublist in Hk.
    destruct (settle_fields r (Rejected AbortError)
      (with_queue q (with_pending (jm_delete k (pending m)) (with_aborted (aborted m ++ [n]) m)))) as (-> & _).
    apply settle_served_same. by apply (served_sublist (queue m)).
  - apply (served_sublist (queue m)); [apply sublist_nil_l|]. by apply settle_all_served.
  - destruct (list_find_first (has_id i) (running m)) as [[r a]|] eqn:Hf; [|done].
    rewrite attempt_settled_fields. cbn [queue with_running].
    apply attempt_served; [apply Hm|done|done].
  - case_match eqn:Hr; [|done]. destruct Hm as [(Ha & Hb & Hp) _]. apply remove_one_Some in Hr.
    apply drain_served; [|done]. split_and!; cbn; [|lia|done]. rewrite Hr in Ha. simpl in Ha. lia.
  - by case_match.
Qed.

Lemma runs_served evs :
  let m := runs step evs constructor in served (queue m) m.
Proof.
  cbn zeta.
  assert (inv (runs step evs constructor)
          ∧ served (queue (runs step evs constructor)) (runs step evs constructor)) as [_ ?]; [|done].
  apply (runs_invariant step (λ m, inv m ∧ served (queue m) m)).
  - intros ev m [Hm Hs]. split; [by apply step_inv|by apply step_served].
  - split; [split; [by split_and!|done]|]. split; [split; [constructor|set_solver]|].
    split_and!; [set_solver|set_solver|done].
Qed.

(** ** Cancellation *)

(** Identities in use are below [next_id]. *)
Definition known (m : t) : Prop :=
  (∀ k i, (k, i) ∈ pending m → (i < next_id m)%nat) ∧ (∀ i, i ∈ aborted m → (i < next_id m)%nat).

Lemma settle_tasks r x m : tasks (settle r x m) = tasks m ∧ pending (settle r x m) = pending m
  ∧ next_id (settle r x m) = next_id m.
Proof. unfold settle. by case_match. Qed.

Lemma begin_attempt_tasks r a m i :
  i ∈ aborted m → count_of i (tasks (begin_attempt r a m)) = count_of i (tasks m).
Proof.
  intros Hi. unfold begin_attempt, is_aborted, execute_done.
  repeat case_bool_decide; cbn [tasks]; try by rewrite (proj1 (settle_tasks _ _ _)).
  rewrite count_of_app, (count_of_0 _ [_]); [lia|]. set_solver.
Qed.

Lemma begin_attempt_aborted r a m :
  aborted (begin_attempt r a m) = aborted m ∧ pending (begin_attempt r a m) = pending m
  ∧ next_id (begin_attempt r a m) = next_id m.
Proof.
  unfold begin_attempt, execute_done, settle. by repeat case_match.
Qed.

Lemma drain_tasks q m i :
  i ∈ aborted m → count_of i (tasks (drain q m)) = count_of i (tasks m).
Proof.
  revert m. induction q as [|r q IH]; intros m Hi; cbn [drain]; [done|].
  repeat case_match; [..|done]; rewrite IH.
  - by rewrite (proj1 (settle_tasks _ _ _)).
  - by destruct (settle_fields r (Rejected AbortError) m) as (_ & _ & _ & ->).
  - unfold startActiveRequest. by rewrite begin_attempt_tasks.
  - unfold startActiveRequest. by destruct (begin_attempt_aborted r 0 (take_slot r m)) as (-> & _).
Qed.

Lemma drain_known_fields q m :
  aborted (drain q m) = aborted m ∧ pending (drain q m) = pending m ∧ next_id (drain q m) = next_id m.
Proof.
  revert m. induction q as [|r q IH]; intros m; cbn [drain]; [done|].
  repeat case_match; [..|done].
  - destruct (IH (settle r (Rejected AbortError) m)) as (-> & -> & ->).
    destruct (settle_fields r (Rejected AbortError) m) as (_ & _ & _ & ->).
    by destruct (settle_tasks r (Rejected AbortError) m) as (_ & -> & ->).
  - destruct (IH (startActiveRequest r m)) as (-> & -> & ->).
    apply (begin_attempt_aborted r 0 (take_slot r m)).
Qed.

Lemma settle_all_fields l m :
  let m' := foldl (λ m r, settle r (Rejected AbortError) m) m l in
  aborted m' = aborted m ∧ next_id m' = next_id m ∧ tasks m' = tasks m.
Proof.
  cbn zeta. revert m. induction l as [|r l IH]; intros m; [done|]. cbn [foldl].
  destruct (IH (settle r (Rejected AbortError) m)) as (-> & -> & ->).
  destruct (settle_fields r (Rejected AbortError) m) as (_ & _ & _ & ->).
  by destruct (settle_tasks r (Rejected AbortError) m) as (-> & _ & ->).
Qed.

Lemma attempt_settled_known r a x m :
  aborted (attempt_settled r a x m) = aborted m ∧ pending (attempt_settled r a x m) = pending m
  ∧ next_id (attempt_settled r a x m) = next_id m.
Proof.
  unfold attempt_settled, begin_attempt, execute_done, settle. by repeat case_match.
Qed.

Lemma attempt_settled_tasks r a x m i :
  i ∈ aborted m → count_of i (tasks (attempt_settled r a x m)) = count_of i (tasks m).
Proof.
  intros Hi. unfold attempt_settled, execute_done.
  repeat case_match; cbn [tasks]; try by rewrite (proj1 (settle_tasks _ _ _)).
  by apply begin_attempt_tasks.
Qed.

Lemma step_known ev m : known m → known (step ev m).
Proof.
  intros [Hp Ha]. destruct ev as [k o|k| |i x|i|k i]; cbn [step].
  - unfold run. destruct (jm_get k (pending m)); [done|]. cbn zeta. set (m1 := mkManager _ _ _ _ _ _ _ _ _ _ _).
    destruct (drain_known_fields (queue m1) m1) as (Ea & Ep & En). fold (drainQueue m1) in *.
    split; cbn [snd with_pending pending aborted next_id]; rewrite En.
    + intros k' i'. rewrite Ep. cbn [m1 pending next_id]. intros Hin.
      assert ((k', i') = (k, next_id m) ∨ (k', i') ∈ pending m) as [[= -> ->]|Hin'].
      { clear -Hin. induction (pending m) as [|[k2 i2] l IH]; cbn [jm_set] in Hin; [set_solver|].
        case_bool_decide; set_solver. }
      * lia.
      * specialize (Hp _ _ Hin'). lia.
    + rewrite Ea. cbn. intros i Hi. specialize (Ha i Hi). lia.
  - unfold abort. destruct (jm_get k (pending m)) as [n|] eqn:Hg; [|done].
    apply jm_get_elem_of, Hp in Hg.
    assert (known (with_pending (jm_delete k (pending m)) (with_aborted (aborted m ++ [n]) m))) as Hk.
    { split; cbn; [intros k' i' [_ Hin]%elem_of_bfilter; eauto|set_solver]. }
    cbn zeta. destruct (splice_key _ _) as [[r q]|]; [|done].
    unfold settle. case_match; done.
  - set (m1 := with_aborted (aborted m ++ jm_values (pending m)) m).
    destruct (settle_all_fields (queue m1) m1)
      as (Ea & En & _).
    unfold abortAll. fold m1.
    split; cbn [with_queue with_pending pending aborted next_id]; [set_solver|].
    rewrite Ea, En. cbn. intros i [?|Hi]%elem_of_app; [auto|].
    apply list_elem_of_fmap in Hi as ([k j] & -> & Hin). eauto.
  - destruct (list_find_first _ _) as [[r a]|]; [|done].
    unfold known. by destruct (attempt_settled_known r a x
      (with_running (bfilter (λ p, negb (has_id i p)) (running m)) m)) as (-> & -> & ->).
  - destruct (remove_one _ _) as [l|]; [|done]. unfold finished, drainQueue.
    match goal with |- known (drain ?q ?m) => destruct (drain_known_fields q m) as (Ea & Ep & En) end.
    unfold known. by rewrite Ea, Ep, En.
  - destruct (remove_one _ _); [|done]. split; cbn; [|done].
    intros k' i' [_ Hin]%elem_of_bfilter. eauto.
Qed.

(** Once cancelled, a request's task is never called again. *)
Lemma step_aborted ev m i :
  known m → i ∈ aborted m →
  i ∈ aborted (step ev m) ∧ count_of i (tasks (step ev m)) = count_of i (tasks m).
Proof.
  intros [Hp Ha] Hi. destruct ev as [k o|k| |j x|j|k j]; cbn [step].
  - unfold run. destruct (jm_get k (pending m)); [done|]. cbn zeta. set (m1 := mkManager _ _ _ _ _ _ _ _ _ _ _).
    destruct (drain_known_fields (queue m1) m1) as (Ea & _ & _). fold (drainQueue m1) in *.
    cbn [snd with_pending aborted tasks]. rewrite Ea. split; [done|]. by apply (drain_tasks (queue m1) m1).
  - unfold abort. destruct (jm_get k (pending m)); [|done]. cbn zeta.
    destruct (splice_key _ _) as [[r q]|]; [|cbn; split; [set_solver|done]].
    unfold settle. case_match; (split; [cbn; set_solver|done]).
  - set (m1 := with_aborted (aborted m ++ jm_values (pending m)) m).
    destruct (settle_all_fields (queue m1) m1)
      as (Ea & _ & Et).
    unfold abortAll. fold m1. cbn [with_queue with_pending aborted tasks]. rewrite Ea, Et. cbn. split; [set_solver|done].
  - destruct (list_find_first _ _) as [[r a]|]; [|done].
    rewrite attempt_settled_tasks by done. by destruct (attempt_settled_known r a x
      (with_running (bfilter (λ p, negb (has_id j p)) (running m)) m)) as (-> & _).
  - destruct (remove_one _ _) as [l|]; [|done]. unfold finished, drainQueue.
    rewrite drain_tasks by done.
    by match goal with |- context [drain ?q ?m] => destruct (drain_known_fields q m) as (-> & _) end.
  - by destruct (remove_one _ _).
Qed.

(** ** One request per key *)

Definition entry_of (r : QueuedRequest) : string * nat := (key r, id r).

(** The promises whose [pending] entry is still owed a [finally]: queued,
    running, or settled with the callback not yet run. *)
Definition owed (q : list QueuedRequest) (m : t) : list (string * nat) :=
  (entry_of <$> q) ++ (entry_of ∘ fst <$> running m) ++ finallies m.

Definition owes (q : list QueuedRequest) (m : t) (x : list (string * nat)) : Prop :=
  aborted m = [] ∧ owed q m ≡ₚ x.

Definition no_cancellation (ev : event) : Prop :=
  match ev with Abort _ | AbortAll => False | _ => True end.

Lemma begin_attempt_owes r a q m x :
  core_with r q m → aborted m = [] → entry_of r :: owed q m ≡ₚ x → owes q (begin_attempt r a m) x.
Proof.
  intros (_ & _ & Hp) Hna Hx.
  assert (jm_has (id r) (settled m) = false) as Hs by by eapply core_with_unsettled.
  unfold begin_attempt, is_aborted, execute_done, settle. rewrite Hs.
  unfold owes, owed in *. repeat case_match; cbn [aborted running finallies];
    (split; [done|]); change (key r, id r) with (entry_of r); clear Hp; perm_solve.
Qed.

Lemma execute_done_owes r q m o x :
  core_with r q m → aborted m = [] → entry_of r :: owed q m ≡ₚ x → owes q (execute_done r o m) x.
Proof.
  intros (_ & _ & Hp) Hna Hx.
  assert (jm_has (id r) (settled m) = false) as Hs by by eapply core_with_unsettled.
  unfold execute_done, settle. rewrite Hs. unfold owes, owed in *. cbn [aborted running finallies].
  split; [done|]. change (key r, id r) with (entry_of r). clear Hp. perm_solve.
Qed.

Lemma attempt_settled_owes r a o q m x :
  core_with r q m → aborted m = [] → entry_of r :: owed q m ≡ₚ x →
  owes q (attempt_settled r a o m) x.
Proof.
  intros. unfold attempt_settled.
  repeat case_match; by (apply execute_done_owes || apply begin_attempt_owes).
Qed.

Lemma start_owes r q m x :
  core (r :: q) m → activeCount m < REQUEST_CONFIG.pool_maxConcurrent →
  owes (r :: q) m x → owes q (startActiveRequest r m) x.
Proof.
  intros (Ha & Hb & Hp) Hlt [Hna Hx]. apply begin_attempt_owes; [|done|done].
  split_and!; cbn [take_slot activeCount running finishing next_id]; [lia|lia|done].
Qed.

Lemma drain_owes q m x :
  core q m → owes q m x → owes (queue (drain q m)) (drain q m) x.
Proof.
  revert m. induction q as [|r q IH]; intros m Hc Hx; cbn [drain]; [done|].
  case_bool_decide as Hlt; [|done].
  replace (is_aborted r m) with false.
  - apply IH; auto using start_core, start_owes.
  - symmetry. unfold is_aborted. rewrite (proj1 Hx). apply bool_decide_eq_false_2, not_elem_of_nil.
Qed.

Definition single_flight (m : t) : Prop :=
  jm_wf (pending m) ∧ owes (queue m) m (pending m).

Lemma run_single_flight k o m : inv m → single_flight m → single_flight (run k o m).2.
Proof.
  intros [(Ha & Hb & Hp) _] [Hwf Hx]. unfold run.
  destruct (jm_get k (pending m)) as [|] eqn:Hg; [done|]. cbn zeta.
  set (m1 := mkManager _ _ _ _ _ _ _ _ _ _ _).
  assert (core (queue m1) m1) as Hc1.
  { split_and!; [done|done|]. unfold ids in *. cbn [m1 running settled next_id queue] in *.
    rewrite fmap_app, seq_S. perm_solve. }
  destruct (drain_known_fields (queue m1) m1) as (_ & Ep & _). fold (drainQueue m1) in *.
  destruct (drain_owes (queue m1) m1 (pending m ++ [(k, next_id m)]) Hc1) as [Hna Hd].
  { destruct Hx as [Hna Hx]. split; [done|]. unfold owed in *. cbn [m1 running finallies queue].
    rewrite fmap_app. change (entry_of <$> [queuedRequest k (next_id m) o]) with [(k, next_id m)].
    perm_solve. }
  fold (drainQueue m1) in Hna, Hd. split; cbn [snd with_pending pending]; rewrite Ep; cbn [m1 pending].
  - eauto with js.
  - split; [done|]. rewrite jm_set_fresh by done. done.
Qed.

Lemma step_single_flight ev m :
  no_cancellation ev → inv m → single_flight m → single_flight (step ev m).
Proof.
  intros Hok Hm Hs. destruct ev as [k o|k| |i x|i|k i]; cbn [step]; [by apply run_single_flight|done|done|..].
  - destruct (list_find_first (has_id i) (running m)) as [[r a]|] eqn:Hf; [|done].
    destruct Hm as [Hc _]. destruct (core_remove_running m i r a Hc Hf) as [Hcw <-].
    destruct Hs as [Hwf [Hna Hx]].
    unfold single_flight. rewrite attempt_settled_fields.
    destruct (attempt_settled_known r a x (with_running (bfilter (λ p, negb (has_id (id r) p)) (running m)) m))
      as (_ & -> & _). split; [done|]. cbn [pending queue with_running].
    set (m' := with_running _ m) in *.
    assert (entry_of r :: owed (queue m) m' ≡ₚ pending m) as Hx'.
    { rewrite <-Hx. unfold owed. cbn [m' with_running running finallies].
      assert (running m ≡ₚ (r, a) :: bfilter (λ p, negb (has_id (id r) p)) (running m)) as Hr.
      { apply (bfilter_remove_perm (id ∘ fst) (running m) (r, a)); [|done].
        apply ids_NoDup in Hc. unfold ids in Hc. apply NoDup_app in Hc as (_ & _ & Hc).
        by apply NoDup_app in Hc as (? & _). }
      rewrite Hr at 2. clear -r. perm_solve. }
    by apply attempt_settled_owes.
  - destruct (remove_one i (finishing m)) as [l|] eqn:Hr; [|done]. destruct Hs as [Hwf Hx].
    unfold finished, drainQueue. set (m1 := mkManager _ _ _ _ _ _ _ _ _ _ _).
    assert (core (queue m1) m1) as Hc1.
    { destruct Hm as [(Ha & Hb & Hp) _]. apply remove_one_Some in Hr.
      split_and!; cbn; [|lia|done]. rewrite Hr in Ha. simpl in Ha. lia. }
    destruct (drain_known_fields (queue m1) m1) as (_ & Ep & _).
    split; rewrite Ep; [done|]. by apply drain_owes.
  - destruct (remove_one (k, i) (finallies m)) as [l|] eqn:Hr; [|done].
    destruct Hs as [Hwf [Hna Hx]]. apply remove_one_Some in Hr.
    split; cbn [pending]; [eauto with js|]. split; [done|].
    unfold owed in *. cbn [queue running finallies pending].
    assert ((k, i) ∈ pending m) as Hin by (rewrite <-Hx, Hr; set_solver).
    pose proof (jm_delete_perm k i (pending m) Hwf Hin) as Hd. rewrite Hr in Hx. clear Hr. perm_solve.
Qed.

Lemma runs_single_flight evs :
  Forall no_cancellation evs → single_flight (runs step evs constructor).
Proof.
  intros Hevs.
  assert (inv (runs step evs constructor) ∧ single_flight (runs step evs constructor)) as [_ ?]; [|done].
  apply (runs_invariant_cond step no_cancellation (λ m, inv m ∧ single_flight m)); [|done|].
  - intros ev m Hok [Hm Hs]. split; [by apply step_inv|by apply step_single_flight].
  - split; [split; [by split_and!|done]|]. split; [constructor|]. by split.
Qed.
(** ** Progress *)

Definition work (q : list QueuedRequest) (m : t) : nat :=
  (3 * length q + 2 * length (running m) + length (finishing m))%nat.

Lemma settle_lengths r x m :
  running (settle r x m) = running m ∧ finishing (settle r x m) = finishing m.
Proof. unfold settle. by case_match. Qed.

Lemma begin_attempt_work r a q m : (work q (begin_attempt r a m) ≤ work q m + 2)%nat.
Proof.
  unfold begin_attempt, execute_done, settle, work.
  repeat case_match; cbn [running finishing]; rewrite ?length_app; cbn [length]; lia.
Qed.

Lemma drain_work q m : (work (queue (drain q m)) (drain q m) ≤ work q m)%nat.
Proof.
  revert m. induction q as [|r q IH]; intros m; cbn [drain]; [done|].
  repeat case_match; [..|done].
  - etrans; [apply IH|]. unfold work. destruct (settle_lengths r (Rejected AbortError) m) as [-> ->].
    cbn [length]. lia.
  - etrans; [apply IH|]. unfold startActiveRequest.
    pose proof (begin_attempt_work r 0 q (take_slot r m)) as Hw.
    unfold work in *. cbn [take_slot running finishing length] in *. lia.
Qed.

(** The continuations of accepted work, as opposed to calls by clients. *)
Definition completion (ev : event) : Prop :=
  match ev with TaskSettled _ _ | Finished _ => True | _ => False end.

Lemma head_work_decreases (v : V) m :
  inv m → work (queue m) m ≠ 0%nat →
  ∃ ev, completion ev ∧ (work (queue (step ev m)) (step ev m) < work (queue m) m)%nat.
Proof.
  intros [Hc Hfull] Hw. destruct (finishing m) as [|i l] eqn:Hfin.
  - destruct (running m) as [|[r a] l] eqn:Hrun.
    + exfalso. unfold work in Hw. rewrite Hfin, Hrun in Hw. simpl in Hw.
      destruct Hc as (Ha & _). rewrite Hfin, Hrun in Ha. simpl in Ha.
      destruct (queue m) eqn:Hq; [simpl in Hw; lia|].
      assert (activeCount m = REQUEST_CONFIG.pool_maxConcurrent) as He by by apply Hfull.
      rewrite Ha in He. by vm_compute in He.
    + exists (TaskSettled (id r) (inl v)). split; [done|]. cbn [step].
      destruct (list_find_first (has_id (id r)) (running m)) as [[r' a']|] eqn:Hf.
      * rewrite attempt_settled_fields. cbn [queue with_running].
        pose proof (core_remove_running m (id r) r' a' Hc Hf) as [(Hac & _) _].
        destruct Hc as (Ha & _). cbn [with_running activeCount running finishing] in Hac.
        unfold work, attempt_settled, execute_done, settle.
        case_match; cbn [running finishing with_running]; rewrite length_app; cbn [length]; lia.
      * exfalso. eapply list_find_first_None in Hf as Hx; [|rewrite Hrun; apply elem_of_cons; by left].
        unfold has_id in Hx. reflect_bools. done.
  - exists (Finished i). split; [done|]. cbn [step]. rewrite Hfin. cbn [remove_one].
    rewrite decide_True by done. unfold finished, drainQueue.
    eapply Nat.le_lt_trans; [apply drain_work|].
    unfold work. cbn [queue running finishing]. rewrite Hfin. simpl. lia.
Qed.

Lemma drains (v : V) m :
  inv m → ∃ evs, Forall completion evs ∧ inv (runs step evs m) ∧
                 work (queue (runs step evs m)) (runs step evs m) = 0%nat.
Proof.
  remember (work (queue m) m) as n eqn:Hn. revert m Hn.
  induction (lt_wf n) as [n _ IH]. intros m -> Hm.
  destruct (decide (work (queue m) m = 0%nat)) as [|Hne]; [by exists []|].
  destruct (head_work_decreases v m Hm Hne) as (ev & Hev & Hlt).
  destruct (IH _ Hlt (step ev m) eq_refl) as (evs & Hevs & Hinv & Hw); [by apply step_inv|].
  exists (ev :: evs). split; [by constructor|done].
Qed.

(** ** Properties *)

(** C1: for every interleaving of calls and continuations, the pool holds
    exactly as many slots as there are requests executing, never more than
    [maxConcurrent]; no request waits while a slot is free; and every promise
    handed out is, exactly once, queued, running or settled: none is lost and
    none is settled twice. *)
Theorem pool_invariant (evs : list event) :
  let m := runs step evs constructor in
  activeCount m = Z.of_nat (length (running m)) + Z.of_nat (length (finishing m)) ∧
  0 ≤ activeCount m ≤ REQUEST_CONFIG.pool_maxConcurrent ∧
  (queue m ≠ [] → activeCount m = REQUEST_CONFIG.pool_maxConcurrent) ∧
  (id <$> queue m) ++ (id ∘ fst <$> running m) ++ (settled m).*1 ≡ₚ seq 0 (next_id m).
Proof.
  intros m. destruct (runs_inv evs) as [(Ha & Hb & Hp) Hfull]. fold m in Ha, Hb, Hp, Hfull.
  split_and!; [done|lia|done|done|done].
Qed.

(** Slots are granted in arrival order, and a request's task is called at
    most [retryAttempts + 1] times (never, if [retryAttempts] is negative). *)
Theorem pool_fair_and_bounded_retries (evs : list event) :
  let m := runs step evs constructor in
  StronglySorted lt (id <$> launched m) ∧
  ∀ r, r ∈ launched m → Z.of_nat (count_of (id r) (tasks m)) ≤ Z.max 0 (retryAttempts r + 1).
Proof.
  intros m. destruct (runs_served evs) as [[Hs _] (_ & H2 & _)]. fold m in Hs, H2.
  split; [|done]. by apply StronglySorted_app_1_l in Hs.
Qed.

(** Cancellation is final: once a request's controller is aborted, no
    later event calls its task again. *)
Theorem abort_stops_retries (evs evs' : list event) (i : nat) :
  let m := runs step evs constructor in
  i ∈ aborted m →
  count_of i (tasks (runs step (evs ++ evs') constructor)) = count_of i (tasks m).
Proof.
  intros m Hi. rewrite runs_app. fold m.
  assert (known m) as Hk.
  { apply runs_invariant; [intros; by apply step_known|]. split; set_solver. }
  clearbody m. revert m Hi Hk. induction evs' as [|ev evs' IH]; intros m Hi Hk; [done|].
  cbn [runs foldl]. destruct (step_aborted ev m i Hk Hi) as [Hi' <-].
  apply IH; [done|by apply step_known].
Qed.

(** C39: sharing.  In every run without cancellations ([abort] and [abortAll]
    are not called) no two requests in flight, queued or running,
    have the same key; and [run] on the key of a request in flight, whatever the
    options, returns the promise of that request and changes nothing. *)
Theorem one_request_per_key (evs : list event) (o : RequestManagerOptions) :
  Forall no_cancellation evs →
  let m := runs step evs constructor in
  let flight := queue m ++ (fst <$> running m) in
  NoDup (key <$> flight) ∧ ∀ r, r ∈ flight → run (key r) o m = (id r, m).
Proof.
  intros Hevs m flight. destruct (runs_single_flight evs Hevs) as [Hwf [_ Hx]].
  fold m in Hwf, Hx. unfold owed in Hx.
  assert (owed (queue m) m = (entry_of <$> flight) ++ finallies m) as Ho.
  { unfold owed, flight. rewrite fmap_app, <-list_fmap_compose, <-(assoc_L (++)). done. }
  fold (owed (queue m) m) in Hx. rewrite Ho in Hx. split.
  - unfold jm_wf in Hwf. rewrite <-Hx, fmap_app in Hwf. apply NoDup_app in Hwf as (Hwf & _).
    rewrite <-list_fmap_compose in Hwf. done.
  - intros r Hr. unfold run. rewrite (jm_elem_of_get (key r) (id r)); [done|done|].
    rewrite <-Hx. apply elem_of_app. left. apply list_elem_of_fmap. by exists r.
Qed.

(** C12: no deadlock: from every reachable state, if tasks complete, the
    continuations of the accepted work alone (no further client call) lead to
    a state with nothing queued or running, in which every promise handed out
    is settled. *)
Theorem pool_drains (v : V) (evs : list event) :
  ∃ evs', Forall completion evs' ∧
    let m := runs step (evs ++ evs') constructor in
    queue m = [] ∧ running m = [] ∧ activeCount m = 0 ∧
    ∀ i, (i < next_id m)%nat → is_Some (jm_get i (settled m)).
Proof.
  destruct (drains v _ (runs_inv evs)) as (evs' & Hevs & [(Ha & _ & Hp) _] & Hw).
  exists evs'. split; [done|]. rewrite runs_app. cbn zeta.
  set (m := runs step evs' _) in *. unfold work in Hw.
  destruct (queue m) as [|] eqn:Hq; [|simpl in Hw; lia].
  destruct (running m) as [|] eqn:Hr; [|simpl in Hw; lia].
  destruct (finishing m) as [|] eqn:Hf; [|simpl in Hw; lia].
  split_and!; [done|done|done|].
  intros i Hi. apply jm_get_is_Some. unfold ids in Hp. rewrite Hr in Hp. simpl in Hp.
  rewrite Hp. apply elem_of_seq. lia.
Qed.
End manager.

(** ** Witnesses *)

Definition plain_options : @RequestManagerOptions nat := mkOptions None None None.

Lemma abort_stops_retries_witness :
  count_of 0%nat (tasks (runs step ([Run "k" plain_options; Abort "k"]
     ++ [TaskSettled 0 (inr AbortError); Finished 0; FinallyRun "k" 0])
     (@constructor nat nat))) = 1%nat.
Proof.
  refine (abort_stops_retries [Run "k" plain_options; Abort "k"]
    [TaskSettled 0 (inr AbortError); Finished 0; FinallyRun "k" 0] 0 _).
  vm_compute. by left.
Defined.

Lemma one_request_per_key_witness :
  let m := runs step [Run "a" plain_options; Run "b" plain_options; Run "a" plain_options]
             (@constructor nat nat) in
  let flight := queue m ++ (fst <$> running m) in
  NoDup (key <$> flight) ∧ ∀ r, r ∈ flight → run (key r) plain_options m = (id r, m).
Proof.
  refine (one_request_per_key
    [Run "a" plain_options; Run "b" plain_options; Run "a" plain_options] plain_options _).
  repeat constructor.
Defined.

(** Cancelling and re-issuing a key breaks the sharing: the cancelled
    promise's [finally] deletes the [pending] entry of its successor.  The
    successor's task is still running, yet [abort] on its key does nothing and
    the next [run] starts a second concurrent task for the same key. *)
Theorem stale_finally_unregisters_successor :
  let m := runs step
    [Run "k" plain_options; Abort "k"; Run "k" plain_options;
     TaskSettled 0 (inr AbortError); FinallyRun "k" 0] (@constructor nat nat) in
  (key ∘ fst <$> running m) = ["k"%string] ∧ (id ∘ fst <$> running m) = [1%nat] ∧
  jm_get "k"%string (pending m) = None ∧
  step (Abort "k") m = m ∧
  (id ∘ fst <$> running (step (Run "k" plain_options) m)) = [1%nat; 2%nat].
Proof. by vm_compute. Qed.
End RequestManager.
