(* ===== verification/RpcClient.v ===== *)
(** * The JSON-RPC client ([glass-shared/utils/rpc.ts])

    [RpcClient] speaks JSON-RPC over HTTP POST or over a WebSocket.  The
    WebSocket transport is a state machine: a current socket, a connection
    promise shared by concurrent callers, a map of pending requests with a
    timer each, and an abort listener per caller.

    Sockets and callers are heap objects, named by their position.  A browser
    event (open, error, message, close, timer, abort) is an event of the
    model; the [await] of [ensureWebSocketReady] is split into the call and
    its resumption.  [close] leaves the handlers of the socket it drops
    attached, so the events of an old socket can arrive while a new one is in
    use: the heap keeps them.

    The counter of request identifiers is an integer; the source counts with a
    binary64 number, which is exact for the first 2^53 requests.  The address
    of the server is valid: exceptions of [new URL] and [new WebSocket] are not
    modelled. *)

From stdpp Require Import pretty.
From S2P Require Import Prelude JsMap JsString Json Constants.

Open Scope Z_scope.

Module RpcClient.

(** ** Messages *)

Inductive rpc_id :=
  | IdNum (x : num)
  | IdStr (s : jsstring)
  | IdNull.

Inductive JsonRpcResponse :=
  | JsonRpcSuccessResponse (id : rpc_id) (result : json)
  | JsonRpcErrorResponse (id : rpc_id) (code : num) (message : jsstring) (data : option json).

Record RpcError := mkRpcError {
  code : num;
  message : jsstring;
  data : option json;
}.

Definition rpc_error (c : Z) (msg : string) : RpcError := mkRpcError (num_of_Z c) (js msg) None.

Definition response_id (r : JsonRpcResponse) : rpc_id :=
  match r with JsonRpcSuccessResponse i _ => i | JsonRpcErrorResponse i _ _ _ => i end.

Definition parse_id (v : option json) : option rpc_id :=
  match v with
  | Some (JNum x) => Some (IdNum x)
  | Some (JStr s) => Some (IdStr s)
  | Some JNull => Some IdNull
  | _ => None
  end.

Definition parseJsonRpcResponse (raw : json) : option JsonRpcResponse :=
  match raw with
  | JArr _ | JObj _ =>
      match json_prop "jsonrpc" raw with
      | Some (JStr v) =>
          if bool_decide (v = js "2.0") then
            match parse_id (json_prop "id" raw) with
            | None => None
            | Some i =>
                if json_in "error" raw then
                  match json_prop "error" raw with
                  | Some error =>
                      if json_falsy error then None
                      else match json_prop "code" error, json_prop "message" error with
                      | Some (JNum c), Some (JStr m) =>
                          Some (JsonRpcErrorResponse i c m (json_prop "data" error))
                      | _, _ => None
                      end
                  | None => None
                  end
                else if json_in "result" raw then
                  match json_prop "result" raw with
                  | Some v => Some (JsonRpcSuccessResponse i v)
                  | None => None
                  end
                else None
            end
          else None
      | _ => None
      end
  | _ => None
  end.

(** [handleResponse]: the result, or the thrown error. *)
Definition handleResponse (r : JsonRpcResponse) : json + RpcError :=
  match r with
  | JsonRpcErrorResponse _ c m d => inr (mkRpcError c m d)
  | JsonRpcSuccessResponse _ v => inl v
  end.

(** ** HTTP transport *)

(** What [fetch] and [response.json()] produce. *)
Inductive fetch_outcome :=
  | FetchFailed (msg : string)
  | FetchResponse (ok : bool) (status : Z) (body : json + string).

Definition http_result (x : fetch_outcome) : json + RpcError :=
  match x with
  | FetchFailed msg => inr (rpc_error (-32000) ("Network error: " +:+ msg))
  | FetchResponse false status _ =>
      inr (rpc_error status ("HTTP error: " +:+ pretty status))
  | FetchResponse true _ (inr msg) => inr (rpc_error (-32000) ("Network error: " +:+ msg))
  | FetchResponse true _ (inl raw) =>
      match parseJsonRpcResponse raw with
      | None => inr (rpc_error (-32603) "Invalid JSON-RPC response")
      | Some r => handleResponse r
      end
  end.

(** ** WebSocket transport *)

Inductive ReadyState := CONNECTING | OPEN | CLOSING | CLOSED.

#[global] Instance ReadyState_eq_dec : EqDecision ReadyState.
Proof. solve_decision. Defined.

(** The promise returned by [initWebSocket]. *)
Inductive connection :=
  | ConnPending
  | ConnResolved
  | ConnRejected (e : RpcError).

Record socket := mkSocket {
  readyState : ReadyState;
  handlers : bool;
  connectTimer : bool;
  connect : connection;
}.

(** Where a caller of [callWebSocket] stands: waiting for the connection of a
    socket ([None]: the socket was already open), waiting for the response to
    its request, or settled. *)
Inductive call_state :=
  | WaitingReady (s : option nat)
  | InFlight (id : Z)
  | Done (x : json + RpcError).

Record caller := mkCaller {
  initiator : bool;
  signalAborted : bool;
  state : call_state;
}.

Record pending := mkPending {
  p_caller : nat;
  p_settled : bool;
  p_timer : bool;
}.

Record t := mkClient {
  useWebSocket : bool;
  ws : option nat;
  sockets : list socket;
  wsConnectPromise : option nat;
  callers : list caller;
  requestId : Z;
  requests : jsmap Z pending;
  pendingRequests : list Z;
  closeEvents : nat;
}.

Definition constructor (useWs : bool) : t := mkClient useWs None [] None [] 0 [] [] 0.

Definition with_sockets (l : list socket) (c : t) : t :=
  mkClient (useWebSocket c) (ws c) l (wsConnectPromise c) (callers c) (requestId c)
    (requests c) (pendingRequests c) (closeEvents c).
Definition with_ws (w : option nat) (c : t) : t :=
  mkClient (useWebSocket c) w (sockets c) (wsConnectPromise c) (callers c) (requestId c)
    (requests c) (pendingRequests c) (closeEvents c).
Definition with_connect (w : option nat) (c : t) : t :=
  mkClient (useWebSocket c) (ws c) (sockets c) w (callers c) (requestId c)
    (requests c) (pendingRequests c) (closeEvents c).
Definition with_callers (l : list caller) (c : t) : t :=
  mkClient (useWebSocket c) (ws c) (sockets c) (wsConnectPromise c) l (requestId c)
    (requests c) (pendingRequests c) (closeEvents c).
Definition with_requests (r : jsmap Z pending) (p : list Z) (c : t) : t :=
  mkClient (useWebSocket c) (ws c) (sockets c) (wsConnectPromise c) (callers c) (requestId c)
    r p (closeEvents c).

(** [this.ws?.readyState ?? WebSocket.CLOSED] *)
Definition getWsReadyState (c : t) : ReadyState :=
  match ws c with
  | Some s => match sockets c !! s with Some x => readyState x | None => CLOSED end
  | None => CLOSED
  end.

(** [socket.close()]: a closed socket stays closed, the others start closing. *)
Definition socket_close (x : socket) : socket :=
  match readyState x with
  | CLOSED => x
  | _ => mkSocket CLOSING (handlers x) (connectTimer x) (connect x)
  end.

Definition set_state (i : nat) (x : call_state) (c : t) : t :=
  with_callers (alter (λ k, mkCaller (initiator k) (signalAborted k) x) i (callers c)) c.

(** [callHttp]: it takes the next request identifier; [x] is what the exchange
    ended with (a timeout or an abort makes [fetch] fail). *)
Definition callHttp (x : fetch_outcome) (c : t) : (json + RpcError) * t :=
  (http_result x,
   mkClient (useWebSocket c) (ws c) (sockets c) (wsConnectPromise c) (callers c) (requestId c + 1)
     (requests c) (pendingRequests c) (closeEvents c)).

(** [cleanup] of one request: whether it was the first to settle it. *)
Definition cleanup (id : Z) (c : t) : bool * t :=
  match jm_get id (requests c) with
  | Some p =>
      if p_settled p then (false, c)
      else (true, with_requests (jm_set id (mkPending (p_caller p) true false) (requests c))
                    (bfilter (λ j, negb (bool_decide (j = id))) (pendingRequests c)) c)
  | None => (false, c)
  end.

(** [pending.resolve], [pending.reject], and the abort and timer callbacks. *)
Definition settle (id : Z) (x : json + RpcError) (c : t) : t :=
  match cleanup id c with
  | (true, c') =>
      match jm_get id (requests c) with
      | Some p => set_state (p_caller p) (Done x) c'
      | None => c'
      end
  | (false, c') => c'
  end.

Definition rejectPendingRequests (e : RpcError) (c : t) : t :=
  foldl (λ c id, settle id (inr e) c) c (pendingRequests c).

(** [initWebSocket]: detach and close the current socket, open a new one. *)
Definition detach (x : socket) : socket :=
  socket_close (mkSocket (readyState x) false (connectTimer x) (connect x)).

Definition initWebSocket (c : t) : nat * t :=
  let l := match ws c with Some s => alter detach s (sockets c) | None => sockets c end in
  let s := length (sockets c) in
  (s, with_ws (Some s) (with_sockets (l ++ [mkSocket CONNECTING true true ConnPending]) c)).

(** [ensureWebSocketReady] up to its [await]: the connection awaited and
    whether this call started it. *)
Definition ensureWebSocketReady (c : t) : option nat * bool * t :=
  if bool_decide (is_Some (ws c)) && bool_decide (getWsReadyState c = OPEN) then (None, false, c)
  else match wsConnectPromise c with
  | Some s => (Some s, false, c)
  | None => let '(s, c') := initWebSocket c in (Some s, true, with_connect (Some s) c')
  end.

(** [callWebSocket] up to its first [await]. *)
Definition callWebSocket (aborted : bool) (c : t) : t :=
  if aborted
  then with_callers (callers c ++ [mkCaller false true (Done (inr (rpc_error (-32000) "Request aborted")))]) c
  else let '(w, init, c') := ensureWebSocketReady c in
       with_callers (callers c' ++ [mkCaller init false (WaitingReady w)]) c'.

(** The promise body of [callWebSocket]: register the request, then send it. *)
Definition send_request (i : nat) (aborted : bool) (sendError : option string) (c : t) : t :=
  if aborted then set_state i (Done (inr (rpc_error (-32000) "Request aborted"))) c
  else
    let id := requestId c + 1 in
    let c1 := mkClient (useWebSocket c) (ws c) (sockets c) (wsConnectPromise c) (callers c) id
                (jm_set id (mkPending i false true) (requests c)) (pendingRequests c ++ [id])
                (closeEvents c) in
    let c2 := set_state i (InFlight id) c1 in
    if bool_decide (getWsReadyState c2 = OPEN) then
      match sendError with
      | None => c2
      | Some msg => settle id (inr (rpc_error (-32000) ("WebSocket send failed: " +:+ msg))) c2
      end
    else settle id (inr (rpc_error (-32000) "WebSocket not connected")) c2.

(** Resumption of a caller once the connection it awaits has settled.  The
    caller that started the connection runs the [finally] of
    [ensureWebSocketReady] first. *)
Definition resume (i : nat) (sendError : option string) (c : t) : t :=
  match callers c !! i with
  | Some (mkCaller init ab (WaitingReady w)) =>
      let c' := if init then with_connect None c else c in
      match w with
      | None => send_request i ab sendError c'
      | Some s =>
          match connect <$> sockets c !! s with
          | Some ConnResolved => send_request i ab sendError c'
          | Some (ConnRejected e) => set_state i (Done (inr e)) c'
          | _ => c
          end
      end
  | _ => c
  end.

(** Settling a connection promise: the first settlement counts. *)
Definition settle_connect (x : connection) (k : socket) : socket :=
  mkSocket (readyState k) (handlers k) false
    (match connect k with ConnPending => x | y => y end).

(** ** Event handlers *)

Definition onopen (s : nat) (c : t) : t :=
  with_sockets (alter (λ k,
    match readyState k with
    | CONNECTING =>
        let k := mkSocket OPEN (handlers k) (connectTimer k) (connect k) in
        if handlers k then settle_connect ConnResolved k else k
    | _ => k
    end) s (sockets c)) c.

Definition onerror (s : nat) (c : t) : t :=
  with_sockets (alter (λ k,
    if handlers k then settle_connect (ConnRejected (rpc_error (-32000) "WebSocket connection error")) k
    else k) s (sockets c)) c.

(** The connection timer of socket [s]: it closes the socket that is current
    when it fires. *)
Definition onconnecttimeout (s : nat) (c : t) : t :=
  match sockets c !! s with
  | Some k =>
      if connectTimer k then
        let l := match ws c with
                 | Some w => if bool_decide (getWsReadyState c = CONNECTING)
                             then alter socket_close w (sockets c) else sockets c
                 | None => sockets c
                 end in
        with_sockets (alter (settle_connect
          (ConnRejected (rpc_error (-32001) "WebSocket connection timeout"))) s l) c
      else c
  | None => c
  end.

(** Whether a response identifier names request [id] ([Map.get]). *)
Definition id_matches (r : rpc_id) (id : Z) : bool :=
  match r with IdNum x => num_eqb x (num_of_Z id) | _ => false end.

Definition onmessage (s : nat) (raw : option json) (c : t) : t :=
  match sockets c !! s with
  | Some k =>
      if handlers k then
        match raw with
        | None => c
        | Some v =>
            match parseJsonRpcResponse v with
            | None => c
            | Some r =>
                match list_find_first (id_matches (response_id r)) (pendingRequests c) with
                | Some id => settle id (handleResponse r) c
                | None => c
                end
            end
        end
      else c
  | None => c
  end.

Definition onclose (s : nat) (c : t) : t :=
  match sockets c !! s with
  | Some k =>
      let c1 := with_sockets (<[s := mkSocket CLOSED (handlers k)
                  (if handlers k then false else connectTimer k) (connect k)]> (sockets c)) c in
      if handlers k then
        let c2 := rejectPendingRequests (rpc_error (-32000) "WebSocket closed")
                    (with_connect None (with_ws None c1)) in
        mkClient (useWebSocket c2) (ws c2) (sockets c2) (wsConnectPromise c2) (callers c2)
          (requestId c2) (requests c2) (pendingRequests c2) (S (closeEvents c2))
      else c1
  | None => c
  end.

(** ** Client operations *)

Definition close_current (c : t) : t :=
  match ws c with
  | Some s => with_ws None (with_sockets (alter socket_close s (sockets c)) c)
  | None => c
  end.

Definition close (c : t) : t :=
  rejectPendingRequests (rpc_error (-32000) "WebSocket closed") (with_connect None (close_current c)).

Definition setTransport (use : bool) (c : t) : t :=
  if bool_decide (useWebSocket c = use) then c
  else
    let c1 := mkClient use (ws c) (sockets c) (wsConnectPromise c) (callers c) (requestId c)
                (requests c) (pendingRequests c) (closeEvents c) in
    if use then c1 else close_current c1.

Inductive event :=
  | Call (aborted : bool)
  | Resume (i : nat) (sendError : option string)
  | SocketOpen (s : nat)
  | SocketError (s : nat)
  | SocketMessage (s : nat) (raw : option json)
  | SocketClose (s : nat)
  | ConnectTimeout (s : nat)
  | RequestTimeout (id : Z)
  | AbortSignal (i : nat)
  | Close
  | SetTransport (use : bool)
  | HttpCall (x : fetch_outcome).

Definition timer_live (id : Z) (c : t) : bool :=
  match jm_get id (requests c) with Some p => p_timer p | None => false end.

Definition onabort (i : nat) (c : t) : t :=
  match callers c !! i with
  | Some k =>
      if signalAborted k then c else
      let c' := with_callers (<[i := mkCaller (initiator k) true (state k)]> (callers c)) c in
      match state k with
      | InFlight id => settle id (inr (rpc_error (-32000) "Request aborted")) c'
      | _ => c'
      end
  | None => c
  end.

Definition step (ev : event) (c : t) : t :=
  match ev with
  | Call ab => callWebSocket ab c
  | Resume i e => resume i e c
  | SocketOpen s => onopen s c
  | SocketError s => onerror s c
  | SocketMessage s raw => onmessage s raw c
  | SocketClose s => onclose s c
  | ConnectTimeout s => onconnecttimeout s c
  | RequestTimeout id =>
      if timer_live id c then settle id (inr (rpc_error (-32001) "Request timeout")) c else c
  | AbortSignal i => onabort i c
  | Close => close c
  | SetTransport use => setTransport use c
  | HttpCall x => (callHttp x c).2
  end.

(** ** Invariant: requests, timers and callers agree *)

Definition unsettled (id : Z) (i : nat) (c : t) : Prop :=
  ∃ p, jm_get id (requests c) = Some p ∧ p_settled p = false ∧ p_caller p = i.

Definition in_flight (i : nat) (id : Z) (c : t) : Prop :=
  ∃ k, callers c !! i = Some k ∧ state k = InFlight id.

Record inv (c : t) : Prop := mkInv {
  inv_keys : jm_wf (requests c);
  inv_id : ∀ id, id ∈ (requests c).*1 → 1 ≤ id ≤ requestId c;
  inv_counter : 0 ≤ requestId c;
  inv_timer : ∀ id p, jm_get id (requests c) = Some p → p_timer p = negb (p_settled p);
  inv_nodup : NoDup (pendingRequests c);
  inv_pending : ∀ id, id ∈ pendingRequests c ↔ ∃ i, unsettled id i c;
  inv_flight : ∀ id i, unsettled id i c ↔ in_flight i id c;
}.

(** Components the request bookkeeping does not depend on. *)
Lemma inv_ext c c' :
  requests c' = requests c → requestId c' = requestId c → pendingRequests c' = pendingRequests c →
  callers c' = callers c → inv c → inv c'.
Proof.
  intros E1 E2 E3 E4 [K I C T N P F]. split; rewrite ?E1, ?E2, ?E3; try done.
  - intros id. rewrite P. unfold unsettled. by rewrite E1.
  - intros id i. specialize (F id i). unfold unsettled, in_flight in *. by rewrite E1, E4.
Qed.

Lemma lookup_set_state i x c j :
  callers (set_state i x c) !! j
  = if decide (j = i) then (λ k, mkCaller (initiator k) (signalAborted k) x) <$> callers c !! j
    else callers c !! j.
Proof.
  unfold set_state. cbn [with_callers callers]. case_decide; subst.
  - apply list_lookup_alter_eq.
  - by apply list_lookup_alter_ne.
Qed.

Lemma in_flight_set_state i x c j id :
  in_flight j id (set_state i x c)
  ↔ (j ≠ i ∧ in_flight j id c) ∨ (j = i ∧ x = InFlight id ∧ is_Some (callers c !! i)).
Proof.
  unfold in_flight. rewrite lookup_set_state. case_decide; subst.
  - destruct (callers c !! i) as [k|]; simpl; naive_solver.
  - naive_solver.
Qed.

Lemma in_flight_inj i id id' c : in_flight i id c → in_flight i id' c → id = id'.
Proof. intros (k & H1 & H2) (k' & H1' & H2'). congruence. Qed.

Lemma unsettled_inj id i i' c : unsettled id i c → unsettled id i' c → i = i'.
Proof. intros (p & H1 & _ & <-) (p' & H1' & _ & <-). congruence. Qed.

(** [settle] on a request that is not pending does nothing; on a pending one
    it finishes exactly its caller. *)
Lemma settle_settled id x c : (∀ i, ¬ unsettled id i c) → settle id x c = c.
Proof.
  intros Hn. unfold settle, cleanup. destruct (jm_get id (requests c)) as [p|] eqn:Hp; [|done].
  destruct (p_settled p) eqn:Hs; [done|]. exfalso. apply (Hn (p_caller p)). by exists p.
Qed.

Definition mark_settled (id : Z) (i : nat) (c : t) : t :=
  with_requests (jm_set id (mkPending i true false) (requests c))
    (bfilter (λ j, negb (bool_decide (j = id))) (pendingRequests c)) c.

Lemma settle_unsettled id i x c :
  unsettled id i c → settle id x c = set_state i (Done x) (mark_settled id i c).
Proof.
  intros (p & Hp & Hs & <-). unfold settle, cleanup. by rewrite Hp, Hs.
Qed.

Lemma unsettled_dec id c : (∃ i, unsettled id i c) ∨ ∀ i, ¬ unsettled id i c.
Proof.
  unfold unsettled. destruct (jm_get id (requests c)) as [p|] eqn:Hp.
  - destruct (p_settled p) eqn:Hs; [right|left; eauto].
    intros i (p' & [= <-] & ? & _). congruence.
  - right. by intros i (p & ? & _).
Qed.

Lemma unsettled_mark id i c id' j :
  unsettled id' j (mark_settled id i c) ↔ id' ≠ id ∧ unsettled id' j c.
Proof.
  unfold unsettled. cbn [mark_settled with_requests requests]. rewrite jm_get_set.
  case_bool_decide; subst; naive_solver.
Qed.

Lemma mark_settled_keys id i c :
  unsettled id i c → (jm_set id (mkPending i true false) (requests c)).*1 = (requests c).*1.
Proof.
  intros (p & Hp & _). rewrite jm_keys_set, bool_decide_eq_true_2; [done|].
  apply jm_get_is_Some. eauto.
Qed.

Lemma settle_inv id x c : inv c → inv (settle id x c).
Proof.
  intros Hc. destruct (unsettled_dec id c) as [[i Hu]|Hn]; [|by rewrite settle_settled].
  rewrite (settle_unsettled id i) by done. pose proof Hc as [K I C T N P F].
  split; cbn [set_state with_callers mark_settled with_requests requests requestId pendingRequests].
  - by apply jm_wf_set.
  - by rewrite mark_settled_keys.
  - done.
  - intros id' p. rewrite jm_get_set. case_bool_decide; [intros; by simplify_eq|apply T].
  - by apply NoDup_bfilter.
  - intros id'. rewrite elem_of_bfilter, P.
    change (unsettled id' ?j (set_state _ _ ?m)) with (unsettled id' j m).
    setoid_rewrite unsettled_mark. case_bool_decide; naive_solver.
  - intros id' j. change (unsettled id' j (set_state i (Done x) (mark_settled id i c)))
      with (unsettled id' j (mark_settled id i c)).
    rewrite unsettled_mark, in_flight_set_state.
    change (in_flight j id' (mark_settled id i c)) with (in_flight j id' c). rewrite F.
    split.
    + intros [Hne Hf]. left. split; [|done]. intros ->. apply Hne.
      eapply in_flight_inj; [done|by apply F].
    + intros [[Hne Hf]|(_ & ? & _)]; [|done]. split; [|done]. intros ->. apply Hne.
      eapply unsettled_inj; [by apply F|done].
Qed.

Lemma settle_all_inv ids x c : inv c → inv (foldl (λ c id, settle id x c) c ids).
Proof. revert c. induction ids as [|id ids IH]; intros c Hc; [done|]. by apply IH, settle_inv. Qed.

Lemma reject_inv e c : inv c → inv (rejectPendingRequests e c).
Proof. apply settle_all_inv. Qed.

(** A change of callers that keeps who is in flight keeps the invariant. *)
Lemma callers_inv l c :
  (∀ i id, in_flight i id (with_callers l c) ↔ in_flight i id c) → inv c → inv (with_callers l c).
Proof. intros Hf [K I C T N P F]. split; try done. intros id i. rewrite Hf. apply F. Qed.

Lemma append_caller_inv k c :
  (∀ id, state k ≠ InFlight id) → inv c → inv (with_callers (callers c ++ [k]) c).
Proof.
  intros Hk. apply callers_inv. intros i id. unfold in_flight. cbn [with_callers callers].
  split; intros (k' & Hl & Hs).
  - apply lookup_app_Some in Hl as [Hl|[_ Hl]]; [eauto|].
    apply list_lookup_singleton_Some in Hl as [_ <-]. by destruct (Hk id).
  - exists k'. split; [|done]. by apply lookup_app_l_Some.
Qed.

Lemma set_state_inv i x c :
  (∀ id, ¬ in_flight i id c) → (∀ id, x ≠ InFlight id) → inv c → inv (set_state i x c).
Proof.
  intros Hn Hx. apply callers_inv. intros j id.
  change (with_callers _ c) with (set_state i x c). rewrite in_flight_set_state.
  destruct (decide (j = i)) as [->|]; [|naive_solver].
  split; [intros [[? _]|(_ & Hxe & _)]|intros Hf]; exfalso; [done|by eapply Hx|by eapply Hn].
Qed.

Lemma initWebSocket_inv c : inv c → inv (initWebSocket c).2.
Proof. by apply inv_ext. Qed.

Lemma ensure_inv c : inv c → inv (ensureWebSocketReady c).2.
Proof.
  intros Hc. unfold ensureWebSocketReady, initWebSocket.
  destruct (_ && _); [done|]. destruct (wsConnectPromise c); [done|]. by apply (inv_ext c).
Qed.

Lemma call_inv ab c : inv c → inv (callWebSocket ab c).
Proof.
  intros Hc. unfold callWebSocket. destruct ab; [by apply append_caller_inv|].
  pose proof (ensure_inv c Hc) as He. destruct (ensureWebSocketReady c) as [[w init] c'].
  by apply append_caller_inv.
Qed.

(** Registering a new request for a caller that is not in flight. *)
Lemma register_inv i c :
  is_Some (callers c !! i) → (∀ id, ¬ in_flight i id c) → inv c →
  inv (set_state i (InFlight (requestId c + 1))
         (mkClient (useWebSocket c) (ws c) (sockets c) (wsConnectPromise c) (callers c)
            (requestId c + 1)
            (jm_set (requestId c + 1) (mkPending i false true) (requests c))
            (pendingRequests c ++ [requestId c + 1]) (closeEvents c))).
Proof.
  intros Hi Hn [K I C T N P F]. set (id := requestId c + 1).
  assert (jm_get id (requests c) = None) as Hfresh.
  { apply jm_get_None. intros ?%I. lia. }
  assert (∀ j, ¬ unsettled id j c) as Hnu by (intros j (p & Hp & _); congruence).
  set (c1 := mkClient _ _ _ _ _ _ _ _ _).
  assert (∀ id' j, unsettled id' j c1 ↔ unsettled id' j c ∨ (id' = id ∧ j = i)) as Hu.
  { intros id' j. unfold unsettled, c1. cbn [requests]. rewrite jm_get_set.
    case_bool_decide; subst; [|naive_solver]. rewrite Hfresh. naive_solver. }
  split; cbn [set_state with_callers requests requestId pendingRequests].
  - by apply jm_wf_set.
  - intros id'. change (requests c1) with (jm_set id (mkPending i false true) (requests c)).
    rewrite jm_set_fresh, fmap_app by done. csimpl. rewrite elem_of_app, list_elem_of_singleton.
    intros [?%I| ->]; unfold c1, id; cbn; lia.
  - unfold c1, id; cbn; lia.
  - intros id' p. unfold c1. cbn [requests]. rewrite jm_get_set.
    case_bool_decide; [intros; by simplify_eq|apply T].
  - unfold c1. cbn [pendingRequests]. apply NoDup_app. split_and!; [done| |apply NoDup_singleton].
    intros id' Hin ->%list_elem_of_singleton. apply P in Hin as [j Hj]. by eapply Hnu.
  - intros id'. change (pendingRequests c1) with (pendingRequests c ++ [id]). rewrite elem_of_app, list_elem_of_singleton, P.
    change (unsettled id' ?j (set_state _ _ ?m)) with (unsettled id' j m). setoid_rewrite Hu.
    naive_solver.
  - intros id' j. change (unsettled id' j (set_state i (InFlight id) c1)) with (unsettled id' j c1).
    rewrite Hu, in_flight_set_state. change (in_flight j id' c1) with (in_flight j id' c).
    change (callers c1) with (callers c). rewrite F.
    destruct (decide (j = i)) as [->|]; naive_solver.
Qed.

Lemma send_request_inv i ab e c :
  is_Some (callers c !! i) → (∀ id, ¬ in_flight i id c) → inv c → inv (send_request i ab e c).
Proof.
  intros Hi Hn Hc. unfold send_request. destruct ab; [by apply set_state_inv|]. cbn zeta.
  pose proof (register_inv i c Hi Hn Hc) as Hr.
  repeat case_match; by try apply settle_inv.
Qed.

Lemma resume_inv i e c : inv c → inv (resume i e c).
Proof.
  intros Hc. unfold resume. destruct (callers c !! i) as [[init ab st]|] eqn:Hl; [|done].
  destruct st as [w|id|x]; [|done|done].
  assert (∀ id, ¬ in_flight i id c) as Hn by (intros id (k & Hk & ?); by simplify_eq).
  set (c' := if init then with_connect None c else c).
  assert (inv c' ∧ callers c' = callers c) as [Hc' Hcal].
  { unfold c'. destruct init; [|done]. split; [by apply (inv_ext c)|done]. }
  assert (∀ id, ¬ in_flight i id c') as Hn'.
  { unfold in_flight. rewrite Hcal. apply Hn. }
  assert (is_Some (callers c' !! i)) as Hi' by (rewrite Hcal; eauto).
  repeat case_match; try done; auto using send_request_inv.
  by apply set_state_inv.
Qed.

Lemma signal_aborted_inv i k c :
  callers c !! i = Some k → inv c →
  inv (with_callers (<[i := mkCaller (initiator k) true (state k)]> (callers c)) c).
Proof.
  intros Hl. apply callers_inv. intros j id. unfold in_flight. cbn [with_callers callers].
  destruct (decide (j = i)) as [->|]; [|by rewrite list_lookup_insert_ne].
  rewrite list_lookup_insert_eq by by eapply lookup_lt_Some. rewrite Hl. naive_solver.
Qed.

Lemma onabort_inv i c : inv c → inv (onabort i c).
Proof.
  intros Hc. unfold onabort. destruct (callers c !! i) as [k|] eqn:Hl; [|done].
  destruct (signalAborted k); [done|].
  pose proof (signal_aborted_inv i k c Hl Hc) as Hc'. cbn zeta. destruct (state k); [done| |done]. by apply settle_inv.
Qed.

Lemma onclose_inv s c : inv c → inv (onclose s c).
Proof.
  intros Hc. unfold onclose. destruct (sockets c !! s) as [k|]; [|done]. cbn zeta.
  destruct (handlers k); [|by apply (inv_ext c)].
  eapply inv_ext; [..|apply (reject_inv (rpc_error (-32000) "WebSocket closed"))];
    [reflexivity..|]. by apply (inv_ext c).
Qed.

Lemma close_current_inv c : inv c → inv (close_current c).
Proof. intros. unfold close_current. case_match; [by apply (inv_ext c)|done]. Qed.

Lemma rpc_step_inv ev c : inv c → inv (step ev c).
Proof.
  intros Hc. destruct ev; cbn [step]; auto using call_inv, resume_inv, onclose_inv, onabort_inv.
  - by apply (inv_ext c).
  - by apply (inv_ext c).
  - unfold onmessage. repeat case_match; try done. by apply settle_inv.
  - unfold onconnecttimeout. repeat case_match; try done; by apply (inv_ext c).
  - case_match; [by apply settle_inv|done].
  - apply reject_inv, (inv_ext (close_current c)); [done..|]. by apply close_current_inv.
  - unfold setTransport. repeat case_match; [done|by apply (inv_ext c)|].
    apply close_current_inv. by apply (inv_ext c).
  - destruct Hc as [K I C T N P F]. split; try done; [intros id ?%I|]; cbn; lia.
Qed.

Lemma constructor_inv w : inv (constructor w).
Proof.
  split; cbn; try done.
  - constructor.
  - set_solver.
  - constructor.
  - intros id. split; [set_solver|]. intros (i & p & ? & _). done.
  - intros id i. split; [by intros (p & ? & _)|by intros (k & ? & _)].
Qed.

Lemma rpc_runs_inv w evs : inv (runs step evs (constructor w)).
Proof. apply runs_invariant; [intros; by apply rpc_step_inv|apply constructor_inv]. Qed.

(** ** Settled calls stay settled *)

Definition done_with (i : nat) (x : json + RpcError) (c : t) : Prop :=
  ∃ k, callers c !! i = Some k ∧ state k = Done x.

Lemma settle_done id y i x c : inv c → done_with i x c → done_with i x (settle id y c).
Proof.
  intros Hc (k & Hk & Hs). destruct (unsettled_dec id c) as [[j Hu]|Hn]; [|by rewrite settle_settled; [exists k|]].
  rewrite (settle_unsettled id j) by done. unfold done_with. rewrite lookup_set_state.
  cbn [mark_settled with_requests callers].
  case_decide as He; [|by exists k]. subst j. apply (inv_flight c Hc) in Hu as (k' & ? & ?). congruence.
Qed.

Lemma settle_all_done ids y i x c :
  inv c → done_with i x c → done_with i x (foldl (λ c id, settle id y c) c ids).
Proof.
  revert c. induction ids as [|id ids IH]; intros c Hc Hd; [done|].
  apply IH; [by apply settle_inv|by apply settle_done].
Qed.

Lemma set_state_done i y j x c :
  i ≠ j → done_with j x c → done_with j x (set_state i y c).
Proof. intros Hne (k & Hk & Hs). unfold done_with. rewrite lookup_set_state. case_decide; [done|eauto]. Qed.

Lemma done_ext i x c c' : callers c' = callers c → done_with i x c → done_with i x c'.
Proof. unfold done_with. by intros ->. Qed.

Lemma append_done k i x c : done_with i x c → done_with i x (with_callers (callers c ++ [k]) c).
Proof. intros (k' & Hk & Hs). exists k'. split; [|done]. by apply lookup_app_l_Some. Qed.

Lemma send_request_done j ab e i x c :
  inv c → is_Some (callers c !! j) → (∀ id, ¬ in_flight j id c) → j ≠ i →
  done_with i x c → done_with i x (send_request j ab e c).
Proof.
  intros Hc Hj Hn Hne Hd. unfold send_request. destruct ab; [by apply set_state_done|]. cbn zeta.
  pose proof (register_inv j c Hj Hn Hc) as Hr.
  assert (done_with i x (set_state j (InFlight (requestId c + 1))
    (mkClient (useWebSocket c) (ws c) (sockets c) (wsConnectPromise c) (callers c) (requestId c + 1)
      (jm_set (requestId c + 1) (mkPending j false true) (requests c))
      (pendingRequests c ++ [requestId c + 1]) (closeEvents c)))) as Hd'.
  { apply set_state_done; [done|]. by apply (done_ext i x c). }
  repeat case_match; try done; by apply settle_done.
Qed.

Lemma resume_done j e i x c : inv c → done_with i x c → done_with i x (resume j e c).
Proof.
  intros Hc Hd. unfold resume. destruct (callers c !! j) as [[init ab st]|] eqn:Hl; [|done].
  destruct st as [w|id|y]; [|done|done].
  assert (j ≠ i) as Hne.
  { intros ->. destruct Hd as (k & Hk & Hs). by simplify_eq. }
  assert (∀ id, ¬ in_flight j id c) as Hn by (intros id (k & Hk & ?); by simplify_eq).
  assert (inv (if init then with_connect None c else c)
    ∧ callers (if init then with_connect None c else c) = callers c) as [Hc' Hcal].
  { destruct init; [|done]. split; [by apply (inv_ext c)|done]. }
  assert (∀ id, ¬ in_flight j id (if init then with_connect None c else c)) as Hn'.
  { unfold in_flight. rewrite Hcal. apply Hn. }
  assert (is_Some (callers (if init then with_connect None c else c) !! j)) as Hi'
    by (rewrite Hcal; eauto).
  assert (done_with i x (if init then with_connect None c else c)) as Hd' by by apply (done_ext i x c).
  cbn zeta. repeat case_match; try done; by (apply send_request_done || apply set_state_done).
Qed.

Lemma onabort_done j i x c : inv c → done_with i x c → done_with i x (onabort j c).
Proof.
  intros Hc (k & Hk & Hs). unfold onabort. destruct (callers c !! j) as [k'|] eqn:Hl; [|by exists k].
  destruct (signalAborted k'); [by exists k|]. cbn zeta.
  pose proof (signal_aborted_inv j k' c Hl Hc) as Hinv.
  assert (done_with i x (with_callers (<[j:=mkCaller (initiator k') true (state k')]> (callers c)) c)) as Hd.
  { unfold done_with. cbn [with_callers callers]. destruct (decide (i = j)) as [->|].
    - rewrite list_lookup_insert_eq by by eapply lookup_lt_Some. simplify_eq. eauto.
    - rewrite list_lookup_insert_ne by done. eauto. }
  destruct (state k') as [w|id|y]; [done| |done]. by apply settle_done.
Qed.

Lemma step_done ev i x c : inv c → done_with i x c → done_with i x (step ev c).
Proof.
  intros Hc Hd. destruct ev; cbn [step]; auto using resume_done, onabort_done.
  - unfold callWebSocket. destruct aborted; [by apply append_done|].
    unfold ensureWebSocketReady, initWebSocket. destruct (_ && _); [by apply append_done|].
    destruct (wsConnectPromise c); by apply append_done.
  - unfold onmessage. repeat case_match; try done. by apply settle_done.
  - unfold onclose. destruct (sockets c !! s) as [k|]; [|done]. cbn zeta.
    destruct (handlers k); [|by apply (done_ext i x c)].
    match goal with |- context [rejectPendingRequests ?e ?c'] =>
      apply (done_ext i x (rejectPendingRequests e c')); [done|] end.
    apply settle_all_done; [by apply (inv_ext c)|done].
  - unfold onconnecttimeout. repeat case_match; try done; by apply (done_ext i x c).
  - case_match; [by apply settle_done|done].
  - assert (done_with i x (close_current c)) as Hd'.
    { unfold close_current. case_match; [by apply (done_ext i x c)|done]. }
    apply settle_all_done; [|by apply (done_ext i x (close_current c))].
    apply (inv_ext (close_current c)); [done..|]. by apply close_current_inv.
  - unfold setTransport, close_current. repeat case_match; try done; by apply (done_ext i x c).
Qed.

(** ** Closing rejects every pending request *)

Lemma settle_pending id x c :
  inv c → pendingRequests (settle id x c) = bfilter (λ j, negb (bool_decide (j = id))) (pendingRequests c).
Proof.
  intros Hc. destruct (unsettled_dec id c) as [[i Hu]|Hn].
  - by rewrite (settle_unsettled id i).
  - rewrite settle_settled by done. symmetry. apply bfilter_all. intros id' Hin.
    rewrite bool_decide_eq_false_2; [done|]. intros ->.
    apply (inv_pending c Hc) in Hin as [i Hi]. by eapply Hn.
Qed.

Lemma settle_hits id x c i :
  inv c → unsettled id i c → done_with i x (settle id x c).
Proof.
  intros Hc Hu. pose proof Hu as (k & Hk & Hs)%(inv_flight c Hc).
  rewrite (settle_unsettled id i) by done. unfold done_with. rewrite lookup_set_state.
  rewrite decide_True by done. cbn [mark_settled with_requests callers]. rewrite Hk. simpl. eauto.
Qed.

Lemma settle_unsettled_other id id' x c i :
  id ≠ id' → unsettled id' i c → unsettled id' i (settle id x c).
Proof.
  intros Hne Hu. destruct (unsettled_dec id c) as [[j Hj]|Hn]; [|by rewrite settle_settled].
  rewrite (settle_unsettled id j) by done.
  change (unsettled id' i (mark_settled id j c)). by apply unsettled_mark.
Qed.

Lemma settle_all_hits ids x c id i :
  inv c → id ∈ ids → unsettled id i c → done_with i x (foldl (λ c id, settle id x c) c ids).
Proof.
  revert c. induction ids as [|id' ids IH]; intros c Hc Hin Hu; [set_solver|]. cbn [foldl].
  destruct (decide (id' = id)) as [->|Hne].
  - apply settle_all_done; [by apply settle_inv|by apply settle_hits].
  - apply IH; [by apply settle_inv|set_solver|by apply settle_unsettled_other].
Qed.

Lemma settle_all_pending ids x c :
  inv c → pendingRequests (foldl (λ c id, settle id x c) c ids)
          = bfilter (λ j, negb (bool_decide (j ∈ ids))) (pendingRequests c).
Proof.
  revert c. induction ids as [|id ids IH]; intros c Hc; cbn [foldl].
  - symmetry. by apply bfilter_all.
  - rewrite IH, settle_pending by auto using settle_inv. rewrite bfilter_bfilter.
    apply bfilter_ext. intros j _. repeat case_bool_decide; simpl; try done; set_solver.
Qed.

Lemma reject_ws e c : ws (rejectPendingRequests e c) = ws c.
Proof.
  unfold rejectPendingRequests. generalize (pendingRequests c) as ids. intros ids. revert c.
  induction ids as [|id ids IH]; intros c; [done|]. cbn [foldl]. rewrite IH.
  unfold settle, cleanup. by repeat case_match; simplify_eq/=.
Qed.

Lemma reject_spec e c :
  inv c →
  pendingRequests (rejectPendingRequests e c) = [] ∧
  ∀ i id, in_flight i id c → done_with i (inr e) (rejectPendingRequests e c).
Proof.
  intros Hc. unfold rejectPendingRequests. split.
  - rewrite settle_all_pending by done. apply bfilter_none. intros j Hj.
    by rewrite bool_decide_eq_true_2.
  - intros i id Hf. apply (inv_flight c Hc) in Hf as Hu.
    apply (settle_all_hits _ _ _ id); [done| |done]. apply (inv_pending c Hc). eauto.
Qed.

(** ** Properties *)

(** C4: however calls, browser events, timers and aborts interleave, request
    identifiers are unique, a request is pending, and its timeout is running,
    exactly while its one caller is in flight; firing the timeout ends the call
    with the timeout error, so no call can stay in flight for ever. *)
Theorem rpc_in_flight_accounted (w : bool) (evs : list event) :
  let c := runs step evs (constructor w) in
  NoDup (requests c).*1 ∧ NoDup (pendingRequests c) ∧
  (∀ id, id ∈ pendingRequests c ↔ ∃ i, in_flight i id c) ∧
  (∀ id, timer_live id c = true ↔ ∃ i, in_flight i id c) ∧
  ∀ i id, in_flight i id c →
    (∀ j, in_flight j id c → j = i) ∧
    done_with i (inr (rpc_error (-32001) "Request timeout")) (step (RequestTimeout id) c).
Proof.
  intros c. pose proof (rpc_runs_inv w evs) as Hc. fold c in Hc.
  assert (∀ id, timer_live id c = true ↔ ∃ i, in_flight i id c) as Ht.
  { intros id. unfold timer_live. setoid_rewrite <- (inv_flight c Hc id). unfold unsettled.
    destruct (jm_get id (requests c)) as [p|] eqn:Hp; [|naive_solver].
    rewrite (inv_timer c Hc id p Hp), negb_true_iff. naive_solver. }
  split_and!; [apply Hc|apply Hc| |exact Ht|].
  - intros id. rewrite (inv_pending c Hc id). by setoid_rewrite (inv_flight c Hc id).
  - intros i id Hf. pose proof (proj2 (Ht id) (ex_intro _ i Hf)) as Hl. apply (inv_flight c Hc) in Hf as Hu. split.
    + intros j Hj%(inv_flight c Hc). by eapply unsettled_inj.
    + cbn [step]. rewrite Hl. by apply settle_hits.
Qed.

(** A call settles at most once: after its promise is resolved or
    rejected, no later event changes the outcome. *)
Theorem rpc_settles_once (w : bool) (evs evs' : list event) (i : nat) (x : json + RpcError) :
  done_with i x (runs step evs (constructor w)) →
  done_with i x (runs step (evs ++ evs') (constructor w)).
Proof.
  intros Hd. rewrite runs_app. pose proof (rpc_runs_inv w evs) as Hc.
  revert Hc Hd. generalize (runs step evs (constructor w)) as c. intros c Hc Hd.
  apply (runs_invariant step (λ c, inv c ∧ done_with i x c)); [|done].
  intros ev c' [Hc' Hd']. split; [by apply rpc_step_inv|by apply step_done].
Qed.

(** C22: after any sequence of events, [close] on the client, or the close event
    of a socket whose handlers are still attached (the current one or an old
    one), leaves no request pending and no current socket, and rejects every
    call that was in flight with the error -32000 "WebSocket closed". *)
Theorem rpc_close_rejects_all (w : bool) (evs : list event) (ev : event) :
  let c := runs step evs (constructor w) in
  (ev = Close ∨ ∃ s k, ev = SocketClose s ∧ sockets c !! s = Some k ∧ handlers k = true) →
  pendingRequests (step ev c) = [] ∧ ws (step ev c) = None ∧
  ∀ i id, in_flight i id c →
    done_with i (inr (rpc_error (-32000) "WebSocket closed")) (step ev c).
Proof.
  intros c Hev. pose proof (rpc_runs_inv w evs) as Hc. fold c in Hc.
  destruct Hev as [->|(s & k & -> & Hl & Hh)]; cbn [step].
  - unfold close. set (c1 := with_connect None (close_current c)).
    assert (inv c1) as Hc1.
    { apply (inv_ext (close_current c)); [done..|]. by apply close_current_inv. }
    destruct (reject_spec (rpc_error (-32000) "WebSocket closed") c1 Hc1) as [Hp Hd].
    split_and!; [done| |].
    + rewrite reject_ws. unfold c1, close_current. by destruct (ws c) eqn:E; cbn; rewrite ?E.
    + intros i id Hf. apply (Hd i id). unfold in_flight, c1, close_current in *. by case_match.
  - unfold onclose. rewrite Hl, Hh. cbn zeta.
    match goal with |- context [rejectPendingRequests ?e ?c1] => set (c2 := c1) end.
    assert (inv c2) as Hc2 by by apply (inv_ext c).
    destruct (reject_spec (rpc_error (-32000) "WebSocket closed") c2 Hc2) as [Hp Hd].
    split_and!; cbn [pendingRequests ws]; [done|by rewrite reject_ws|].
    intros i id Hf. eapply done_ext; [|apply (Hd i id Hf)]. done.
Qed.

(** A response settles the caller it names and nobody else. *)
Lemma settle_frame id x c i j :
  unsettled id i c → j ≠ i → callers (settle id x c) !! j = callers c !! j.
Proof.
  intros Hu Hne. rewrite (settle_unsettled id i) by done. rewrite lookup_set_state.
  by rewrite decide_False.
Qed.

Lemma id_matches_inj r a b :
  0 < a < 2 ^ 53 → 0 < b < 2 ^ 53 → id_matches r a = true → id_matches r b = true → a = b.
Proof. destruct r; [apply num_of_Z_eqb_inj|done..]. Qed.

Lemma find_pending_match c r i id :
  inv c → requestId c < 2 ^ 53 → in_flight i id c → id_matches r id = true →
  list_find_first (id_matches r) (pendingRequests c) = Some id.
Proof.
  intros Hc Hlt Hf Hm.
  assert (∀ id', id' ∈ pendingRequests c → 0 < id' < 2 ^ 53) as Hrange.
  { intros id' (j & p & Hp & _)%(inv_pending c Hc).
    assert (id' ∈ (requests c).*1) as ?%(inv_id c Hc); [|lia]. apply jm_get_is_Some. eauto. }
  apply (inv_flight c Hc) in Hf. assert (id ∈ pendingRequests c) as Hin by (apply (inv_pending c Hc); eauto).
  destruct (list_find_first (id_matches r) (pendingRequests c)) as [id'|] eqn:Hl.
  - apply list_find_first_Some in Hl as [Hin' Hm']. f_equal. apply (id_matches_inj r); auto.
  - pose proof (proj1 (list_find_first_None _ _) Hl id Hin). congruence.
Qed.


(** ** What counts as a response

    The JSON-RPC 2.0 envelope, as the interfaces [JsonRpcSuccessResponse] and
    [JsonRpcErrorResponse] declare it. *)
Inductive valid_response (m : jsmap string json) : JsonRpcResponse → Prop :=
  | valid_error i e c msg :
      jm_get "jsonrpc" m = Some (JStr (js "2.0")) →
      parse_id (jm_get "id" m) = Some i →
      jm_get "error" m = Some (JObj e) →
      jm_get "code" e = Some (JNum c) → jm_get "message" e = Some (JStr msg) →
      valid_response m (JsonRpcErrorResponse i c msg (jm_get "data" e))
  | valid_success i v :
      jm_get "jsonrpc" m = Some (JStr (js "2.0")) →
      parse_id (jm_get "id" m) = Some i →
      jm_get "error" m = None → jm_get "result" m = Some v →
      valid_response m (JsonRpcSuccessResponse i v).

Lemma json_in_obj k m : json_in k (JObj m) = bool_decide (is_Some (jm_get k m)).
Proof. cbn. unfold jm_has. by destruct (jm_get k m). Qed.


(** ** An old socket that closes late *)

(** [close] drops the current socket without detaching its handlers.  When
    the client reconnects before the old socket reports its closing, that late
    event takes away the new, open socket and rejects the request that is in
    flight on it. *)
Theorem late_close_kills_new_connection :
  let evs := [Call false; SocketOpen 0; Resume 0 None; Close;
              Call false; SocketOpen 1; Resume 1 None] in
  let c := runs step evs (constructor true) in
  let c' := step (SocketClose 0) c in
  ws c = Some 1%nat ∧ getWsReadyState c = OPEN ∧ in_flight 1 2 c ∧
  ws c' = None ∧ readyState <$> sockets c' !! 1%nat = Some OPEN ∧
  done_with 1 (inr (rpc_error (-32000) "WebSocket closed")) c'.
Proof.
  cbn zeta. split_and!; try by vm_compute.
  - eexists. split; [vm_compute; reflexivity|done].
  - eexists. split; [vm_compute; reflexivity|done].
Qed.

(** ** Witnesses *)

Definition demo_events : list event :=
  [Call false; SocketOpen 0; Resume 0 None; Call false; Resume 1 None].
Definition demo_response : json :=
  JObj [("jsonrpc", JStr (js "2.0")); ("id", JNum (num_of_Z 2)); ("result", JBool true)]%string.

Lemma rpc_settles_once_witness :
  done_with 1 (inl (JBool true))
    (runs step (demo_events ++ [SocketMessage 0 (Some demo_response); Close]) (constructor true)).
Proof.
  apply (rpc_settles_once true (demo_events ++ [SocketMessage 0 (Some demo_response)]) [Close]).
  eexists. split; [vm_compute; reflexivity|reflexivity].
Defined.

Lemma rpc_close_rejects_all_witness :
  let c := runs step demo_events (constructor true) in
  pendingRequests c = [1; 2] ∧ pendingRequests (step (SocketClose 0) c) = [] ∧
  done_with 0 (inr (rpc_error (-32000) "WebSocket closed")) (step (SocketClose 0) c).
Proof.
  intros c. split; [vm_compute; reflexivity|].
  destruct (rpc_close_rejects_all true demo_events (SocketClose 0)) as (Hp & _ & Hd).
  { right. exists 0%nat, (mkSocket OPEN true false ConnResolved).
    split; [reflexivity|]. split; vm_compute; reflexivity. }
  split; [exact Hp|]. apply (Hd 0%nat 1). eexists. split; [vm_compute; reflexivity|reflexivity].
Defined.


End RpcClient.
