(* ===== verification/DiagnosticSession.v ===== *)
(** * Live diagnostic sessions ([admin/src/lib/diagnostic-session.ts])

    A view owns one server lease: [start] creates it, a timer renews it, a
    second timer polls data with it, [stop] gives it back.  A generation counter
    tells the responses of the current session from late ones.

    Each [await] splits its function: [request] starts a call, [CallSettled] is
    the settling of the call (the [finally] block of [request]), [Resume] the
    rest of the caller.  Timers, settlements, resumptions, [start] and [stop]
    may interleave in any order.  Clock readings and the new lease identifier
    are arguments of the events that read them.  [calls] holds the calls whose
    caller has not resumed, [log] the leases the server reported and the
    releases sent to it, [published] the states given to [io.changed]. *)

From S2P Require Import Prelude JsMap Json JsValue FloatFacts.

Open Scope Z_scope.

Module DiagnosticSession.

Record DiagnosticClock := mkClock { monotonic : num; wall : num }.
Record DiagnosticLease := mkLease { lease_id : string; fresh_for_ms : num }.

Definition diagnosticElapsed (start now : DiagnosticClock) : num :=
  math_max (math_max (num_of_Z 0) (num_sub (monotonic now) (monotonic start)))
    (num_sub (wall now) (wall start)).

Definition diagnosticFresh (freshForMS : num) (start : option DiagnosticClock)
    (now : DiagnosticClock) (available : bool) : bool :=
  available &&
  match start with
  | Some s => isFinite freshForMS && num_ltb (diagnosticElapsed s now) freshForMS
  | None => false
  end.

Section session.
Context {T E : Type}.

Inductive error :=
  | request_timeout
  | lease_identity
  | lease_expired
  | CallError (e : E).

Inductive phase := idle | starting | active | failed.

Record DiagnosticSessionState := mkState {
  ph : phase;
  data : option T;
  requestedAt : option DiagnosticClock;
  err : option error;
}.

Definition plain (p : phase) : DiagnosticSessionState := mkState p None None None.

Inductive kind := KCreate | KRenew | KRead.

Inductive response :=
  | GotLease (l : DiagnosticLease)
  | GotData (d : T)
  | GotError (e : error).

Record call := mkCall {
  c_kind : kind;
  c_gen : Z;
  c_id : string;
  c_started : DiagnosticClock;
  c_timer : nat;
  c_result : option response;
}.

Inductive action :=
  | OnTimeout (gen : Z)
  | OnRenew (gen : Z) (id : string)
  | OnPoll (gen : Z) (id : string).

Inductive log_entry := Granted (id : string) | Released (id : string).

Record t := mkSession {
  generation : Z;
  lease : option DiagnosticLease;
  timers : jsmap nat (action * num);
  requests : list nat;
  state : DiagnosticSessionState;
  calls : jsmap nat call;
  next : nat;
  log : list log_entry;
  published : list DiagnosticSessionState;
}.

Definition constructor : t := mkSession 0 None [] [] (plain idle) [] 0 [] [].

Definition with_lease (l : option DiagnosticLease) (s : t) : t :=
  mkSession (generation s) l (timers s) (requests s) (state s) (calls s) (next s) (log s)
    (published s).
Definition with_calls (c : jsmap nat call) (s : t) : t :=
  mkSession (generation s) (lease s) (timers s) (requests s) (state s) c (next s) (log s)
    (published s).
Definition with_timers (x : jsmap nat (action * num)) (s : t) : t :=
  mkSession (generation s) (lease s) x (requests s) (state s) (calls s) (next s) (log s)
    (published s).
Definition with_log (x : log_entry) (s : t) : t :=
  mkSession (generation s) (lease s) (timers s) (requests s) (state s) (calls s) (next s)
    (log s ++ [x]) (published s).

(** [later]: the handle is the next fresh number. *)
Definition later (a : action) (ms : num) (s : t) : nat * t :=
  (next s,
   mkSession (generation s) (lease s) (jm_set (next s) (a, ms) (timers s)) (requests s) (state s)
     (calls s) (S (next s)) (log s) (published s)).

Definition clear (h : nat) (s : t) : t := with_timers (jm_delete h (timers s)) s.

Definition release (id : string) (s : t) : t :=
  if bool_decide (id = ""%string) then s else with_log (Released id) s.

Definition publish (x : DiagnosticSessionState) (s : t) : t :=
  mkSession (generation s) (lease s) (timers s) (requests s) x (calls s) (next s) (log s)
    (published s ++ [x]).

Definition stop (s : t) : t :=
  let s1 := mkSession (generation s + 1) (lease s) [] [] (state s) (calls s) (next s) (log s)
              (published s) in
  let s2 := match lease s1 with Some l => release (lease_id l) s1 | None => s1 end in
  publish (plain idle) (with_lease None s2).

Definition fail (gen : Z) (e : error) (s : t) : t :=
  if negb (bool_decide (gen = generation s)) then s
  else publish (mkState failed None None (Some e)) (stop s).

(** [request] up to its [await]: the abort controller, the timeout, the call. *)
Definition request (gen : Z) (k : kind) (id : string) (started : DiagnosticClock) (s : t) : t :=
  let n := next s in
  let '(h, s1) := later (OnTimeout gen) (num_of_Z 10000)
    (mkSession (generation s) (lease s) (timers s) (requests s ++ [n]) (state s) (calls s) (S n)
       (log s) (published s)) in
  with_calls (jm_set n (mkCall k gen id started h None) (calls s1)) s1.

(** The [finally] block of [request]. *)
Definition request_finally (n : nat) (c : call) (r : response) (s : t) : t :=
  clear (c_timer c)
    (mkSession (generation s) (lease s) (timers s)
       (bfilter (λ m, negb (bool_decide (m = n))) (requests s)) (state s)
       (jm_set n (mkCall (c_kind c) (c_gen c) (c_id c) (c_started c) (c_timer c) (Some r)) (calls s))
       (next s)
       (match r with GotLease l => log s ++ [Granted (lease_id l)] | _ => log s end)
       (published s)).

Definition poll (gen : Z) (id : string) (now : DiagnosticClock) (s : t) : t :=
  if negb (bool_decide (gen = generation s)) then s else request gen KRead id now s.

Definition poll_resume (c : call) (r : response) (s : t) : t :=
  match r with
  | GotData d =>
      if negb (bool_decide (c_gen c = generation s)) then s
      else (later (OnPoll (c_gen c) (c_id c)) (num_of_Z 1000)
              (publish (mkState active (Some d) (Some (c_started c)) None) s)).2
  | GotError e => fail (c_gen c) e s
  | GotLease _ => s
  end.

Definition renewLater (gen : Z) (l : DiagnosticLease) (started now : DiagnosticClock) (s : t) : t :=
  let remaining := num_sub (fresh_for_ms l) (diagnosticElapsed started now) in
  if num_leb remaining (num_of_Z 0) then fail gen lease_expired s
  else (later (OnRenew gen (lease_id l))
          (math_min (num_of_Z 10000) (math_max (num_of_Z 100) (num_div remaining (num_of_Z 3)))) s).2.

Definition renew (gen : Z) (id : string) (now : DiagnosticClock) (s : t) : t :=
  if negb (bool_decide (gen = generation s)) then s else request gen KRenew id now s.

Definition renew_resume (c : call) (r : response) (now1 now2 : DiagnosticClock) (s : t) : t :=
  match r with
  | GotLease l =>
      if negb (bool_decide (c_gen c = generation s)) then
        let s := release (c_id c) s in
        if negb (bool_decide (lease_id l = c_id c)) then release (lease_id l) s else s
      else if negb (bool_decide (lease_id l = c_id c))
              || negb (diagnosticFresh (fresh_for_ms l) (Some (c_started c)) now1 true)
      then fail (c_gen c) lease_expired (release (lease_id l) s)
      else renewLater (c_gen c) l (c_started c) now2 (with_lease (Some l) s)
  | GotError e =>
      if negb (bool_decide (c_gen c = generation s)) then release (c_id c) s
      else fail (c_gen c) e s
  | GotData _ => s
  end.

(** [start] up to its [await]. *)
Definition start (id : string) (now : DiagnosticClock) (s : t) : t :=
  match ph (state s) with
  | starting | active => s
  | _ =>
      let s := stop s in
      let gen := generation s in
      request gen KCreate id now
        (publish (plain starting) (with_lease (Some (mkLease id (num_of_Z 0))) s))
  end.

Definition start_resume (c : call) (r : response) (now1 now2 now3 : DiagnosticClock) (s : t) : t :=
  match r with
  | GotLease l =>
      if negb (bool_decide (c_gen c = generation s)) then release (lease_id l) s
      else if negb (bool_decide (lease_id l = c_id c))
      then fail (c_gen c) lease_identity (release (lease_id l) s)
      else
        let s := with_lease (Some l) s in
        if bool_decide (lease_id l = ""%string)
           || negb (diagnosticFresh (fresh_for_ms l) (Some (c_started c)) now1 true)
        then fail (c_gen c) lease_expired s
        else poll (c_gen c) (lease_id l) now3
               (renewLater (c_gen c) l (c_started c) now2 (publish (plain active) s))
  | GotError e => fail (c_gen c) e s
  | GotData _ => s
  end.

(** What a timer runs, after its handle left the set. *)
Definition fire (a : action) (now : DiagnosticClock) (s : t) : t :=
  match a with
  | OnTimeout gen => fail gen request_timeout s
  | OnRenew gen id => renew gen id now s
  | OnPoll gen id => poll gen id now s
  end.

Inductive event :=
  | Start (id : string) (now : DiagnosticClock)
  | Stop
  | Fire (h : nat) (now : DiagnosticClock)
  | CallSettled (n : nat) (r : response)
  | Resume (n : nat) (now1 now2 now3 : DiagnosticClock).

(** The result type of a call: leases for [create] and [renew], data for [read]. *)
Definition well_typed (k : kind) (r : response) : bool :=
  match k, r with
  | _, GotError _ => true
  | (KCreate | KRenew), GotLease _ => true
  | KRead, GotData _ => true
  | _, _ => false
  end.

Definition resume (c : call) (r : response) (now1 now2 now3 : DiagnosticClock) (s : t) : t :=
  match c_kind c with
  | KCreate => start_resume c r now1 now2 now3 s
  | KRenew => renew_resume c r now1 now2 s
  | KRead => poll_resume c r s
  end.

Definition step (ev : event) (s : t) : t :=
  match ev with
  | Start id now => start id now s
  | Stop => stop s
  | Fire h now =>
      match jm_get h (timers s) with
      | Some (a, _) => fire a now (clear h s)
      | None => s
      end
  | CallSettled n r =>
      match jm_get n (calls s) with
      | Some c =>
          match c_result c with
          | None => if well_typed (c_kind c) r then request_finally n c r s else s
          | Some _ => s
          end
      | None => s
      end
  | Resume n now1 now2 now3 =>
      match jm_get n (calls s) with
      | Some c =>
          match c_result c with
          | Some r => resume c r now1 now2 now3 (with_calls (jm_delete n (calls s)) s)
          | None => s
          end
      | None => s
      end
  end.

(** ** Every session keeps its renewal and its poll alive

    [tasks] lists what keeps the current session going: the create call, the
    renewal (scheduled or in flight) and the poll (scheduled or in flight). *)

Inductive task := TCreate | TRenew | TPoll.

#[local] Instance task_eq_dec : EqDecision task.
Proof using. solve_decision. Defined.

Definition kind_task (k : kind) : task :=
  match k with KCreate => TCreate | KRenew => TRenew | KRead => TPoll end.

Definition timer_task (a : action) : list task :=
  match a with OnTimeout _ => [] | OnRenew _ _ => [TRenew] | OnPoll _ _ => [TPoll] end.

Definition call_task (gen : Z) (c : call) : list task :=
  if bool_decide (c_gen c = gen) then [kind_task (c_kind c)] else [].

Definition tasks (s : t) : list task :=
  (timers s ≫= λ kv, timer_task kv.2.1) ++ (calls s ≫= λ kv, call_task (generation s) kv.2).

Definition expected (p : phase) : list task :=
  match p with starting => [TCreate] | active => [TRenew; TPoll] | _ => [] end.

(** What the timers and calls have to do with the current generation. *)
Definition call_ok (s : t) (n : nat) (c : call) : Prop :=
  c_gen c ≤ generation s ∧ c_timer c = S n ∧
  (∀ r, c_result c = Some r → well_typed (c_kind c) r = true).

Definition in_flight (s : t) (n : nat) (c : call) : Prop :=
  jm_get n (calls s) = Some c ∧ c_gen c = generation s ∧ c_result c = None.

Definition timer_ok (s : t) (h : nat) (a : action) : Prop :=
  match a with
  | OnTimeout g => g = generation s ∧ ∃ n c, h = S n ∧ in_flight s n c
  | OnRenew g id | OnPoll g id => g = generation s ∧ lease_id <$> lease s = Some id
  end.

Record weak (s : t) : Prop := mkWeak {
  w_calls : jm_wf (calls s);
  w_fresh : ∀ n, n ∈ (calls s).*1 → (S n < next s)%nat;
  w_call : ∀ n c, jm_get n (calls s) = Some c → call_ok s n c;
}.

Record base (s : t) : Prop := mkBase {
  b_weak : weak s;
  b_timers : jm_wf (timers s);
  b_fresh : ∀ h, h ∈ (timers s).*1 → (h < next s)%nat;
  b_lease : ∀ n c, jm_get n (calls s) = Some c → c_gen c = generation s →
    lease_id <$> lease s = Some (c_id c);
  b_timer : ∀ h a ms, jm_get h (timers s) = Some (a, ms) → timer_ok s h a;
  b_flight : ∀ n c, in_flight s n c →
    n ∈ requests s ∧ ∃ ms, jm_get (c_timer c) (timers s) = Some (OnTimeout (generation s), ms);
  b_requests : ∀ n, n ∈ requests s → ∃ c, in_flight s n c;
  b_own : ∀ n c a ms, jm_get n (calls s) = Some c → jm_get (S n) (timers s) = Some (a, ms) →
    timer_task a = [];
}.

(** The invariant; [x] are tasks taken out of the state and being processed. *)
Definition good (x : list task) (s : t) : Prop :=
  base s ∧ x ++ tasks s ≡ₚ expected (ph (state s)) ∧
  (expected (ph (state s)) = [] → lease s = None).

Lemma release_fields id s :
  generation (release id s) = generation s ∧ lease (release id s) = lease s ∧
  timers (release id s) = timers s ∧ requests (release id s) = requests s ∧
  state (release id s) = state s ∧ calls (release id s) = calls s ∧ next (release id s) = next s.
Proof using. unfold release. by case_bool_decide. Qed.

(** The invariant does not see the two logs. *)
Lemma good_ext x s s' :
  generation s' = generation s → lease s' = lease s → timers s' = timers s →
  requests s' = requests s → state s' = state s → calls s' = calls s → next s' = next s →
  good x s → good x s'.
Proof using.
  destruct s, s'; cbn; intros -> -> -> -> -> -> -> (Hb & Ht & Hl).
  split; [|by split]. destruct Hb as [[] ]. split; [by split|done..].
Qed.

Lemma release_good x id s : good x s → good x (release id s).
Proof using.
  destruct (release_fields id s) as (? & ? & ? & ? & ? & ? & ?). by apply good_ext.
Qed.

Lemma stale_tasks gen (m : jsmap nat call) :
  (∀ n c, (n, c) ∈ m → c_gen c < gen) → m ≫= (λ kv, call_task gen kv.2) = [].
Proof using.
  induction m as [|[n c] m IH]; intros Hm; [done|]. csimpl.
  rewrite IH by (intros n' c' ?; apply (Hm n' c'); set_solver). unfold call_task.
  rewrite bool_decide_eq_false_2; [done|]. assert (c_gen c < gen) by (apply (Hm n c); set_solver). lia.
Qed.

Lemma stop_fields s :
  generation (stop s) = generation s + 1 ∧ lease (stop s) = None ∧ timers (stop s) = [] ∧
  requests (stop s) = [] ∧ state (stop s) = plain idle ∧ calls (stop s) = calls s ∧
  next (stop s) = next s.
Proof using.
  unfold stop. cbn. destruct (lease s) as [l|]; [|done]. unfold release. by case_bool_decide.
Qed.

(** [stop] leaves nothing of the current session running. *)
Lemma stop_good s : weak s → good [] (stop s).
Proof using.
  intros [Hwf Hf Hc]. generalize (stop_fields s). generalize (stop s) as s'.
  intros s' (Eg & El & Et & Er & Es & Ec & En).
  assert (∀ n c, jm_get n (calls s) = Some c → c_gen c < generation s') as Hlt.
  { intros n c (? & _)%Hc. rewrite Eg. lia. }
  split_and!; [split; rewrite ?Et, ?Er| |by rewrite El].
  - split; rewrite ?Ec, ?En; [done|done|]. intros n c Hn. specialize (Hlt n c Hn).
    destruct (Hc n c Hn) as (_ & ? & ?). split_and!; [lia|done|done].
  - constructor.
  - set_solver.
  - rewrite Ec. intros n c Hn Hg. specialize (Hlt n c Hn). lia.
  - done.
  - intros n c (Hn & Hg & _). rewrite Ec in Hn. specialize (Hlt n c Hn). lia.
  - set_solver.
  - done.
  - rewrite Es. unfold tasks. rewrite Et, Ec. csimpl.
    rewrite stale_tasks; [done|]. intros n c Hin. apply (Hlt n). by apply jm_elem_of_get.
Qed.

Lemma publish_good x y s :
  expected (ph y) = expected (ph (state s)) → good x s → good x (publish y s).
Proof using.
  intros He (Hb & Ht & Hl). split; [|by cbn; rewrite He].
  destruct Hb as [[] ]. split; [by split|done..].
Qed.

Lemma fail_good g e s : weak s → g ≠ generation s → good [] s → good [] (fail g e s).
Proof using. intros _ Hg Hs. unfold fail. by rewrite bool_decide_eq_false_2. Qed.

Lemma fail_current e s : weak s → good [] (fail (generation s) e s) ∧
  generation (fail (generation s) e s) = generation s + 1.
Proof using.
  intros Hs. unfold fail. rewrite bool_decide_eq_true_2 by done. cbn [negb]. split.
  - apply publish_good; [|by apply stop_good].
    by destruct (stop_fields s) as (_ & _ & _ & _ & -> & _).
  - cbn. apply stop_fields.
Qed.

Lemma fail_good' g e s :
  weak s → (g ≠ generation s → good [] s) → good [] (fail g e s).
Proof using.
  intros Hw Hs. destruct (decide (g = generation s)) as [->|Hg].
  - by apply fail_current.
  - apply fail_good; auto.
Qed.

(** Scheduling a renewal or a poll of the current session. *)
Lemma later_good a ms x s :
  timer_ok s (next s) a → timer_task a ≠ [] →
  good (timer_task a ++ x) s → good x (later a ms s).2.
Proof using.
  intros Ha Hta (Hb & Ht & Hl). pose proof Hb as [[Hwf Hf Hc] Htw Htf Hbl Hbt Hbf Hbr Hbo].
  assert (jm_get (next s) (timers s) = None) as Hfresh.
  { apply jm_get_None. intros ?%Htf. lia. }
  cbn [later snd]. split_and!; [split; [split|..]|..]; cbn; try done.
  - intros n ?%Hf. lia.
  - by apply jm_wf_set.
  - intros h. rewrite jm_keys_set. case_bool_decide; [intros ?%Htf; lia|].
    rewrite elem_of_app, list_elem_of_singleton. intros [?%Htf| ->]; lia.
  - intros h a' ms'. rewrite jm_get_set. case_bool_decide; [|apply Hbt]. intros; simplify_eq. done.
  - intros n c Hn. destruct (Hbf n c Hn) as (? & ms' & Hms). split; [done|]. exists ms'.
    rewrite jm_get_set_ne; [done|]. intros He. rewrite He in Hms. congruence.
  - intros n c a' ms' Hn. rewrite jm_get_set_ne; [by apply (Hbo n c)|].
    assert (n ∈ (calls s).*1) as ?%Hf by (apply jm_get_is_Some; eauto). lia.
  - unfold tasks in *. cbn. rewrite jm_set_fresh, bind_app by done. perm_solve.
Qed.

(** Starting a call of the current session. *)
Lemma request_good k id now x s :
  lease_id <$> lease s = Some id →
  good (kind_task k :: x) s → good x (request (generation s) k id now s).
Proof using.
  intros Hid (Hb & Ht & Hl). pose proof Hb as [[Hwf Hf Hc] Htw Htf Hbl Hbt Hbf Hbr Hbo].
  set (n := next s). set (c0 := mkCall k (generation s) id now (S n) None).
  assert (jm_get (S n) (timers s) = None) as Hft.
  { apply jm_get_None. intros ?%Htf. lia. }
  assert (jm_get n (calls s) = None) as Hfc.
  { apply jm_get_None. intros ?%Hf. lia. }
  assert (∀ s' m c, calls s' = jm_set n c0 (calls s) → generation s' = generation s →
    in_flight s' m c ↔ in_flight s m c ∨ (m = n ∧ c = c0)) as Hfl.
  { intros s' m c Ec Eg. unfold in_flight. rewrite Ec, Eg, jm_get_set.
    case_bool_decide; [subst|naive_solver]. rewrite Hfc. naive_solver. }
  unfold request. cbn. fold n. fold c0. split_and!; [split; [split|..]|..]; cbn.
  - by apply jm_wf_set.
  - intros m. rewrite jm_set_fresh, fmap_app, elem_of_app by done. csimpl.
    rewrite list_elem_of_singleton. intros [?%Hf| ->]; lia.
  - intros m c. rewrite jm_get_set. case_bool_decide; [|apply Hc].
    intros; simplify_eq. split_and!; [cbn; lia|done|done].
  - by apply jm_wf_set.
  - intros h. rewrite jm_set_fresh, fmap_app, elem_of_app by done. csimpl.
    rewrite list_elem_of_singleton. intros [?%Htf| ->]; lia.
  - intros m c. rewrite jm_get_set. case_bool_decide; [intros; by simplify_eq|apply Hbl].
  - intros h a ms. rewrite jm_get_set. case_bool_decide.
    + intros; simplify_eq. split; [done|]. exists n, c0. split; [done|]. by apply Hfl; [..|right].
    + intros Hh%Hbt. destruct a; cbn in *; try done.
      destruct Hh as (-> & m & c & -> & Hm). split; [done|]. exists m, c. split; [done|].
      apply Hfl; [done..|by left].
  - intros m c Hm. apply Hfl in Hm; [|done..]. destruct Hm as [Hm|[-> ->]].
    + destruct (Hbf m c Hm) as (Hin & ms & Hms). split; [set_solver|]. exists ms.
      rewrite jm_get_set_ne; [done|]. intros He. rewrite He in Hms. congruence.
    + split; [set_solver|]. eexists. by rewrite jm_get_set_eq.
  - intros m [Hin| ->%list_elem_of_singleton]%elem_of_app.
    + destruct (Hbr m Hin) as [c Hm]. exists c. apply Hfl; [done..|by left].
    + exists c0. by apply Hfl; [..|right].
  - intros m c a ms. rewrite !jm_get_set. case_bool_decide; [subst m|].
    + rewrite bool_decide_eq_true_2 by done. intros; by simplify_eq.
    + rewrite bool_decide_eq_false_2 by congruence. apply Hbo.
  - unfold tasks in *. cbn. rewrite !jm_set_fresh, !bind_app by done. csimpl.
    assert (call_task (generation s) c0 = [kind_task k]) as ->.
    { unfold call_task. by rewrite bool_decide_eq_true_2. }
    perm_solve.
  - done.
Qed.

Lemma weak_delete n s : weak s → weak (with_calls (jm_delete n (calls s)) s).
Proof using.
  intros [Hwf Hf Hc]. split; cbn.
  - by apply jm_wf_delete.
  - intros m Hm%jm_keys_delete. auto.
  - intros m c. rewrite jm_get_delete. case_bool_decide; [done|apply Hc].
Qed.

(** The caller of a settled call resumes. *)
Lemma take_call_good n c r s :
  jm_get n (calls s) = Some c → c_result c = Some r → good [] s →
  good (call_task (generation s) c) (with_calls (jm_delete n (calls s)) s).
Proof using.
  intros Hn Hr (Hb & Ht & Hl). pose proof Hb as [Hw Htw Htf Hbl Hbt Hbf Hbr Hbo].
  assert (∀ m c', in_flight (with_calls (jm_delete n (calls s)) s) m c' ↔ in_flight s m c') as Hfl.
  { intros m c'. unfold in_flight. cbn. rewrite jm_get_delete. case_bool_decide; [subst|done].
    rewrite Hn. naive_solver. }
  split_and!; [split|..]; cbn; try done.
  - by apply weak_delete.
  - intros m c'. rewrite jm_get_delete. case_bool_decide; [done|apply Hbl].
  - intros h a ms Hh%Hbt. destruct a; try done. destruct Hh as (-> & m & c' & -> & ?).
    split; [done|]. exists m, c'. by rewrite Hfl.
  - intros m c'. rewrite Hfl. apply Hbf.
  - intros m Hm. setoid_rewrite Hfl. by apply Hbr.
  - intros m c' a ms. rewrite jm_get_delete. case_bool_decide; [done|apply Hbo].
  - unfold tasks in *. cbn. destruct Hw as [Hwf _ _].
    pose proof (jm_delete_perm n c (calls s) Hwf ltac:(by apply jm_get_elem_of)) as Hp.
    rewrite Hp in Ht. csimpl in Ht. perm_solve.
Qed.

(** A renewal or poll timer fires. *)
Lemma take_timer_good h a ms s :
  jm_get h (timers s) = Some (a, ms) → timer_task a ≠ [] → good [] s →
  good (timer_task a) (clear h s).
Proof using.
  intros Hh Ha (Hb & Ht & Hl). pose proof Hb as [Hw Htw Htf Hbl Hbt Hbf Hbr Hbo].
  split_and!; [split|..]; cbn; try done.
  - by destruct Hw; split.
  - by apply jm_wf_delete.
  - intros h' Hh'%jm_keys_delete. auto.
  - intros h' a' ms'. rewrite jm_get_delete. case_bool_decide; [done|apply Hbt].
  - intros n c Hn. destruct (Hbf n c Hn) as (? & ms' & Hms). split; [done|]. exists ms'.
    rewrite jm_get_delete_ne; [done|]. intros He. rewrite He in Hms. by simplify_eq.
  - intros n c a' ms' Hn. rewrite jm_get_delete. case_bool_decide; [done|by apply (Hbo n c)].
  - unfold tasks in *. cbn.
    pose proof (jm_delete_perm h (a, ms) (timers s) Htw ltac:(by apply jm_get_elem_of)) as Hp.
    rewrite Hp in Ht. csimpl in Ht. perm_solve.
Qed.

(** The [finally] block of [request]. *)
Lemma timeout_tasks h a ms (m : jsmap nat (action * num)) :
  jm_wf m → jm_get h m = Some (a, ms) → timer_task a = [] →
  (m ≫= λ kv, timer_task kv.2.1) ≡ₚ (jm_delete h m ≫= λ kv, timer_task kv.2.1).
Proof using.
  intros Hwf Hh Ha. pose proof (jm_delete_perm h (a, ms) m Hwf ltac:(by apply jm_get_elem_of)) as Hp.
  rewrite Hp at 1. csimpl. by rewrite Ha.
Qed.

Lemma finally_good n c r s :
  jm_get n (calls s) = Some c → c_result c = None → well_typed (c_kind c) r = true →
  good [] s → good [] (request_finally n c r s).
Proof using.
  intros Hn Hr Hty (Hb & Ht & Hl). pose proof Hb as [[Hwf Hf Hc] Htw Htf Hbl Hbt Hbf Hbr Hbo].
  destruct (Hc n c Hn) as (Hg & Htim & _).
  assert (n ∈ (calls s).*1) as Hk by (apply jm_get_is_Some; eauto).
  set (c' := mkCall (c_kind c) (c_gen c) (c_id c) (c_started c) (S n) (Some r)).
  assert (∀ m d, in_flight (request_finally n c r s) m d ↔ m ≠ n ∧ in_flight s m d) as Hfl.
  { intros m d. unfold in_flight. cbn. rewrite jm_get_set. case_bool_decide; naive_solver. }
  split_and!; [split; [split|..]|..]; cbn; rewrite ?Htim; try done.
  - by apply jm_wf_set.
  - intros m. rewrite jm_keys_set, bool_decide_eq_true_2 by done. apply Hf.
  - intros m d. rewrite jm_get_set. case_bool_decide; [intros; simplify_eq|apply Hc].
    split_and!; [done|done|]. cbn. naive_solver.
  - by apply jm_wf_delete.
  - intros h Hh%jm_keys_delete. auto.
  - intros m d. rewrite jm_get_set. case_bool_decide; [|apply Hbl].
    intros [= <-] Hgen. by apply (Hbl n c).
  - intros h a ms. rewrite jm_get_delete. case_bool_decide as Hne; [done|]. intros Hh%Hbt.
    destruct a; try done. destruct Hh as (-> & m & d & -> & Hm). split; [done|].
    exists m, d. split; [done|]. rewrite Hfl. split; [congruence|done].
  - intros m d [Hmn Hm]%Hfl. destruct (Hbf m d Hm) as (Hin & ms & Hms). split.
    + rewrite elem_of_bfilter, bool_decide_eq_false_2; done.
    + exists ms. rewrite jm_get_delete_ne; [done|]. destruct Hm as (Hm & _).
      destruct (Hc m d Hm) as (_ & -> & _). congruence.
  - intros m. rewrite elem_of_bfilter. intros [Hmn Hin]. reflect_bools.
    destruct (Hbr m Hin) as [d Hd]. exists d. by rewrite Hfl.
  - intros m d a ms. rewrite jm_get_set, jm_get_delete. case_bool_decide; subst.
    + by rewrite bool_decide_eq_true_2.
    + rewrite bool_decide_eq_false_2 by congruence. apply Hbo.
  - unfold tasks in *. cbn. rewrite ?Htim.
    fold c'. rewrite (jm_set_perm n c' (calls s)) by done.
    pose proof (jm_delete_perm n c (calls s) Hwf ltac:(by apply jm_get_elem_of)) as Hp.
    rewrite Hp in Ht. csimpl in *. change (call_task (generation s) c') with (call_task (generation s) c).
    destruct (jm_get (S n) (timers s)) as [[a ms]|] eqn:Hh.
    + rewrite (timeout_tasks (S n) a ms) in Ht by (done || by apply (Hbo n c a ms)). done.
    + rewrite jm_delete_not_in by by apply jm_get_None. done.
Qed.

(** ** The continuations keep the invariant *)

Lemma renewLater_good l started now x s :
  lease_id <$> lease s = Some (lease_id l) → good (TRenew :: x) s →
  let s' := renewLater (generation s) l started now s in
  (generation s' = generation s ∧ lease s' = lease s ∧ good x s')
  ∨ (generation s' ≠ generation s ∧ good [] s').
Proof using.
  intros Hl Hs. cbn zeta. unfold renewLater. case_match.
  - right. destruct (fail_current lease_expired s) as [? Hg]; [apply Hs|]. split; [lia|done].
  - left. split_and!; [done|done|]. by apply later_good.
Qed.

Lemma poll_good g id now x s :
  (g = generation s → lease_id <$> lease s = Some id ∧ good (TPoll :: x) s) →
  (g ≠ generation s → good x s) → good x (poll g id now s).
Proof using.
  intros H1 H2. unfold poll. case_bool_decide as Hg; [subst|by auto].
  destruct H1 as [??]; [done|]. by apply request_good.
Qed.

Lemma renew_good g id now x s :
  (g = generation s → lease_id <$> lease s = Some id ∧ good (TRenew :: x) s) →
  (g ≠ generation s → good x s) → good x (renew g id now s).
Proof using.
  intros H1 H2. unfold renew. case_bool_decide as Hg; [subst|by auto].
  destruct H1 as [??]; [done|]. by apply request_good.
Qed.

(** The lease of the session is replaced by one with the same identifier. *)
Lemma with_lease_good l x s :
  lease_id <$> lease s = Some (lease_id l) → good x s → good x (with_lease (Some l) s).
Proof using.
  intros Hl (Hb & Ht & Hx). destruct Hb as [Hw Htw Htf Hbl Hbt Hbf Hbr Hbo].
  split_and!; [split|..]; cbn; try done.
  - by destruct Hw; split.
  - intros n c Hn Hg. rewrite <-(Hbl n c Hn Hg). by rewrite Hl.
  - intros h a ms Hh%Hbt. destruct a; cbn in *; by rewrite <-?Hl.
  - intros He. specialize (Hx He). by rewrite Hx in Hl.
Qed.

(** What a resumed caller knows. *)
Definition resumable (c : call) (s : t) : Prop :=
  (c_gen c = generation s → lease_id <$> lease s = Some (c_id c) ∧ good [kind_task (c_kind c)] s)
  ∧ (c_gen c ≠ generation s → good [] s).

Lemma fail_resume e c s : weak s → resumable c s → good [] (fail (c_gen c) e s).
Proof using. intros Hw [_ Hs]. by apply fail_good'. Qed.

Lemma resumable_release id c s : resumable c s → resumable c (release id s).
Proof using.
  intros [H1 H2]. destruct (release_fields id s) as (Eg & El & _).
  unfold resumable. rewrite Eg, El.
  split; intros Hg; [destruct (H1 Hg); split; [done|]|]; apply release_good; auto.
Qed.

Lemma resumable_weak c s : resumable c s → weak s.
Proof using.
  intros [H1 H2]. destruct (decide (c_gen c = generation s)) as [He|He].
  - destruct (H1 He) as (_ & [Hw _] & _). done.
  - destruct (H2 He) as ([Hw _] & _). done.
Qed.

Lemma poll_resume_good c r s :
  c_kind c = KRead → well_typed KRead r = true → resumable c s → good [] (poll_resume c r s).
Proof using.
  intros Hk Hr Hs. destruct r as [l|d|e]; [done| |].
  - destruct Hs as [H1 H2]. cbn [poll_resume]. case_bool_decide as Hg; [|by auto].
    destruct (H1 Hg) as [Hl Hgood]. rewrite Hk in Hgood. cbn [negb].
    assert (ph (state s) = active) as Hph.
    { destruct Hgood as (_ & Hp & _). destruct (ph (state s)); cbn in Hp; [| |done|].
      - by apply Permutation_nil_r in Hp.
      - by apply Permutation_singleton_r in Hp.
      - by apply Permutation_nil_r in Hp. }
    apply later_good; [by split|done|]. apply publish_good; [by rewrite Hph|done].
  - apply fail_resume; [by apply (resumable_weak c)|done].
Qed.

Lemma renew_resume_good c r now1 now2 s :
  c_kind c = KRenew → well_typed KRenew r = true → resumable c s →
  good [] (renew_resume c r now1 now2 s).
Proof using.
  intros Hk Hr Hs. pose proof (resumable_weak c s Hs) as Hw.
  destruct r as [l|d|e]; [|done|]; cbn [renew_resume].
  - case_bool_decide as Hg; cbn [negb].
    + destruct (_ || _) eqn:Hbad.
      { apply fail_resume; [|by apply resumable_release].
        by apply (resumable_weak c), resumable_release. }
      apply orb_false_iff in Hbad as [Hid _]. reflect_bools.
      destruct Hs as [H1 _]. destruct (H1 Hg) as [Hl Hgood]. rewrite Hk in Hgood. rewrite Hg.
      destruct (renewLater_good l (c_started c) now2 [] (with_lease (Some l) s)) as [(_ & _ & ?)|[_ ?]];
        [done| |done|done].
      apply with_lease_good; [congruence|done].
    + destruct Hs as [_ H2]. specialize (H2 Hg). case_match; by repeat apply release_good.
  - case_bool_decide as Hg; cbn [negb]; [by apply fail_resume|].
    destruct Hs as [_ H2]. by apply release_good, H2.
Qed.

Lemma creating_tasks s :
  good [TCreate] s → ph (state s) = starting ∧ tasks s = [].
Proof using.
  intros (_ & Hp & _). destruct (ph (state s)); cbn in Hp.
  - by apply Permutation_nil_r in Hp.
  - apply Permutation_singleton_r in Hp as [=]. done.
  - exfalso. assert (TCreate ∈ [TRenew; TPoll]) as Hin by (rewrite <-Hp; set_solver). set_solver.
  - by apply Permutation_nil_r in Hp.
Qed.

Lemma activate_good s : good [TCreate] s → good [TRenew; TPoll] (publish (plain active) s).
Proof using.
  intros Hs. destruct (creating_tasks s Hs) as [_ Htasks]. destruct Hs as (Hb & _ & _).
  split_and!; [by destruct Hb as [[] ]; split; [split|..]| |done].
  change (tasks (publish (plain active) s)) with (tasks s). by rewrite Htasks.
Qed.

Lemma start_resume_good c r now1 now2 now3 s :
  c_kind c = KCreate → well_typed KCreate r = true → resumable c s →
  good [] (start_resume c r now1 now2 now3 s).
Proof using.
  intros Hk Hr Hs. pose proof (resumable_weak c s Hs) as Hw.
  destruct r as [l|d|e]; [|done|by apply fail_resume]; cbn [start_resume].
  case_bool_decide as Hg; cbn [negb].
  2: { destruct Hs as [_ H2]. by apply release_good, H2. }
  case_bool_decide as Hid; cbn [negb].
  2: { apply fail_resume; [|by apply resumable_release].
       by apply (resumable_weak c), resumable_release. }
  destruct Hs as [H1 _]. destruct (H1 Hg) as [Hl Hgood]. rewrite Hk in Hgood. cbn zeta.
  apply with_lease_good with (l := l) in Hgood; [|congruence].
  destruct (_ || _).
  { apply fail_good'; [apply Hgood|]. by intros []. }
  apply activate_good in Hgood. rewrite Hg.
  pose proof (renewLater_good l (c_started c) now2 [TPoll]
    (publish (plain active) (with_lease (Some l) s)) eq_refl Hgood) as Hcase.
  apply poll_good; intros Hsame;
    destruct Hcase as [(Hg' & El & ?)|[? ?]]; cbn in *; try congruence.
  split; [|done]. by rewrite El.
Qed.

Lemma stop_stale s n c :
  weak s → jm_get n (calls (stop s)) = Some c → c_gen c < generation (stop s).
Proof using.
  intros [_ _ Hc]. destruct (stop_fields s) as (-> & _ & _ & _ & _ & -> & _).
  intros (? & _)%Hc. lia.
Qed.

Lemma start_good id now s : good [] s → good [] (start id now s).
Proof using.
  intros Hs. assert (weak s) as Hw by apply Hs. unfold start.
  assert (good [TCreate] (publish (plain starting) (with_lease (Some (mkLease id (num_of_Z 0))) (stop s))))
    as Hgood.
  { pose proof (stop_good s Hw) as (Hb & Ht & _).
    pose proof (λ n c, stop_stale s n c Hw) as Hold. revert Hb Ht Hold.
    destruct (stop_fields s) as (_ & _ & Et & _ & Es & _). rewrite Es.
    revert Et. generalize (stop s) as s'. intros s' Et [[] Htw Htf _ _ Hbf Hbr Hbo] Ht Hold.
    split_and!; [split; [split|..]|..]; cbn; try done.
    - intros n c Hn ?. specialize (Hold n c Hn). lia.
    - rewrite Et. done.
    - change (tasks (publish _ (with_lease _ s'))) with (tasks s').
      cbn in Ht. by rewrite Ht. }
  destruct (ph (state s)); try done;
    apply (request_good KCreate id now [] (publish (plain starting) (with_lease _ (stop s)))); done.
Qed.

Lemma fire_good h a ms now s :
  jm_get h (timers s) = Some (a, ms) → good [] s → good [] (fire a now (clear h s)).
Proof using.
  intros Hh Hs. pose proof Hs as (Hb & _). pose proof (b_timer s Hb h a ms Hh) as Ha.
  destruct a as [g|g id|g id]; cbn [fire]; destruct Ha as [-> Hl].
  - change (generation s) with (generation (clear h s)).
    apply fail_good'; [|by intros []]. by destruct Hb as [[] ]; split.
  - apply renew_good; [|by intros []]. intros _. split; [done|]. by apply (take_timer_good h (OnRenew (generation s) id) ms).
  - apply poll_good; [|by intros []]. intros _. split; [done|]. by apply (take_timer_good h (OnPoll (generation s) id) ms).
Qed.

Lemma session_step_good ev s : good [] s → good [] (step ev s).
Proof using.
  intros Hs. destruct ev as [id now| |h now|n r|n now1 now2 now3]; cbn [step].
  - by apply start_good.
  - apply stop_good, Hs.
  - destruct (jm_get h (timers s)) as [[a ms]|] eqn:Hh; [|done]. by eapply fire_good.
  - destruct (jm_get n (calls s)) as [c|] eqn:Hn; [|done]. destruct (c_result c) eqn:?; [done|].
    destruct (well_typed _ r) eqn:?; [|done]. by apply finally_good.
  - destruct (jm_get n (calls s)) as [c|] eqn:Hn; [|done]. destruct (c_result c) as [r|] eqn:Hr; [|done].
    pose proof (take_call_good n c r s Hn Hr Hs) as Htake. pose proof Hs as (Hb & _).
    destruct (w_call s (b_weak s Hb) n c Hn) as (_ & _ & Hty). specialize (Hty r Hr).
    assert (resumable c (with_calls (jm_delete n (calls s)) s)) as Hres.
    { unfold call_task in Htake. split; intros Hg; cbn in Hg; case_bool_decide; try done.
      split; [|done]. by apply (b_lease s Hb n). }
    unfold resume. destruct (c_kind c) eqn:Hk;
      [by apply start_resume_good|by apply renew_resume_good|by apply poll_resume_good].
Qed.

Lemma constructor_good : good [] constructor.
Proof using.
  split_and!; [split; [split|..]|..]; cbn; try done; try constructor; try set_solver.
  all: match goal with H : in_flight _ _ _ |- _ => by destruct H end.
Qed.

Lemma session_runs_good evs : good [] (runs step evs constructor).
Proof using. apply runs_invariant; [intros; by apply session_step_good|apply constructor_good]. Qed.

(** ** How long each timer waits *)

Definition delay_ok (a : action) (ms : num) : Prop :=
  match a with
  | OnTimeout _ => ms = num_of_Z 10000
  | OnPoll _ _ => ms = num_of_Z 1000
  | OnRenew _ _ =>
      is_nan ms = true ∨ num_leb (num_of_Z 100) ms = true ∧ num_leb ms (num_of_Z 10000) = true
  end.

Definition timed (s : t) : Prop :=
  ∀ h a ms, jm_get h (timers s) = Some (a, ms) → delay_ok a ms.

Lemma timed_ext s s' : timers s' = timers s → timed s → timed s'.
Proof using. unfold timed. by intros ->. Qed.

Lemma later_timed a ms s : delay_ok a ms → timed s → timed (later a ms s).2.
Proof using.
  intros Ha Hs h a' ms'. cbn. rewrite jm_get_set. case_bool_decide; [intros; by simplify_eq|apply Hs].
Qed.

Lemma clear_timed h s : timed s → timed (clear h s).
Proof using. intros Hs h' a ms. cbn. rewrite jm_get_delete. case_bool_decide; [done|apply Hs]. Qed.

Lemma release_timed id s : timed s → timed (release id s).
Proof using. apply timed_ext. by destruct (release_fields id s) as (_ & _ & ? & _). Qed.

Lemma fail_timed g e s : timed s → timed (fail g e s).
Proof using.
  intros Hs. unfold fail. case_match; [done|]. intros h a ms. cbn [timers publish].
  destruct (stop_fields s) as (_ & _ & Ht & _). by rewrite Ht.
Qed.

Lemma request_timed g k id now s : timed s → timed (request g k id now s).
Proof using.
  intros Hs h a ms. cbn. rewrite jm_get_set. case_bool_decide; [intros; by simplify_eq|apply Hs].
Qed.

Lemma renew_delay remaining :
  delay_ok (OnRenew 0 ""%string)
    (math_min (num_of_Z 10000) (math_max (num_of_Z 100) (num_div remaining (num_of_Z 3)))).
Proof using.
  set (x := num_div _ _). destruct (is_nan x) eqn:Hn; [left; by destruct x|right].
  assert (is_nan (math_max (num_of_Z 100) x) = false ∧
    num_leb (num_of_Z 100) (math_max (num_of_Z 100) x) = true) as [Hm Hle].
  { unfold math_max. rewrite Hn. cbn [orb is_nan]. destruct (num_ltb (num_of_Z 100) x) eqn:Hlt; [|done].
    split; [done|by apply num_ltb_leb]. }
  split; [|by apply math_min_le].
  unfold math_min at 1. rewrite Hm. cbn [orb is_nan]. by destruct (num_ltb _ _).
Qed.

Lemma renewLater_timed g l started now s : timed s → timed (renewLater g l started now s).
Proof using.
  intros Hs. unfold renewLater. case_match; [by apply fail_timed|]. apply later_timed; [|done].
  apply renew_delay.
Qed.

Lemma poll_timed g id now s : timed s → timed (poll g id now s).
Proof using. intros Hs. unfold poll. case_match; [done|]. by apply request_timed. Qed.

Lemma resume_timed c r now1 now2 now3 s : timed s → timed (resume c r now1 now2 now3 s).
Proof using.
  intros Hs. unfold resume, start_resume, renew_resume, poll_resume.
  repeat case_match; subst;
    repeat first [done | apply fail_timed | apply release_timed | apply renewLater_timed
      | apply poll_timed | apply later_timed].
Qed.

Lemma step_timed ev s : timed s → timed (step ev s).
Proof using.
  intros Hs. destruct ev as [id now| |h now|n r|n now1 now2 now3]; cbn [step].
  - unfold start. case_match; try done;
      (apply request_timed; intros h a ms; cbn [timers publish with_lease];
       destruct (stop_fields s) as (_ & _ & Ht & _); by rewrite Ht).
  - intros h a ms. destruct (stop_fields s) as (_ & _ & Ht & _). by rewrite Ht.
  - destruct (jm_get h (timers s)) as [[a ms]|]; [|done]. apply (clear_timed h) in Hs. unfold fire, renew.
    repeat case_match; auto using fail_timed, poll_timed, request_timed.
  - repeat case_match; try done. apply clear_timed. by eapply timed_ext.
  - repeat case_match; try done. by apply resume_timed.
Qed.

Lemma session_runs_timed evs : timed (runs step evs constructor).
Proof using. apply runs_invariant; [intros; by apply step_timed|done]. Qed.

(** ** Leases the server may still hold

    A lease is owed when the server reported it and no release was sent
    after that. *)

Definition owed_step (id : string) (b : bool) (e : log_entry) : bool :=
  match e with
  | Granted j => b || bool_decide (j = id)
  | Released j => b && negb (bool_decide (j = id))
  end.

Definition owed (id : string) (l : list log_entry) : bool := foldl (owed_step id) false l.
Arguments owed : simpl never.

Definition carried (id : string) (s : t) : Prop :=
  ∃ n c l, jm_get n (calls s) = Some c ∧ c_result c = Some (GotLease l) ∧ lease_id l = id.

(** Every owed lease is the session's own, or travels in a response whose
    caller has not run yet, or is in [held]. *)
Definition accounted (held : list string) (s : t) : Prop :=
  ∀ id, id ≠ ""%string → owed id (log s) = true →
    lease_id <$> lease s = Some id ∨ carried id s ∨ id ∈ held.

Lemma owed_snoc id e l : owed id (l ++ [e]) = owed_step id (owed id l) e.
Proof using. unfold owed. by rewrite foldl_app. Qed.

Lemma accounted_ext held s s' :
  lease s' = lease s → log s' = log s → (∀ id, carried id s → carried id s') →
  accounted held s → accounted held s'.
Proof using.
  intros El Elog Hc Hs id Hne. rewrite El, Elog. intros Ho.
  destruct (Hs id Hne Ho) as [?|[?|?]]; eauto.
Qed.

Lemma release_accounted held id s :
  accounted (id :: held) s → accounted held (release id s).
Proof using.
  intros Hs j Hne. unfold release. case_bool_decide as Hid.
  - intros Ho. destruct (Hs j Hne Ho) as [?|[?|[->|?]%elem_of_cons]]; eauto. congruence.
  - cbn. rewrite owed_snoc. cbn [owed_step]. intros [Ho Hj]%andb_true_iff. reflect_bools.
    destruct (Hs j Hne Ho) as [?|[?|[->|?]%elem_of_cons]]; eauto. congruence.
Qed.

Lemma release_accounted_weak held id s : accounted held s → accounted held (release id s).
Proof using.
  intros Hs. apply release_accounted. intros j Hne Ho.
  destruct (Hs j Hne Ho) as [?|[?|?]]; eauto. right. right. set_solver.
Qed.

Lemma stop_accounted held s : accounted held s → accounted held (stop s).
Proof using.
  intros Hs.
  assert (∀ s', lease s' = lease s → log s' = log s → calls s' = calls s →
    accounted held (with_lease None
      (match lease s' with Some l => release (lease_id l) s' | None => s' end))) as H.
  { intros s' El Elog Ec.
    assert (accounted held s') as Hs'.
    { apply (accounted_ext held s); [done|done| |done]. unfold carried. by rewrite Ec. }
    destruct (lease s') as [l|] eqn:Hl.
    - intros j Hne. unfold release. case_bool_decide as Hid; cbn.
      + intros Ho. destruct (Hs' j Hne Ho) as [Hx|[?|?]]; eauto. rewrite Hl in Hx. cbn in Hx. congruence.
      + rewrite owed_snoc. cbn [owed_step]. intros [Ho Hj]%andb_true_iff. reflect_bools.
        destruct (Hs' j Hne Ho) as [Hx|[?|?]]; eauto. rewrite Hl in Hx. cbn in Hx. congruence.
    - intros j Hne Ho. destruct (Hs' j Hne Ho) as [Hx|[?|?]]; eauto. by rewrite Hl in Hx. }
  intros j. apply H; done.
Qed.

Lemma fail_accounted held g e s : accounted held s → accounted held (fail g e s).
Proof using.
  intros Hs. unfold fail. case_match; [done|].
  apply (accounted_ext held (stop s)); [done..|]. by apply stop_accounted.
Qed.

Lemma request_accounted held g k id now s :
  weak s → accounted held s → accounted held (request g k id now s).
Proof using.
  intros [_ Hf _]. apply accounted_ext; [done..|]. intros j (n & c & l & Hn & Hc). exists n, c, l.
  split; [|done]. cbn. rewrite jm_get_set_ne; [done|].
  assert (n ∈ (calls s).*1) as ?%Hf by (apply jm_get_is_Some; eauto). lia.
Qed.

Lemma with_lease_accounted held l s :
  accounted (lease_id l :: held) s →
  lease_id <$> lease s = Some (lease_id l) → accounted held (with_lease (Some l) s).
Proof using.
  intros Hs Hl j Hne Ho. destruct (Hs j Hne Ho) as [Hj|[?|[->|?]%elem_of_cons]]; eauto.
  left. cbn. congruence.
Qed.

Lemma renewLater_accounted held g l started now s :
  accounted held s → accounted held (renewLater g l started now s).
Proof using.
  intros Hs. unfold renewLater. case_match; [by apply fail_accounted|].
  by apply (accounted_ext held s).
Qed.

(** The leases a resumed call carries. *)
Definition carries (r : response) : list string :=
  match r with GotLease l => [lease_id l] | _ => [] end.

Lemma take_call_accounted n c r s :
  jm_get n (calls s) = Some c → c_result c = Some r → accounted [] s →
  accounted (carries r) (with_calls (jm_delete n (calls s)) s).
Proof using.
  intros Hn Hr Hs j Hne Ho. destruct (Hs j Hne Ho) as [?|[(m & d & l & Hm & Hd & <-)|?]];
    [by left| |set_solver].
  right. destruct (decide (m = n)) as [->|].
  - right. assert (d = c) as -> by congruence. assert (r = GotLease l) as -> by congruence. set_solver.
  - left. exists m, d, l. split; [|done]. cbn. by rewrite jm_get_delete_ne.
Qed.

Lemma resume_accounted c r now1 now2 now3 s :
  weak s → (c_gen c = generation s → lease_id <$> lease s = Some (c_id c)) →
  well_typed (c_kind c) r = true → accounted (carries r) s →
  accounted [] (resume c r now1 now2 now3 s).
Proof using.
  intros Hw Hl Hty Hs. unfold resume. destruct (c_kind c), r as [l|d|e]; try done; cbn [carries] in Hs;
    cbn [start_resume renew_resume poll_resume].
  - case_bool_decide as Hg; cbn [negb]; [|by apply release_accounted].
    case_bool_decide as Hid; cbn [negb]; [|by apply fail_accounted, release_accounted].
    specialize (Hl Hg). rewrite <-Hid in Hl.
    assert (accounted [] (with_lease (Some l) s)) as Hs' by by apply with_lease_accounted.
    cbn zeta. case_match; [by apply fail_accounted|].
    assert (weak (renewLater (c_gen c) l (c_started c) now2 (publish (plain active) (with_lease (Some l) s)))) as Hw'.
    { rewrite Hg. unfold renewLater. case_match.
      - apply (fail_current lease_expired (publish (plain active) (with_lease (Some l) s))). by destruct Hw; split.
      - destruct Hw as [Hwf Hf Hc]. split; [done| |done]. cbn. intros ? ?%Hf. lia. }
    unfold poll. case_match; [|apply request_accounted; [done|]];
      apply renewLater_accounted; by apply (accounted_ext [] (with_lease (Some l) s)).
  - by apply fail_accounted.
  - case_bool_decide as Hg; cbn [negb].
    + destruct (_ || _) eqn:Hbad; [by apply fail_accounted, release_accounted|].
      apply orb_false_iff in Hbad as [Hid _]. reflect_bools.
      apply renewLater_accounted, with_lease_accounted; [done|]. rewrite Hl by done. congruence.
    + case_bool_decide as Hid; cbn [negb].
      * apply release_accounted. by rewrite <-Hid.
      * by apply release_accounted, release_accounted_weak.
  - case_match; [by apply release_accounted_weak|by apply fail_accounted].
  - case_match; [done|]. by apply (accounted_ext [] s).
  - by apply fail_accounted.
Qed.

Lemma session_step_accounted ev s : good [] s → accounted [] s → accounted [] (step ev s).
Proof using.
  intros Hg Hs. assert (base s) as Hb by apply Hg. assert (weak s) as Hw by apply Hb.
  destruct ev as [id now| |h now|n r|n now1 now2 now3]; cbn [step].
  - unfold start. case_match; try done;
      (apply request_accounted; [by destruct (stop_good s Hw) as [[[] ] ]; split|]);
      (intros j Hne Ho; destruct (stop_accounted [] s Hs j Hne Ho) as [Hj|?]; [|by right]);
      destruct (stop_fields s) as (_ & El & _); by rewrite El in Hj.
  - by apply stop_accounted.
  - destruct (jm_get h (timers s)) as [[a ms]|] eqn:Hh; [|done].
    assert (accounted [] (clear h s)) as Hs' by by apply (accounted_ext [] s).
    assert (weak (clear h s)) as Hw' by by destruct Hw; split.
    destruct a; cbn [fire]; [by apply fail_accounted|unfold renew|unfold poll]; case_match; try done;
      by apply request_accounted.
  - destruct (jm_get n (calls s)) as [c|] eqn:Hn; [|done]. destruct (c_result c) eqn:Hr; [done|].
    destruct (well_typed _ r) eqn:?; [|done]. intros j Hne. cbn.
    assert (∀ id, carried id s → carried id (request_finally n c r s)) as Hcar.
    { intros id (m & d & l & Hm & Hd). exists m, d, l. split; [|done]. cbn.
      rewrite jm_get_set_ne; [done|]. intros ->. naive_solver. }
    destruct r as [l| |]; [rewrite owed_snoc; intros [Ho|Hj]%orb_true_iff|intros Ho..];
      try (destruct (Hs j Hne Ho) as [?|[?|?]]; eauto).
    reflect_bools. right. left. exists n. eexists _, l. cbn. by rewrite jm_get_set_eq.
  - destruct (jm_get n (calls s)) as [c|] eqn:Hn; [|done]. destruct (c_result c) as [r|] eqn:Hr; [|done].
    destruct (w_call s Hw n c Hn) as (_ & _ & Hty). apply resume_accounted; [by apply weak_delete| |auto|].
    + intros Hgen. by apply (b_lease s Hb n c).
    + by apply (take_call_accounted n c).
Qed.

Lemma session_runs_accounted evs :
  good [] (runs step evs constructor) ∧ accounted [] (runs step evs constructor).
Proof using.
  apply (runs_invariant step (λ s, good [] s ∧ accounted [] s)).
  - intros ev s []. split; [by apply session_step_good|by apply session_step_accounted].
  - split; [apply constructor_good|done].
Qed.

(** ** Properties *)

(** C3: whatever the interleaving of views opening and closing, timers and late
    responses, no lease is leaked: a lease that the server granted and to
    which no later release was sent is the one the session holds, or is in a
    response whose handler is about to run; and a session that is idle or
    failed holds none. *)
Theorem session_releases_leases (evs : list event) :
  let s := runs step evs constructor in
  (∀ id, id ≠ ""%string → owed id (log s) = true →
     (lease_id <$> lease s) = Some id ∨ carried id s) ∧
  (ph (state s) = idle ∨ ph (state s) = failed → lease s = None).
Proof using.
  intros s. destruct (session_runs_accounted evs) as [Hg Ha]. fold s in Hg, Ha. split.
  - intros id Hne Ho. destruct (Ha id Hne Ho) as [?|[?|?]]; [by left|by right|set_solver].
  - destruct Hg as (_ & _ & Hl). intros [Hp|Hp]; apply Hl; by rewrite Hp.
Qed.

(** C9: an active session is never stuck and never runs twice: it has exactly
    one renewal and exactly one poll, each scheduled or in flight; a starting
    one has exactly its create call; an idle or failed one has no timer and
    no request.  A scheduled poll waits 1000 ms; a scheduled renewal waits
    between 100 and 10000 ms, unless its delay is NaN (a clock reading was
    not a number).  [requests] holds exactly the unsettled calls of the
    current session, and each of them has a timeout of its own of exactly
    10000 ms, whose firing fails the session and drops every request. *)
Theorem session_alive (evs : list event) :
  let s := runs step evs constructor in
  tasks s ≡ₚ expected (ph (state s)) ∧
  (ph (state s) = idle ∨ ph (state s) = failed → timers s = [] ∧ requests s = []) ∧
  (∀ h g id ms, jm_get h (timers s) = Some (OnPoll g id, ms) → ms = num_of_Z 1000) ∧
  (∀ h g id ms, jm_get h (timers s) = Some (OnRenew g id, ms) →
     is_nan ms = true ∨ num_leb (num_of_Z 100) ms = true ∧ num_leb ms (num_of_Z 10000) = true) ∧
  (∀ n, n ∈ requests s ↔
     ∃ c, jm_get n (calls s) = Some c ∧ c_gen c = generation s ∧ c_result c = None) ∧
  (∀ n, n ∈ requests s → ∃ h,
     (∃ c, jm_get n (calls s) = Some c ∧ c_result c = None ∧ c_timer c = h) ∧
     jm_get h (timers s) = Some (OnTimeout (generation s), num_of_Z 10000) ∧
     ∀ now, ph (state (step (Fire h now) s)) = failed ∧ requests (step (Fire h now) s) = []).
Proof using.
  intros s. pose proof (session_runs_good evs) as Hg. fold s in Hg.
  pose proof (session_runs_timed evs) as Hd. fold s in Hd.
  destruct Hg as (Hb & Ht & Hl). split_and!; [done| | | | |].
  - intros Hp. assert (tasks s = []) as Hnil.
    { apply Permutation_nil_r. rewrite Ht. by destruct Hp as [->| ->]. }
    assert (lease s = None) as Hnone by (apply Hl; by destruct Hp as [->| ->]).
    assert (requests s = []) as Hreq.
    { destruct (requests s) as [|n l] eqn:Hr; [done|].
      destruct (b_requests s Hb n) as [c (Hn & Hgen & _)]; [rewrite Hr; set_solver|].
      pose proof (b_lease s Hb n c Hn Hgen) as Hlease. by rewrite Hnone in Hlease. }
    split; [|done]. destruct (timers s) as [|[h [a ms]] m] eqn:Htm; [done|].
    assert (timer_ok s h a) as Ha.
    { apply (b_timer s Hb h a ms). rewrite Htm. cbn. by rewrite bool_decide_eq_true_2. }
    destruct a; cbn in Ha; rewrite ?Hnone in Ha; try by destruct Ha.
    destruct Ha as (_ & n & c & _ & (Hn & Hgen & _)).
    pose proof (b_lease s Hb n c Hn Hgen) as Hlease. by rewrite Hnone in Hlease.
  - intros h g id ms Hh. by apply (Hd h (OnPoll g id)).
  - intros h g id ms Hh. by apply (Hd h (OnRenew g id)).
  - intros n. split; [apply (b_requests s Hb)|intros [c Hc]; by apply (b_flight s Hb n c)].
  - intros n [c Hc]%(b_requests s Hb). destruct (b_flight s Hb n c Hc) as (_ & ms & Hms).
    pose proof (Hd _ _ _ Hms) as Hdm. cbn in Hdm. subst ms. exists (c_timer c).
    split_and!; [by destruct Hc as (? & _ & ?); exists c|done|]. intros now. cbn [step]. rewrite Hms. cbn [fire].
    unfold fail. rewrite bool_decide_eq_true_2 by done. split; [done|].
    destruct (stop_fields (clear (c_timer c) s)) as (_ & _ & _ & Hreq & _). exact Hreq.
Qed.

(** A response that belongs to a closed view is never adopted: resuming a
    call of an old generation publishes nothing and leaves the session's
    state, lease, timers and requests alone; it only sends releases, among
    them one for the lease it brought. *)
Theorem stale_response_not_adopted (evs : list event) (n : nat) (c : call) (r : response)
    (now1 now2 now3 : DiagnosticClock) :
  let s := runs step evs constructor in
  let s' := step (Resume n now1 now2 now3) s in
  jm_get n (calls s) = Some c → c_result c = Some r → c_gen c ≠ generation s →
  generation s' = generation s ∧ state s' = state s ∧ lease s' = lease s ∧
  timers s' = timers s ∧ requests s' = requests s ∧ published s' = published s ∧
  (∀ l, r = GotLease l → owed (lease_id l) (log s') = true → lease_id l = ""%string).
Proof using.
  intros s s' Hn Hr Hg. pose proof (session_runs_good evs) as Hgood. fold s in Hgood.
  destruct Hgood as (Hb & _). destruct (w_call s (b_weak s Hb) n c Hn) as (_ & _ & Hty).
  specialize (Hty r Hr). unfold s'. cbn [step]. rewrite Hn, Hr. unfold resume.
  assert (∀ x : t, generation x = generation s → bool_decide (c_gen c = generation x) = false) as Hgx.
  { intros x ->. by apply bool_decide_eq_false_2. }
  destruct (c_kind c), r as [l|d|e]; try done;
    cbn [start_resume renew_resume poll_resume]; unfold fail;
    rewrite !Hgx by done; cbn [negb]; unfold release; repeat case_bool_decide; cbn; try done;
    split_and!; try done; intros l' [= <-] Ho; try congruence;
    rewrite ?owed_snoc in Ho; cbn [owed_step] in Ho;
    apply andb_true_iff in Ho as [Ho Hx]; reflect_bools; congruence.
Qed.
End session.

(** ** Witness *)

Definition now0 : DiagnosticClock := mkClock (num_of_Z 0) (num_of_Z 0).
Definition late_create : list (@event nat nat) :=
  [Start "a" now0; Stop; CallSettled 0 (GotLease (mkLease "a" (num_of_Z 30000)))].

Lemma stale_response_not_adopted_witness :
  let s := runs step late_create constructor in
  let s' := step (Resume 0 now0 now0 now0) s in
  owed "a" (log s) = true ∧ lease s' = None ∧ owed "a" (log s') = false.
Proof.
  intros s s'. split; [vm_compute; reflexivity|].
  destruct (stale_response_not_adopted late_create 0
    (mkCall KCreate 1 "a" now0 1 (Some (GotLease (mkLease "a" (num_of_Z 30000)))))
    (GotLease (mkLease "a" (num_of_Z 30000))) now0 now0 now0) as (_ & _ & Hl & _ & _ & _ & Ho).
  - vm_compute. reflexivity.
  - reflexivity.
  - vm_compute. discriminate.
  - split; [exact Hl|]. vm_compute. reflexivity.
Defined.

End DiagnosticSession.
