(* ===== verification/LiveDiagnostics.v ===== *)
(** * Live samples and observations of the console

    [ObservedRequest] is [admin/src/lib/observed-request.ts]: clock readings
    with a generation that changes when the clock goes back, the freshness of
    an observation, and a request with a deadline.  [LiveDiagnostics] is
    [admin/src/lib/live-diagnostics.ts]: the window of samples of one viewing
    lease and the points of its graph.

    [Date.parse] is a parameter: a time in milliseconds, or [None] for NaN.
    Sequence numbers are numbers of the language; a safe integer is keyed by
    the integer it stands for. *)

From Stdlib Require Import SpecFloat.
From S2P Require Import Prelude JsMap JsString Json JsValue.

Open Scope Z_scope.

Module ObservedRequest.

Record ObservationClock := mkClock { monotonic : num; wall : num; generation : Z }.

(** ** The observation clock *)

(** The closure of [createObservationClock]: [previous] and [generation]. *)
Record clock_state := mkClockState { previous : option (num * num); current_generation : Z }.

Definition createObservationClock : clock_state := mkClockState None 0.

Definition rollback (before after : num * num) : bool :=
  num_ltb after.2 before.2 || num_ltb after.1 before.1.

(** One call of the clock; [next] is the reading, monotonic and wall time. *)
Definition tick (next : num * num) (s : clock_state) : ObservationClock * clock_state :=
  let g := match previous s with
           | Some p => if rollback p next then current_generation s + 1 else current_generation s
           | None => current_generation s
           end in
  (mkClock next.1 next.2 g, mkClockState (Some next) g).

Fixpoint ticks (l : list (num * num)) (s : clock_state) : list ObservationClock :=
  match l with
  | [] => []
  | r :: l => let '(c, s) := tick r s in c :: ticks l s
  end.

Definition observationFresh (ms : num) (started received now : ObservationClock) (available : bool) : bool :=
  if negb (bool_decide (generation started = generation received))
     || negb (bool_decide (generation received = generation now))
     || num_ltb (wall now) (wall received) || num_ltb (monotonic now) (monotonic received)
     || num_ltb (wall received) (wall started) || num_ltb (monotonic received) (monotonic started)
  then false
  else
    let elapsed :=
      math_max (math_max (math_max (math_max (num_of_Z 0)
        (num_sub (monotonic now) (monotonic started))) (num_sub (wall now) (wall started)))
        (num_sub (monotonic received) (monotonic started))) (num_sub (wall received) (wall started)) in
    available && isFinite ms && num_ltb elapsed ms.

(** ** A request with a deadline *)

Section request.
Context {T E : Type}.

Inductive reason := SignalReason (e : E) | observation_timeout | ReadError (e : E).

Inductive outcome :=
  | Returned (value : T) (started received : ObservationClock)
  | Thrown (r : reason).

(** [aborted] is the abort reason of the request's own controller; [listening]
    and [timer] say whether the abort listener and the timer are in place. *)
Record t := mkRequest {
  started : ObservationClock;
  aborted : option reason;
  timer : bool;
  listening : bool;
  result : option outcome;
}.

(** The [finally] block. *)
Definition finish (o : outcome) (s : t) : t := mkRequest (started s) (aborted s) false false (Some o).

(** The first reason of an abort stays. *)
Definition abort (r : reason) (s : t) : t :=
  mkRequest (started s) (Some (default r (aborted s))) (timer s) (listening s) (result s).

(** Up to the call of [read], or the exception of the first
    [throwIfAborted]. *)
Definition observedRequest (clock : ObservationClock) (signal : option E) : t :=
  let s := mkRequest clock (SignalReason <$> signal) true true None in
  match aborted s with Some r => finish (Thrown r) s | None => s end.

Inductive event :=
  | SignalAborted (e : E)
  | TimerFired
  | ReadSettled (r : T + E) (clock : ObservationClock).

Definition step (x : event) (s : t) : t :=
  match x with
  | SignalAborted e => if listening s then abort (SignalReason e) s else s
  | TimerFired =>
      if timer s
      then let s := abort observation_timeout s in
           mkRequest (started s) (aborted s) false (listening s) (result s)
      else s
  | ReadSettled r clock =>
      match result s with
      | Some _ => s
      | None =>
          match r with
          | inr e => finish (Thrown (ReadError e)) s
          | inl v =>
              match aborted s with
              | Some r => finish (Thrown r) s
              | None => finish (Returned v (started s) clock) s
              end
          end
      end
  end.
End request.

Arguments t : clear implicits.
Arguments event : clear implicits.
Arguments outcome : clear implicits.

(** ** Generations *)

Lemma ticks_generation l s i c :
  ticks l s !! i = Some c → current_generation s ≤ generation c.
Proof.
  revert s i. induction l as [|r l IH]; intros s i; [done|]. cbn [ticks]. unfold tick.
  set (g := match previous s with Some p => _ | None => _ end).
  assert (current_generation s ≤ g) as Hg by (unfold g; repeat case_match; lia).
  destruct i as [|i]; cbn; [by intros [= <-]|]. intros Hi%IH. cbn in Hi. lia.
Qed.

(** A step back between two readings separates their generations. *)
Lemma rollback_generation l s i j before after ci cj :
  (i < j)%nat → l !! i = Some before → l !! S i = Some after → rollback before after = true →
  ticks l s !! i = Some ci → ticks l s !! j = Some cj → generation ci < generation cj.
Proof.
  revert s i j. induction l as [|r l IH]; intros s i j Hij Hb Ha Hr Hi Hj; [done|].
  destruct j as [|j]; [lia|]. destruct i as [|i].
  - injection Hb as ->. destruct l as [|r2 l]; [done|]. injection Ha as ->.
    cbn [ticks] in Hi, Hj. unfold tick in Hi, Hj. cbn in Hi. injection Hi as <-. cbn [generation].
    cbn [lookup list_lookup] in Hj. cbn [previous current_generation] in Hj. rewrite Hr in Hj.
    destruct j as [|j].
    + injection Hj as <-. cbn. lia.
    + apply ticks_generation in Hj. cbn in Hj. lia.
  - cbn [ticks] in Hi, Hj. destruct (tick r s) as [c s']. eapply (IH s' i j); try done. lia.
Qed.

(** A step back of the clock invalidates what was observed before it, for
    good: an observation that counts as fresh was started, received and judged
    in one stretch of readings in which neither the wall clock nor the
    monotonic clock ever went back. *)
Theorem fresh_without_rollback (readings : list (num * num)) (ms : num) (available : bool)
    (i j n : nat) (started received now : ObservationClock) :
  let clocks := ticks readings createObservationClock in
  clocks !! i = Some started → clocks !! j = Some received → clocks !! n = Some now →
  (i ≤ j ≤ n)%nat → observationFresh ms started received now available = true →
  ∀ m before after, (i ≤ m < n)%nat → readings !! m = Some before → readings !! S m = Some after →
    rollback before after = false.
Proof.
  intros clocks Hi Hj Hn Hij Hfresh m before after Hm Hb Ha.
  destruct (rollback before after) eqn:Hr; [exfalso|done].
  unfold observationFresh in Hfresh. case_match; [done|]. reflect_bools.
  assert (m < length clocks)%nat as Hlt by (apply lookup_lt_Some in Hn; lia).
  destruct (lookup_lt_is_Some_2 _ _ Hlt) as [cm Hcm].
  pose proof (rollback_generation _ _ m n _ _ _ _ ltac:(lia) Hb Ha Hr Hcm Hn) as Hgt.
  assert (generation started ≤ generation cm) as Hle; [|congruence || lia].
  assert (∀ l s a b ca cb, (a ≤ b)%nat → ticks l s !! a = Some ca → ticks l s !! b = Some cb →
    generation ca ≤ generation cb) as Hmono.
  { clear. induction l as [|r l IH]; intros s a b ca cb Hab Ha Hb; [done|]. cbn [ticks] in Ha, Hb.
    destruct (tick r s) as [c s'] eqn:Ht. destruct a as [|a], b as [|b]; try lia; cbn in Ha, Hb.
    - simplify_eq. lia.
    - simplify_eq. apply ticks_generation in Hb. injection Ht as <- <-. done.
    - eapply (IH s' a b); [lia|done|done]. }
  by apply (Hmono readings createObservationClock i m); [lia|..].
Qed.

Lemma fresh_without_rollback_witness :
  let z := num_of_Z in
  let readings := [(z 10, z 100); (z 12, z 99); (z 13, z 101); (z 14, z 102)] in
  let clocks := ticks readings createObservationClock in
  (∃ a b, clocks !! 1%nat = Some a ∧ clocks !! 3%nat = Some b ∧ observationFresh (z 5) a a b true = true) ∧
  rollback (z 13, z 101) (z 14, z 102) = false.
Proof.
  split.
  - do 2 eexists. split_and!; [reflexivity|reflexivity|vm_compute; reflexivity].
  - refine (fresh_without_rollback
      [(num_of_Z 10, num_of_Z 100); (num_of_Z 12, num_of_Z 99); (num_of_Z 13, num_of_Z 101);
       (num_of_Z 14, num_of_Z 102)] (num_of_Z 5) true 1 1 3 _ _ _ eq_refl eq_refl eq_refl _ _ 2 _ _ _
      eq_refl eq_refl); [lia|vm_compute; reflexivity|lia].
Defined.

(** A value is returned only if neither the signal nor the deadline aborted the
    request first, and a finished request has no timer and no listener. *)
Lemma observed_result {T E} (clock : ObservationClock) (signal : option E) (es : list (event T E)) :
  let s := runs step es (observedRequest clock signal) in
  (∀ o, result s = Some o → timer s = false ∧ listening s = false) ∧
  (∀ v a b, result s = Some (Returned v a b) → signal = None ∧ aborted s = None ∧ a = clock).
Proof.
  intros s.
  assert ((∀ o, result s = Some o → timer s = false ∧ listening s = false) ∧ started s = clock ∧
    (signal ≠ None → aborted s ≠ None) ∧
    (∀ v a b, result s = Some (Returned v a b) → aborted s = None ∧ a = clock)) as (H1 & H2 & H3 & H4).
  { unfold s. apply runs_invariant.
    - intros x s0 (H1 & H2 & H3 & H4). destruct x as [e| |[v|e] c]; cbn.
      + destruct (listening s0) eqn:Hl; [|rewrite Hl; naive_solver]. split_and!; cbn; try done.
        * intros o Ho. destruct (H1 o Ho). congruence.
        * intros v a b Ho. destruct (H1 _ Ho). congruence.
      + destruct (timer s0) eqn:Hl; [|rewrite Hl; naive_solver]. split_and!; cbn; try done.
        * intros o Ho. destruct (H1 o Ho). congruence.
        * intros v a b Ho. destruct (H1 _ Ho). congruence.
      + destruct (result s0) eqn:Hr; [rewrite Hr; naive_solver|].
        destruct (aborted s0) eqn:Ha; cbn; rewrite Ha; naive_solver.
      + destruct (result s0) eqn:Hr; [rewrite Hr; naive_solver|]. cbn. naive_solver.
    - unfold observedRequest. destruct signal as [e|]; cbn; by split_and!. }
  split; [done|]. intros v a b Hr. destruct (H4 _ _ _ Hr) as [Ha ->]. split_and!; [|done|done].
  destruct signal; [|done]. by destruct H3.
Qed.
End ObservedRequest.

Module LiveDiagnostics.

Record LiveInterface := mkInterface {
  if_name : string; rx_bytes_per_second : option num; tx_bytes_per_second : option num }.

Record LiveSample := mkSample {
  epoch : string;
  sequence : num;
  sampled_at : jsstring;
  elapsed_ms : num;
  cpu_percent : option num;
  memory_used : option num;
  memory_total : option num;
  net_up_bytes_per_second : option num;
  net_down_bytes_per_second : option num;
  interfaces : option (list LiveInterface);
  truncated : bool;
}.

Inductive live_status := waiting | live | stale | unsupported | expired.

Record LiveDiagnostics := mkView {
  status : live_status;
  interval_ms : num;
  fresh_for_ms : num;
  node_id : num;
  view_epoch : string;
  latest_sequence : num;
  samples : list LiveSample;
}.

Section live.
Context (date_parse : jsstring → option Z).

(** The key of a usable sample: a positive safe integer, with a valid time. *)
Definition sample_key (s : LiveSample) : option Z :=
  match num_to_Z (sequence s), date_parse (sampled_at s) with
  | Some z, Some _ =>
      if isSafeInteger (sequence s) && num_ltb (num_of_Z 0) (sequence s) then Some z else None
  | _, _ => None
  end.

Definition by_sequence (all : list LiveSample) : jsmap Z LiveSample :=
  foldl (λ m s, match sample_key s with Some z => jm_set z s m | None => m end) [] all.

(** [slice(-n)] *)
Definition slice_last {A} (n : nat) (l : list A) : list A := drop (length l - n) l.

Definition key_or_0 (s : LiveSample) : Z := default 0 (sample_key s).

Definition ordered_samples (previous : list LiveSample) (view : LiveDiagnostics) : list LiveSample :=
  let ours s := bool_decide (epoch s = view_epoch view) in
  slice_last 120 (sort_on key_or_0 (jm_values (by_sequence (bfilter ours previous ++ bfilter ours (samples view))))).

(** Younger than two minutes before [latest], and not after it. *)
Definition recent (latest : option Z) (s : LiveSample) : bool :=
  match latest, date_parse (sampled_at s) with
  | Some l, Some d => bool_decide (0 ≤ l - d) && bool_decide (l - d < 120000)
  | _, _ => false
  end.

Definition mergeLiveSamples (previous : list LiveSample) (view : LiveDiagnostics) : list LiveSample :=
  let ordered := ordered_samples previous view in
  bfilter (recent (last ordered ≫= λ s, date_parse (sampled_at s))) ordered.

(** ** The window of a lease *)

Record LiveSampleWindow := mkWindow {
  leaseID : option string;
  w_epoch : string;
  w_samples : list LiveSample;
  after : num;
}.

Definition new_window : LiveSampleWindow := mkWindow None "" [] (num_of_Z 0).

Definition open (id : string) (w : LiveSampleWindow) : LiveSampleWindow :=
  mkWindow (Some id) "" [] (num_of_Z 0).

Definition close (id : string) (w : LiveSampleWindow) : LiveSampleWindow :=
  if bool_decide (leaseID w = Some id) then mkWindow None "" [] (num_of_Z 0) else w.

(** [None] is the exception of a closed session. *)
Definition accept (id : string) (view : LiveDiagnostics) (w : LiveSampleWindow)
    : option LiveDiagnostics * LiveSampleWindow :=
  if negb (bool_decide (leaseID w = Some id)) then (None, w)
  else
    let changedEpoch := negb (bool_decide (w_epoch w = view_epoch view)) in
    let merged := mergeLiveSamples (if changedEpoch then [] else w_samples w) view in
    (Some (mkView (status view) (interval_ms view) (fresh_for_ms view) (node_id view)
             (view_epoch view) (latest_sequence view) merged),
     mkWindow (leaseID w) (view_epoch view) merged
       (if changedEpoch && bool_decide (samples view = []) then num_of_Z 0 else latest_sequence view)).

Inductive window_op := Open (id : string) | Close (id : string) | Accept (id : string) (view : LiveDiagnostics).

Definition window_step (x : window_op) (w : LiveSampleWindow) : LiveSampleWindow :=
  match x with
  | Open id => open id w
  | Close id => close id w
  | Accept id view => (accept id view w).2
  end.

(** ** The graph *)

Definition finiteMetric (v : option num) : option num :=
  match v with
  | Some x => if isFinite x && num_leb (num_of_Z 0) x then Some x else None
  | None => None
  end.

Record graph_point := mkPoint { index : Z; up : option num; down : option num }.

(** The elapsed time is NaN, and every comparison false, for an invalid time. *)
Definition discontinuous (prior sample : LiveSample) : bool :=
  negb (bool_decide (epoch sample = epoch prior))
  || negb (num_eqb (sequence sample) (num_add (sequence prior) (num_of_Z 1)))
  || match date_parse (sampled_at sample), date_parse (sampled_at prior) with
     | Some d, Some p => bool_decide (d - p ≤ 0) || bool_decide (3000 < d - p)
     | _, _ => false
     end
  || num_ltb (num_of_Z 3000) (elapsed_ms sample).

Definition push (u d : option num) (out : list graph_point) : list graph_point :=
  out ++ [mkPoint (Z.of_nat (length out)) u d].

Fixpoint graph_from (prior : option LiveSample) (l : list LiveSample) (out : list graph_point)
    : list graph_point :=
  match l with
  | [] => out
  | sample :: l =>
      let out := match prior with
                 | Some p => if discontinuous p sample then push None None out else out
                 | None => out
                 end in
      graph_from (Some sample) l
        (push (finiteMetric (net_up_bytes_per_second sample))
           (finiteMetric (net_down_bytes_per_second sample)) out)
  end.

Definition liveGraphPoints (l : list LiveSample) : list graph_point := graph_from None l [].

(** ** Merged samples *)

Definition usable (s : LiveSample) : Prop := ∃ z, sample_key s = Some z ∧ 0 < z.

Definition keyed (m : jsmap Z LiveSample) : Prop := ∀ z s, (z, s) ∈ m → sample_key s = Some z.

Lemma by_sequence_spec all :
  jm_wf (by_sequence all) ∧ keyed (by_sequence all) ∧
  (∀ z s, jm_get z (by_sequence all) = Some s → s ∈ all) ∧
  (∀ s z, s ∈ all → sample_key s = Some z → z ∈ (by_sequence all).*1).
Proof.
  induction all as [|s all IH] using rev_ind.
  { split_and!; [apply jm_wf_nil|intros z s Hs; by apply not_elem_of_nil in Hs|done|].
    intros s z Hs. by apply not_elem_of_nil in Hs. }
  unfold by_sequence in *. rewrite foldl_app. cbn [foldl].
  set (m := foldl _ [] all) in *. destruct IH as (Hwf & Hk & Hsub & Hall).
  destruct (sample_key s) as [z|] eqn:Hz.
  - split_and!.
    + by apply jm_wf_set.
    + intros z' s' Hin. apply jm_elem_of in Hin; [|by apply jm_wf_set].
      rewrite jm_get_set in Hin. case_bool_decide; [by simplify_eq|].
      apply Hk. by apply jm_get_elem_of.
    + intros z' s'. rewrite jm_get_set. case_bool_decide; [intros [= <-]; set_solver|].
      intros ?%Hsub. set_solver.
    + intros s' z' [Hs'|Hs']%elem_of_app Hz'; apply jm_get_is_Some; rewrite jm_get_set;
        case_bool_decide; try by eexists.
      * apply jm_get_is_Some. by eapply Hall.
      * apply list_elem_of_singleton in Hs' as ->. congruence.
  - split_and!; [done..| |].
    + intros z' s' ?%Hsub. set_solver.
    + intros s' z' [Hs'|Hs'%list_elem_of_singleton]%elem_of_app Hz'; [by eapply Hall|congruence].
Qed.

Lemma sample_key_pos s z : sample_key s = Some z → 0 < z.
Proof.
  unfold sample_key. destruct (num_to_Z (sequence s)) as [z'|] eqn:Hn; [|done].
  destruct (date_parse (sampled_at s)); [|done]. destruct (isSafeInteger _); [|done]. cbn [andb].
  destruct (num_ltb (num_of_Z 0) (sequence s)) eqn:Hlt; [|done]. intros [= ->].
  destruct (sequence s) as [[]|[]| |[] m e]; try done. unfold num_to_Z in Hn.
  case_bool_decide; [simplify_eq; nia|]. case_bool_decide as Hmod; [|done]. simplify_eq.
  assert (0 < Zpos m / 2 ^ (- e)); [|lia]. apply Z.div_exact in Hmod; [|lia]. nia.
Qed.

Definition key_lt (a b : LiveSample) : Prop := key_or_0 a < key_or_0 b.

Lemma values_elem {K V} (m : jsmap K V) v : v ∈ jm_values m → ∃ k, (k, v) ∈ m.
Proof. unfold jm_values. intros ([k v'] & -> & Hin)%list_elem_of_fmap. by exists k. Qed.

Lemma ordered_samples_spec previous view :
  let l := ordered_samples previous view in
  StronglySorted key_lt l ∧ (length l ≤ 120)%nat ∧
  Forall (λ s, usable s ∧ epoch s = view_epoch view ∧ (s ∈ previous ∨ s ∈ samples view)) l.
Proof.
  cbv zeta. unfold ordered_samples. set (all := bfilter _ previous ++ _).
  destruct (by_sequence_spec all) as (Hwf & Hk & Hsub & _).
  set (vs := jm_values (by_sequence all)) in *. set (sorted := sort_on key_or_0 vs).
  assert (Forall (λ s, usable s ∧ epoch s = view_epoch view ∧ (s ∈ previous ∨ s ∈ samples view)) vs) as Hall.
  { apply Forall_forall. intros s (z & Hin)%values_elem. pose proof (Hk _ _ Hin) as Hz.
    apply jm_elem_of, Hsub in Hin; [|done]. unfold all in Hin.
    apply elem_of_app in Hin as [[He%bool_decide_eq_true ?]%elem_of_bfilter|[He%bool_decide_eq_true ?]%elem_of_bfilter];
      (split_and!; [by exists z; split; [|eapply sample_key_pos]|done|auto]). }
  assert (NoDup (key_or_0 <$> vs)) as Hnd.
  { unfold vs, jm_values. rewrite <-list_fmap_compose.
    replace ((key_or_0 ∘ snd) <$> by_sequence all) with (by_sequence all).*1; [done|].
    apply list_fmap_ext. intros n [z s] Hin%list_elem_of_lookup_2. cbn.
    unfold key_or_0. by rewrite (Hk _ _ Hin). }
  assert (StronglySorted key_lt sorted) as Hsorted.
  { pose proof (sort_on_sorted key_or_0 vs) as Hs.
    assert (NoDup (key_or_0 <$> sorted)) as Hnd' by (unfold sorted; by rewrite sort_on_perm).
    fold sorted in Hs. induction Hs as [|s l Hs IH Hf]; [constructor|]. csimpl in Hnd'.
    apply NoDup_cons in Hnd' as [Hni Hnd']. constructor; [by apply IH|].
    apply Forall_forall. intros s' Hs'. rewrite Forall_forall in Hf. specialize (Hf s' Hs').
    unfold on_le, key_lt in *. assert (key_or_0 s ≠ key_or_0 s'); [|lia].
    intros Heq. apply Hni. rewrite Heq. by apply list_elem_of_fmap_2. }
  split_and!.
  - eapply StronglySorted_sublist; [|exact Hsorted]. apply sublist_drop.
  - unfold slice_last. rewrite length_drop. lia.
  - apply Forall_drop. unfold sorted. by rewrite sort_on_perm.
Qed.

Lemma last_bfilter {A} (f : A → bool) l x : last l = Some x → f x = true → last (bfilter f l) = Some x.
Proof.
  induction l as [|y l IH] using rev_ind; [done|]. rewrite last_snoc. intros [= ->] Hf.
  rewrite bfilter_app. cbn. by rewrite Hf, last_snoc.
Qed.

(** Every sample lies in the two minutes before the last one. *)
Definition spans_two_minutes (l : list LiveSample) : Prop :=
  ∀ s, s ∈ l → ∃ newest d, (last l ≫= λ s, date_parse (sampled_at s)) = Some newest ∧
    date_parse (sampled_at s) = Some d ∧ 0 ≤ newest - d < 120000.

Lemma usable_date s : usable s → is_Some (date_parse (sampled_at s)).
Proof.
  intros (z & Hz & _). unfold sample_key in Hz. destruct (num_to_Z _); [|done].
  by destruct (date_parse (sampled_at s)).
Qed.

Lemma merge_last previous view :
  last (mergeLiveSamples previous view) = last (ordered_samples previous view).
Proof.
  unfold mergeLiveSamples. destruct (last (ordered_samples previous view)) as [s|] eqn:Hl; cbn.
  - apply last_bfilter; [done|].
    destruct (ordered_samples_spec previous view) as (_ & _ & Hall).
    rewrite Forall_forall in Hall. apply last_Some in Hl as [l' Hl].
    destruct (Hall s) as [Hu _]; [rewrite Hl; set_solver|].
    destruct (usable_date s Hu) as [d Hd]. unfold recent. rewrite Hd.
    by rewrite !bool_decide_eq_true_2 by lia.
  - by apply last_None in Hl as ->.
Qed.

Lemma merge_spec previous view :
  let l := mergeLiveSamples previous view in
  StronglySorted key_lt l ∧ (length l ≤ 120)%nat ∧ spans_two_minutes l ∧
  Forall (λ s, usable s ∧ epoch s = view_epoch view ∧ (s ∈ previous ∨ s ∈ samples view)) l.
Proof.
  cbv zeta. pose proof (merge_last previous view) as Hlast.
  destruct (ordered_samples_spec previous view) as (Hs & Hlen & Hall). split_and!.
  - eapply StronglySorted_sublist; [|exact Hs]. apply bfilter_sublist.
  - etrans; [apply length_bfilter|done].
  - intros s Hin. rewrite Hlast. unfold mergeLiveSamples in Hin. apply elem_of_bfilter in Hin as [Hr _].
    unfold recent in Hr. destruct (last _ ≫= _) as [n|]; [|done].
    destruct (date_parse (sampled_at s)) as [d|]; [|done]. reflect_bools. exists n, d. split_and!; [done..|lia|lia].
  - rewrite Forall_forall in Hall |- *. intros s [_ Hin]%elem_of_bfilter. by apply Hall.
Qed.

(** The newest usable sample of the view's epoch is the last of the window. *)
Lemma merge_keeps_newest previous view s z :
  s ∈ samples view → epoch s = view_epoch view → sample_key s = Some z →
  ∃ s', last (mergeLiveSamples previous view) = Some s' ∧ z ≤ key_or_0 s'.
Proof.
  intros Hin He Hz. rewrite merge_last. unfold ordered_samples. set (all := bfilter _ previous ++ _).
  destruct (by_sequence_spec all) as (Hwf & Hk & _ & Hall).
  assert (s ∈ all) as Hs.
  { apply elem_of_app. right. apply elem_of_bfilter. split; [by apply bool_decide_eq_true_2|done]. }
  apply Hall in Hz; [|done]. apply list_elem_of_fmap in Hz as ([z' s'] & -> & Hz).
  set (sorted := sort_on key_or_0 _).
  assert (s' ∈ sorted) as Hs'.
  { apply elem_of_sort_on. unfold jm_values. by apply (list_elem_of_fmap_2 snd (by_sequence all) (z', s')). }
  assert (z' = key_or_0 s') as ->. { unfold key_or_0. by rewrite (Hk _ _ Hz). }
  pose proof (sort_on_sorted key_or_0 (jm_values (by_sequence all))) as Hsorted. fold sorted in Hsorted.
  destruct (last sorted) as [m|] eqn:Hm.
  2:{ apply last_None in Hm. rewrite Hm in Hs'. by apply not_elem_of_nil in Hs'. }
  exists m. apply last_Some in Hm as [l' Hl']. split.
  - unfold slice_last. rewrite Hl', drop_app_le; [by rewrite last_snoc|]. rewrite length_app. cbn. lia.
  - rewrite Hl' in Hs', Hsorted. apply elem_of_app in Hs' as [Hs'|Hs'%list_elem_of_singleton]; [|by subst].
    clear -Hs' Hsorted. induction l' as [|x l' IH]; [by apply not_elem_of_nil in Hs'|].
    apply StronglySorted_inv in Hsorted as [Hsorted Hf]. apply elem_of_cons in Hs' as [->|Hs']; [|auto].
    rewrite Forall_forall in Hf. apply Hf. set_solver.
Qed.

Definition window_ok (w : LiveSampleWindow) : Prop :=
  StronglySorted key_lt (w_samples w) ∧ (length (w_samples w) ≤ 120)%nat ∧
  spans_two_minutes (w_samples w) ∧
  Forall (λ s, usable s ∧ epoch s = w_epoch w) (w_samples w) ∧
  (leaseID w = None → w_samples w = []).

Lemma empty_window_ok id a : window_ok (mkWindow id "" [] a).
Proof.
  split_and!; cbn; [constructor|lia|intros s Hs; by apply not_elem_of_nil in Hs|constructor|done].
Qed.

(** C32: however a window is opened, closed and fed, its samples are of one
    epoch, strictly increasing in their sequence numbers, at most 120, and
    within two minutes of the newest, which is never dropped; a closed window
    is empty; and an answer that belongs to another lease is refused and
    changes nothing. *)
Theorem live_window_bounded (es : list window_op) (id : string) (view : LiveDiagnostics) :
  let w := runs window_step es new_window in
  let '(answer, w') := accept id view w in
  window_ok w ∧
  (leaseID w ≠ Some id → answer = None ∧ w' = w) ∧
  (leaseID w = Some id →
   ∃ v, answer = Some v ∧ samples v = w_samples w' ∧ window_ok w' ∧
     ∀ s z, s ∈ samples view → epoch s = view_epoch view → sample_key s = Some z →
       ∃ s', last (samples v) = Some s' ∧ z ≤ key_or_0 s').
Proof.
  intros w. assert (∀ v w, window_ok (mkWindow (leaseID w) (view_epoch v)
    (mergeLiveSamples (if negb (bool_decide (w_epoch w = view_epoch v)) then [] else w_samples w) v)
    (if negb (bool_decide (w_epoch w = view_epoch v)) && bool_decide (samples v = []) then num_of_Z 0
     else latest_sequence v)) ∨ leaseID w = None) as Hacc.
  { intros v w0. destruct (leaseID w0) as [l|]; [left|by right].
    destruct (merge_spec (if negb (bool_decide (w_epoch w0 = view_epoch v)) then [] else w_samples w0) v)
      as (H1 & H2 & H3 & H4).
    split_and!; cbn; [done..| |done]. eapply Forall_impl; [exact H4|]. by intros s (? & ? & _). }
  assert (window_ok w) as Hw.
  { apply runs_invariant; [|apply empty_window_ok]. intros x w0 Hok. destruct x as [i|i|i v]; cbn.
    - apply empty_window_ok.
    - unfold close. case_bool_decide; [apply empty_window_ok|done].
    - unfold accept. case_bool_decide as Hl; cbn; [|done]. by destruct (Hacc v w0); [|congruence]. }
  unfold accept. case_bool_decide as Hl; cbn; split_and!; try done.
  intros _. eexists. split_and!; [done|done| |].
  - by destruct (Hacc view w); [|congruence].
  - cbn. intros s z. apply merge_keeps_newest.
Qed.

(** ** The graph draws no line across a gap *)

Definition drawn (p : graph_point) : Prop := up p ≠ None ∨ down p ≠ None.

Definition point_of (s : LiveSample) (p : graph_point) : Prop :=
  up p = finiteMetric (net_up_bytes_per_second s) ∧ down p = finiteMetric (net_down_bytes_per_second s).

(** Neighbouring drawn points are neighbouring samples without a gap. *)
Definition faithful (all : list LiveSample) (out : list graph_point) : Prop :=
  (∀ k p, out !! k = Some p → index p = Z.of_nat k) ∧
  ∀ k p q, out !! k = Some p → out !! S k = Some q → drawn p → drawn q →
    ∃ i a b, all !! i = Some a ∧ all !! S i = Some b ∧ discontinuous a b = false ∧
      point_of a p ∧ point_of b q.

Lemma push_faithful all out u d :
  faithful all out →
  (∀ p q, last out = Some p → up q = u → down q = d → drawn p → drawn q →
    ∃ i a b, all !! i = Some a ∧ all !! S i = Some b ∧ discontinuous a b = false ∧
      point_of a p ∧ point_of b q) →
  faithful all (push u d out).
Proof.
  intros [Hix Hadj] Hnew. unfold push. split.
  - intros k p [Hk|[Hk Hp]]%lookup_app_Some; [by apply Hix|].
    apply list_lookup_singleton_Some in Hp as [? <-]. cbn. lia.
  - intros k p q [Hk|[Hk Hp]]%lookup_app_Some [Hk'|[Hk' Hq]]%lookup_app_Some; [by eapply Hadj|..].
    + apply list_lookup_singleton_Some in Hq as [? <-]. intros Hdp Hdq. apply Hnew; try done.
      rewrite last_lookup. replace (pred (length out)) with k by lia. done.
    + apply lookup_lt_Some in Hk'. lia.
    + apply list_lookup_singleton_Some in Hq as [? _], Hp as [? _]. lia.
Qed.

Lemma graph_from_faithful all l pre prior out :
  all = pre ++ l → prior = last pre → faithful all out →
  (∀ s, prior = Some s → ∃ p, last out = Some p ∧ point_of s p) → (prior = None → out = []) →
  faithful all (graph_from prior l out).
Proof.
  revert pre prior out. induction l as [|b l IH]; intros pre prior out Hall Hprior Hf Hsome Hnone; [done|].
  cbn [graph_from]. apply (IH (pre ++ [b])).
  - by rewrite Hall, <-(assoc_L (++)).
  - by rewrite last_snoc.
  - destruct prior as [a|].
    2:{ rewrite Hnone by done. apply push_faithful; [|done]. split; by intros. }
    destruct (Hsome a eq_refl) as (p & Hp & Hpa).
    destruct (discontinuous a b) eqn:Hd.
    + apply push_faithful.
      * apply push_faithful; [done|]. intros p' q _ Hu Hdn _ [?|?]; congruence.
      * intros p' q Hl _ _ [?|?]; unfold push in Hl; rewrite last_snoc in Hl; by simplify_eq/=.
    + apply push_faithful; [done|]. intros p' q Hl Hu Hdn _ _. assert (p' = p) as -> by congruence.
      symmetry in Hprior. apply last_Some in Hprior as [l' ->].
      exists (length l'), a, b. rewrite Hall, <-!(assoc_L (++)). cbn [app]. split_and!; [| |done|done|done].
      * by rewrite list_lookup_middle.
      * rewrite lookup_app_r by lia. by replace (S (length l') - length l')%nat with 1%nat by lia.
  - intros s [= <-]. eexists. unfold push. rewrite last_snoc. done.
  - done.
Qed.

(** The points of the graph are numbered in order, and whenever two
    neighbouring points both show a value they are neighbouring samples of the
    same epoch with consecutive sequence numbers, taken at most three seconds
    apart: no line is drawn across missing observations. *)
Theorem graph_breaks_at_gaps (l : list LiveSample) : faithful l (liveGraphPoints l).
Proof.
  apply (graph_from_faithful l l []); [done|done| |done|done]. split; by intros.
Qed.

End live.
End LiveDiagnostics.
