(* ===== verification/TopologyChangesets.v ===== *)
(** * Topology change sets of the console

    [admin/src/lib/topology-changesets.ts]: a change set is a list of
    operations that create or edit inbounds, lines and entries, and that refer
    to each other by key.  Inbounds and entries are JSON objects, because drafts
    written by other clients of the API may omit fields; a line is a record
    whose groups, members and endpoints are lists, so that the reading of null
    lists as empty ones by [modelFromDraft] is not modelled.
    [JSON.stringify] is used only to compare values, so a text is represented by
    the value it stands for ([json_text]: minus zero is zero, a number that is
    not finite is [null]). *)

From Stdlib Require Import SpecFloat.
From S2P Require Import Prelude JsMap JsString Json JsValue.

Open Scope Z_scope.

Module TopologyChangesets.

Abbreviation obj := (jsmap string json).

(** ** Data *)

Inductive ChangeKind := inbound_kind | line_kind | entry_kind.

#[global] Instance ChangeKind_eq_dec : EqDecision ChangeKind.
Proof. solve_decision. Defined.

Inductive balance := failover | roundrobin.

#[global] Instance balance_eq_dec : EqDecision balance.
Proof. solve_decision. Defined.

Record LineMember := {
  member_id : jsstring;
  node_id : num;
  port : num;
  ingress_id : option num;
  weight : num;
  address_mode : option jsstring;
}.

Record LineGroup := { strategy : balance; members : list LineMember }.

Record Line := {
  path_route : bool;
  line_id : num;
  line_name : jsstring;
  version : num;
  protocol : jsstring;
  backend : jsstring;
  target_inbound_id : num;
  target_address_mode : option jsstring;
  groups : list LineGroup;
  endpoints : list json;
}.

(** [ChangesetOperation] and [EditableOperation]; [None] is [undefined]. *)
Record operation := {
  key : jsstring;
  kind : ChangeKind;
  id : option num;
  revision : option jsstring;
  inbound : option obj;
  line : option Line;
  inbound_ref : option jsstring;
  entry : option obj;
  editMode : bool;
  preservedFields : option obj;
}.

Record ChangesetModel := { name : jsstring; operations : list operation }.

Record TopologyCatalog := {
  inbounds : list obj;
  lines : list (Line * jsstring);
  entries : list obj;
}.

(** ** JSON objects *)

(** [value || d] on numbers and strings, and truthiness of optional values. *)
Definition num_or (x : option num) (d : num) : num :=
  match x with Some x => if num_truthy x then x else d | None => d end.
Definition set_num (x : option num) : bool := match x with Some x => num_truthy x | None => false end.
Definition set_str (s : option jsstring) : bool :=
  match s with Some s => negb (bool_decide (s = [])) | None => false end.

(** Typed reads of an object; the objects the editor holds have the fields it
    reads ([newChangesetOperation], [modelFromDraft]). *)
Definition str (k : string) (o : obj) : jsstring :=
  match jm_get k o with Some (JStr s) => s | _ => [] end.
Definition str_opt (k : string) (o : obj) : option jsstring :=
  match jm_get k o with Some (JStr s) => Some s | _ => None end.
Definition number (k : string) (o : obj) : num :=
  match jm_get k o with Some (JNum x) => x | _ => NaN end.
Definition number_opt (k : string) (o : obj) : option num :=
  match jm_get k o with Some (JNum x) => Some x | _ => None end.
Definition flag (k : string) (o : obj) : bool :=
  match jm_get k o with Some v => negb (json_falsy v) | None => false end.
Definition field (k : string) (o : obj) : json := default JNull (jm_get k o).

(** [o\[k\] == null] *)
Definition missing (k : string) (o : obj) : bool :=
  match jm_get k o with None | Some JNull => true | _ => false end.

(** [{ ...a, ...b }] *)
Definition spread (a b : obj) : obj := foldl (λ o kv, jm_set kv.1 kv.2 o) a b.

(** What [JSON.stringify] distinguishes. *)
Fixpoint json_text (v : json) : json :=
  match v with
  | JNum x => if isFinite x then match x with S754_zero _ => JNum (S754_zero false) | _ => v end else JNull
  | JArr l => JArr (json_text <$> l)
  | JObj m =>
      JObj ((fix go m := match m with [] => [] | (k, v) :: m => (k, json_text v) :: go m end) m)
  | _ => v
  end.

(** ** New operations *)

Definition n (z : Z) : json := JNum (num_of_Z z).
Definition s_ (t : string) : json := JStr (js t).

Definition newChangesetMember (fresh : jsstring) : LineMember :=
  {| member_id := fresh; node_id := num_of_Z 0; port := num_of_Z 0; ingress_id := None;
     weight := num_of_Z 1; address_mode := Some (js "default") |}.

Definition newChangesetGroup (fresh : jsstring) : LineGroup :=
  {| strategy := failover; members := [newChangesetMember fresh] |}.

Definition new_inbound : obj :=
  [("node_id", n 0); ("tag", s_ ""); ("listen", s_ ""); ("port", n 443); ("protocol", s_ "vless");
   ("core", s_ ""); ("enabled", JBool true); ("sort", n 0); ("ingress_id", n 0);
   ("settings", JObj [("transport", JObj [("type", s_ "tcp")])])]%string.

Definition new_line (fresh : jsstring) : Line :=
  {| path_route := false; line_id := num_of_Z 0; line_name := []; version := num_of_Z 0;
     protocol := js "tcp"; backend := js "relay"; target_inbound_id := num_of_Z 0;
     target_address_mode := Some (js "default"); groups := [newChangesetGroup fresh]; endpoints := [] |}.

Definition new_entry : obj :=
  [("name", s_ ""); ("inbound_id", n 0); ("line_id", n 0); ("line_member_id", s_ "");
   ("display_host", s_ ""); ("display_port", n 0); ("rate", n 1); ("sort", n 0);
   ("enabled", JBool true); ("tags", JArr []); ("region", s_ "")]%string.

(** [fresh1] and [fresh2] are what [changesetKey] returns. *)
Definition newChangesetOperation (fresh1 fresh2 : jsstring) (k : ChangeKind) : operation :=
  {| key := fresh1; kind := k; id := None; revision := None;
     inbound := match k with inbound_kind => Some new_inbound | _ => None end;
     line := match k with line_kind => Some (new_line fresh2) | _ => None end;
     inbound_ref := None;
     entry := match k with entry_kind => Some new_entry | _ => None end;
     editMode := false; preservedFields := None |}.

Definition editableChangesetLine (l : Line) : bool :=
  negb (path_route l) && bool_decide (backend l = js "relay").

(** [a || b || c || key] on names *)
Definition operationLabel (op : operation) : jsstring :=
  let first_of l := default (key op) (list_find_first (λ s, negb (bool_decide (s = []))) l) in
  first_of [default [] (str "tag" <$> inbound op); default [] (line_name <$> line op);
            default [] (str "name" <$> entry op)].

(** ** Selecting a resource of the catalog *)

Definition has_id (x : num) (o : obj) : bool := num_eqb (number "id" o) x.

Definition pick (ks : list string) (o : obj) : obj := omap (λ k, (λ v, (k, v)) <$> jm_get k o) ks.

Definition selectChangesetResource (fresh : jsstring) (op : operation) (x : num) (catalog : TopologyCatalog)
    : operation :=
  let blank :=
    let new := newChangesetOperation (key op) fresh (kind op) in
    {| key := key op; kind := kind op; id := Some (num_of_Z 0); revision := None; inbound := inbound new;
       line := line new; inbound_ref := None; entry := entry new; editMode := true;
       preservedFields := None |} in
  let base rev i l e :=
    {| key := key op; kind := kind op; id := Some x; revision := rev; inbound := i; line := l;
       inbound_ref := None; entry := e; editMode := true; preservedFields := None |} in
  if match id op with Some y => num_eqb y x | None => false end && set_str (revision op) then op
  else match kind op with
    | inbound_kind =>
        match list_find_first (λ o, has_id x o && flag "editable" o) (inbounds catalog) with
        | Some source =>
            let ingress := if missing "ingress_id" source then n 0 else field "ingress_id" source in
            base (str_opt "revision" source)
              (Some (pick ["node_id"; "protocol"; "tag"; "listen"; "port"; "enabled"; "sort"]%string source
                     ++ [("ingress_id"%string, ingress)])) None None
        | None => blank
        end
    | line_kind =>
        match list_find_first (λ p, num_eqb (line_id p.1) x && editableChangesetLine p.1) (lines catalog) with
        | Some (l, rev) => base (Some rev) None (Some l) None
        | None => blank
        end
    | entry_kind =>
        match list_find_first (λ o, has_id x o && flag "editable" o) (entries catalog) with
        | Some source =>
            base (str_opt "revision" source) None None
              (Some (pick ["name"; "inbound_id"; "line_id"; "line_member_id"; "display_host"; "display_port";
                           "rate"; "sort"; "enabled"]%string source
                     ++ [("tags", if flag "tags" source then field "tags" source else JArr []);
                         ("region", if flag "region" source then field "region" source else s_ "")]%string))
        | None => blank
        end
    end.

(** ** The input that is sent *)

(** [omitPreserved] *)
Definition omitPreserved (value : obj) (preserved : option obj) : obj :=
  foldl (λ input kv, if bool_decide (json_text <$> jm_get kv.1 input = Some (json_text kv.2))
                     then jm_delete kv.1 input else input) value (default [] preserved).

(** Optional properties of an object literal. *)
Definition opt (k : string) (v : option json) : obj := match v with Some v => [(k, v)] | None => [] end.

Definition inbound_input (op : operation) (v : obj) : obj :=
  [("tag", JStr (trim (str "tag" v))); ("listen", JStr (trim (str "listen" v)));
   ("port", field "port" v); ("enabled", field "enabled" v); ("sort", field "sort" v)]%string
  ++ opt "ingress_id" (jm_get "ingress_id"%string v)
  ++ (if set_num (id op) then []
      else opt "node_id" (jm_get "node_id"%string v) ++ opt "protocol" (jm_get "protocol"%string v)
           ++ opt "core" (jm_get "core"%string v)
           ++ (if flag "settings_configured" v then [] else opt "settings" (jm_get "settings"%string v))).

Definition default_mode (m : option jsstring) : jsstring :=
  match m with Some ((_ :: _) as m) => m | _ => js "default" end.

Definition line_input (op : operation) (v : Line) : Line :=
  {| path_route := false; line_id := num_or (id op) (num_of_Z 0);
     line_name := trim (line_name v);
     version := if set_num (id op) then version v else num_of_Z 0;
     protocol := protocol v; backend := backend v;
     target_inbound_id := if set_str (inbound_ref op) then num_of_Z 0 else target_inbound_id v;
     target_address_mode := Some (default_mode (target_address_mode v));
     groups := (λ g, {| strategy := strategy g;
       members := (λ m, {| member_id := member_id m; node_id := node_id m; port := port m;
                           ingress_id := ingress_id m; weight := weight m;
                           address_mode := Some (default_mode (address_mode m)) |}) <$> members g |})
       <$> groups v;
     endpoints := [] |}.

(** [value || d] on a JSON field *)
Definition field_or (k : string) (d : json) (v : obj) : json := if flag k v then field k v else d.

Definition entry_input (v : obj) : obj :=
  [("name", JStr (trim (str "name" v)));
   ("inbound_id", if set_str (str_opt "inbound_ref" v) then n 0 else field_or "inbound_id" (n 0) v)]%string
  ++ (if set_str (str_opt "inbound_ref" v) then opt "inbound_ref" (jm_get "inbound_ref"%string v) else [])
  ++ [("line_id", if set_str (str_opt "line_ref" v) then n 0 else field_or "line_id" (n 0) v)]%string
  ++ (if set_str (str_opt "line_ref" v) then opt "line_ref" (jm_get "line_ref"%string v) else [])
  ++ [("line_member_id", field_or "line_member_id" (s_ "") v);
      ("display_host", JStr (trim (str "display_host" v))); ("display_port", field "display_port" v);
      ("rate", field "rate" v); ("sort", field "sort" v); ("enabled", field "enabled" v);
      ("tags", field "tags" v); ("region", JStr (trim (str "region" v)))]%string.

Definition operationInput (op : operation) : operation :=
  let base := {| key := key op; kind := kind op;
    id := if set_num (id op) then id op else None; revision := if set_num (id op) then revision op else None;
    inbound := None; line := None; inbound_ref := None; entry := None; editMode := false;
    preservedFields := None |} in
  match kind op, inbound op, line op, entry op with
  | inbound_kind, Some v, _, _ =>
      {| key := key base; kind := kind base; id := id base; revision := revision base;
         inbound := Some (omitPreserved (inbound_input op v) (preservedFields op)); line := None;
         inbound_ref := None; entry := None; editMode := false; preservedFields := None |}
  | line_kind, _, Some v, _ =>
      {| key := key base; kind := kind base; id := id base; revision := revision base; inbound := None;
         line := Some (line_input op v);
         inbound_ref := if set_str (inbound_ref op) then inbound_ref op else None;
         entry := None; editMode := false; preservedFields := None |}
  | entry_kind, _, _, Some v =>
      {| key := key base; kind := kind base; id := id base; revision := revision base; inbound := None;
         line := None; inbound_ref := None;
         entry := Some (omitPreserved (entry_input v) (preservedFields op)); editMode := false;
         preservedFields := None |}
  | _, _, _, _ => base
  end.

Definition changesetInput (m : ChangesetModel) : ChangesetModel :=
  {| name := trim (name m); operations := operationInput <$> operations m |}.

(** ** Fingerprints *)

Definition str_json (v : option jsstring) : json := match v with Some s => JStr s | None => JNull end.
Definition num_json (v : option num) : json := match v with Some x => JNum x | None => JNull end.

Definition kind_json (k : ChangeKind) : json :=
  s_ match k with inbound_kind => "inbound" | line_kind => "line" | entry_kind => "entry" end.

Definition member_json (m : LineMember) : json :=
  JObj [("id", JStr (member_id m)); ("node_id", JNum (node_id m)); ("port", JNum (port m));
        ("ingress_id", num_json (ingress_id m)); ("weight", JNum (weight m));
        ("address_mode", str_json (address_mode m))]%string.

Definition group_json (g : LineGroup) : json :=
  JObj [("strategy", s_ match strategy g with failover => "failover" | roundrobin => "roundrobin" end);
        ("members", JArr (member_json <$> members g))]%string.

Definition line_json (l : Line) : json :=
  JObj [("id", JNum (line_id l)); ("version", JNum (version l)); ("name", JStr (line_name l));
        ("protocol", JStr (protocol l)); ("backend", JStr (backend l));
        ("target_inbound_id", JNum (target_inbound_id l));
        ("target_address_mode", str_json (target_address_mode l));
        ("groups", JArr (group_json <$> groups l)); ("endpoints", JArr (endpoints l))]%string.

Definition operation_json (op : operation) : json :=
  JObj ([("key", JStr (key op)); ("kind", kind_json (kind op))]%string
        ++ opt "id" (JNum <$> id op) ++ opt "revision" (JStr <$> revision op)
        ++ opt "inbound" (JObj <$> inbound op) ++ opt "inbound_ref" (JStr <$> inbound_ref op)
        ++ opt "line" (line_json <$> line op) ++ opt "entry" (JObj <$> entry op)).

(** [JSON.stringify] of the input, without its version. *)
Definition changesetFingerprint (m : ChangesetModel) : json :=
  let input := changesetInput m in
  json_text (JObj [("name", JStr (name input));
                   ("operations", JArr (operation_json <$> operations input))]%string).

(** ** Opening a draft *)

Definition inboundPatchFields : list string :=
  ["tag"; "listen"; "port"; "enabled"; "sort"; "ingress_id"]%string.
Definition entryPatchFields : list string :=
  ["name"; "inbound_id"; "line_id"; "line_member_id"; "display_host"; "display_port"; "rate"; "sort";
   "enabled"; "tags"; "region"]%string.

(** [live?.\[k\] ?? defaults\[k\]] *)
Definition live_or_default (live : option obj) (defaults : obj) (k : string) : json :=
  match live with
  | Some live => if missing k live then field k defaults else field k live
  | None => field k defaults
  end.

(** The loop over the patch fields: the object, and what it preserves. *)
Definition hydrate_fields (patch : obj) (live : option obj) (defaults : obj) (ks : list string)
    (hydrated : obj) : obj * obj :=
  foldl (λ '(h, p) k, if missing k patch
                      then (jm_set k (live_or_default live defaults k) h,
                            jm_set k (live_or_default live defaults k) p)
                      else (h, p)) (hydrated, []) ks.

Definition with_patch (op : operation) (i e : option obj) (p : option obj) : operation :=
  {| key := key op; kind := kind op; id := id op; revision := revision op; inbound := i; line := line op;
     inbound_ref := inbound_ref op; entry := e; editMode := set_num (id op); preservedFields := p |}.

Definition find_live (x : option num) (l : list obj) : option obj :=
  match x with Some x => list_find_first (has_id x) l | None => None end.

Definition open_operation (catalog : option TopologyCatalog) (op : operation) : operation :=
  match kind op, inbound op, entry op with
  | inbound_kind, Some patch, _ =>
      let live := find_live (id op) (default [] (inbounds <$> catalog)) in
      let h := spread (spread new_inbound (default [] live)) patch in
      let h := if set_num (id op) || flag "settings_configured" patch then jm_delete "settings"%string h else h in
      let '(h, p) := hydrate_fields patch live new_inbound inboundPatchFields h in
      with_patch op (Some h) (entry op) (Some p)
  | entry_kind, _, Some patch =>
      let live := find_live (id op) (default [] (entries <$> catalog)) in
      let h := spread (spread new_entry (default [] live)) patch in
      let '(h, p) := hydrate_fields patch live new_entry entryPatchFields h in
      with_patch op (inbound op) (Some h) (Some p)
  | _, _, _ => with_patch op (inbound op) (entry op) (preservedFields op)
  end.

Definition modelFromDraft (draft : ChangesetModel) (catalog : option TopologyCatalog) : ChangesetModel :=
  {| name := name draft; operations := open_operation catalog <$> operations draft |}.

(** ** Saving *)

(** Assignment of a value that may be [undefined], which JSON omits. *)
Definition put (k : string) (v : option json) (o : obj) : obj :=
  match v with Some v => jm_set k v o | None => jm_delete k o end.

(** [a === b] on optional numbers. *)
Definition same_number (a b : option json) : bool :=
  match a, b with
  | Some (JNum x), Some (JNum y) => num_eqb x y
  | None, None => true
  | _, _ => false
  end.

Definition settingsFingerprint (op : operation) : json :=
  let i := default [] (inbound op) in
  json_text (JObj (opt "node_id" (jm_get "node_id"%string i) ++ opt "protocol" (jm_get "protocol"%string i)
                   ++ [("core"%string, field_or "core" (s_ "") i)]
                   ++ opt "settings" (jm_get "settings"%string i))).

Definition keep_settings (stored inbound_ : obj) : obj :=
  let o := put "node_id" (jm_get "node_id"%string stored) inbound_ in
  let o := if same_number (jm_get "node_id"%string inbound_) (jm_get "node_id"%string stored) then o
           else jm_set "ingress_id"%string (if missing "ingress_id" stored then n 0 else field "ingress_id" stored) o in
  let o := put "protocol" (jm_get "protocol"%string stored) o in
  let o := put "core" (jm_get "core"%string stored) o in
  jm_set "settings_configured"%string (JBool true) (jm_delete "settings"%string o).

Definition with_inbound (i : obj) (op : operation) : operation :=
  {| key := key op; kind := kind op; id := id op; revision := revision op; inbound := Some i; line := line op;
     inbound_ref := inbound_ref op; entry := entry op; editMode := editMode op;
     preservedFields := preservedFields op |}.

Definition find_op (k : jsstring) (l : list operation) : option operation :=
  list_find_first (λ op, bool_decide (key op = k)) l.

Definition keepSavedInboundSettings (m saved : ChangesetModel) (k : jsstring) : ChangesetModel :=
  match find_op k (operations saved) ≫= inbound with
  | None => m
  | Some stored =>
      {| name := name m;
         operations := (λ op, if bool_decide (key op = k) then
             match inbound op with Some i => with_inbound (keep_settings stored i) op | None => op end
           else op) <$> operations m |}
  end.

(** The loop of [reconcileChangesetSave] over the stored operations. *)
Definition reconcile_op (current submitted saved : ChangesetModel) (st : ChangesetModel * list jsstring)
    (stored : operation) : ChangesetModel * list jsstring :=
  if set_num (id stored) || negb (flag "settings_configured" (default [] (inbound stored))) then st
  else match find_op (key stored) (operations current), find_op (key stored) (operations submitted) with
    | Some local, Some sent =>
        match inbound local, inbound sent with
        | Some _, Some _ =>
            if bool_decide (settingsFingerprint local = settingsFingerprint sent)
            then (keepSavedInboundSettings st.1 saved (key stored), st.2)
            else (st.1, st.2 ++ [key stored])
        | _, _ => st
        end
    | _, _ => st
    end.

Definition reconcileChangesetSave (current submitted saved : ChangesetModel)
    (catalog : option TopologyCatalog) : ChangesetModel * list jsstring :=
  if bool_decide (changesetFingerprint current = changesetFingerprint submitted)
  then (modelFromDraft saved catalog, [])
  else foldl (reconcile_op current submitted saved) (current, []) (operations saved).

(** ** References and validity *)

Definition operationReferences (op : operation) : list jsstring :=
  omap (λ r, if set_str r then r else None)
    [inbound_ref op; entry op ≫= str_opt "inbound_ref"; entry op ≫= str_opt "line_ref"].

Definition operationIsReferenced (ops : list operation) (k : jsstring) : bool :=
  some (λ op, negb (bool_decide (key op = k)) && bool_decide (k ∈ operationReferences op)) ops.

Inductive line_protocol := tcp | udp | both.

Definition inboundLineProtocol (protocol : option jsstring) : option line_protocol :=
  let p := default [] protocol in
  if bool_decide (p ∈ js <$> ["vless"; "vmess"; "trojan"; "anytls"; "ssh"; "http"; "naive"; "socks"]%string)
  then Some tcp
  else if bool_decide (p ∈ js <$> ["shadowsocks"; "snell"]%string) then Some both
  else if bool_decide (p ∈ js <$> ["hysteria2"; "tuic"; "wireguard"]%string) then Some udp
  else None.

Definition protocol_named (s : jsstring) : option line_protocol :=
  if bool_decide (s = js "tcp") then Some tcp
  else if bool_decide (s = js "udp") then Some udp
  else if bool_decide (s = js "both") then Some both else None.

Definition lineTargetProtocol (op : operation) (ops : list operation) (catalog : TopologyCatalog)
    : option line_protocol :=
  if set_str (inbound_ref op) then
    inboundLineProtocol ((find_op (default [] (inbound_ref op)) ops ≫= inbound) ≫= str_opt "protocol")
  else
    let i : option obj := find_live (target_inbound_id <$> line op) (inbounds catalog) in
    match i ≫= str_opt "line_protocol" with
    | Some p => protocol_named p
    | None => inboundLineProtocol (i ≫= str_opt "protocol")
    end.

Definition num_gt0 (x : num) : bool := num_ltb (num_of_Z 0) x.

(** [Number.isInteger(n) && n > 0 && n <= 65535] *)
Definition valid_port (x : num) : bool := isInteger x && num_gt0 x && num_leb x (num_of_Z 65535).

(** [ref(key, kind)]: the key of an operation of the change set that creates a
    resource of this kind. *)
Definition ref (ops : list operation) (r : option jsstring) (k : ChangeKind) : bool :=
  set_str r && some (λ op, bool_decide (key op = default [] r) && bool_decide (kind op = k)
                           && negb (set_num (id op)) && negb (editMode op)) ops.

Definition inbound_valid (op : operation) (v : obj) : bool :=
  negb (bool_decide (trim (str "tag" v) = [])) && valid_port (number "port" v)
  && (set_num (id op)
      || num_gt0 (num_or (number_opt "node_id" v) (num_of_Z 0))
         && bool_decide (str "protocol" v ∈ js <$> ["vless"; "vmess"; "trojan"; "shadowsocks"]%string))
  && let tls := jm_get "settings"%string v ≫= json_prop "tls" in
     negb match tls ≫= json_prop "mode" with Some (JNum x) => num_eqb x (num_of_Z 1) | _ => false end
     || match tls ≫= json_prop "server_name" with Some (JStr s) => negb (bool_decide (trim s = [])) | _ => false end.

(** The size of [new Set(xs)] is the number of values that differ. *)
Definition same_value_zero (x y : num) : bool := num_eqb x y || is_nan x && is_nan y.

Definition all_distinct (xs : list num) : bool :=
  (fix go xs := match xs with [] => true | x :: xs => negb (some (same_value_zero x) xs) && go xs end) xs.

Definition member_valid (m : LineMember) : bool :=
  num_gt0 (node_id m) && negb (bool_decide (member_id m = [])) && valid_port (port m)
  && isInteger (weight m) && num_leb (num_of_Z 1) (weight m) && num_leb (weight m) (num_of_Z 100).

Fixpoint groups_valid (v : Line) (index : nat) (gs : list LineGroup) : bool :=
  match gs with
  | [] => true
  | g :: gs =>
      bool_decide (0 < length (members g) ≤ 8)%nat
      && (bool_decide (index = 0%nat) || bool_decide (protocol v = js "tcp")
          || bool_decide (length (members g) < 2)%nat || bool_decide (strategy g = roundrobin))
      && every member_valid (members g) && groups_valid v (S index) gs
  end.

Definition line_valid (ops : list operation) (op : operation) (v : Line) : bool :=
  negb (bool_decide (trim (line_name v) = [])) && editableChangesetLine v
  && (if set_str (inbound_ref op) then ref ops (inbound_ref op) inbound_kind else num_gt0 (target_inbound_id v))
  && bool_decide (0 < length (groups v) ≤ 8)%nat
  && all_distinct (groups v ≫= λ g, node_id <$> members g)
  && groups_valid v 0 (groups v).

Definition entry_valid (ops : list operation) (v : obj) : bool :=
  let line_ref := str_opt "line_ref" v in
  let inbound_ref := str_opt "inbound_ref" v in
  negb (bool_decide (trim (str "name" v) = []))
  && (if set_str line_ref then ref ops line_ref line_kind
      else if set_num (number_opt "line_id" v) then num_gt0 (number "line_id" v)
      else if set_str inbound_ref then ref ops inbound_ref inbound_kind
      else num_gt0 (num_or (number_opt "inbound_id" v) (num_of_Z 0)))
  && isFinite (number "rate" v) && num_gt0 (number "rate" v)
  && isInteger (number "display_port" v) && num_leb (num_of_Z 0) (number "display_port" v)
  && num_leb (number "display_port" v) (num_of_Z 65535).

Definition operation_valid (ops : list operation) (op : operation) : bool :=
  negb (bool_decide (key op = [])) && negb (editMode op && negb (set_num (id op)))
  && negb (set_num (id op) && negb (set_str (revision op)))
  && match kind op, inbound op, line op, entry op with
     | inbound_kind, Some v, _, _ => inbound_valid op v
     | line_kind, _, Some v, _ => line_valid ops op v
     | entry_kind, _, _, Some v => entry_valid ops v
     | _, _, _, _ => false
     end.

Definition changesetValid (m : ChangesetModel) : bool :=
  let ops := operations m in
  negb (bool_decide (trim (name m) = [])) && bool_decide (1 ≤ length ops ≤ 32)%nat
  && bool_decide (NoDup (key <$> ops)) && every (operation_valid ops) ops.

(** ** Removing an operation *)

Lemma some_bfilter {A} (f g : A → bool) l :
  (∀ x, f x = true → g x = true) → some f (bfilter g l) = some f l.
Proof.
  intros Hfg. apply eq_true_iff_eq. rewrite !some_true. setoid_rewrite elem_of_bfilter. naive_solver.
Qed.

Definition other (k : jsstring) (op : operation) : bool := negb (bool_decide (key op = k)).

Lemma ref_other ops r k kd :
  (set_str r = true → r ≠ Some k) → ref (bfilter (other k) ops) r kd = ref ops r kd.
Proof.
  intros Hr. unfold ref. destruct (set_str r) eqn:Hs; [|done]. cbn. apply some_bfilter.
  intros op Hop. reflect_bools. unfold other. apply negb_true_iff, bool_decide_eq_false_2.
  destruct r as [x|]; [|done]. cbn in *. specialize (Hr eq_refl). congruence.
Qed.

Lemma reference_of op r k :
  r ∈ [inbound_ref op; entry op ≫= str_opt "inbound_ref"; entry op ≫= str_opt "line_ref"] →
  k ∉ operationReferences op → set_str r = true → r ≠ Some k.
Proof.
  intros Hr Hk Hs ->. apply Hk. unfold operationReferences. apply list_elem_of_omap.
  exists (Some k). by rewrite Hs.
Qed.

Lemma operation_valid_other ops k op :
  k ∉ operationReferences op → operation_valid (bfilter (other k) ops) op = operation_valid ops op.
Proof.
  intros Hk. unfold operation_valid. f_equal.
  destruct (kind op), (inbound op), (line op), (entry op) as [v|] eqn:He; try done.
  1-4: unfold line_valid; by rewrite (ref_other ops (inbound_ref op) k inbound_kind)
    by (intros; eapply reference_of; [by left|done..]).
  all: unfold entry_valid; cbn zeta;
    rewrite (ref_other ops (str_opt "line_ref" v) k line_kind), (ref_other ops (str_opt "inbound_ref" v) k inbound_kind);
    [done|intros; eapply (reference_of op); [rewrite He; cbn; set_solver|done..]..].
Qed.

(** The console may drop an operation that no other refers to: removing it
    from a valid change set that has other operations leaves a valid change
    set, in which every reference still names an operation that creates what is
    referred to. *)
Theorem remove_unreferenced_valid (m : ChangesetModel) (k : jsstring) :
  changesetValid m = true → operationIsReferenced (operations m) k = false →
  bfilter (other k) (operations m) ≠ [] →
  changesetValid {| name := name m; operations := bfilter (other k) (operations m) |} = true.
Proof.
  unfold changesetValid. cbn [name operations]. intros Hv Hr Hne. reflect_bools.
  rewrite (bool_decide_eq_false_2 (trim (name m) = [])) by done.
  rewrite bool_decide_eq_true_2, bool_decide_eq_true_2; cbn.
  - apply every_true. intros op [Hop Hin]%elem_of_bfilter. rewrite operation_valid_other.
    + match goal with H : every _ _ = true |- _ => rewrite every_true in H; by apply H end.
    + intros Hk. unfold operationIsReferenced in Hr. rewrite some_false in Hr. specialize (Hr op Hin).
      unfold other in Hop. by rewrite Hop, bool_decide_eq_true_2 in Hr.
  - eapply sublist_NoDup; [done|]. apply sublist_map, bfilter_sublist.
  - pose proof (length_bfilter (other k) (operations m)).
    destruct (bfilter (other k) (operations m)); [done|]. cbn in *. lia.
Qed.

(** A change set that creates an inbound and an entry for another one. *)
Definition sample_model : ChangesetModel :=
  let op k kd i e := {| key := js k; kind := kd; id := None; revision := None; inbound := i; line := None;
    inbound_ref := None; entry := e; editMode := false; preservedFields := None |} in
  {| name := js "draft";
     operations :=
       [op "a" inbound_kind (Some (jm_set "tag" (s_ "in") (jm_set "node_id" (n 3) new_inbound))) None;
        op "b" inbound_kind (Some (jm_set "tag" (s_ "in2") (jm_set "node_id" (n 4) new_inbound))) None;
        op "c" entry_kind None
          (Some (jm_set "name" (s_ "e") (jm_set "inbound_ref" (s_ "b") new_entry)))]%string |}.

Example remove_unreferenced_valid_witness :
  changesetValid {| name := name sample_model;
                    operations := bfilter (other (js "a")) (operations sample_model) |} = true.
Proof. apply (remove_unreferenced_valid sample_model (js "a")); vm_compute; congruence. Defined.

(** ** Edits made while a save was in flight *)

(** The inbound fields that the stored settings may replace. *)
Definition settings_fields : list string :=
  ["node_id"; "ingress_id"; "protocol"; "core"; "settings"; "settings_configured"]%string.

Lemma jm_get_put k k' v (o : obj) : k ≠ k' → jm_get k (put k' v o) = jm_get k o.
Proof. intros Hk. destruct v; cbn; [by apply jm_get_set_ne|by apply jm_get_delete_ne]. Qed.

Lemma jm_get_put_eq k v (o : obj) : jm_get k (put k v o) = v.
Proof. destruct v; cbn; [apply jm_get_set_eq|apply jm_get_delete_eq]. Qed.

(** What an inbound is after it took over the stored settings: of the settings
    only the ingress may stay, and it does unless the server changed. *)
Record settings_replaced (stored i i' : obj) : Prop := {
  sr_other : ∀ k, k ∉ settings_fields → jm_get k i' = jm_get k i;
  sr_node : jm_get "node_id"%string i' = jm_get "node_id"%string stored;
  sr_protocol : jm_get "protocol"%string i' = jm_get "protocol"%string stored;
  sr_core : jm_get "core"%string i' = jm_get "core"%string stored;
  sr_settings : jm_get "settings"%string i' = None;
  sr_configured : jm_get "settings_configured"%string i' = Some (JBool true);
  sr_ingress :
    if same_number (jm_get "node_id"%string i) (jm_get "node_id"%string stored)
    then jm_get "ingress_id"%string i' = jm_get "ingress_id"%string i
    else jm_get "ingress_id"%string i' =
      Some match jm_get "ingress_id"%string stored with None | Some JNull => n 0 | Some v => v end;
}.

Lemma keep_settings_replaced stored i : settings_replaced stored i (keep_settings stored i).
Proof.
  split; unfold keep_settings; cbn zeta.
  - intros k Hk. unfold settings_fields in Hk. rewrite jm_get_set_ne, jm_get_delete_ne, !jm_get_put by set_solver.
    case_match; [|rewrite jm_get_set_ne by set_solver]; by rewrite jm_get_put by set_solver.
  - rewrite jm_get_set_ne, jm_get_delete_ne, !jm_get_put by done.
    case_match; [|rewrite jm_get_set_ne by done]; apply jm_get_put_eq.
  - rewrite jm_get_set_ne, jm_get_delete_ne, jm_get_put by done. apply jm_get_put_eq.
  - rewrite jm_get_set_ne, jm_get_delete_ne by done. apply jm_get_put_eq.
  - rewrite jm_get_set_ne by done. apply jm_get_delete_eq.
  - apply jm_get_set_eq.
  - rewrite jm_get_set_ne, jm_get_delete_ne, !jm_get_put by done.
    case_match; [by rewrite jm_get_put by done|]. rewrite jm_get_set_eq. unfold missing, field.
    by destruct (jm_get "ingress_id"%string stored) as [[]|].
Qed.

Lemma same_number_r a b : same_number a b = true → same_number b b = true.
Proof.
  destruct a as [[| |x| | |]|], b as [[| |y| | |]|]; try done. cbn. intros Hx.
  assert (is_nan y = false) as Hy by (destruct y; [done..|by destruct x as [| | |[]]|done]).
  unfold num_eqb, SFeqb. pose proof (num_compare_defined y y Hy Hy). pose proof (num_compare_antisym y y) as Ha.
  by destruct (SFcompare y y) as [[]|].
Qed.

(** Taking over the same settings again changes nothing. *)
Lemma settings_replaced_again stored i i' :
  settings_replaced stored i i' → settings_replaced stored i (keep_settings stored i').
Proof.
  intros [Ho Hn _ _ _ _ Hi]. destruct (keep_settings_replaced stored i') as [Ho' Hn' Hp' Hc' Hs' Hsc' Hi'].
  split; try done; [intros k Hk; by rewrite Ho', Ho|]. rewrite Hn in Hi'.
  destruct (same_number (jm_get "node_id"%string i) _) eqn:Hsame.
  - apply same_number_r in Hsame. rewrite Hsame in Hi'. by rewrite Hi'.
  - destruct (same_number (jm_get "node_id"%string stored) _); by rewrite Hi'.
Qed.

(** Everything but the inbound is as it was. *)
Record rest_kept (op op' : operation) : Prop := {
  ek_key : key op' = key op;
  ek_kind : kind op' = kind op;
  ek_id : id op' = id op;
  ek_revision : revision op' = revision op;
  ek_line : line op' = line op;
  ek_ref : inbound_ref op' = inbound_ref op;
  ek_entry : entry op' = entry op;
  ek_edit : editMode op' = editMode op;
  ek_preserved : preservedFields op' = preservedFields op;
}.

(** Two inbounds have the same settings, as JSON: server, protocol, core (none
    is the empty text) and initial settings. *)
Definition same_settings (i j : obj) : Prop :=
  json_text <$> jm_get "node_id"%string i = json_text <$> jm_get "node_id"%string j ∧
  json_text <$> jm_get "protocol"%string i = json_text <$> jm_get "protocol"%string j ∧
  json_text (if flag "core" i then field "core" i else s_ "") =
    json_text (if flag "core" j then field "core" j else s_ "") ∧
  json_text <$> jm_get "settings"%string i = json_text <$> jm_get "settings"%string j.

Definition prop_of (k : string) (v : json) : option json := match v with JObj m => jm_get k m | _ => None end.

Lemma fingerprint_settings op op' i j :
  inbound op = Some i → inbound op' = Some j →
  settingsFingerprint op = settingsFingerprint op' ↔ same_settings i j.
Proof.
  intros Hi Hj. unfold settingsFingerprint, same_settings. rewrite Hi, Hj. cbn [default from_option Datatypes.id].
  unfold field_or. set (ci := if flag "core" i then _ else _). set (cj := if flag "core" j then _ else _).
  generalize (jm_get "node_id"%string i), (jm_get "node_id"%string j), (jm_get "protocol"%string i),
    (jm_get "protocol"%string j), (jm_get "settings"%string i), (jm_get "settings"%string j), ci, cj.
  intros n1 n2 p1 p2 s1 s2 c1 c2. split.
  - intros He.
    assert (∀ k, prop_of k (json_text (JObj (opt "node_id" n1 ++ opt "protocol" p1 ++ [("core"%string, c1)] ++ opt "settings" s1)))
      = prop_of k (json_text (JObj (opt "node_id" n2 ++ opt "protocol" p2 ++ [("core"%string, c2)] ++ opt "settings" s2)))) as Hk
      by (intros k; by rewrite He).
    pose proof (Hk "node_id"%string) as H1. pose proof (Hk "protocol"%string) as H2.
    pose proof (Hk "core"%string) as H3. pose proof (Hk "settings"%string) as H4. clear Hk He.
    destruct n1, n2, p1, p2, s1, s2; cbn in *; split_and!; try done; by injection H3.
  - intros (H1 & H2 & H3 & H4). destruct n1, n2; try done; destruct p1, p2; try done; destruct s1, s2; try done;
      cbn in *; rewrite ?H3; try injection H1 as ->; try injection H2 as ->; try injection H4 as ->; done.
Qed.

(** The settings of the operation [k] are those that were sent. *)
Definition settings_as_sent (current submitted : ChangesetModel) (k : jsstring) : Prop :=
  ∃ local sent i j, find_op k (operations current) = Some local ∧ find_op k (operations submitted) = Some sent ∧
    inbound local = Some i ∧ inbound sent = Some j ∧ same_settings i j.
(** They were edited since. *)
Definition settings_edited (current submitted : ChangesetModel) (k : jsstring) : Prop :=
  ∃ local sent i j, find_op k (operations current) = Some local ∧ find_op k (operations submitted) = Some sent ∧
    inbound local = Some i ∧ inbound sent = Some j ∧ ¬ same_settings i j.

(** An operation of the key creates an inbound whose settings the server has. *)
Definition configured (k : jsstring) (o : operation) : Prop :=
  key o = k ∧ set_num (id o) = false ∧ flag "settings_configured" (default [] (inbound o)) = true.

(** What may happen to an operation. *)
Definition kept_or_replaced (current submitted saved : ChangesetModel) (op op' : operation) : Prop :=
  rest_kept op op' ∧
  (inbound op' = inbound op ∨
   settings_as_sent current submitted (key op) ∧
   ∃ stored i i', find_op (key op) (operations saved) ≫= inbound = Some stored ∧
     inbound op = Some i ∧ inbound op' = Some i' ∧ settings_replaced stored i i').

(** After the stored operations [done]. *)
Record reconciled (current submitted saved : ChangesetModel) (done : list operation)
    (st : ChangesetModel * list jsstring) : Prop := {
  rc_name : name st.1 = name current;
  rc_ops : Forall2 (kept_or_replaced current submitted saved) (operations current) (operations st.1);
  rc_conflicts : ∀ k, k ∈ st.2 ↔ (∃ o, o ∈ done ∧ configured k o) ∧ settings_edited current submitted k;
}.

Lemma kept_settings current submitted saved op op' :
  settings_as_sent current submitted (key op) → kept_or_replaced current submitted saved op op' →
  kept_or_replaced current submitted saved op
    (match find_op (key op) (operations saved) ≫= inbound, inbound op' with
     | Some stored, Some i => with_inbound (keep_settings stored i) op' | _, _ => op' end).
Proof.
  intros Hsent Hk. destruct (find_op (key op) (operations saved) ≫= inbound) as [stored|] eqn:Hs; [|done].
  destruct (inbound op') as [i|] eqn:Hi; [|done]. destruct Hk as [Hr Hin]. split; [by destruct Hr; split|].
  right. split; [done|]. destruct Hin as [Hin|(_ & stored' & j & j' & Hs' & Hj & Hj' & Hrep)].
  - exists stored, i, (keep_settings stored i). split_and!; [done|congruence|done|apply keep_settings_replaced].
  - rewrite Hs in Hs'. injection Hs' as <-. rewrite Hi in Hj'. injection Hj' as <-.
    exists stored, j, (keep_settings stored i). split_and!; [done..|by apply settings_replaced_again].
Qed.

Lemma keep_ops current submitted saved m k :
  settings_as_sent current submitted k →
  Forall2 (kept_or_replaced current submitted saved) (operations current) (operations m) →
  Forall2 (kept_or_replaced current submitted saved) (operations current)
    (operations (keepSavedInboundSettings m saved k)).
Proof.
  intros Hsent Ho. unfold keepSavedInboundSettings.
  destruct (find_op k (operations saved) ≫= inbound) as [stored|] eqn:Hs; [|done].
  cbn. apply Forall2_fmap_r. eapply Forall2_impl; [done|]. cbn. intros op op' Hk.
  destruct (bool_decide (key op' = k)) eqn:Hkey; reflect_bools; [|done].
  pose proof Hk as [Hr _]. assert (key op = k) as E by by rewrite <-(ek_key _ _ Hr).
  rewrite <-E in Hsent, Hs. pose proof (kept_settings _ _ _ _ _ Hsent Hk) as Hnew. rewrite Hs in Hnew.
  by destruct (inbound op').
Qed.

Lemma reconciled_op current submitted saved l st stored :
  reconciled current submitted saved l st →
  reconciled current submitted saved (l ++ [stored]) (reconcile_op current submitted saved st stored).
Proof.
  intros [Hn Ho Hc]. unfold reconcile_op.
  assert (∀ k, (∃ o, o ∈ l ++ [stored] ∧ configured k o) ↔ (∃ o, o ∈ l ∧ configured k o) ∨ configured k stored) as Hsplit.
  { intros k. setoid_rewrite elem_of_app. setoid_rewrite list_elem_of_singleton. naive_solver. }
  assert (¬ (configured (key stored) stored ∧ settings_edited current submitted (key stored)) →
    reconciled current submitted saved (l ++ [stored]) st) as Hsame.
  { intros Hno. split; [done..|]. intros k. rewrite Hc, Hsplit. split; [tauto|]. intros [[?|Hcf] He]; [done|].
    pose proof Hcf as [<- _]. by destruct Hno. }
  case_match eqn:Hskip.
  { apply Hsame. intros [(_ & H1 & H2) _]. by rewrite H1, H2 in Hskip. }
  apply orb_false_iff in Hskip as [Hid Hcf%negb_false_iff].
  destruct (find_op (key stored) (operations current)) as [local|] eqn:Hl;
    [|apply Hsame; intros [_ (? & ? & ? & ? & ? & _)]; congruence].
  destruct (find_op (key stored) (operations submitted)) as [sent|] eqn:Hs;
    [|apply Hsame; intros [_ (? & ? & ? & ? & _ & ? & _)]; congruence].
  destruct (inbound local) as [i|] eqn:Hi;
    [|apply Hsame; intros [_ (? & ? & ? & ? & ? & ? & ? & _)]; simplify_eq; congruence].
  destruct (inbound sent) as [j|] eqn:Hj;
    [|apply Hsame; intros [_ (? & ? & ? & ? & ? & ? & ? & ? & _)]; simplify_eq; congruence].
  case_bool_decide as Hf; rewrite (fingerprint_settings _ _ i j Hi Hj) in Hf.
  - assert (settings_as_sent current submitted (key stored)) as Hsent by by exists local, sent, i, j.
    destruct Hsame as [_ _ Hc'].
    { intros [_ (local' & sent' & i' & j' & E1 & E2 & E3 & E4 & Hd)]. simplify_eq. done. }
    split; [unfold keepSavedInboundSettings; by destruct (_ ≫= _)|by apply keep_ops|exact Hc'].
  - split; [done..|]. intros k. cbn. rewrite elem_of_app, list_elem_of_singleton, Hc, Hsplit. split.
    + intros [?| ->]; [tauto|]. split; [by right|]. by exists local, sent, i, j.
    + intros [[?|[-> _]] He]; [by left|by right].
Qed.

(** C28: a save never loses what was edited while it was in flight.  When the
    input of the model differs, as JSON, from the one that was submitted, the
    reconciled model has the same name and the same operations in the same
    order, each with the same lines, entries, references and other fields, and
    with the same inbound, or with the stored settings of the inbound of that
    key.  The latter only if the settings (server, protocol, core and initial
    settings, compared as JSON) of the first operation of that key are still
    those that were sent; then server, protocol and core are the stored
    ones, the initial settings are removed and marked as configured, the
    ingress is kept unless the stored server differs from the edited one (then
    it is the stored ingress, or 0), and every other field of the inbound is
    kept.  The conflicts are exactly the keys of stored inbounds without an
    identifier whose settings the server has configured and which were
    edited since they were sent. *)
Theorem reconcile_keeps_edits (current submitted saved : ChangesetModel) (catalog : option TopologyCatalog) :
  changesetFingerprint current ≠ changesetFingerprint submitted →
  let '(m, conflicts) := reconcileChangesetSave current submitted saved catalog in
  name m = name current ∧
  Forall2 (λ op op', rest_kept op op' ∧
      (inbound op' = inbound op ∨
       settings_as_sent current submitted (key op) ∧
       ∃ stored i i', find_op (key op) (operations saved) ≫= inbound = Some stored ∧
         inbound op = Some i ∧ inbound op' = Some i' ∧ settings_replaced stored i i'))
    (operations current) (operations m) ∧
  (∀ k, k ∈ conflicts ↔ (∃ o, o ∈ operations saved ∧ configured k o) ∧ settings_edited current submitted k).
Proof.
  intros Hne. unfold reconcileChangesetSave. rewrite bool_decide_eq_false_2 by done.
  assert (reconciled current submitted saved (operations saved)
    (foldl (reconcile_op current submitted saved) (current, []) (operations saved))) as Hr.
  { induction (operations saved) as [|o l IH] using rev_ind.
    - split; [done| |].
      + apply Forall_Forall2_diag, Forall_forall. intros op _. split; [done|by left].
      + intros k. cbn. split; [by intros ?%not_elem_of_nil|]. by intros [(? & ?%not_elem_of_nil & _) _].
    - rewrite foldl_snoc. by apply reconciled_op. }
  destruct (foldl _ _ _) as [m conflicts]. by destruct Hr as [Hn Ho Hc].
Qed.

Example reconcile_keeps_edits_witness :
  let edited := {| name := js "renamed"; operations := operations sample_model |} in
  let '(m, conflicts) := reconcileChangesetSave edited sample_model sample_model None in
  name m = js "renamed".
Proof.
  intros edited.
  pose proof (reconcile_keeps_edits edited sample_model sample_model None) as H.
  destruct (reconcileChangesetSave edited sample_model sample_model None) as [m conflicts].
  apply H. apply (bool_decide_eq_false_1 _). vm_compute. reflexivity.
Defined.

(** ** Reopening a draft *)

Lemma jm_get_spread k (a b : obj) :
  jm_wf b → jm_get k (spread a b) = match jm_get k b with Some v => Some v | None => jm_get k a end.
Proof.
  unfold spread. revert a. induction b as [|[k' v] b IH]; intros a Hwf; [done|].
  apply NoDup_cons in Hwf as [Hni Hwf]. cbn in *. rewrite IH, jm_get_set by done. case_bool_decide; [|done].
  subst. by apply jm_get_None in Hni as ->.
Qed.

Section hydrate.
Context (patch : obj) (live : option obj) (defaults : obj).

Lemma hydrate_fields_get ks h k :
  let '(h', p) := hydrate_fields patch live defaults ks h in
  jm_get k h' = (if bool_decide (k ∈ ks) && missing k patch
                 then Some (live_or_default live defaults k) else jm_get k h) ∧
  jm_get k p = (if bool_decide (k ∈ ks) && missing k patch
                then Some (live_or_default live defaults k) else None).
Proof using.
  unfold hydrate_fields. induction ks as [|k' ks IH] using rev_ind; [done|]. rewrite foldl_snoc.
  destruct (foldl _ _ _) as [h' p]. destruct IH as [Hh Hp].
  destruct (missing k' patch) eqn:Hm; rewrite ?jm_get_set, Hh, Hp.
  - destruct (decide (k = k')) as [->|Hne].
    + rewrite !bool_decide_eq_true_2 by set_solver. by rewrite Hm.
    + rewrite (bool_decide_eq_false_2 (k = k')) by done.
      by rewrite (bool_decide_ext (k ∈ ks) (k ∈ ks ++ [k'])) by set_solver.
  - destruct (decide (k = k')) as [->|Hne]; [by rewrite Hm, !andb_false_r|].
    by rewrite (bool_decide_ext (k ∈ ks) (k ∈ ks ++ [k'])) by set_solver.
Qed.

Lemma hydrate_fields_wf ks h : jm_wf (hydrate_fields patch live defaults ks h).2.
Proof using.
  unfold hydrate_fields. induction ks as [|k' ks IH] using rev_ind; [apply jm_wf_nil|]. rewrite foldl_snoc.
  destruct (foldl _ _ _) as [h' p]. case_match; cbn in *; [by apply jm_wf_set|done].
Qed.
End hydrate.

Lemma omitPreserved_get value p k :
  jm_wf p →
  jm_get k (omitPreserved value (Some p))
  = match jm_get k p with
    | Some w => if bool_decide (json_text <$> jm_get k value = Some (json_text w)) then None else jm_get k value
    | None => jm_get k value
    end.
Proof.
  unfold omitPreserved. cbn [default from_option Datatypes.id]. revert value.
  induction p as [|[k' w] p IH]; intros value Hwf; [done|]. apply NoDup_cons in Hwf as [Hni Hwf].
  cbn [foldl fst snd jm_get]. rewrite IH by done. destruct (decide (k = k')) as [->|Hne].
  - cbn in Hni. apply jm_get_None in Hni as ->. rewrite (bool_decide_eq_true_2 (k' = k')) by done.
    case_bool_decide; [apply jm_get_delete_eq|done].
  - rewrite (bool_decide_eq_false_2 (k = k')) by done.
    case_bool_decide; [by rewrite jm_get_delete_ne|done].
Qed.

(** What the input does to the value of a field: it trims names and hosts and
    reads an unset identifier as zero. *)
Definition canonical (k : string) (v : json) : json :=
  if bool_decide (k ∈ ["tag"; "listen"; "name"; "display_host"; "region"]%string)
  then JStr (trim match v with JStr t => t | _ => [] end)
  else if bool_decide (k ∈ ["inbound_id"; "line_id"]%string) then (if json_falsy v then n 0 else v)
  else if bool_decide (k = "line_member_id"%string) then (if json_falsy v then s_ "" else v)
  else v.

(** The value of a field in the editor: that of the draft, or the live one. *)
Definition effective (patch : obj) (live : option obj) (defaults : obj) (k : string) : json :=
  if missing k patch then live_or_default live defaults k else field k patch.

(** The fields [ks] of an input are those of the patch. *)
Definition sends_patch (ks : list string) (patch input : obj) : Prop :=
  ∀ k, k ∈ ks → json_text <$> jm_get k input = if missing k patch then None else json_text <$> jm_get k patch.

Lemma sends_patch_intro ks patch live defaults input h0 h p :
  jm_wf patch → hydrate_fields patch live defaults ks h0 = (h, p) →
  (∀ k v, k ∈ ks → jm_get k patch = Some v → jm_get k h0 = Some v) →
  (∀ k, k ∈ ks → jm_get k (input h) = Some (canonical k (field k h))) →
  (∀ k, k ∈ ks → json_text (canonical k (effective patch live defaults k)) = json_text (effective patch live defaults k)) →
  sends_patch ks patch (omitPreserved (input h) (Some p)).
Proof.
  intros Hwf Hh H0 Hin Heff k Hk. pose proof (hydrate_fields_get patch live defaults ks h0 k) as Hg.
  pose proof (hydrate_fields_wf patch live defaults ks h0) as Hpw. rewrite Hh in Hg, Hpw. cbn in Hpw.
  destruct Hg as [Hgh Hgp]. rewrite bool_decide_eq_true_2 in Hgh, Hgp by done. cbn in Hgh, Hgp.
  assert (field k h = effective patch live defaults k) as Hfield.
  { unfold effective. unfold field at 1. rewrite Hgh. destruct (missing k patch) eqn:Hm; [done|].
    unfold missing in Hm. unfold field. destruct (jm_get k patch) as [v|] eqn:Hv; [|done]. by rewrite (H0 k v Hk Hv). }
  specialize (Heff k Hk). rewrite omitPreserved_get, Hgp, (Hin k Hk), Hfield by done. clear Hgh Hgp.
  cbn [fmap option_fmap option_map]. rewrite Heff. unfold effective. destruct (missing k patch) eqn:Hm.
  - by rewrite bool_decide_eq_true_2.
  - unfold effective in Heff. rewrite Hm in Heff. cbn. rewrite Heff. unfold missing in Hm. unfold field.
    by destruct (jm_get k patch).
Qed.

(** No reference to another operation. *)
Definition no_refs (o : obj) : Prop := jm_get "inbound_ref"%string o = None ∧ jm_get "line_ref"%string o = None.

Lemma entry_input_fields h k :
  no_refs h → k ∈ entryPatchFields → jm_get k (entry_input h) = Some (canonical k (field k h)).
Proof.
  intros [Hi Hl] Hk. unfold entry_input, str_opt. rewrite Hi, Hl. cbn [set_str app].
  unfold entryPatchFields in Hk. rewrite !elem_of_cons, elem_of_nil in Hk.
  destruct Hk as [->|[->|[->|[->|[->|[->|[->|[->|[->|[->|[->|[]]]]]]]]]]]];
    unfold str, field_or, flag, field, canonical;
    match goal with |- jm_get ?k _ = _ => destruct (jm_get k h) as [v|]; [|reflexivity] end;
    cbn [from_option Datatypes.id]; first [reflexivity | by destruct (json_falsy v) | by destruct v].
Qed.

Lemma inbound_input_fields op h k :
  jm_get "ingress_id"%string h ≠ None → k ∈ inboundPatchFields →
  jm_get k (inbound_input op h) = Some (canonical k (field k h)).
Proof.
  intros Hi Hk. unfold inbound_input.
  unfold inboundPatchFields in Hk. rewrite !elem_of_cons, elem_of_nil in Hk.
  destruct (jm_get "ingress_id"%string h) as [v|] eqn:Hv; [|done].
  destruct Hk as [->|[->|[->|[->|[->|[->|[]]]]]]]; unfold str, field; rewrite ?Hv;
    try reflexivity;
    match goal with |- jm_get ?k _ = _ => destruct (jm_get k h) as [w|]; [|reflexivity] end;
    first [reflexivity | by destruct w].
Qed.

Definition fields_of (k : ChangeKind) : list string :=
  match k with inbound_kind => inboundPatchFields | entry_kind => entryPatchFields | line_kind => [] end.
Definition defaults_of (k : ChangeKind) : obj :=
  match k with inbound_kind => new_inbound | entry_kind => new_entry | line_kind => [] end.
Definition patch_of (op : operation) : option obj :=
  match kind op with inbound_kind => inbound op | entry_kind => entry op | line_kind => None end.
Definition live_of (catalog : option TopologyCatalog) (op : operation) : option obj :=
  match kind op with
  | inbound_kind => find_live (id op) (default [] (inbounds <$> catalog))
  | entry_kind => find_live (id op) (default [] (entries <$> catalog))
  | line_kind => None
  end.

Lemma spread_patch a live patch k v :
  jm_wf patch → jm_get k patch = Some v → jm_get k (spread (spread a live) patch) = Some v.
Proof. intros Hwf Hv. by rewrite jm_get_spread, Hv. Qed.

Lemma hydrate_fields_has patch live defaults ks h0 h p k v :
  hydrate_fields patch live defaults ks h0 = (h, p) → k ∈ ks →
  (∀ v, jm_get k patch = Some v → jm_get k h0 = Some v) → jm_get k patch = Some v ∨ missing k patch = true →
  jm_get k h ≠ None.
Proof.
  intros Hh Hk H0 Hv. pose proof (hydrate_fields_get patch live defaults ks h0 k) as Hg. rewrite Hh in Hg.
  destruct Hg as [-> _]. rewrite bool_decide_eq_true_2 by done. cbn. destruct Hv as [Hv| ->]; [|done].
  destruct (missing k patch); [done|]. by rewrite (H0 v Hv).
Qed.

Lemma open_entry_refs catalog op patch e :
  kind op = entry_kind → entry op = Some patch → jm_wf patch → no_refs patch →
  (∀ live, live_of catalog op = Some live → jm_wf live ∧ no_refs live) →
  entry (open_operation catalog op) = Some e → no_refs e.
Proof.
  intros Hk He Hwf [Hn1 Hn2] Hlive. unfold open_operation, live_of in *. rewrite Hk, He in *.
  set (live := find_live _ _) in *. set (h0 := spread _ patch).
  destruct (hydrate_fields patch live new_entry entryPatchFields h0) as [h p] eqn:Hh.
  assert (∀ r, r ∉ entryPatchFields → jm_get r patch = None → jm_get r (default [] live) = None →
    jm_get r new_entry = None → jm_get r h = None) as Hno.
  { intros r Hr Hp Hl Hd. pose proof (hydrate_fields_get patch live new_entry entryPatchFields h0 r) as Hg.
    rewrite Hh in Hg. destruct Hg as [-> _]. rewrite bool_decide_eq_false_2 by done. cbn. unfold h0.
    rewrite jm_get_spread, Hp by done. destruct live as [lv|]; cbn in *; [|done].
    destruct (Hlive lv eq_refl) as [Hlw _]. by rewrite jm_get_spread, Hl. }
  assert (no_refs (default [] live)) as [Hl1 Hl2].
  { destruct live as [lv|]; [by apply (Hlive lv)|done]. }
  assert (no_refs h) as Href by (split; apply Hno; try done; by decide_closed).
  by destruct (inbound op); cbn; intros [= <-].
Qed.

Lemma open_entry catalog op patch :
  kind op = entry_kind → entry op = Some patch → jm_wf patch → no_refs patch →
  (∀ live, live_of catalog op = Some live → jm_wf live ∧ no_refs live) →
  (∀ k, k ∈ entryPatchFields → json_text (canonical k (effective patch (live_of catalog op) new_entry k))
     = json_text (effective patch (live_of catalog op) new_entry k)) →
  ∃ input, entry (operationInput (open_operation catalog op)) = Some input ∧
    sends_patch entryPatchFields patch input.
Proof.
  intros Hk He Hwf Hn Hlive Hclean. unfold open_operation at 1. rewrite Hk, He.
  assert (live_of catalog op = find_live (id op) (default [] (entries <$> catalog))) as Hlo by (unfold live_of; by rewrite Hk).
  set (live := find_live _ _) in *. set (h0 := spread _ patch).
  destruct (hydrate_fields patch live new_entry entryPatchFields h0) as [h p] eqn:Hh.
  exists (omitPreserved (entry_input h) (Some p)). split.
  { unfold operationInput. cbn -[entry_input]. rewrite Hk. destruct (inbound op), (line op); reflexivity. }
  eapply (sends_patch_intro _ _ _ _ entry_input); [done|exact Hh| | |rewrite Hlo in Hclean; exact Hclean].
  - intros k v _ Hv. by apply spread_patch.
  - intros k Hkf. apply entry_input_fields; [|done]. apply (open_entry_refs catalog op patch h); try done.
    unfold open_operation. rewrite Hk, He. fold live. fold h0. rewrite Hh. by destruct (inbound op).
Qed.

Lemma open_inbound catalog op patch :
  kind op = inbound_kind → inbound op = Some patch → jm_wf patch →
  (∀ live, live_of catalog op = Some live → jm_wf live) →
  (∀ k, k ∈ inboundPatchFields → json_text (canonical k (effective patch (live_of catalog op) new_inbound k))
     = json_text (effective patch (live_of catalog op) new_inbound k)) →
  ∃ input, inbound (operationInput (open_operation catalog op)) = Some input ∧
    sends_patch inboundPatchFields patch input.
Proof.
  intros Hk He Hwf Hlive Hclean. unfold open_operation, live_of in *. rewrite Hk, He in *.
  set (live := find_live _ _) in *. set (h1 := spread _ patch). cbn zeta.
  set (h0 := if _ : bool then jm_delete "settings"%string h1 else h1).
  assert (∀ k v, k ∈ inboundPatchFields → jm_get k patch = Some v → jm_get k h0 = Some v) as H0.
  { intros k v Hkf Hv. assert (jm_get k h1 = Some v) by by apply spread_patch. unfold h0. case_match; [|done].
    rewrite jm_get_delete_ne; [done|]. intros ->. revert Hkf. by decide_closed. }
  destruct (hydrate_fields patch live new_inbound inboundPatchFields h0) as [h p] eqn:Hh.
  set (opened := with_patch op (Some h) (entry op) (Some p)).
  exists (omitPreserved (inbound_input opened h) (Some p)). split.
  { unfold operationInput, opened. cbn -[inbound_input]. rewrite Hk. destruct (line op), (entry op); reflexivity. }
  eapply (sends_patch_intro _ _ _ _ (inbound_input opened));
    [done|exact Hh|exact H0| |exact Hclean].
  intros k Hkf. apply inbound_input_fields; [|done].
  assert ("ingress_id"%string ∈ inboundPatchFields) as Hin by decide_closed.
  destruct (jm_get "ingress_id"%string patch) as [v|] eqn:Hv.
  - eapply hydrate_fields_has; [exact Hh|done|intros; by apply H0|by left].
  - eapply (hydrate_fields_has _ _ _ _ _ _ _ _ JNull); [exact Hh|done|intros; by apply H0|].
    right. unfold missing. by rewrite Hv.
Qed.

Lemma kind_operationInput op : kind (operationInput op) = kind op.
Proof. unfold operationInput. destruct (kind op) eqn:Hk, (inbound op), (line op), (entry op); exact Hk || done. Qed.

Lemma kind_open_operation catalog op : kind (open_operation catalog op) = kind op.
Proof.
  unfold open_operation. cbn zeta. destruct (kind op) eqn:Hk, (inbound op), (entry op);
    try destruct (hydrate_fields _ _ _ _ _); exact Hk.
Qed.

(** Texts are trimmed, and an unset reference is 0 or the empty text. *)
Definition clean (o : obj) : Prop :=
  ∀ k v, jm_get k o = Some v → v ≠ JNull →
    (k ∈ ["tag"; "listen"; "name"; "display_host"; "region"]%string → ∃ t, v = JStr t ∧ trim t = t) ∧
    (k ∈ ["inbound_id"; "line_id"]%string → json_falsy v = true → v = n 0) ∧
    (k = "line_member_id"%string → json_falsy v = true → v = JStr []).

Lemma clean_canonical o k v : clean o → jm_get k o = Some v → v ≠ JNull → canonical k v = v.
Proof.
  intros Hc Hv Hn. destruct (Hc k v Hv Hn) as (H1 & H2 & H3). unfold canonical. repeat case_bool_decide.
  - destruct H1 as (t & -> & Ht); [done|]. by rewrite Ht.
  - destruct (json_falsy v); [symmetry; by apply H2|done].
  - destruct (json_falsy v); [rewrite H3; done|done].
  - done.
Qed.

Lemma missing_false k o : missing k o = false → ∃ v, jm_get k o = Some v ∧ field k o = v ∧ v ≠ JNull.
Proof. unfold missing, field. destruct (jm_get k o) as [[]|]; try done; eauto. Qed.

Lemma effective_canonical patch live kd k :
  clean patch → (∀ l, live = Some l → clean l) → k ∈ fields_of kd →
  json_text (canonical k (effective patch live (defaults_of kd) k)) = json_text (effective patch live (defaults_of kd) k).
Proof.
  intros Hp Hl Hk. f_equal. unfold effective, live_or_default.
  assert (canonical k (field k (defaults_of kd)) = field k (defaults_of kd)) as Hd.
  { destruct kd; cbn [fields_of defaults_of] in *; unfold inboundPatchFields, entryPatchFields in Hk;
      rewrite ?elem_of_cons, elem_of_nil in Hk; repeat (destruct Hk as [->|Hk]; [vm_compute; reflexivity|]); done. }
  destruct (missing k patch) eqn:Hm.
  - destruct live as [l|]; [|done]. destruct (missing k l) eqn:Hml; [done|].
    apply missing_false in Hml as (v & Hv & -> & Hn). by apply (clean_canonical l); [apply Hl|..].
  - apply missing_false in Hm as (v & Hv & -> & Hn). by apply (clean_canonical patch).
Qed.

(** Nothing else is sent. *)
Lemma omitPreserved_none value p k : jm_get k value = None → jm_get k (omitPreserved value p) = None.
Proof.
  unfold omitPreserved. generalize (default [] p). intros l. revert value.
  induction l as [|[k' v] l IH]; intros value Hv; [done|]. cbn [foldl]. apply IH. case_match; [|done].
  rewrite jm_get_delete. destruct (bool_decide (k = _)); done.
Qed.

Lemma input_keys op k input :
  (kind op = inbound_kind → set_num (id op) = true) →
  (∀ e, kind op = entry_kind → entry op = Some e → no_refs e) →
  patch_of (operationInput op) = Some input → k ∉ fields_of (kind op) → jm_get k input = None.
Proof.
  intros Hid He Hi Hk. unfold patch_of in Hi. rewrite kind_operationInput in Hi. unfold operationInput in Hi.
  destruct (kind op) eqn:Hkind; [|done|]; cbn [fields_of] in Hk.
  - destruct (inbound op) as [v|]; [|done]. destruct (line op), (entry op); cbn -[inbound_input] in Hi;
      (injection Hi as <-); apply omitPreserved_none; unfold inbound_input; rewrite Hid by done; rewrite app_nil_r;
      apply jm_get_None; intros Hin; apply Hk; revert Hin; destruct (jm_get "ingress_id"%string v); cbn; unfold inboundPatchFields; set_solver.
  - destruct (entry op) as [v|] eqn:Hv; [|by destruct (inbound op), (line op)].
    destruct (He v eq_refl eq_refl) as [H1 H2].
    assert (patch_of (operationInput op) = Some (omitPreserved (entry_input v) (preservedFields op))) as Hx.
    { unfold patch_of. rewrite kind_operationInput, Hkind. unfold operationInput. rewrite Hkind, Hv.
      by destruct (inbound op), (line op). }
    assert (input = omitPreserved (entry_input v) (preservedFields op)) as ->.
    { destruct (inbound op), (line op); cbn -[entry_input] in Hi; congruence. }
    apply omitPreserved_none. apply jm_get_None. intros Hin. apply Hk. revert Hin. unfold entry_input, str_opt.
    rewrite H1, H2. cbn. unfold entryPatchFields. set_solver.
Qed.

Lemma open_id catalog op : id (open_operation catalog op) = id op.
Proof.
  unfold open_operation. cbn zeta. destruct (kind op), (inbound op), (entry op);
    try destruct (hydrate_fields _ _ _ _ _); done.
Qed.

(** C29: opening a stored draft that edits a resource and saving it again sends
    exactly what the draft has.  The draft is an operation that edits an
    existing inbound (its identifier is set) or that creates or edits an entry;
    lines, and new inbounds (whose missing server, protocol, core and settings
    are filled in), are not covered.  Of the six fields of an inbound (tag,
    listen, port, enabled, sort, ingress_id) and the eleven of an entry (name,
    inbound_id, line_id, line_member_id, display_host, display_port, rate, sort,
    enabled, tags, region), one that the draft omits, or has as null, is
    omitted again, although the editor fills it with the live or the default
    value; one that the draft has is sent with its value (compared as JSON);
    and no other field is sent.  The draft and the live resource have unique
    keys and no references to other operations, and are clean: their names,
    hosts and other texts are trimmed strings, and an unset identifier is 0 or
    the empty text. *)
Theorem draft_reopens_unchanged (catalog : option TopologyCatalog) (op : operation) (patch : obj) :
  patch_of op = Some patch → (kind op = inbound_kind → set_num (id op) = true) →
  jm_wf patch → no_refs patch → clean patch →
  (∀ live, live_of catalog op = Some live → jm_wf live ∧ no_refs live ∧ clean live) →
  ∃ input, patch_of (operationInput (open_operation catalog op)) = Some input ∧
    ∀ k, json_text <$> jm_get k input =
      if decide (k ∈ match kind op with
          | inbound_kind => ["tag"; "listen"; "port"; "enabled"; "sort"; "ingress_id"]
          | _ => ["name"; "inbound_id"; "line_id"; "line_member_id"; "display_host"; "display_port"; "rate";
                  "sort"; "enabled"; "tags"; "region"]
          end%string)
      then match jm_get k patch with None | Some JNull => None | Some v => Some (json_text v) end
      else None.
Proof.
  intros Hp Hid Hwf Hn Hclean Hlive.
  assert (∃ input, patch_of (operationInput (open_operation catalog op)) = Some input ∧
    sends_patch (fields_of (kind op)) patch input) as (input & Hin & Hsends).
  { pose proof Hp as Hp'. unfold patch_of in *. rewrite kind_operationInput, kind_open_operation.
    assert (∀ k, k ∈ fields_of (kind op) → json_text (canonical k (effective patch (live_of catalog op) (defaults_of (kind op)) k))
      = json_text (effective patch (live_of catalog op) (defaults_of (kind op)) k)) as Heff.
    { intros k Hk. apply effective_canonical; [done| |done]. intros l Hl. by apply Hlive. }
    destruct (kind op) eqn:Hk; [|done|]; cbn [fields_of defaults_of] in *.
    - apply open_inbound; try done. intros live Hl. by apply Hlive.
    - apply open_entry; try done. intros live Hl. split; by apply Hlive. }
  exists input. split; [done|]. intros k.
  assert (match kind op with inbound_kind => ["tag"; "listen"; "port"; "enabled"; "sort"; "ingress_id"]
    | _ => ["name"; "inbound_id"; "line_id"; "line_member_id"; "display_host"; "display_port"; "rate"; "sort";
            "enabled"; "tags"; "region"] end%string = fields_of (kind op)) as ->.
  { unfold patch_of in Hp. by destruct (kind op). }
  case_decide as Hk.
  - rewrite (Hsends k Hk). unfold missing. by destruct (jm_get k patch) as [[]|].
  - apply fmap_None. apply (input_keys (open_operation catalog op) k input); rewrite ?kind_open_operation, ?open_id; try done.
    intros e He. unfold patch_of in Hp. rewrite He in Hp. apply (open_entry_refs catalog op patch); try done.
    intros live Hl. split; by apply Hlive.
Qed.

(** A draft that changes only the rate of a live entry. *)
Definition sample_entry : obj :=
  [("id", n 7); ("name", s_ "tokyo"); ("inbound_id", n 5); ("line_id", n 0); ("line_member_id", s_ "");
   ("display_host", s_ "example.org"); ("display_port", n 443); ("rate", n 1); ("sort", n 3);
   ("enabled", JBool true); ("tags", JArr [s_ "fast"]); ("region", s_ "jp")]%string.
Definition sample_catalog : TopologyCatalog := {| inbounds := []; lines := []; entries := [sample_entry] |}.
Definition sample_edit : operation :=
  {| key := js "k"; kind := entry_kind; id := Some (num_of_Z 7); revision := Some (js "r"); inbound := None;
     line := None; inbound_ref := None; entry := Some [("rate", n 2)]%string; editMode := false;
     preservedFields := None |}.

Example draft_reopens_unchanged_witness :
  ∃ input, patch_of (operationInput (open_operation (Some sample_catalog) sample_edit)) = Some input ∧
    json_text <$> jm_get "rate"%string input = Some (n 2) ∧ jm_get "name"%string input = None.
Proof.
  destruct (draft_reopens_unchanged (Some sample_catalog) sample_edit [("rate", n 2)]%string) as (input & Hi & Hk).
  - reflexivity.
  - discriminate.
  - apply NoDup_singleton.
  - split; reflexivity.
  - intros k v Hv _. cbn in Hv. case_bool_decide; [|discriminate Hv]. subst k. injection Hv as <-.
    split_and!; [|intros ? Hf; discriminate Hf|discriminate]. intros H. exfalso. revert H. by decide_closed.
  - intros live Hl. vm_compute in Hl. injection Hl as <-.
    split; [apply (bool_decide_eq_true_1 _); vm_compute; reflexivity|]. split; [by split|].
    intros k v Hv Hn. cbn in Hv.
    repeat (case_bool_decide; [subst k; injection Hv as <-; split_and!;
      [intros Hq; first [eexists; split; [reflexivity|vm_compute; reflexivity]|exfalso; revert Hq; by decide_closed]
      |intros Hq Hf; first [reflexivity|discriminate Hf|exfalso; revert Hq; by decide_closed]
      |intros Hq Hf; first [reflexivity|discriminate Hf|discriminate Hq]]|]).
    discriminate Hv.
  - exists input. split; [exact Hi|]. split; [rewrite Hk; vm_compute; reflexivity|].
    apply fmap_None with json_text. rewrite Hk. vm_compute. reflexivity.
Defined.

End TopologyChangesets.
