(* ===== verification/PathRoutes.v ===== *)
(** * Line paths of the console

    [admin/src/lib/path-routes.ts] (module [PathRoutes]: the steps of a path and
    the branches of a route, their completeness and their editing) and
    [admin/src/lib/path-health.ts] (module [PathHealth]: the policy of health
    probes and the evidence they give).  [Date.parse] and [toLowerCase] are
    parameters without laws. *)

From Stdlib Require Import SpecFloat.
From S2P Require Import Prelude JsMap JsString Json JsValue JsNumber.

Open Scope Z_scope.

(** [value || 0] and [value || null] on an optional number. *)
Definition or_zero (x : option num) : num :=
  match x with Some x => if num_truthy x then x else num_of_Z 0 | None => num_of_Z 0 end.
Definition or_null (x : option num) : option num :=
  match x with Some x => if num_truthy x then Some x else None | None => None end.
Definition or_text (s : option jsstring) (d : jsstring) : jsstring :=
  match s with Some ((_ :: _) as s) => s | _ => d end.
Definition gt0 (x : num) : bool := num_ltb (num_of_Z 0) x.
Definition int_between (x : num) (lo hi : Z) : bool :=
  isInteger x && num_leb (num_of_Z lo) x && num_leb x (num_of_Z hi).

Module PathHealth.

Record PathHealthPolicy := {
  enabled : bool;
  auto_failover : bool;
  server_name : option jsstring;
  interval_seconds : num;
  timeout_seconds : num;
  failure_threshold : num;
  recovery_threshold : num;
}.

(** A policy as it is stored: any field may be missing. *)
Record partial_policy := {
  p_enabled : option bool;
  p_auto_failover : option bool;
  p_server_name : option jsstring;
  p_interval_seconds : option num;
  p_timeout_seconds : option num;
  p_failure_threshold : option num;
  p_recovery_threshold : option num;
}.

Definition pathHealthInput (toLowerCase : jsstring → jsstring) (value : option partial_policy)
    : PathHealthPolicy :=
  let get {A} (f : partial_policy → option A) (d : A) : A := default d (value ≫= f) in
  {| enabled := get p_enabled false; auto_failover := get p_auto_failover false;
     server_name := Some (or_text ((λ s, toLowerCase (trim s)) <$> (value ≫= p_server_name)) []);
     interval_seconds := get p_interval_seconds (num_of_Z 15);
     timeout_seconds := get p_timeout_seconds (num_of_Z 3);
     failure_threshold := get p_failure_threshold (num_of_Z 3);
     recovery_threshold := get p_recovery_threshold (num_of_Z 2) |}.

(** The characters of a host name label. *)
Definition is_digit (u : Z) : bool := bool_decide (48 ≤ u ≤ 57).
Definition is_alnum (u : Z) : bool := is_digit u || bool_decide (65 ≤ u ≤ 90) || bool_decide (97 ≤ u ≤ 122).

(** [/^\[a-zA-Z0-9\](?:\[a-zA-Z0-9-\]{0,61}\[a-zA-Z0-9\])?$/] *)
Definition valid_label (label : jsstring) : bool :=
  match label with
  | [] => false
  | u :: rest =>
      is_alnum u &&
      match last rest with
      | None => true
      | Some v => is_alnum v && bool_decide (length rest ≤ 62)%nat
                  && every (λ w, is_alnum w || bool_decide (w = 45)) rest
      end
  end.

(** [/^\d+(\.\d+){3}$/] *)
Definition is_ipv4_like (name : jsstring) : bool :=
  let parts := split_char 46 name [] in
  bool_decide (length parts = 4%nat) && every (λ p, negb (bool_decide (p = [])) && every is_digit p) parts.

Definition validPathHealthPolicy (value : PathHealthPolicy) (strategy : jsstring) : bool :=
  let name := or_text (trim <$> server_name value) [] in
  let validName := bool_decide (name = [])
    || bool_decide (length name ≤ 253)%nat && negb (is_ipv4_like name)
       && every valid_label (split_char 46 name []) in
  validName && int_between (interval_seconds value) 10 300 && int_between (timeout_seconds value) 1 10
  && num_leb (timeout_seconds value) (interval_seconds value)
  && int_between (failure_threshold value) 1 10 && int_between (recovery_threshold value) 1 10
  && (negb (enabled value) || negb (auto_failover value) || bool_decide (strategy = js "failover")).

(** ** Evidence *)

Record EvidenceClock := { monotonic : num; wall : num }.

Definition pathHealthElapsed (start now received : EvidenceClock) : num :=
  foldl math_max (num_of_Z 0)
    [num_sub (monotonic now) (monotonic start); num_sub (wall now) (wall start);
     num_sub (monotonic received) (monotonic start); num_sub (wall received) (wall start)].

Record PathHealthCandidate := {
  status : jsstring;
  eligible : bool;
  observed_at : option jsstring;
  fresh_for_ms : num;
  epoch : jsstring;
  sequence : num;
}.

Record PathHealthView := {
  v_enabled : bool;
  capable : bool;
  v_status : jsstring;
  candidates : list PathHealthCandidate;
}.

Record evidence := { e_status : jsstring; e_fresh : bool; e_eligible : bool }.

Section evidence.
Context (date_parse : jsstring → num).

Definition pathCandidateEvidence (c : PathHealthCandidate) (elapsedMS : num) (available : bool) : evidence :=
  let fresh := available && isFinite (fresh_for_ms c) && num_ltb (math_max (num_of_Z 0) elapsedMS) (fresh_for_ms c)
    && isFinite (date_parse (or_text (observed_at c) [])) && gt0 (sequence c)
    && negb (bool_decide (epoch c = [])) in
  let status := if fresh && bool_decide (status c ∈ js <$> ["up"; "down"; "degraded"; "unsupported"]%string)
                then status c else js "unknown" in
  {| e_status := status; e_fresh := fresh;
     e_eligible := fresh && eligible c
       && (bool_decide (status = js "up") || bool_decide (status = js "degraded")) |}.

Definition pathHealthStatus (view : PathHealthView) (elapsedMS : num) (available : bool) : jsstring :=
  if negb available then js "unknown"
  else if negb (v_enabled view) then js "disabled"
  else if bool_decide (v_status view ∈ js <$> ["paused"; "unsupported"; "unknown"]%string) then v_status view
  else if negb (capable view) || bool_decide (candidates view = []) then js "unknown"
  else
    let states := (λ c, e_status (pathCandidateEvidence c elapsedMS available)) <$> candidates view in
    if every (λ s, bool_decide (s = js "up")) states then js "healthy"
    else if some (λ s, bool_decide (s = js "up") || bool_decide (s = js "degraded")) states then js "degraded"
    else if every (λ s, bool_decide (s = js "down")) states then js "down"
    else if every (λ s, bool_decide (s = js "unsupported")) states then js "unsupported"
    else js "unknown".
End evidence.

(** ** Evidence only decays *)

Lemma math_max0_mono x y :
  num_leb x y = true → num_leb (math_max (num_of_Z 0) x) (math_max (num_of_Z 0) y) = true.
Proof.
  intros Hxy. pose proof (num_leb_not_nan x y Hxy) as [Hx Hy]. unfold math_max.
  change (is_nan (num_of_Z 0)) with false. rewrite Hx, Hy. cbn [orb].
  change (num_of_Z 0) with (S754_zero false).
  destruct (num_ltb (S754_zero false) x) eqn:H0x, (num_ltb (S754_zero false) y) eqn:H0y; try done.
  - apply num_not_ltb in H0y; [|done..]. by apply (num_leb_trans _ y).
  - by apply num_ltb_leb.
Qed.

Lemma fresh_decays date_parse c e1 e2 available :
  num_leb e1 e2 = true → e_fresh (pathCandidateEvidence date_parse c e2 available) = true →
  pathCandidateEvidence date_parse c e1 available = pathCandidateEvidence date_parse c e2 available.
Proof.
  intros Hle Hf. unfold pathCandidateEvidence in *. cbn [e_fresh] in Hf. reflect_bools. subst.
  match goal with H : num_ltb _ _ = true |- _ => rewrite H;
    rewrite (num_leb_ltb_trans _ _ _ (math_max0_mono _ _ Hle) H) end. done.
Qed.

(** A status other than unknown is that of fresh evidence. *)
Lemma known_is_fresh date_parse c e available s :
  s ≠ js "unknown" → e_status (pathCandidateEvidence date_parse c e available) = s →
  e_fresh (pathCandidateEvidence date_parse c e available) = true.
Proof.
  intros Hs. unfold pathCandidateEvidence. cbn [e_status e_fresh].
  destruct (_ && negb (bool_decide (epoch c = []))); [done|]. cbn [andb]. intros <-. by destruct Hs.
Qed.

(** Probe evidence never improves by waiting: what is shown as healthy, or
    offered as eligible, after some time was so at every earlier moment, so a
    slow or copied response cannot give an old probe a new life. *)
Theorem evidence_only_decays (date_parse : jsstring → num) (view : PathHealthView) (e1 e2 : num)
    (available : bool) :
  num_leb e1 e2 = true →
  (pathHealthStatus date_parse view e2 available = js "healthy" →
   pathHealthStatus date_parse view e1 available = js "healthy") ∧
  ∀ c, e_eligible (pathCandidateEvidence date_parse c e2 available) = true →
       pathCandidateEvidence date_parse c e1 available = pathCandidateEvidence date_parse c e2 available.
Proof.
  intros Hle. split.
  - unfold pathHealthStatus. repeat (case_match; [done|]).
    destruct (every _ (_ <$> candidates view)) eqn:He at 1.
    + intros _. assert (every (λ s, bool_decide (s = js "up"))
        ((λ c, e_status (pathCandidateEvidence date_parse c e1 available)) <$> candidates view) = true) as ->; [|done].
      rewrite every_true in He |- *. intros s (c & -> & Hc)%list_elem_of_fmap.
      specialize (He _ (list_elem_of_fmap_2 _ _ _ Hc)). apply bool_decide_eq_true_1 in He.
      apply bool_decide_eq_true_2. rewrite (fresh_decays date_parse c e1 e2 available Hle); [done|]. by apply (known_is_fresh _ _ _ _ (js "up")).
    + intros Hbad. exfalso. revert Hbad. clear. repeat case_match; vm_compute; congruence.
  - intros c He. apply fresh_decays; [done|]. unfold pathCandidateEvidence in *. cbn [e_eligible e_fresh] in *.
    apply andb_true_iff in He as [He _]. by apply andb_true_iff in He as [He _].
Qed.

Definition sample_candidate : PathHealthCandidate :=
  {| status := js "up"; eligible := true; observed_at := Some (js "2026-01-01"); fresh_for_ms := num_of_Z 5000;
     epoch := js "e"; sequence := num_of_Z 1 |}.
Definition sample_view : PathHealthView :=
  {| v_enabled := true; capable := true; v_status := js "active"; candidates := [sample_candidate] |}.

Example evidence_only_decays_witness :
  pathHealthStatus (λ _, num_of_Z 0) sample_view (num_of_Z 1000) true = js "healthy".
Proof.
  apply (evidence_only_decays (λ _, num_of_Z 0) sample_view (num_of_Z 1000) (num_of_Z 4000) true);
    vm_compute; reflexivity.
Defined.
End PathHealth.

Module PathRoutes.
Import PathHealth.

(** ** Paths *)

Record PathStep := {
  step_id : jsstring;
  node_id : option num;
  ingress_id : option num;
  address_mode : option jsstring;
  backend : option jsstring;
  path_id : option num;
  path_revision : option num;
  line_id : option num;
  line_version : option num;
  include_landing : option bool;
}.

Record PathHop := { hop_backend : option jsstring }.

Record ForwardPath := { fp_id : num; fp_version : num; hops : list PathHop }.

Record PathBranch := {
  branch_id : jsstring;
  b_path_id : num;
  b_path_revision : num;
  weight : num;
  ports : list num;
}.

(** One step of [pathInput]: a step is a path, a line or a node. *)
Definition step_input (step : PathStep) : PathStep :=
  let blank := {| step_id := step_id step; node_id := None; ingress_id := None; address_mode := None;
    backend := None; path_id := None; path_revision := None; line_id := None; line_version := None;
    include_landing := None |} in
  match path_id step, line_id step with
  | Some p, _ =>
      {| step_id := step_id blank; node_id := None; ingress_id := None; address_mode := None; backend := None;
         path_id := Some p; path_revision := path_revision step; line_id := None; line_version := None;
         include_landing := None |}
  | None, Some l =>
      {| step_id := step_id blank; node_id := None; ingress_id := None; address_mode := None; backend := None;
         path_id := None; path_revision := None; line_id := Some l; line_version := line_version step;
         include_landing := Some (default false (include_landing step)) |}
  | None, None =>
      {| step_id := step_id blank; node_id := Some (or_zero (node_id step)); ingress_id := or_null (ingress_id step);
         address_mode := Some (or_text (address_mode step) (js "default")); backend := backend step;
         path_id := None; path_revision := None; line_id := None; line_version := None;
         include_landing := None |}
  end.

Definition pathInput (name : jsstring) (version : num) (steps : list PathStep)
    : jsstring * num * list PathStep := (trim name, version, step_input <$> steps).

Definition validPathPort (x : num) : bool := isInteger x && gt0 x && num_leb x (num_of_Z 65535).

Definition validPathRevision (x : option num) : bool :=
  match x with Some x => isInteger x && gt0 x | None => false end.

Definition step_complete (step : PathStep) : bool :=
  match path_id step, line_id step with
  | Some p, _ => gt0 p && validPathRevision (path_revision step)
  | None, Some l => gt0 l && validPathRevision (line_version step)
  | None, None => gt0 (default (num_of_Z 0) (node_id step))
  end.

Definition pathStepsComplete (steps : list PathStep) : bool :=
  bool_decide (0 < length steps ≤ 8)%nat && every step_complete steps.

(** The revision of a path that a branch has pinned. *)
Definition pinned (branch : PathBranch) (path : option ForwardPath) : bool :=
  match path with
  | Some p => num_eqb (fp_id p) (b_path_id branch) && num_eqb (fp_version p) (b_path_revision branch)
              && negb (bool_decide (length (hops p) = 0%nat))
  | None => false
  end.

Definition branch_complete (branch : PathBranch) (path : option ForwardPath) : bool :=
  pinned branch path
  && bool_decide (length (ports branch) = length (default [] (hops <$> path)))
  && every validPathPort (ports branch) && int_between (weight branch) 1 100.

(** [branches.every((branch, index) => ... paths\[index\] ...)] *)
Fixpoint every2 {A B} (f : A → option B → bool) (l : list A) (k : list (option B)) : bool :=
  match l with
  | [] => true
  | x :: l => f x (mjoin (head k)) && every2 f l (tail k)
  end.

Definition routePortsComplete (branches : list PathBranch) (paths : list (option ForwardPath)) : bool :=
  bool_decide (0 < length branches ≤ 8)%nat && every2 branch_complete branches paths.

Definition pathBackend (b : option jsstring) : jsstring := or_text b (js "relay").

Inductive issue := entryRelayRequired | udpRoundRobin.

Definition pathSelectionIssue (protocol backend : option jsstring) (branches : nat) (strategy : jsstring)
    : option issue :=
  if bool_decide (1 < branches)%nat && negb (bool_decide (pathBackend backend = js "relay"))
  then Some entryRelayRequired
  else if bool_decide (1 < branches)%nat && negb (bool_decide (or_text protocol [] = []))
          && negb (bool_decide (or_text protocol [] = js "tcp")) && negb (bool_decide (strategy = js "roundrobin"))
  then Some udpRoundRobin else None.

Inductive transport := supported | unsupported | unknown.

(** [None] is the exception that a missing path beyond the branches throws. *)
Definition pathHealthTransport (protocol : option jsstring) (entry_backend : option jsstring)
    (branches : list PathBranch) (paths : list (option ForwardPath)) : option transport :=
  if bool_decide (or_text protocol [] = []) then Some unknown
  else if negb (bool_decide (or_text protocol [] = js "tcp"))
          || negb (bool_decide (pathBackend entry_backend = js "relay")) then Some unsupported
  else if bool_decide (branches = []) || negb (every2 pinned branches paths) then Some unknown
  else (fix go paths := match paths with
        | [] => Some supported
        | Some p :: paths =>
            if every (λ h, bool_decide (pathBackend (hop_backend h) = js "relay")) (hops p) then go paths
            else Some unsupported
        | None :: _ => None
        end) paths.

(** ** Editing *)

(** [selectPathSourceLine]: the fields of the step that change. *)
Definition selectPathSourceLine (step : PathStep) (id : num) (sources : list (num * num))
    : option (num * num) :=
  if match line_id step with Some l => num_eqb id l | None => false end then None
  else if num_eqb id (num_of_Z 0) then Some (num_of_Z 0, num_of_Z 0)
  else list_find_first (λ s, num_eqb s.1 id) sources.

Record option_row := { row_value : jsstring; row_label : jsstring; disabled : bool }.

Definition pathSourceLineOptions (lines sources : list (num * jsstring)) (step : PathStep) (pinnedLabel : jsstring)
    : list option_row :=
  let options := (λ l, {| row_value := number_string l.1; row_label := l.2; disabled := false |}) <$> sources in
  match line_id step with
  | Some l =>
      if num_truthy l && validPathRevision (line_version step) && negb (some (λ s, num_eqb s.1 l) sources)
      then
        let name := or_text (snd <$> list_find_first (λ x, num_eqb x.1 l) lines) (js "#" ++ number_string l) in
        options ++ [{| row_value := number_string l; row_label := name ++ js " · " ++ pinnedLabel;
                       disabled := true |}]
      else options
  | None => options
  end.

(** [splice(from, 1)] and [splice(to, 0, item)] *)
Definition movePathItem {T} (items : list T) (from to : Z) : list T :=
  let len := Z.of_nat (length items) in
  if bool_decide (from < 0) || bool_decide (to < 0) || bool_decide (len ≤ from) || bool_decide (len ≤ to)
  then items
  else match items !! Z.to_nat from with
    | Some item =>
        let next := delete (Z.to_nat from) items in
        take (Z.to_nat to) next ++ item :: drop (Z.to_nat to) next
    | None => items
    end.

(** ** Moving an item *)

Lemma delete_middle {A} (l k : list A) x : delete (length l) (l ++ x :: k) = l ++ k.
Proof. induction l as [|y l IH]; [done|]. cbn. f_equal. apply IH. Qed.

Lemma move_spec {T} (items : list T) from to x :
  0 ≤ from < Z.of_nat (length items) → 0 ≤ to < Z.of_nat (length items) →
  items !! Z.to_nat from = Some x →
  movePathItem items from to
  = take (Z.to_nat to) (delete (Z.to_nat from) items) ++ x :: drop (Z.to_nat to) (delete (Z.to_nat from) items).
Proof.
  intros Hf Ht Hx. unfold movePathItem. cbn zeta. rewrite !bool_decide_eq_false_2 by lia. cbn. by rewrite Hx.
Qed.

Lemma length_delete_at {T} (items : list T) i :
  (i < length items)%nat → length (delete i items) = (length items - 1)%nat.
Proof. intros Hi. apply lookup_lt_is_Some in Hi. by apply length_delete. Qed.

(** Undoing the two splices. *)
Lemma move_delete {T} (items : list T) from to :
  0 ≤ from < Z.of_nat (length items) → 0 ≤ to < Z.of_nat (length items) →
  let moved := movePathItem items from to in
  moved !! Z.to_nat to = items !! Z.to_nat from ∧ delete (Z.to_nat to) moved = delete (Z.to_nat from) items ∧
  length moved = length items.
Proof.
  intros Hf Ht moved. destruct (lookup_lt_is_Some_2 items (Z.to_nat from)) as [x Hx]; [lia|].
  pose proof (move_spec items from to x Hf Ht Hx) as Hm. fold moved in Hm.
  pose proof (length_delete_at items (Z.to_nat from) ltac:(lia)) as Hlen.
  set (next := delete (Z.to_nat from) items) in *.
  assert (length (take (Z.to_nat to) next) = Z.to_nat to) as Htake by (rewrite length_take; lia).
  rewrite Hm. split_and!.
  - rewrite Hx. rewrite lookup_app_r, Htake, Nat.sub_diag by lia. done.
  - rewrite <-Htake at 1. rewrite delete_middle. apply take_drop.
  - rewrite length_app. cbn. rewrite length_drop. lia.
Qed.

Lemma list_from_delete {T} (l k : list T) i :
  length l = length k → (i < length l)%nat → l !! i = k !! i → delete i l = delete i k → l = k.
Proof.
  revert k i. induction l as [|x l IH]; intros [|y k] [|i]; cbn; try lia; intros Hl Hi Hx Hd; try done.
  - injection Hx as ->. by rewrite Hd.
  - injection Hd as -> Hd. f_equal. apply (IH k i); [lia..|done|done].
Qed.

(** Moving an item in a path moves only that item: it ends up at its
    target, the others keep their order, and moving it back restores the list;
    positions outside the list change nothing. *)
Theorem move_item_exact {T} (items : list T) (from to : Z) :
  let inside i := 0 ≤ i < Z.of_nat (length items) in
  let moved := movePathItem items from to in
  moved ≡ₚ items ∧ movePathItem moved to from = items ∧
  (inside from ∧ inside to →
   moved !! Z.to_nat to = items !! Z.to_nat from ∧ delete (Z.to_nat to) moved = delete (Z.to_nat from) items) ∧
  (¬ (inside from ∧ inside to) → moved = items).
Proof.
  intros inside moved. destruct (decide (inside from ∧ inside to)) as [[Hf Ht]|Hout].
  - destruct (move_delete items from to Hf Ht) as (H1 & H2 & H3). fold moved in H1, H2, H3.
    assert (inside from ∧ inside to) as Hin by done. unfold inside in *.
    destruct (move_delete moved to from) as (H4 & H5 & H6); [rewrite H3; lia..|].
    split_and!; try done.
    + destruct (lookup_lt_is_Some_2 items (Z.to_nat from)) as [x Hx]; [lia|].
      rewrite Hx in H1. by rewrite (delete_Permutation _ _ _ H1), (delete_Permutation _ _ _ Hx), H2.
    + apply (list_from_delete _ _ (Z.to_nat from)); [lia|lia|congruence|congruence].
  - assert (∀ l : list T, length l = length items → ∀ a b, ¬ (inside a ∧ inside b) → movePathItem l a b = l) as Hid.
    { intros l Hl a b Hn. unfold movePathItem, inside in *. rewrite Hl. case_match eqn:Hb; [done|].
      reflect_bools. exfalso. apply Hn. lia. }
    assert (moved = items) as Heq by by apply Hid.
    split_and!; [by rewrite Heq| |done|done]. rewrite Heq. apply Hid; [done|]. tauto.
Qed.

(** ** Health probes *)

Lemma every2_lookup {A B} (f : A → option B → bool) l k i x :
  every2 f l k = true → l !! i = Some x → f x (mjoin (k !! i)) = true.
Proof.
  revert k i. induction l as [|y l IH]; intros k i; [done|]. cbn [every2].
  intros [Hy Hl]%andb_true_iff. destruct i as [|i]; cbn.
  - intros [= ->]. by destruct k.
  - intros Hx. specialize (IH (tail k) i Hl Hx). destruct k; cbn in *; [|done]. by destruct i.
Qed.

(** Health probes are offered only when they can work: the transport is
    called supported only for a TCP route behind a relay whose every branch has
    its pinned path revision loaded, with relays at all its hops. *)
Theorem health_supported_sound (protocol entry_backend : option jsstring) (branches : list PathBranch)
    (paths : list (option ForwardPath)) :
  pathHealthTransport protocol entry_backend branches paths = Some supported →
  protocol = Some (js "tcp") ∧ pathBackend entry_backend = js "relay" ∧ branches ≠ [] ∧
  ∀ i b, branches !! i = Some b → ∃ p, paths !! i = Some (Some p) ∧
    num_eqb (fp_id p) (b_path_id b) = true ∧ num_eqb (fp_version p) (b_path_revision b) = true ∧
    hops p ≠ [] ∧ ∀ h, h ∈ hops p → pathBackend (hop_backend h) = js "relay".
Proof.
  unfold pathHealthTransport. case_match eqn:Hp; [done|]. case_match eqn:Ht; [done|].
  case_match eqn:Hb; [done|]. intros Hgo. reflect_bools. split_and!; [|done|done|].
  { match goal with H : or_text protocol [] = js "tcp" |- _ => revert H end.
    destruct protocol as [[|u s]|]; cbn [or_text]; [done|congruence|done]. }
  intros i b Hi. match goal with H : every2 _ _ _ = true |- _ => pose proof (every2_lookup _ _ _ _ _ H Hi) as Hpin end.
  destruct (paths !! i) as [[p|]|] eqn:Hpath; cbn in Hpin; [|done..]. exists p. reflect_bools. split_and!; try done.
  { intros Hnil. match goal with H : length (hops p) ≠ 0%nat |- _ => apply H; by rewrite Hnil end. }
  intros h Hh. clear -Hgo Hpath Hh. revert i Hpath. induction paths as [|[q|] paths IH]; intros [|i]; cbn; try done.
  - intros [= ->]. cbn in Hgo. destruct (every _ (hops p)) eqn:He; [|done]. rewrite every_true in He.
    specialize (He h Hh). by reflect_bools.
  - cbn in Hgo. destruct (every _ (hops q)); [|done]. by apply IH.
Qed.

Definition sample_branch : PathBranch :=
  {| branch_id := js "b"; b_path_id := num_of_Z 3; b_path_revision := num_of_Z 2; weight := num_of_Z 1;
     ports := [num_of_Z 443] |}.
Definition sample_path : ForwardPath :=
  {| fp_id := num_of_Z 3; fp_version := num_of_Z 2; hops := [{| hop_backend := None |}] |}.

Example health_supported_sound_witness :
  ∃ p, [Some sample_path] !! 0%nat = Some (Some p) ∧ hops p ≠ [].
Proof.
  destruct (health_supported_sound (Some (js "tcp")) None [sample_branch] [Some sample_path])
    as (_ & _ & _ & H); [vm_compute; reflexivity|].
  destruct (H 0%nat sample_branch eq_refl) as (p & Hp & _ & _ & Hh & _). by exists p.
Defined.
End PathRoutes.
