(* ===== verification/SubDesign.v ===== *)
(** * Subscription designs ([admin/src/lib/sub-design.ts])

    The editable model of a subscription: policy groups that refer to each
    other by name, rules, rule sets, protection policies.  The functions of
    the file are pure; [structuredClone] copies a value, which is the identity
    here.  Fields that the functions only carry along ([\[field: string\]:
    unknown]) are kept in [extra].

    Strings are compared and concatenated only, so the development does not
    look inside them.  [toLowerCase] is a parameter: the Unicode case tables
    are not reproduced, and no theorem depends on them. *)

From S2P Require Import Prelude JsMap Json.

Open Scope Z_scope.

Module SubDesign.

(** ** Data *)

Record DesignGroup := mkGroup {
  name : string;
  type : string;
  members : list string;
  url : option string;
  interval : option num;
  timeout : option num;
  tolerance : option num;
  region : option string;
  match_case_sensitive : option bool;
  group_extra : jsmap string json;
}.

Record DesignRule := mkRule {
  set : string;
  policy : string;
  rule_extra : jsmap string json;
}.

Record DesignRuleSet := mkRuleSet {
  key : string;
  set_name : string;
  set_url : option string;
  inline : option string;
  set_extra : jsmap string json;
}.

Record DesignSource := mkSource {
  source_key : string;
  source_name : string;
  source_revision : option string;
  source_url : option string;
  source_extra : jsmap string json;
}.

Inductive ClaudeRuleType := domain | full.
Record ClaudeRule := mkClaudeRule { rule_type : ClaudeRuleType; value : string }.

Inductive ClaudeSource := builtin | v2fly.
Record ClaudeRuleSnapshot := mkSnapshot {
  snapshot_source : ClaudeSource;
  revision : string;
  snapshot_rules : list ClaudeRule;
}.

Record DesignEnhancements := mkEnhancements {
  regions : option bool;
  node_dual_stack : option bool;
  dns_protection : option bool;
  claude : option bool;
  webrtc : option bool;
  quic : option bool;
  claude_policy : option string;
  claude_rules : option ClaudeRuleSnapshot;
  dns_policy : option string;
  enhancements_extra : jsmap string json;
}.

Record SubDesign := mkDesign {
  groups : list DesignGroup;
  rules : list DesignRule;
  final : string;
  source : option DesignSource;
  enhancements : option DesignEnhancements;
  rule_sets : option (list DesignRuleSet);
  design_extra : jsmap string json;
}.

Record DesignFormatSupport := mkSupport {
  format : string;
  supported : bool;
  reasons : list string;
  reason_codes : option (list string);
  warnings : option (list string);
  warning_codes : option (list string);
}.

Inductive ClaudeStatus := unknown | applied | disabled.
Record ClaudeRuleApplied := mkApplied {
  status : ClaudeStatus;
  snapshot : option ClaudeRuleSnapshot;
  applied_at : option num;
}.
Record ClaudeRulesData := mkRulesData {
  data_builtin : ClaudeRuleSnapshot;
  data_applied : ClaudeRuleApplied;
  applied_formats : option (jsmap string ClaudeRuleApplied);
}.

(** ** Operations *)

Definition draftClaudeRules (design : SubDesign) (dflt : ClaudeRuleSnapshot) : ClaudeRuleSnapshot :=
  default dflt (enhancements design ≫= claude_rules).

(** [new Map(entries)] *)
Definition map_of {V} (l : list (string * V)) : jsmap string V :=
  foldl (λ m kv, jm_set kv.1 kv.2 m) [] l.

(** [\[...new Set(l)\]] *)
Definition unique (l : list string) : list string :=
  jm_keys (map_of ((λ x, (x, ())) <$> l)).

Definition claude_type_name (x : ClaudeRuleType) : string :=
  match x with domain => "domain" | full => "full" end.

Section diff.
Variable toLowerCase : string → string.

Definition rule_key (r : ClaudeRule) : string :=
  claude_type_name (rule_type r) +:+ ":" +:+ toLowerCase (value r).

Definition rule_map (s : ClaudeRuleSnapshot) : jsmap string ClaudeRule :=
  map_of ((λ r, (rule_key r, r)) <$> snapshot_rules s).

Definition diffClaudeRules (before after : ClaudeRuleSnapshot) : list ClaudeRule * list ClaudeRule :=
  let oldRules := rule_map before in
  let newRules := rule_map after in
  ((bfilter (λ kv, negb (jm_has kv.1 oldRules)) newRules).*2,
   (bfilter (λ kv, negb (jm_has kv.1 newRules)) oldRules).*2).
End diff.

Definition no_enhancements : DesignEnhancements :=
  mkEnhancements None None None None None None None None None [].

Definition setClaudeEnabled (design : SubDesign) (enabled : bool) : SubDesign :=
  let e := default no_enhancements (enhancements design) in
  mkDesign (groups design) (rules design) (final design) (source design)
    (Some (mkEnhancements (regions e) (node_dual_stack e) (dns_protection e) (Some enabled)
             (webrtc e) (quic e) (claude_policy e) (claude_rules e) (dns_policy e)
             (enhancements_extra e)))
    (rule_sets design) (design_extra design).

Definition designFormatLabels : jsmap string string :=
  [("clash", "mihomo / Clash Meta"); ("stash", "Stash"); ("surge", "Surge");
   ("surfboard", "Surfboard"); ("loon", "Loon"); ("qx", "Quantumult X"); ("egern", "Egern")]%string.

Definition claudeAppliedFormats (d : ClaudeRulesData) : list (string * ClaudeRuleApplied) :=
  (λ f, (f, default (if bool_decide (f = "clash"%string) then data_applied d
                     else mkApplied unknown None None)
              (applied_formats d ≫= jm_get f))) <$> jm_keys designFormatLabels.

Definition rename_ref (old new x : string) : string := if bool_decide (x = old) then new else x.

Definition with_name (n : string) (g : DesignGroup) : DesignGroup :=
  mkGroup n (type g) (members g) (url g) (interval g) (timeout g) (tolerance g) (region g)
    (match_case_sensitive g) (group_extra g).
Definition with_members (l : list string) (g : DesignGroup) : DesignGroup :=
  mkGroup (name g) (type g) l (url g) (interval g) (timeout g) (tolerance g) (region g)
    (match_case_sensitive g) (group_extra g).

Definition rename_enhancements (old new : string) (e : DesignEnhancements) : DesignEnhancements :=
  mkEnhancements (regions e) (node_dual_stack e) (dns_protection e) (claude e) (webrtc e) (quic e)
    (rename_ref old new <$> claude_policy e) (claude_rules e) (rename_ref old new <$> dns_policy e)
    (enhancements_extra e).

(** An index outside the groups throws: [None]. *)
Definition renameDesignGroup (design : SubDesign) (index : nat) (new : string) : option SubDesign :=
  match groups design !! index with
  | None => None
  | Some g =>
      let old := name g in
      let gs := <[index := with_name new g]> (groups design) in
      if bool_decide (old = ""%string)
      then Some (mkDesign gs (rules design) (final design) (source design) (enhancements design)
                   (rule_sets design) (design_extra design))
      else Some (mkDesign
        ((λ g, with_members (rename_ref old new <$> members g) g) <$> gs)
        ((λ r, mkRule (set r) (rename_ref old new (policy r)) (rule_extra r)) <$> rules design)
        (rename_ref old new (final design))
        (source design)
        (rename_enhancements old new <$> enhancements design)
        (rule_sets design) (design_extra design))
  end.

Definition selectedDesignFormats (support : list DesignFormatSupport) (selected : option (list string))
    : list string :=
  format <$> bfilter (λ item, supported item &&
    match selected with None => true | Some l => bool_decide (format item ∈ l) end) support.

(** A label of a reason code: a text, or a function of the detail. *)
Inductive label := LText (s : string) | LFun (f : string → string).

Definition reason_text (labels : string → option label) (item : DesignFormatSupport)
    (index : nat) (code : string) : string :=
  let detail := default code (reasons item !! index) in
  match labels code with
  | Some (LFun f) => f detail
  | Some (LText s) => s
  | None => detail
  end.

Definition item_reasons (labels : string → option label) (item : DesignFormatSupport) : list string :=
  match reason_codes item with
  | None | Some [] => reasons item
  | Some codes => imap (reason_text labels item) codes ++ drop (length codes) (reasons item)
  end.

Definition designSupportReasons (support : list DesignFormatSupport)
    (labels : string → option label) : list string :=
  unique (bfilter (λ item, negb (supported item)) support ≫= item_reasons labels).

Definition item_warnings (labels : string → option string) (item : DesignFormatSupport) : list string :=
  let ws := default [] (warnings item) in
  let codes := default [] (warning_codes item) in
  unique (imap (λ i code, match labels code with
                          | Some s => s
                          | None => default code (ws !! i)
                          end) codes ++ drop (length codes) ws).

Definition designSupportWarnings (support : list DesignFormatSupport)
    (labels : string → option string) : list (string * list string) :=
  bfilter (λ x, negb (bool_decide (x.2 = [])))
    ((λ item, (format item, item_warnings labels item)) <$> bfilter supported support).

(** The members of the first group of a name. *)
Definition group_members (design : SubDesign) (p : string) : option (list string) :=
  members <$> list_find_first (λ g, bool_decide (name g = p)) (groups design).

(** [members.some(...)] with a callback that updates the shared [seen] set. *)
Fixpoint some_seen (f : string → gset string → option (bool * gset string)) (l : list string)
    (seen : gset string) : option (bool * gset string) :=
  match l with
  | [] => Some (false, seen)
  | m :: l =>
      match f m seen with
      | Some (false, seen) => some_seen f l seen
      | r => r
      end
  end.

(** The recursion of [designPolicyCanDirect]; [None] is lack of fuel. *)
Fixpoint can_direct (fuel : nat) (design : SubDesign) (p : string) (seen : gset string)
    : option (bool * gset string) :=
  match fuel with
  | O => None
  | S fuel =>
      if bool_decide (p = "DIRECT"%string) then Some (true, seen)
      else if bool_decide (p ∈ seen) then Some (false, seen)
      else some_seen (can_direct fuel design) (default [] (group_members design p)) ({[p]} ∪ seen)
  end.

(** The search goes at most one level deeper than there are groups. *)
Definition designPolicyCanDirect (design : SubDesign) (p : string) : option bool :=
  fst <$> can_direct (S (length (groups design))) design p ∅.

Definition designCatalogue (catalogue : list DesignRuleSet) (design : SubDesign) : list DesignRuleSet :=
  let items := map_of ((λ i, (key i, i)) <$> catalogue) in
  let items := foldl (λ m i, jm_set (key i) i m) items (default [] (rule_sets design)) in
  let items := foldl (λ m r, if jm_has (set r) m then m
                             else jm_set (set r) (mkRuleSet (set r) (set r) None None []) m)
                 items (rules design) in
  jm_values items.

(** [index] is the position of an item. *)
Definition moveDesignItem {T} (items : list T) (index : nat) (direction : Z) : list T :=
  let target := Z.of_nat index + direction in
  if bool_decide (target < 0) || bool_decide (Z.of_nat (length items) ≤ target) then items
  else match items !! index, items !! Z.to_nat target with
  | Some a, Some b => <[Z.to_nat target := a]> (<[index := b]> items)
  | _, _ => items
  end.

(** ** Reachability of the direct route *)

Definition member_of (d : SubDesign) (p m : string) : Prop :=
  ∃ l, group_members d p = Some l ∧ m ∈ l.

Definition reaches_direct (d : SubDesign) (p : string) : Prop := rtc (member_of d) p "DIRECT"%string.

Lemma some_seen_true f l seen seen' :
  some_seen f l seen = Some (true, seen') →
  ∃ m s1 s2, m ∈ l ∧ f m s1 = Some (true, s2).
Proof.
  revert seen. induction l as [|m l IH]; intros seen; cbn; [done|].
  destruct (f m seen) as [[[] s]|] eqn:Hm; intros; simplify_eq.
  - exists m, seen, seen'. set_solver.
  - destruct (IH s) as (m' & s1 & s2 & ? & ?); [done|]. exists m', s1, s2. set_solver.
Qed.

Lemma can_direct_sound fuel d p seen seen' :
  can_direct fuel d p seen = Some (true, seen') → reaches_direct d p.
Proof.
  revert p seen seen'. induction fuel as [|fuel IH]; intros p seen seen'; cbn; [done|].
  case_bool_decide; [by intros; subst; constructor|]. case_bool_decide; [done|].
  intros (m & s1 & s2 & Hm & Hd)%some_seen_true. apply (rtc_l _ _ m); [|by eapply IH].
  destruct (group_members d p) as [l|] eqn:Hl; [|set_solver]. by exists l.
Qed.

(** What a negative answer has explored. *)
Definition explored (d : SubDesign) (seen seen' : gset string) : Prop :=
  seen ⊆ seen' ∧
  ∀ v m, v ∈ seen' → v ∉ seen → member_of d v m → m ∈ seen' ∧ m ≠ "DIRECT"%string.

Lemma explored_trans d s1 s2 s3 : explored d s1 s2 → explored d s2 s3 → explored d s1 s3.
Proof.
  intros [H1 H2] [H3 H4]. split; [set_solver|]. intros v m Hv Hn Hm.
  destruct (decide (v ∈ s2)); [|eauto]. destruct (H2 v m) as [? ?]; auto.
Qed.

Lemma some_seen_false d f l seen seen' :
  (∀ m s s', f m s = Some (false, s') → explored d s s' ∧ m ∈ s' ∧ m ≠ "DIRECT"%string) →
  some_seen f l seen = Some (false, seen') →
  explored d seen seen' ∧ ∀ m, m ∈ l → m ∈ seen' ∧ m ≠ "DIRECT"%string.
Proof.
  intros Hf. revert seen. induction l as [|m l IH]; intros seen; cbn.
  - intros [= <-]. split; [split; [done|set_solver]|set_solver].
  - destruct (f m seen) as [[[] s]|] eqn:Hm; try done. intros Hl.
    destruct (Hf _ _ _ Hm) as (He & Hin & Hne). destruct (IH _ Hl) as [He' Hall].
    split; [by eapply explored_trans|].
    intros m' [->|?]%elem_of_cons; [|auto]. split; [|done]. by apply He'.
Qed.

Lemma can_direct_explored fuel d p seen seen' :
  can_direct fuel d p seen = Some (false, seen') →
  explored d seen seen' ∧ p ∈ seen' ∧ p ≠ "DIRECT"%string.
Proof.
  revert p seen seen'. induction fuel as [|fuel IH]; intros p seen seen'; cbn; [done|].
  case_bool_decide; [done|]. case_bool_decide as Hin.
  - intros [= <-]. split; [split; [done|set_solver]|done].
  - intros [[Hsub Hex] Hall]%(some_seen_false d); [|apply IH].
    split_and!; [split; [set_solver|]|set_solver|done].
    intros v m Hv Hn Hm. destruct (decide (v = p)) as [->|]; [|apply (Hex v); set_solver].
    destruct Hm as (l & Hl & Hml). rewrite Hl in Hall. by apply Hall.
Qed.

Lemma explored_closed d seen p :
  explored d ∅ seen → p ∈ seen → p ≠ "DIRECT"%string → ¬ reaches_direct d p.
Proof.
  intros [_ Hex].
  assert (∀ q, rtc (member_of d) p q → p ∈ seen → p ≠ "DIRECT"%string → q ≠ "DIRECT"%string) as Hq.
  { intros q Hr. induction Hr as [|p m q Hm _ IH]; [done|]. intros Hin Hne.
    destruct (Hex p m) as [? ?]; [done|set_solver|done|]. by apply IH. }
  intros Hin Hne Hr. by apply (Hq _ Hr).
Qed.

(** Fuel: every level puts one more group name into [seen]. *)
Definition unseen (d : SubDesign) (seen : gset string) : gset string :=
  list_to_set (name <$> groups d) ∖ seen.

Lemma group_members_name d p l :
  group_members d p = Some l → p ∈ (list_to_set (name <$> groups d) : gset string).
Proof.
  unfold group_members. destruct (list_find_first _ _) as [g|] eqn:Hg; [|done]. intros _.
  apply list_find_first_Some in Hg as [Hin Hn]. reflect_bools. subst p.
  apply elem_of_list_to_set, list_elem_of_fmap. eauto.
Qed.

Lemma some_seen_total d f l n seen :
  (∀ m s, (size (unseen d s) < n)%nat → is_Some (f m s)) →
  (∀ m s s', f m s = Some (false, s') → s ⊆ s') →
  (size (unseen d seen) < n)%nat → is_Some (some_seen f l seen).
Proof.
  intros Hf Hmono. revert seen. induction l as [|m l IH]; intros seen Hn; cbn; [done|].
  destruct (Hf m seen Hn) as [[[] s] Hs]; rewrite Hs; [done|]. apply IH.
  apply Hmono in Hs. assert (size (unseen d s) ≤ size (unseen d seen))%nat; [|lia].
  apply subseteq_size. unfold unseen. set_solver.
Qed.

Lemma can_direct_total fuel d p seen :
  (size (unseen d seen) < fuel)%nat → is_Some (can_direct fuel d p seen).
Proof.
  revert p seen. induction fuel as [|fuel IH]; intros p seen Hn; [lia|]. cbn.
  case_bool_decide; [done|]. case_bool_decide as Hp; [done|].
  destruct (group_members d p) as [l|] eqn:Hl; [|done]. cbn.
  apply (some_seen_total d _ _ fuel); [apply IH| |].
  - intros m s s' [[? _] _]%can_direct_explored. done.
  - apply group_members_name in Hl.
    assert (size (unseen d ({[p]} ∪ seen)) < size (unseen d seen))%nat; [|lia].
    apply subset_size. unfold unseen. set_solver.
Qed.

Lemma size_list_to_set_le (l : list string) : (size (list_to_set l : gset string) ≤ length l)%nat.
Proof.
  induction l as [|x l IH]; cbn; [by rewrite size_empty|]. rewrite size_union_alt, size_singleton.
  assert (size (list_to_set l ∖ {[x]} : gset string) ≤ size (list_to_set l : gset string))%nat
    by (apply subseteq_size; set_solver). lia.
Qed.

Lemma designPolicyCanDirect_total d p : is_Some (designPolicyCanDirect d p).
Proof.
  unfold designPolicyCanDirect. destruct (can_direct_total (S (length (groups d))) d p ∅) as [[b s] ->].
  - assert (size (unseen d ∅) ≤ length (name <$> groups d))%nat as Hle.
    { unfold unseen. rewrite difference_empty_L. apply size_list_to_set_le. }
    rewrite length_fmap in Hle. lia.
  - done.
Qed.

Lemma designPolicyCanDirect_reaches d p :
  designPolicyCanDirect d p = Some true ↔ reaches_direct d p.
Proof.
  destruct (designPolicyCanDirect_total d p) as [b Hb]. rewrite Hb. unfold designPolicyCanDirect in Hb.
  destruct (can_direct _ d p ∅) as [[b' s]|] eqn:Hc; [|done].
  injection Hb as ->. destruct b; split; intros Hx; try done.
  - by eapply can_direct_sound.
  - exfalso. apply can_direct_explored in Hc as (He & Hin & Hne). by apply (explored_closed d s p).
Qed.

(** ** Renaming is a change of names *)

(** All names and references of a design. *)
Definition references (d : SubDesign) : list string :=
  (groups d ≫= λ g, name g :: members g) ++ (policy <$> rules d) ++ [final d]
  ++ match enhancements d with
     | Some e => option_list (claude_policy e) ++ option_list (dns_policy e)
     | None => []
     end.

Definition rename_group (old new : string) (g : DesignGroup) : DesignGroup :=
  with_name (rename_ref old new (name g)) (with_members (rename_ref old new <$> members g) g).

Lemma rename_groups gs i g new :
  NoDup (name <$> gs) → gs !! i = Some g →
  (λ x, with_members (rename_ref (name g) new <$> members x) x) <$> <[i := with_name new g]> gs
  = rename_group (name g) new <$> gs.
Proof.
  intros Hnd Hi. apply list_eq. intros j. rewrite !list_lookup_fmap.
  destruct (decide (j = i)) as [->|Hj].
  - rewrite list_lookup_insert_eq by by eapply lookup_lt_Some. rewrite Hi. cbn.
    unfold rename_group, rename_ref at 2. by rewrite bool_decide_eq_true_2.
  - rewrite list_lookup_insert_ne by done. destruct (gs !! j) as [x|] eqn:Hx; [|done]. cbn.
    unfold rename_group. f_equal. destruct x as [n]. cbn. unfold rename_ref at 2.
    rewrite bool_decide_eq_false_2; [done|]. intros Hn. apply Hj.
    apply (NoDup_lookup _ j i n Hnd); rewrite list_lookup_fmap, ?Hx, ?Hi; cbn; congruence.
Qed.

Lemma rename_design d i g new :
  NoDup (name <$> groups d) → groups d !! i = Some g → name g ≠ ""%string →
  renameDesignGroup d i new = Some (mkDesign
    (rename_group (name g) new <$> groups d)
    ((λ r, mkRule (set r) (rename_ref (name g) new (policy r)) (rule_extra r)) <$> rules d)
    (rename_ref (name g) new (final d)) (source d)
    (rename_enhancements (name g) new <$> enhancements d) (rule_sets d) (design_extra d)).
Proof.
  intros Hnd Hi Hne. unfold renameDesignGroup. rewrite Hi. cbn zeta.
  rewrite bool_decide_eq_false_2 by done. by rewrite rename_groups.
Qed.

Lemma rename_ref_inj old new x y :
  x ≠ new → y ≠ new → rename_ref old new x = rename_ref old new y ↔ x = y.
Proof. intros. unfold rename_ref. repeat case_bool_decide; naive_solver. Qed.

Lemma rename_ref_back old new x : x ≠ new → rename_ref new old (rename_ref old new x) = x.
Proof. intros. unfold rename_ref. repeat case_bool_decide; naive_solver. Qed.

Lemma rename_refs_back old new (l : list string) :
  new ∉ l → rename_ref new old <$> (rename_ref old new <$> l) = l.
Proof.
  intros Hn. rewrite <-list_fmap_compose. rewrite <-(list_fmap_id l) at 2.
  apply list_fmap_ext. intros i x Hx. cbn. apply rename_ref_back. intros ->.
  apply Hn. by eapply list_elem_of_lookup_2.
Qed.

Lemma find_renamed old new p gs :
  p ≠ new → new ∉ (name <$> gs) →
  list_find_first (λ g, bool_decide (name g = rename_ref old new p)) (rename_group old new <$> gs)
  = rename_group old new <$> list_find_first (λ g, bool_decide (name g = p)) gs.
Proof.
  intros Hp Hn. induction gs as [|g gs IH]; [done|]. csimpl in *.
  apply not_elem_of_cons in Hn as [Hg Hn].
  rewrite (bool_decide_ext _ (name g = p)) by (cbn; apply rename_ref_inj; congruence).
  case_bool_decide; [done|by apply IH].
Qed.

Lemma group_members_renamed d d' old new p :
  groups d' = rename_group old new <$> groups d → p ≠ new → new ∉ references d →
  group_members d' (rename_ref old new p) = (λ l : list string, rename_ref old new <$> l) <$> group_members d p.
Proof.
  intros Hg Hp Hn. unfold group_members. rewrite Hg, find_renamed; [|done|].
  - by destruct (list_find_first _ _).
  - intros (g & -> & Hin)%list_elem_of_fmap. apply Hn. unfold references.
    apply elem_of_app. left. apply list_elem_of_bind. exists g. split; [set_solver|done].
Qed.

Lemma member_not_fresh d new p m : new ∉ references d → member_of d p m → m ≠ new.
Proof.
  intros Hn (l & Hl & Hm) ->. apply Hn. unfold group_members in Hl.
  destruct (list_find_first _ _) as [g|] eqn:Hg; [|done]. injection Hl as <-.
  apply list_find_first_Some in Hg as [Hin _]. unfold references.
  apply elem_of_app. left. apply list_elem_of_bind. exists g. split; [set_solver|done].
Qed.

Section renamed.
Context (d d' : SubDesign) (old new : string).
Hypothesis Hgroups : groups d' = rename_group old new <$> groups d.
Hypothesis Hfresh : new ∉ references d.

Lemma rtc_renamed p q :
  rtc (member_of d) p q → p ≠ new →
  rtc (member_of d') (rename_ref old new p) (rename_ref old new q).
Proof using Hgroups Hfresh.
  intros Hr. induction Hr as [|p m q Hm _ IH]; intros Hp; [constructor|].
  apply (rtc_l _ _ (rename_ref old new m)); [|apply IH; by eapply member_not_fresh].
  destruct Hm as (l & Hl & Hm). exists (rename_ref old new <$> l).
  rewrite (group_members_renamed d), Hl by done. split; [done|]. apply list_elem_of_fmap. eauto.
Qed.

Lemma rtc_renamed_inv p' q' :
  rtc (member_of d') p' q' → ∀ p, p ≠ new → p' = rename_ref old new p →
  ∃ q, q' = rename_ref old new q ∧ q ≠ new ∧ rtc (member_of d) p q.
Proof using Hgroups Hfresh.
  intros Hr. induction Hr as [p'|p' m' q' Hm _ IH]; intros p Hp ->.
  - exists p. split_and!; [done|done|constructor].
  - destruct Hm as (l & Hl & Hm). rewrite (group_members_renamed d) in Hl by done.
    destruct (group_members d p) as [l0|] eqn:Hl0; [|done]. injection Hl as <-.
    apply list_elem_of_fmap in Hm as (m & -> & Hm).
    assert (member_of d p m) as Hpm by by exists l0.
    destruct (IH m) as (q & -> & Hq & Hr); [by eapply member_not_fresh|done|].
    exists q. split_and!; [done|done|by eapply rtc_l].
Qed.

Lemma reaches_renamed p :
  old ≠ "DIRECT"%string → new ≠ "DIRECT"%string → p ≠ new →
  reaches_direct d' (rename_ref old new p) ↔ reaches_direct d p.
Proof using Hgroups Hfresh.
  intros Hold Hnew Hp. assert (rename_ref old new "DIRECT" = "DIRECT"%string) as Hd.
  { unfold rename_ref. by rewrite bool_decide_eq_false_2. }
  unfold reaches_direct. split; intros Hr.
  - destruct (rtc_renamed_inv _ _ Hr p Hp eq_refl) as (q & Hq & Hqn & Hrq).
    rewrite <-Hd in Hq. apply rename_ref_inj in Hq; [|congruence..]. by subst.
  - rewrite <-Hd. by apply rtc_renamed.
Qed.
End renamed.

Lemma rename_group_back old new g :
  name g ≠ new → new ∉ members g → rename_group new old (rename_group old new g) = g.
Proof.
  intros Hn Hm. destruct g. unfold rename_group, with_name, with_members. cbn in *.
  by rewrite rename_ref_back, rename_refs_back.
Qed.

Lemma rename_enhancements_back old new e :
  new ∉ (option_list (claude_policy e) ++ option_list (dns_policy e)) →
  rename_enhancements new old (rename_enhancements old new e) = e.
Proof.
  destruct e as [? ? ? ? ? ? [c|] ? [c'|] ?]; unfold rename_enhancements; cbn; intros Hn; repeat f_equal;
    apply rename_ref_back; set_solver.
Qed.

Lemma fmap_back {A B} (f : A → B) (h : B → A) (l : list A) :
  (∀ x, x ∈ l → h (f x) = x) → h <$> (f <$> l) = l.
Proof.
  intros H. induction l as [|x l IH]; csimpl; [done|]. rewrite H by set_solver.
  f_equal. apply IH. set_solver.
Qed.

(** ** Maps built from lists *)

Lemma map_of_snoc {V} (l : list (string * V)) kv :
  map_of (l ++ [kv]) = jm_set kv.1 kv.2 (map_of l).
Proof. unfold map_of. by rewrite foldl_app. Qed.

Lemma map_of_wf {V} (l : list (string * V)) : jm_wf (map_of l).
Proof.
  induction l as [|kv l IH] using rev_ind; [constructor|]. rewrite map_of_snoc. by apply jm_wf_set.
Qed.

Lemma map_of_keys {V} (l : list (string * V)) k : k ∈ (map_of l).*1 ↔ k ∈ l.*1.
Proof.
  induction l as [|[k' v] l IH] using rev_ind; [done|].
  rewrite map_of_snoc, jm_keys_set, fmap_app, elem_of_app. csimpl.
  rewrite list_elem_of_singleton. case_bool_decide as Hin; cbn in *.
  - rewrite IH. split; [tauto|]. intros [?| ->]; [done|]. by apply IH.
  - rewrite elem_of_app, list_elem_of_singleton, IH. done.
Qed.

(** Every entry is stored under the key of its value. *)
Definition keyed {V} (f : V → string) (m : jsmap string V) : Prop :=
  jm_wf m ∧ ∀ k v, (k, v) ∈ m → f v = k.

Lemma keyed_set {V} (f : V → string) v m : keyed f m → keyed f (jm_set (f v) v m).
Proof.
  intros [Hwf Hm]. split; [by apply jm_wf_set|]. intros k v' Hin.
  apply jm_elem_of_set in Hin; naive_solver.
Qed.

Lemma keyed_map_of {V} (f : V → string) (l : list V) : keyed f (map_of ((λ x, (f x, x)) <$> l)).
Proof.
  induction l as [|x l IH] using rev_ind; [split; [constructor|set_solver]|].
  rewrite fmap_app. csimpl. rewrite map_of_snoc. by apply (keyed_set f x).
Qed.

Lemma keyed_values {V} (f : V → string) m : keyed f m → f <$> jm_values m = m.*1.
Proof.
  intros [_ Hm]. unfold jm_values. rewrite <-list_fmap_compose. apply list_fmap_ext.
  intros i [k v] Hi. cbn. apply Hm. by eapply list_elem_of_lookup_2.
Qed.

Lemma map_of_sub {V} (f : V → string) (l : list V) k v :
  (k, v) ∈ map_of ((λ x, (f x, x)) <$> l) → v ∈ l.
Proof.
  revert k v. induction l as [|x l IH] using rev_ind; intros k v; [set_solver|].
  rewrite fmap_app. csimpl. rewrite map_of_snoc. intros Hin.
  apply jm_elem_of_set in Hin; [|apply map_of_wf]. cbn in Hin. set_solver.
Qed.

(** The values of the entries whose key another map lacks. *)
Lemma without_fmap {V} (f : V → string) (m m' : jsmap string V) :
  keyed f m → f <$> (bfilter (λ kv, negb (jm_has kv.1 m')) m).*2
              = (bfilter (λ kv, negb (jm_has kv.1 m')) m).*1.
Proof.
  intros [Hwf Hm]. apply (keyed_values f). split; [by apply jm_wf_bfilter|].
  intros k v [_ Hin]%elem_of_bfilter. by apply Hm.
Qed.

Lemma without_keys {V} (f : V → string) (m m' : jsmap string V) k :
  keyed f m →
  k ∈ f <$> (bfilter (λ kv, negb (jm_has kv.1 m')) m).*2 ↔ k ∈ m.*1 ∧ k ∉ m'.*1.
Proof.
  intros Hm. rewrite without_fmap by done. rewrite <-(jm_has_true k m'), not_true_iff_false, <-negb_true_iff.
  split.
  - intros ([k' v] & -> & [Hn Hin]%elem_of_bfilter)%list_elem_of_fmap. split; [|done].
    apply list_elem_of_fmap. by exists (k', v).
  - intros [([k' v] & -> & Hin)%list_elem_of_fmap Hn]. apply list_elem_of_fmap. exists (k', v).
    by rewrite elem_of_bfilter.
Qed.

Lemma without_NoDup {V} (f : V → string) (m m' : jsmap string V) :
  keyed f m → NoDup (f <$> (bfilter (λ kv, negb (jm_has kv.1 m')) m).*2).
Proof. intros Hm. rewrite without_fmap by done. apply jm_wf_bfilter, Hm. Qed.

Lemma map_of_keyed {V} (f : V → string) (l : list V) k :
  k ∈ (map_of ((λ x, (f x, x)) <$> l)).*1 ↔ k ∈ f <$> l.
Proof. by rewrite map_of_keys, <-list_fmap_compose. Qed.

Lemma unique_NoDup l : NoDup (unique l).
Proof. apply map_of_wf. Qed.

Lemma elem_of_unique l x : x ∈ unique l ↔ x ∈ l.
Proof.
  unfold unique, jm_keys. rewrite map_of_keys, <-list_fmap_compose.
  by rewrite (list_fmap_ext (fst ∘ λ x, (x, ())) id), list_fmap_id by done.
Qed.

(** The merged catalogue, stage by stage. *)
Lemma overlay_keyed l m :
  keyed key m → keyed key (foldl (λ m i, jm_set (key i) i m) m l).
Proof. revert m. induction l as [|i l IH]; intros m Hm; [done|]. by apply IH, (keyed_set key i). Qed.

Lemma overlay_get l m k :
  jm_get k (foldl (λ m i, jm_set (key i) i m) m l)
  = match list_find_first (λ i, bool_decide (key i = k)) (reverse l) with
    | Some i => Some i
    | None => jm_get k m
    end.
Proof.
  revert m. induction l as [|i l IH] using rev_ind; intros m; [done|].
  rewrite foldl_app, reverse_snoc. cbn. rewrite jm_get_set. rewrite IH.
  repeat case_bool_decide; congruence.
Qed.

Definition stub (k : string) : DesignRuleSet := mkRuleSet k k None None [].

Lemma stubs_get l m k :
  jm_get k (foldl (λ m r, if jm_has (set r) m then m
                          else jm_set (set r) (mkRuleSet (set r) (set r) None None []) m) m l)
  = match jm_get k m with
    | Some i => Some i
    | None => if bool_decide (k ∈ set <$> l) then Some (stub k) else None
    end.
Proof.
  revert m. induction l as [|r l IH]; intros m.
  - cbn [foldl fmap list_fmap]. rewrite bool_decide_eq_false_2 by set_solver. by destruct (jm_get k m).
  - cbn [foldl]. rewrite IH. csimpl. unfold jm_has.
    destruct (jm_get (set r) m) as [i|] eqn:Hr.
    + destruct (jm_get k m) eqn:Hk; [done|]. assert (k ≠ set r) by congruence.
      repeat case_bool_decide; set_solver.
    + rewrite jm_get_set. destruct (decide (k = set r)) as [->|Hne].
      * rewrite bool_decide_eq_true_2, Hr by done. rewrite bool_decide_eq_true_2; set_solver.
      * rewrite (bool_decide_eq_false_2 (k = set r)) by done. destruct (jm_get k m); [done|].
        repeat case_bool_decide; set_solver.
Qed.

Lemma stubs_keyed l m :
  keyed key m →
  keyed key (foldl (λ m r, if jm_has (set r) m then m
                           else jm_set (set r) (mkRuleSet (set r) (set r) None None []) m) m l).
Proof.
  revert m. induction l as [|r l IH]; intros m Hm; [done|]. cbn [foldl]. apply IH.
  case_match; [done|]. by apply (keyed_set key (stub (set r))).
Qed.

(** ** Properties *)

(** C14: [designPolicyCanDirect] always answers, also on cyclic groups, and
    answers true exactly when a chain of nested groups leads from the policy
    to DIRECT. *)
Theorem can_direct_exact (d : SubDesign) (p : string) :
  ∃ b, designPolicyCanDirect d p = Some b ∧ (b = true ↔ reaches_direct d p).
Proof.
  destruct (designPolicyCanDirect_total d p) as [b Hb]. exists b. split; [done|].
  rewrite <-designPolicyCanDirect_reaches, Hb. by destruct b.
Qed.

(** Renaming a policy group to an unused name changes names only: which
    policies can reach the direct route stays the same, and the protection
    check answers for the renamed policy what it answered before. *)
Theorem rename_keeps_routes (d d' : SubDesign) (i : nat) (g : DesignGroup) (new p : string) :
  NoDup (name <$> groups d) → groups d !! i = Some g → name g ≠ ""%string →
  name g ≠ "DIRECT"%string → new ≠ "DIRECT"%string → new ∉ references d → p ≠ new →
  renameDesignGroup d i new = Some d' →
  designPolicyCanDirect d' (rename_ref (name g) new p) = designPolicyCanDirect d p.
Proof.
  intros Hnd Hi Hne Hold Hnew Hfresh Hp Hr. rewrite (rename_design d i g) in Hr by done.
  injection Hr as <-. set (d' := mkDesign _ _ _ _ _ _ _).
  pose proof (reaches_renamed d d' (name g) new eq_refl Hfresh p Hold Hnew Hp) as Hiff.
  rewrite <-!designPolicyCanDirect_reaches in Hiff.
  destruct (designPolicyCanDirect_total d' (rename_ref (name g) new p)) as [b Hb].
  destruct (designPolicyCanDirect_total d p) as [b' Hb'].
  rewrite Hb, Hb' in *. destruct b, b'; naive_solver.
Qed.

(** Renaming a group to an unused name and back restores the design:
    every group, rule, final policy, protection policy and unknown field. *)
Theorem rename_roundtrip (d d' : SubDesign) (i : nat) (g : DesignGroup) (new : string) :
  NoDup (name <$> groups d) → groups d !! i = Some g → name g ≠ ""%string → new ≠ ""%string →
  new ∉ references d → renameDesignGroup d i new = Some d' →
  renameDesignGroup d' i (name g) = Some d.
Proof.
  intros Hnd Hi Hne Hnew Hfresh Hr. rewrite (rename_design d i g) in Hr by done.
  injection Hr as <-. unfold references in Hfresh.
  repeat (apply not_elem_of_app in Hfresh as [? Hfresh]).
  assert (∀ x, x ∈ groups d → name x ≠ new ∧ new ∉ members x) as Hgs.
  { intros x Hx. rewrite list_elem_of_bind in H. split.
    - intros <-. apply H. exists x. set_solver.
    - intros Hm. apply H. exists x. set_solver. }
  assert (name (rename_group (name g) new g) = new) as Hname.
  { cbn. unfold rename_ref. by rewrite bool_decide_eq_true_2. }
  rewrite (rename_design _ i (rename_group (name g) new g)); cbn [groups rules final enhancements
    source rule_sets design_extra]; rewrite ?Hname; [| |by rewrite list_lookup_fmap, Hi|done].
  - destruct d as [gs rs f src e sets ext]; cbn [groups rules final enhancements source rule_sets design_extra] in *.
    f_equal. f_equal.
    + apply fmap_back. intros x Hx. by apply rename_group_back; apply Hgs.
    + apply fmap_back. intros [st pl ex] Hx. unfold set, policy, rule_extra. f_equal.
      apply rename_ref_back. intros ->. apply H0. apply list_elem_of_fmap. by exists (mkRule st new ex).
    + apply rename_ref_back. set_solver.
    + destruct e as [e|]; [|done]. cbn. f_equal. by apply rename_enhancements_back.
  - rewrite <-list_fmap_compose. apply NoDup_fmap_2_strong; [|by eapply NoDup_fmap_1].
    intros x y Hx Hy. cbn. rewrite rename_ref_inj by (by apply Hgs). intros Hxy.
    apply list_elem_of_lookup in Hx as [a Ha]. apply list_elem_of_lookup in Hy as [b Hb].
    assert (a = b) as ->; [|congruence].
    apply (NoDup_lookup _ a b (name x) Hnd); rewrite list_lookup_fmap, ?Ha, ?Hb; cbn; congruence.
Qed.

(** The difference of two rule snapshots is a patch: the keys of the new
    snapshot are those of the old one without the removed rules and with the
    added ones; nothing is both added and removed, and no rule is listed
    twice. *)
Theorem diff_is_patch (lower : string → string) (before after : ClaudeRuleSnapshot) :
  let keys := λ l, rule_key lower <$> l in
  let '(added, removed) := diffClaudeRules lower before after in
  (∀ k, k ∈ keys (snapshot_rules after) ↔
     (k ∈ keys (snapshot_rules before) ∧ k ∉ keys removed) ∨ k ∈ keys added) ∧
  NoDup (keys (added ++ removed)) ∧
  (∀ r, r ∈ added → r ∈ snapshot_rules after) ∧ (∀ r, r ∈ removed → r ∈ snapshot_rules before).
Proof.
  cbn zeta. unfold diffClaudeRules. cbn zeta. unfold rule_map. set (K := rule_key lower).
  set (o := map_of ((λ r, (K r, r)) <$> snapshot_rules before)). set (n := map_of ((λ r, (K r, r)) <$> snapshot_rules after)).
  assert (keyed K o ∧ keyed K n) as [Ho Hn] by (split; apply keyed_map_of).
  split_and!.
  - intros k. rewrite !without_keys by done.
    rewrite <-(map_of_keyed K (snapshot_rules after)), <-(map_of_keyed K (snapshot_rules before)).
    fold o n.
    destruct (decide (k ∈ o.*1)), (decide (k ∈ n.*1)); tauto.
  - rewrite fmap_app. apply NoDup_app. split_and!; [by apply without_NoDup| |by apply without_NoDup].
    intros k. rewrite !without_keys by done. tauto.
  - intros r ([k v] & -> & [_ Hin]%elem_of_bfilter)%list_elem_of_fmap. by eapply map_of_sub.
  - intros r ([k v] & -> & [_ Hin]%elem_of_bfilter)%list_elem_of_fmap. by eapply map_of_sub.
Qed.

(** The catalogue offered by the editor lists every key once; a rule set
    of the draft replaces the published one of the same key, later entries
    replace earlier ones, and a key that only a rule uses stays visible as a
    stub, so no rule of the draft refers to a missing entry. *)
Theorem catalogue_complete (catalogue : list DesignRuleSet) (d : SubDesign) :
  let r := designCatalogue catalogue d in
  NoDup (key <$> r) ∧
  (∀ x, x ∈ r ↔
     match list_find_first (λ i, bool_decide (key i = key x)) (reverse (default [] (rule_sets d))),
           list_find_first (λ i, bool_decide (key i = key x)) (reverse catalogue) with
     | Some i, _ => x = i
     | None, Some i => x = i
     | None, None => x = stub (key x) ∧ key x ∈ set <$> rules d
     end) ∧
  (∀ rule, rule ∈ rules d → set rule ∈ key <$> r).
Proof.
  cbn zeta. unfold designCatalogue. cbn zeta.
  assert (map_of ((λ i, (key i, i)) <$> catalogue) = foldl (λ m i, jm_set (key i) i m) [] catalogue) as ->.
  { unfold map_of. generalize ([] : jsmap string DesignRuleSet) as m.
    induction catalogue as [|i l IH]; intros m; [done|]. apply IH. }
  set (m := foldl _ _ (rules d)).
  assert (keyed key m) as Hm.
  { apply stubs_keyed, overlay_keyed, overlay_keyed. split; [constructor|set_solver]. }
  assert (∀ k, jm_get k m = match list_find_first (λ i, bool_decide (key i = k)) (reverse (default [] (rule_sets d))),
     list_find_first (λ i, bool_decide (key i = k)) (reverse catalogue) with
     | Some i, _ => Some i | None, Some i => Some i
     | None, None => if bool_decide (k ∈ set <$> rules d) then Some (stub k) else None end) as Hget.
  { intros k. unfold m. rewrite stubs_get, !overlay_get. by repeat case_match. }
  rewrite !keyed_values by done. split_and!; [apply Hm| |].
  - intros x. assert (x ∈ jm_values m ↔ jm_get (key x) m = Some x) as ->.
    { unfold jm_values. destruct Hm as [Hwf Hm]. rewrite <-jm_elem_of by done. rewrite list_elem_of_fmap.
      split; [|by exists (key x, x)]. intros ([k v] & -> & Hin). cbn. by rewrite (Hm k v). }
    rewrite Hget. clear. destruct (list_find_first _ (reverse (default _ _))); [naive_solver|].
    destruct (list_find_first _ (reverse catalogue)); [naive_solver|].
    case_bool_decide; split; [by intros [= <-]|by intros [<- _]|done|by intros [_ ?]].
  - intros rule Hr. apply jm_get_is_Some. rewrite Hget.
    destruct (list_find_first _ (reverse (default _ _))); [done|].
    destruct (list_find_first _ (reverse catalogue)); [done|].
    rewrite bool_decide_eq_true_2; [done|]. apply list_elem_of_fmap. eauto.
Qed.

(** Moving an item one place up or down permutes the list, and moving it
    back restores the list; at the ends nothing happens. *)
Theorem move_item_swap {T} (items : list T) (index : nat) (direction : Z) :
  (index < length items)%nat → direction = 1 ∨ direction = -1 →
  let target := Z.of_nat index + direction in
  let moved := moveDesignItem items index direction in
  moved ≡ₚ items ∧
  (0 ≤ target < Z.of_nat (length items) →
     moveDesignItem moved (Z.to_nat target) (- direction) = items ∧
     moved !! Z.to_nat target = items !! index ∧ moved !! index = items !! Z.to_nat target) ∧
  (¬ 0 ≤ target < Z.of_nat (length items) → moved = items).
Proof.
  intros Hi Hd target moved. subst moved. unfold moveDesignItem. fold target.
  destruct (_ || _) eqn:Hout.
  { apply orb_true_iff in Hout. split_and!; [done| |done].
    intros Ht. exfalso. destruct Hout; reflect_bools; lia. }
  apply orb_false_iff in Hout as [H1 H2]. reflect_bools.
  destruct (lookup_lt_is_Some_2 items index Hi) as [a Ha].
  destruct (lookup_lt_is_Some_2 items (Z.to_nat target)) as [b Hb]; [lia|].
  rewrite Ha, Hb. assert (index ≠ Z.to_nat target) as Hne by lia.
  assert (∀ i, (i < length items)%nat → (i < length (<[index:=b]> items))%nat) as Hlen
    by (intros; by rewrite length_insert).
  split_and!; [|intros _|lia].
  - apply Permutation_inj. split; [by rewrite !length_insert|].
    exists (λ i, if decide (i = index) then Z.to_nat target
                 else if decide (i = Z.to_nat target) then index else i). split.
    + intros x y. repeat case_decide; lia.
    + intros i. repeat case_decide; subst.
      * rewrite list_lookup_insert_ne, list_lookup_insert_eq by (done || lia). done.
      * rewrite list_lookup_insert_eq by (rewrite length_insert; lia). done.
      * by rewrite !list_lookup_insert_ne.
  - rewrite !length_insert.
    replace (Z.of_nat (Z.to_nat target) + - direction) with (Z.of_nat index) by lia.
    rewrite Nat2Z.id, bool_decide_eq_false_2, bool_decide_eq_false_2 by lia. cbn [orb].
    rewrite list_lookup_insert_eq by (rewrite length_insert; lia).
    rewrite list_lookup_insert_ne, list_lookup_insert_eq by lia. split_and!; [|done|done].
    rewrite list_insert_insert_eq, (list_insert_id (<[index:=b]> items) (Z.to_nat target) b).
    + rewrite list_insert_insert_eq. by apply list_insert_id.
    + by rewrite list_lookup_insert_ne.
Qed.

(** The explanations shown for unsupported formats contain no text twice
    and, for every unsupported format, exactly the texts of its reasons. *)
Theorem support_reasons_exact (support : list DesignFormatSupport) (labels : string → option label) :
  NoDup (designSupportReasons support labels) ∧
  ∀ x, x ∈ designSupportReasons support labels ↔
    ∃ item, item ∈ support ∧ supported item = false ∧ x ∈ item_reasons labels item.
Proof.
  split; [apply unique_NoDup|]. intros x. unfold designSupportReasons.
  rewrite elem_of_unique, list_elem_of_bind. setoid_rewrite elem_of_bfilter.
  setoid_rewrite negb_true_iff. naive_solver.
Qed.

(** ** Witnesses *)

Definition demo_group (n : string) (l : list string) : DesignGroup :=
  mkGroup n "select" l None None None None None None [].
Definition demo_design : SubDesign :=
  mkDesign [demo_group "Proxy" ["Auto"; "DIRECT"]; demo_group "Auto" ["Proxy"; "HK"]]
    [mkRule "cn" "Proxy" []] "Auto" None None None []%string.

Lemma rename_keeps_routes_witness :
  ∃ d', renameDesignGroup demo_design 0 "Main" = Some d' ∧
        designPolicyCanDirect d' "Main" = Some true.
Proof.
  eexists. split; [vm_compute; reflexivity|].
  change "Main"%string with (rename_ref (name (demo_group "Proxy" ["Auto"; "DIRECT"])) "Main" "Proxy").
  etransitivity; [apply (rename_keeps_routes demo_design _ 0 (demo_group "Proxy" ["Auto"; "DIRECT"]) "Main" "Proxy")|].
  - decide_closed.
  - vm_compute. reflexivity.
  - vm_compute. discriminate.
  - vm_compute. discriminate.
  - vm_compute. discriminate.
  - decide_closed.
  - vm_compute. discriminate.
  - vm_compute. reflexivity.
  - vm_compute. reflexivity.
Defined.

Lemma rename_roundtrip_witness :
  ∃ d', renameDesignGroup demo_design 0 "Main" = Some d' ∧ final d' = "Auto"%string ∧
        renameDesignGroup d' 0 "Proxy" = Some demo_design.
Proof.
  eexists. split; [vm_compute; reflexivity|]. split; [reflexivity|].
  apply (rename_roundtrip demo_design _ 0 (demo_group "Proxy" ["Auto"; "DIRECT"]) "Main").
  - decide_closed.
  - vm_compute. reflexivity.
  - vm_compute. discriminate.
  - vm_compute. discriminate.
  - decide_closed.
  - vm_compute. reflexivity.
Defined.

Lemma move_item_swap_witness :
  moveDesignItem [10; 20; 30] 0 1 = [20; 10; 30] ∧ moveDesignItem [10; 20; 30] 0 1 ≡ₚ [10; 20; 30].
Proof.
  split; [vm_compute; reflexivity|]. apply (move_item_swap [10; 20; 30] 0 1); [cbn; lia|by left].
Defined.

End SubDesign.
