(* ===== verification/EntryFlow.v ===== *)
(** * Entries and ingresses of the console

    [admin/src/lib/ingress.ts] (module [Ingress]: the public ports of an ingress
    and the address a forward dials), [admin/src/lib/entry-flow.ts] (module
    [EntryFlow]: the endpoint of an entry and the chains of entries a client
    dials through) and [admin/src/lib/line-impact.ts] (module [LineImpact]).
    Identifiers and ports are integers; [0] and a missing value are both falsy.
    [Settings] is given by the fields the code reads of it, as it casts them. *)

From S2P Require Import Prelude JsMap JsString JsNumber.

Open Scope Z_scope.

(** [a || b] on texts and on optional texts. *)
Definition or_else (a b : jsstring) : jsstring := match a with [] => b | _ => a end.
Definition opt_text (a : option jsstring) : jsstring := default [] a.
(** A number in a condition, and an optional one. *)
Definition truthy_id (i : option Z) : bool := match i with Some i => negb (bool_decide (i = 0)) | None => false end.
Definition or_number (a b : Z) : Z := if bool_decide (a = 0) then b else a.

(** What [find] returns, and what it passed by. *)
Lemma list_find_first_split {A} (f : A → bool) l x :
  list_find_first f l = Some x ↔
  ∃ before after, l = before ++ x :: after ∧ f x = true ∧ ∀ y, y ∈ before → f y = false.
Proof.
  split.
  - induction l as [|y l IH]; [done|]. cbn. destruct (f y) eqn:Hy.
    + intros [= <-]. exists [], l. split_and!; [done|done|]. by intros ? ?%not_elem_of_nil.
    + intros (before & after & -> & Hx & Hb)%IH. exists (y :: before), after. split_and!; [done|done|].
      intros z [->|Hz]%elem_of_cons; [done|by apply Hb].
  - intros (before & after & -> & Hx & Hb). induction before as [|y before IH]; cbn; [by rewrite Hx|].
    rewrite Hb by (by left). apply IH. intros z Hz. apply Hb. by right.
Qed.

Module Ingress.

Record PortMapping := mkMapping { local_from : Z; local_to : Z; public_from : Z }.

Record Ingress := mkIngress {
  port_mappings : option (list PortMapping);
  line_ip : jsstring;
  entry_host : jsstring;
  entry_domain : option jsstring;
  port_from : Z;
  port_to : Z;
  port_offset : Z;
  reserved_ports : option (list Z);
}.

Definition covers (loc : Z) (m : PortMapping) : bool := bool_decide (local_from m ≤ loc ∧ loc ≤ local_to m).

Definition ingressPort (g : Ingress) (loc : Z) : Z :=
  match port_mappings g with
  | Some ((_ :: _) as ms) =>
      match list_find_first (covers loc) ms with
      | Some m => public_from m + loc - local_from m
      | None => 0
      end
  | _ =>
      if negb (bool_decide (port_from g = 0)) && bool_decide (loc < port_from g ∨ port_to g < loc) then 0
      else let p := loc + port_offset g in
           if bool_decide (0 < p ∧ p ≤ 65535) then p else 0
  end.

(** The ranges that [firstFreeIngressPort] walks through. *)
Definition port_ranges (g : Ingress) : list (Z * Z) :=
  match port_mappings g with
  | Some ((_ :: _) as ms) => (λ m, (local_from m, local_to m)) <$> ms
  | _ => [(or_number (port_from g) 1024, or_number (port_to g) 65535)]
  end.

Definition free_port (g : Ingress) (used : list Z) (p : Z) : bool :=
  negb (bool_decide (p ∈ used)) && negb (bool_decide (p ∈ default [] (reserved_ports g)))
  && negb (bool_decide (ingressPort g p = 0)).

(** The inner loop, with the number of ports left. *)
Fixpoint first_from (ok : Z → bool) (p : Z) (n : nat) : option Z :=
  match n with
  | O => None
  | S n => if ok p then Some p else first_from ok (p + 1) n
  end.

Fixpoint first_in (ok : Z → bool) (ranges : list (Z * Z)) : option Z :=
  match ranges with
  | [] => None
  | (from, to) :: rest =>
      match first_from ok from (Z.to_nat (to - from + 1)) with
      | Some p => Some p
      | None => first_in ok rest
      end
  end.

Definition firstFreeIngressPort (g : Ingress) (used : list Z) : Z :=
  default 0 (first_in (free_port g used) (port_ranges g)).

Definition hostPort (host : jsstring) (port : Z) : jsstring :=
  (if includes host [58] then [91] ++ host ++ [93] else host) ++ [58] ++ int_string port.

Inductive ForwardAddressMode := default_mode | internal.

#[global] Instance mode_eq_dec : EqDecision ForwardAddressMode.
Proof. solve_decision. Defined.

(** The fields of [Node] that are read. *)
Record address_node := mkNode {
  domain : jsstring;
  public_addr : jsstring;
  internal_addr : option jsstring;
  v6_addr : option jsstring;
}.

Definition public_host (node : address_node) (ingress : option Ingress) : jsstring :=
  match ingress with
  | Some g => or_else (line_ip g) (or_else (opt_text (entry_domain g)) (entry_host g))
  | None => or_else (domain node) (or_else (public_addr node) (opt_text (v6_addr node)))
  end.

Definition target_port (port : Z) (ingress : option Ingress) : Z :=
  match ingress with
  | Some g => match line_ip g with [] => ingressPort g port | _ => port end
  | None => port
  end.

Definition forwardingAddress (node : address_node) (port : Z) (ingress : option Ingress) (mode : ForwardAddressMode)
    : jsstring :=
  match mode with
  | internal =>
      let host := trim (opt_text (internal_addr node)) in
      if bool_decide (host ≠ [] ∧ 0 < port) then hostPort host port else []
  | default_mode =>
      let host := public_host node ingress in
      let targetPort := target_port port ingress in
      if bool_decide (host ≠ [] ∧ 0 < targetPort) then hostPort host targetPort else []
  end.

Inductive target_protocol := udp | both.

Definition forwardTargetProtocol (protocol : jsstring) : target_protocol :=
  if bool_decide (protocol ∈ [js "hysteria2"; js "tuic"]) then udp else both.

(** ** Ports *)

Lemma first_from_spec ok p n :
  match first_from ok p n with
  | Some q => p ≤ q < p + Z.of_nat n ∧ ok q = true ∧ ∀ r, p ≤ r < q → ok r = false
  | None => ∀ r, p ≤ r < p + Z.of_nat n → ok r = false
  end.
Proof.
  revert p. induction n as [|n IH]; intros p; cbn [first_from]; [lia|].
  destruct (ok p) eqn:E; [split_and!; [lia|lia|done|lia]|].
  specialize (IH (p + 1)). destruct (first_from ok (p + 1) n) as [q|].
  - destruct IH as (? & ? & Hr). split_and!; [lia|lia|done|]. intros r ?.
    destruct (decide (r = p)) as [->|]; [done|apply Hr; lia].
  - intros r ?. destruct (decide (r = p)) as [->|]; [done|apply IH; lia].
Qed.

Definition in_range (p : Z) (r : Z * Z) : Prop := r.1 ≤ p ≤ r.2.

(** What is skipped before the port that is found: every port of the ranges
    before its range, and the ports before it in its range. *)
Lemma first_in_spec ok ranges :
  match first_in ok ranges with
  | Some p => ∃ before from to after, ranges = before ++ (from, to) :: after ∧ in_range p (from, to) ∧ ok p = true
      ∧ (∀ r q, r ∈ before → in_range q r → ok q = false) ∧ ∀ q, from ≤ q < p → ok q = false
  | None => ∀ r q, r ∈ ranges → in_range q r → ok q = false
  end.
Proof.
  unfold in_range. induction ranges as [|[a b] rest IH]; cbn [first_in]; [by intros ? ? ?%not_elem_of_nil|].
  pose proof (first_from_spec ok a (Z.to_nat (b - a + 1))) as Hf.
  destruct (first_from ok a _) as [q|].
  - destruct Hf as (Hq & Hok & Hb). exists [], a, b, rest.
    split_and!; [done|cbn; lia|cbn; lia|done| |intros; apply Hb; lia]. by intros ? ? ?%not_elem_of_nil.
  - destruct (first_in ok rest) as [p|].
    + destruct IH as (before & x & y & after & -> & Hp & Hok & Hb & Hx).
      exists ((a, b) :: before), x, y, after. split_and!; [done|lia|lia|done| |done].
      intros r q [->|Hr]%elem_of_cons Hq; [apply Hf; cbn in Hq; lia|by apply (Hb r)].
    + intros r q [->|Hr]%elem_of_cons Hq; [apply Hf; cbn in Hq; lia|by apply (IH r)].
Qed.

(** The public port [x] of the local port [p], as the configuration of the
    ingress gives it: by the first mapping that contains the local port, or
    without mappings by the offset. *)
Inductive public_port (g : Ingress) (p x : Z) : Prop :=
| public_mapped before m after :
    port_mappings g = Some (before ++ m :: after) → local_from m ≤ p ≤ local_to m →
    (∀ m', m' ∈ before → ¬ local_from m' ≤ p ≤ local_to m') →
    x = public_from m + (p - local_from m) → public_port g p x
| public_offset :
    default [] (port_mappings g) = [] → (port_from g ≠ 0 → port_from g ≤ p ≤ port_to g) →
    x = p + port_offset g → 0 < x ≤ 65535 → public_port g p x.

Lemma ingressPort_public g p : ingressPort g p ≠ 0 ↔ ∃ x, x ≠ 0 ∧ public_port g p x.
Proof.
  unfold ingressPort. assert (∀ ms, port_mappings g = ms → default [] ms = [] →
    (if negb (bool_decide (port_from g = 0)) && bool_decide (p < port_from g ∨ port_to g < p) then 0
     else let q := p + port_offset g in if bool_decide (0 < q ∧ q ≤ 65535) then q else 0) ≠ 0
    ↔ ∃ x, x ≠ 0 ∧ public_port g p x) as Hoff.
  { intros ms Hms Hd. cbn zeta. split.
    - intros Hx. eexists. split; [exact Hx|]. apply public_offset; [by rewrite Hms|..];
        revert Hx; repeat case_bool_decide; cbn; (lia || naive_solver lia).
    - intros (x & Hx & [before m after Hm _ _ _|_ Hf -> Hb]).
      + rewrite Hm in Hms. subst ms. cbn in Hd. destruct before; discriminate Hd.
      + repeat case_bool_decide; cbn; lia. }
  destruct (port_mappings g) as [[|m0 ms]|] eqn:Hms; [by apply (Hoff (Some []))| |by apply (Hoff None)].
  clear Hoff. set (l := m0 :: ms) in *.
  assert (∀ x, public_port g p x ↔
    ∃ m, list_find_first (covers p) l = Some m ∧ x = public_from m + p - local_from m) as Hpub.
  { intros x. setoid_rewrite list_find_first_split. unfold covers. split.
    - intros [before m after E Hm Hb ->|E _ _ _]; [|by rewrite Hms in E].
      exists m. split; [|lia]. exists before, after. rewrite Hms in E. split_and!; [by injection E|..].
      + by apply bool_decide_eq_true.
      + intros m' Hm'. apply bool_decide_eq_false. by apply Hb.
    - intros (m & (before & after & E & Hm%bool_decide_eq_true & Hb) & ->).
      apply (public_mapped g p _ before m after); [by rewrite Hms, E|done| |lia].
      intros m' Hm'. apply (bool_decide_eq_false (local_from m' ≤ p ∧ p ≤ local_to m')). by apply Hb. }
  setoid_rewrite Hpub. destruct (list_find_first (covers p) l) as [m|]; [|naive_solver].
  split; [intros Hx; eexists; split; [exact Hx|]; by exists m|]. by intros (x & Hx & m' & [= <-] & ->).
Qed.

(** What makes a local port assignable. *)
Definition assignable (g : Ingress) (used : list Z) (p : Z) : Prop :=
  p ∉ used ∧ (∀ l, reserved_ports g = Some l → p ∉ l) ∧ ∃ x, x ≠ 0 ∧ public_port g p x.

Lemma free_port_assignable g used p : free_port g used p = true ↔ assignable g used p.
Proof.
  unfold assignable. rewrite <-ingressPort_public. unfold free_port.
  rewrite !andb_true_iff, !negb_true_iff, !bool_decide_eq_false.
  destruct (reserved_ports g) as [l|]; cbn; [naive_solver|]. split; [naive_solver|].
  intros (? & _ & ?). split_and!; [done| |done]. apply not_elem_of_nil.
Qed.

(** C34: the first free port of an ingress is found exactly.  The ports walked
    through are the local ranges of the mappings in their order, or without
    mappings the range of the ingress, with 1024 and 65535 for a bound of 0.
    A port is free when it is not used, not reserved, and has a public port
    other than 0: the one of the first mapping that contains it, or without
    mappings the port plus the offset, from 1 to 65535, for a port within the
    bounds of the ingress if these are set.  The result is the first free port
    of this walk (in a range, while no port of the ranges before it and no
    smaller port of its range is free), or it is 0 and no port of any range
    is free. *)
Theorem first_free_port_exact (g : Ingress) (used : list Z) :
  let p := firstFreeIngressPort g used in
  let ranges := match port_mappings g with
    | None | Some [] => [(if decide (port_from g = 0) then 1024 else port_from g,
                          if decide (port_to g = 0) then 65535 else port_to g)]
    | Some ms => (λ m, (local_from m, local_to m)) <$> ms
    end in
  (p = 0 ∧ ∀ r q, r ∈ ranges → r.1 ≤ q ≤ r.2 → ¬ assignable g used q) ∨
  (assignable g used p ∧
   ∃ before from to after, ranges = before ++ (from, to) :: after ∧ from ≤ p ≤ to ∧
     (∀ r q, r ∈ before → r.1 ≤ q ≤ r.2 → ¬ assignable g used q) ∧
     ∀ q, from ≤ q < p → ¬ assignable g used q).
Proof.
  intros p ranges. assert (ranges = port_ranges g) as ->.
  { unfold ranges, port_ranges, or_number. destruct (port_mappings g) as [[|]|]; repeat case_bool_decide; repeat case_decide; done. }
  assert (∀ q, free_port g used q = false → ¬ assignable g used q) as Hnot.
  { intros q Hq Ha%free_port_assignable. congruence. }
  unfold p, firstFreeIngressPort. pose proof (first_in_spec (free_port g used) (port_ranges g)) as H.
  destruct (first_in _ _) as [q|]; cbn; [right|left; split; [done|]; intros r q ? ?; by apply Hnot, (H r)].
  destruct H as (before & a & b & after & E & Hq & Hok & Hb & Hx). split; [by apply free_port_assignable|].
  exists before, a, b, after. split_and!; try apply Hq; [done| |intros; by apply Hnot, Hx].
  intros r' q' ? ?. by apply Hnot, (Hb r').
Qed.

Definition two_ranges : Ingress :=
  mkIngress (Some [mkMapping 20 22 7020; mkMapping 30 31 7030]) [] (js "h") None 0 0 0 (Some [22]).

Lemma first_free_port_exact_witness :
  firstFreeIngressPort two_ranges [20; 21; 30] = 31 ∧ assignable two_ranges [20; 21; 30] 31.
Proof.
  split; [reflexivity|].
  destruct (first_free_port_exact two_ranges [20; 21; 30]) as [[H _]|[H _]]; [discriminate H|exact H].
Defined.

(** The public ports a mapping stands for. *)
Definition public_of (m : PortMapping) (p : Z) : Prop :=
  public_from m ≤ p ≤ public_from m + local_to m - local_from m.

Definition disjoint_mappings (ms : list PortMapping) : Prop :=
  ∀ m m' p, m ∈ ms → m' ∈ ms → public_of m p → public_of m' p → m = m'.

(** Different listeners never share a public port: when the public ranges
    of the mappings are disjoint (or there are no mappings), two local ports
    with the same public port other than 0 are equal. *)
Theorem public_ports_distinct (g : Ingress) (a b : Z) :
  disjoint_mappings (default [] (port_mappings g)) →
  ingressPort g a = ingressPort g b → ingressPort g a ≠ 0 → a = b.
Proof.
  unfold ingressPort. destruct (port_mappings g) as [[|m0 ms]|] eqn:E; cbn [default].
  1, 3: intros _; repeat case_match; intros; lia.
  intros Hd. destruct (list_find_first (covers a) _) as [m|] eqn:Ha; [|done].
  destruct (list_find_first (covers b) _) as [m'|] eqn:Hb; [|intros -> ?; done].
  apply list_find_first_Some in Ha as [Hm Ca], Hb as [Hm' Cb]. unfold covers in *. reflect_bools.
  intros Hp _. assert (m = m') as ->; [|lia].
  apply (Hd m m' (public_from m + a - local_from m)); [done|done| |]; unfold public_of; lia.
Qed.

Lemma public_ports_distinct_witness : ingressPort two_ranges 21 = 7021 ∧ (ingressPort two_ranges 31 = 7021 → 31 = 21).
Proof.
  split; [reflexivity|]. intros H. apply (public_ports_distinct two_ranges); [|exact H|discriminate].
  intros m m' p Hm Hm'. unfold public_of.
  repeat (apply elem_of_cons in Hm as [->|Hm]); repeat (apply elem_of_cons in Hm' as [->|Hm']);
    try (by apply not_elem_of_nil in Hm); try (by apply not_elem_of_nil in Hm'); cbn; try done; lia.
Defined.

(** ** Addresses *)

Lemma digit_no_colon z : 0 ≤ z → 58 ∉ int_string z.
Proof.
  intros Hz. unfold int_string. rewrite bool_decide_false by lia. intros (d & E & Hd)%list_elem_of_fmap.
  pose proof (digits_range z Hz) as Hr. rewrite Forall_forall in Hr. specialize (Hr d Hd). lia.
Qed.

Lemma last_separator (c : Z) a a' d d' :
  c ∉ d → c ∉ d' → a ++ [c] ++ d = a' ++ [c] ++ d' → a = a' ∧ d = d'.
Proof.
  intros Hd Hd'. revert a'. induction a as [|x a IH]; intros [|y a'] E; cbn in E.
  - by injection E as ->.
  - injection E as <- ->. contradict Hd. set_solver.
  - injection E as -> <-. contradict Hd'. set_solver.
  - injection E as -> E. by destruct (IH a' E) as [-> ->].
Qed.

Lemma includes_unit s c : includes s [c] = true ↔ c ∈ s.
Proof.
  rewrite includes_app. split; [intros (a & b & ->); set_solver|].
  intros (a & b & ->)%list_elem_of_split. by exists a, b.
Qed.

(** The text of a host and a port can be read back: two hosts and ports
    (zero or above) with the same text are the same, whether the host is a
    name, an IPv4 address or an IPv6 address in brackets. *)
Theorem host_port_inj (h h' : jsstring) (p p' : Z) :
  0 ≤ p → 0 ≤ p' → hostPort h p = hostPort h' p' → h = h' ∧ p = p'.
Proof.
  intros Hp Hp' E. apply last_separator in E as [E Ep]; try by apply digit_no_colon.
  split; [|by apply int_string_nonneg_inj].
  destruct (includes h [58]) eqn:Ch, (includes h' [58]) eqn:Ch'.
  - apply (inj (cons 91)) in E. by apply app_inv_tail in E.
  - rewrite <- E in Ch'. apply not_true_iff_false in Ch'. rewrite includes_unit in Ch'.
    rewrite includes_unit in Ch. set_solver.
  - rewrite E in Ch. apply not_true_iff_false in Ch. rewrite includes_unit in Ch.
    rewrite includes_unit in Ch'. set_solver.
  - done.
Qed.

Lemma host_port_inj_witness :
  hostPort (js "::1") 80 = js "[::1]:80" ∧ (hostPort (js "[::1]") 80 = hostPort (js "::1") 80 → js "[::1]" = js "::1").
Proof.
  split; [reflexivity|]. intros H. apply (host_port_inj (js "[::1]") (js "::1") 80 80); [lia|lia|exact H].
Defined.

(** The internal address of a server is used only when it is asked for, and
    nothing else then: in internal mode the result depends on the internal
    address and the listener port alone (no domain, public address, ingress or
    port mapping), and in the default mode it does not depend on the internal
    address. *)
Theorem forwarding_address_confined (n n' : address_node) (port : Z) (g g' : option Ingress) :
  (internal_addr n = internal_addr n' →
   forwardingAddress n port g internal = forwardingAddress n' port g' internal) ∧
  (domain n = domain n' → public_addr n = public_addr n' → v6_addr n = v6_addr n' →
   forwardingAddress n port g default_mode = forwardingAddress n' port g default_mode).
Proof.
  split; [intros E|intros E1 E2 E3]; unfold forwardingAddress, public_host; [by rewrite E|by rewrite E1, E2, E3].
Qed.

End Ingress.

Module EntryFlow.
Import Ingress.

(** What the code reads of [Settings.tls] and [Settings.reverse]. *)
Record TLS := mkTLS { mode : option Z; server_name : option jsstring }.
Record settings := mkSettings { tls : option TLS; receiver : option bool }.

Record Inbound := mkInbound { Port : Z; Settings : option settings }.
Record InboundChoice := mkChoice { ib : Inbound; node : address_node; ingress : option Ingress }.
Record EntryEndpoint := mkEndpoint { DisplayHost : jsstring; DisplayPort : Z }.

#[global] Instance endpoint_eq_dec : EqDecision EntryEndpoint.
Proof. solve_decision. Defined.

(** [tls?.mode === 1 && tls.server_name] as a text, empty when falsy. *)
Definition tls_name (i : Inbound) : jsstring :=
  match Settings i ≫= tls with
  | Some t => if bool_decide (mode t = Some 1) then opt_text (server_name t) else []
  | None => []
  end.

Definition entryEndpoint (choice : option InboundChoice) : EntryEndpoint :=
  match choice with
  | None => mkEndpoint [] 0
  | Some c =>
      match ingress c with
      | Some g => mkEndpoint (or_else (opt_text (entry_domain g)) (entry_host g)) (ingressPort g (Port (ib c)))
      | None => mkEndpoint (or_else (tls_name (ib c)) (or_else (domain (node c)) (public_addr (node c)))) (Port (ib c))
      end
  end.

Definition changeEntryInbound (current : EntryEndpoint) (previous : option InboundChoice) (next : InboundChoice)
    : EntryEndpoint :=
  let old := entryEndpoint previous in
  let fresh := entryEndpoint (Some next) in
  mkEndpoint
    (if bool_decide (DisplayHost current = [] ∨ DisplayHost current = DisplayHost old)
     then DisplayHost fresh else DisplayHost current)
    (if bool_decide (DisplayPort current = 0 ∨ DisplayPort current = DisplayPort old)
     then DisplayPort fresh else DisplayPort current).

(** Walking through several inbounds in turn. *)
Fixpoint change_all (current : EntryEndpoint) (previous : option InboundChoice) (picks : list InboundChoice)
    : EntryEndpoint :=
  match picks with
  | [] => current
  | c :: picks => change_all (changeEntryInbound current previous c) (Some c) picks
  end.

Definition manual_host (host : jsstring) (previous : option InboundChoice) (picks : list InboundChoice) : Prop :=
  host ≠ [] ∧ host ≠ DisplayHost (entryEndpoint previous) ∧
  ∀ c, c ∈ picks → host ≠ DisplayHost (entryEndpoint (Some c)).
Definition manual_port (port : Z) (previous : option InboundChoice) (picks : list InboundChoice) : Prop :=
  port ≠ 0 ∧ port ≠ DisplayPort (entryEndpoint previous) ∧
  ∀ c, c ∈ picks → port ≠ DisplayPort (entryEndpoint (Some c)).

Record Entry := mkEntry { ID : Z; ClientDialerEntryID : option Z }.

(** The loop of [canDialThrough]; [n] is [8 - depth]. *)
Fixpoint dial_loop (entries : list Entry) (n : nat) (seen : list Z) (id : option Z) : bool :=
  if negb (truthy_id id) then true
  else match n, id with
       | S n, Some i =>
           if bool_decide (i ∈ seen) then false
           else match list_find_first (λ e, bool_decide (ID e = i)) entries with
                | Some item => dial_loop entries n (i :: seen) (ClientDialerEntryID item)
                | None => false
                end
       | _, _ => false
       end.

Definition canDialThrough (entries : list Entry) (candidateID : Z) (entryID : option Z) : bool :=
  dial_loop entries 7 (if truthy_id entryID then option_list entryID else []) (Some candidateID).

(** [Line.groups]: only the number of members of each group is read. *)
Inductive backend := relay | nft | realm.
#[global] Instance backend_eq_dec : EqDecision backend.
Proof. solve_decision. Defined.

Definition lineSupportsGroups (b : backend) (members : list nat) : bool :=
  bool_decide (b = relay) || every (λ n, bool_decide (n ≤ 1)%nat) (tail members).

(** [Date.parse], which gives no number for an invalid date. *)
Definition freshLineStatus (parse : jsstring → option Z) (at_ : option jsstring) (now : Z) : bool :=
  match parse (opt_text at_) with
  | Some t => bool_decide (0 ≤ now - t ∧ now - t ≤ 180000)
  | None => false
  end.

Definition isSubscriberInbound (i : Inbound) : bool :=
  negb (default false (Settings i ≫= receiver)).

(** ** Endpoints *)

Lemma change_all_host h p previous picks :
  manual_host h previous picks → DisplayHost (change_all (mkEndpoint h p) previous picks) = h.
Proof.
  revert p previous. induction picks as [|c picks IH]; intros p previous (Hn & Ho & Hc); [done|].
  cbn [change_all]. unfold changeEntryInbound at 1. cbn [DisplayHost].
  rewrite (bool_decide_false (h = [] ∨ _)) by (intros [?|?]; done). apply IH. split_and!; [done| |].
  - apply Hc. by left.
  - intros c' ?. apply Hc. by right.
Qed.

Lemma change_all_port h p previous picks :
  manual_port p previous picks → DisplayPort (change_all (mkEndpoint h p) previous picks) = p.
Proof.
  revert h previous. induction picks as [|c picks IH]; intros h previous (Hn & Ho & Hc); [done|].
  cbn [change_all]. unfold changeEntryInbound at 1. cbn [DisplayPort].
  rewrite (bool_decide_false (p = 0 ∨ _)) by (intros [?|?]; done). apply IH. split_and!; [done| |].
  - apply Hc. by left.
  - intros c' ?. apply Hc. by right.
Qed.

Lemma change_default previous next :
  changeEntryInbound (entryEndpoint previous) previous next = entryEndpoint (Some next).
Proof.
  unfold changeEntryInbound. rewrite !bool_decide_true by (by right). by destruct (entryEndpoint (Some next)).
Qed.

(** Changing the inbound of an entry any number of times keeps what was
    typed and follows what was not: a host (or port) that differs from the
    defaults of all the picks is still there, independently of the other field,
    and an endpoint that was the default becomes the default of the last pick. *)
Theorem entry_endpoint_follows (previous : option InboundChoice) (picks : list InboundChoice) :
  (∀ h p, manual_host h previous picks → DisplayHost (change_all (mkEndpoint h p) previous picks) = h) ∧
  (∀ h p, manual_port p previous picks → DisplayPort (change_all (mkEndpoint h p) previous picks) = p) ∧
  (∀ c, last picks = Some c → change_all (entryEndpoint previous) previous picks = entryEndpoint (Some c)).
Proof.
  split_and!; [intros; by apply change_all_host|intros; by apply change_all_port|].
  revert previous. induction picks as [|c picks IH]; intros previous d Hd; [done|].
  cbn [change_all]. rewrite change_default. destruct picks as [|c' picks]; cbn in Hd; [by simplify_eq/=|].
  by apply IH.
Qed.

(** ** Chains of entries *)

(** The entries a client dials through, from [id] to one that dials directly. *)
Inductive dial_chain (entries : list Entry) : option Z → list Z → Prop :=
| dial_end id : truthy_id id = false → dial_chain entries id []
| dial_next i item chain :
    i ≠ 0 → list_find_first (λ e, bool_decide (ID e = i)) entries = Some item →
    dial_chain entries (ClientDialerEntryID item) chain → dial_chain entries (Some i) (i :: chain).

Lemma dial_loop_spec entries n seen id :
  dial_loop entries n seen id = true ↔
  ∃ chain, dial_chain entries id chain ∧ NoDup chain ∧ (length chain ≤ n)%nat ∧ ∀ i, i ∈ chain → i ∉ seen.
Proof.
  revert seen id. induction n as [|n IH]; intros seen id; cbn [dial_loop];
    destruct (truthy_id id) eqn:Ht; cbn [negb].
  1: { split; [by destruct id|]. intros (chain & Hc & _ & Hl & _).
       destruct Hc as [? E|i ? ? ? ? ?]; [congruence|cbn in Hl; lia]. }
  1, 3: split; [intros _|done]; exists []; split_and!;
        [by constructor|constructor|cbn; lia|by intros ? ?%not_elem_of_nil].
  destruct id as [i|]; [|done]. cbn in Ht. reflect_bools.
  destruct (bool_decide (i ∈ seen)) eqn:Hs; reflect_bools.
  - split; [done|]. intros (chain & Hc & _ & _ & Hn). inversion Hc as [? E|]; subst.
    + cbn in E. by rewrite bool_decide_false in E.
    + by destruct (Hn i); [left|].
  - destruct (list_find_first _ entries) as [item|] eqn:Hf.
    + rewrite IH. split.
      * intros (chain & Hc & Hnd & Hl & Hn). exists (i :: chain). split_and!.
        -- by apply dial_next with item.
        -- constructor; [|done]. intros Hi. apply (Hn i Hi). by left.
        -- cbn; lia.
        -- intros j [->|Hj]%elem_of_cons; [done|]. intros ?. apply (Hn j Hj). by right.
      * intros (chain & Hc & Hnd & Hl & Hn). inversion Hc as [? E|? item' chain' ? Hf' Hc']; subst.
        { cbn in E. by rewrite bool_decide_false in E. }
        rewrite Hf in Hf'; simplify_eq. apply NoDup_cons in Hnd as [Hi Hnd]. exists chain'.
        split_and!; [done|done|cbn in Hl; lia|]. intros j Hj [->|Hj']%elem_of_cons; [done|].
        apply (Hn j); [by right|done].
    + split; [done|]. intros (chain & Hc & _). inversion Hc as [? E|]; subst; [|congruence].
      cbn in E. by rewrite bool_decide_false in E.
Qed.

(** Saving the entry with its new dialer. *)
Definition set_dialer (entryID candidateID : Z) (entries : list Entry) : list Entry :=
  (λ e, if bool_decide (ID e = entryID) then mkEntry (ID e) (Some candidateID) else e) <$> entries.

Lemma find_set_dialer e c entries i :
  list_find_first (λ x, bool_decide (ID x = i)) (set_dialer e c entries) =
  (λ x, if bool_decide (ID x = e) then mkEntry (ID x) (Some c) else x) <$>
    list_find_first (λ x, bool_decide (ID x = i)) entries.
Proof.
  induction entries as [|x entries IH]; [done|]. cbn.
  destruct (bool_decide (ID x = e)) eqn:E; cbn; destruct (bool_decide (ID x = i)); cbn; rewrite ?E; done.
Qed.

Lemma set_dialer_chain e c entries id chain :
  dial_chain entries id chain → e ∉ chain → dial_chain (set_dialer e c entries) id chain.
Proof.
  induction 1 as [|i item chain Hi Hf Hc IH]; intros He; [by constructor|].
  apply dial_next with item; [done| |apply IH; set_solver].
  rewrite find_set_dialer, Hf. cbn. apply list_find_first_Some in Hf as [_ Hid]. reflect_bools.
  rewrite bool_decide_false; [done|]. set_solver.
Qed.

Lemma find_app_other i before (e : Entry) after :
  ID e ≠ i →
  list_find_first (λ x, bool_decide (ID x = i)) (before ++ e :: after) =
  list_find_first (λ x, bool_decide (ID x = i)) (before ++ after).
Proof.
  intros He. induction before as [|x before IH]; cbn; [by rewrite bool_decide_false|]. by rewrite IH.
Qed.

Lemma new_entry_chain before e after id chain :
  dial_chain (before ++ after) id chain → ID e ∉ chain → dial_chain (before ++ e :: after) id chain.
Proof.
  intros Hc. remember (before ++ after) as entries eqn:E.
  induction Hc as [|i item chain Hi Hf Hc IH]; intros He; [by constructor|].
  apply dial_next with item; [done| |apply IH; set_solver].
  rewrite find_app_other by set_solver. by rewrite <-E.
Qed.

Lemma dial_chain_known entries id chain :
  dial_chain entries id chain → ∀ i, i ∈ chain → i ≠ 0 ∧ i ∈ ID <$> entries.
Proof.
  induction 1 as [|i item chain Hi Hf Hc IH]; intros j Hj; [by apply not_elem_of_nil in Hj|].
  apply elem_of_cons in Hj as [->|Hj]; [|by apply IH]. split; [done|].
  apply list_find_first_Some in Hf as [Hin Hid]. reflect_bools. rewrite <-Hid. by apply list_elem_of_fmap_2.
Qed.

(** C16: a dialer is accepted exactly if it is safe.  For any entries, candidate
    and edited entry (no identifier, or 0, for a new one), [canDialThrough]
    holds if and only if there is a chain of at most seven existing entries
    without repetition that starts at the candidate (the empty chain when the
    candidate is 0), follows the dialer of each entry, ends in one which dials
    directly, and does not contain the edited entry.  So once an existing
    entry is saved with an accepted dialer, or a new entry with a fresh
    identifier is added anywhere with a dialer accepted for a new entry, its
    own chain ends, without repetition and within eight levels. *)
Theorem dial_through_exact (entries : list Entry) (candidateID : Z) (entryID : option Z) :
  (canDialThrough entries candidateID entryID = true ↔
   ∃ chain, dial_chain entries (Some candidateID) chain ∧ NoDup chain ∧ (length chain ≤ 7)%nat ∧
     ∀ e, entryID = Some e → e ∉ chain) ∧
  (canDialThrough entries candidateID entryID = true →
   (∀ e, entryID = Some e → e ≠ 0 → e ∈ ID <$> entries →
      ∃ chain, dial_chain (set_dialer e candidateID entries) (Some e) (e :: chain) ∧
        NoDup (e :: chain) ∧ (length (e :: chain) ≤ 8)%nat) ∧
   (∀ e before after, entryID = None → entries = before ++ after → e ≠ 0 → e ∉ ID <$> entries →
      ∃ chain, dial_chain (before ++ mkEntry e (Some candidateID) :: after) (Some e) (e :: chain) ∧
        NoDup (e :: chain) ∧ (length (e :: chain) ≤ 8)%nat)).
Proof.
  assert (canDialThrough entries candidateID entryID = true ↔
   ∃ chain, dial_chain entries (Some candidateID) chain ∧ NoDup chain ∧ (length chain ≤ 7)%nat ∧
     ∀ e, entryID = Some e → e ∉ chain) as Hx.
  { unfold canDialThrough. rewrite dial_loop_spec.
    split; intros (chain & Hc & ? & ? & Hn); exists chain; split_and!; try done.
    - intros e -> Hi. apply (Hn e Hi). cbn. destruct (dial_chain_known _ _ _ Hc e Hi) as [Hne _].
      rewrite bool_decide_false by done. by apply list_elem_of_singleton.
    - intros i Hi. destruct entryID as [e|]; cbn; [|apply not_elem_of_nil]. case_bool_decide; cbn; [apply not_elem_of_nil|].
      intros ->%list_elem_of_singleton. by apply (Hn e). }
  split; [exact Hx|]. rewrite Hx. intros (chain & Hc & Hnd & Hl & Hn). split.
  - intros e He Hne Hin. specialize (Hn e He). exists chain. split_and!; [|by constructor|cbn; lia].
    destruct (list_find_first (λ x, bool_decide (ID x = e)) entries) as [item|] eqn:Hf.
    + eapply dial_next; [done|by rewrite find_set_dialer, Hf|].
      apply list_find_first_Some in Hf as [_ Hid]. reflect_bools. cbn. rewrite bool_decide_true by done.
      by apply set_dialer_chain.
    + apply list_elem_of_fmap in Hin as (x & -> & Hx'). pose proof (proj1 (list_find_first_None _ _) Hf x Hx') as E.
      cbn in E. by rewrite bool_decide_true in E.
  - intros e before after _ -> Hne Hin. exists chain.
    assert (e ∉ chain) as Hec by (intros [_ ?]%(dial_chain_known _ _ _ Hc); done).
    split_and!; [|by constructor|cbn; lia]. apply dial_next with (mkEntry e (Some candidateID)); [done| |].
    + clear -Hin. induction before as [|x before IH]; cbn in *; [by rewrite bool_decide_true|].
      rewrite bool_decide_false by set_solver. apply IH. set_solver.
    + by apply new_entry_chain.
Qed.

Definition three_entries : list Entry := [mkEntry 1 (Some 2); mkEntry 2 None; mkEntry 3 (Some 1)].

Lemma dial_through_exact_witness :
  canDialThrough three_entries 3 (Some 1) = false ∧
  (∃ chain, dial_chain (set_dialer 3 1 three_entries) (Some 3) (3 :: chain) ∧ NoDup (3 :: chain)
    ∧ (length (3%Z :: chain) ≤ 8)%nat) ∧
  ∃ chain, dial_chain (mkEntry 4 (Some 3) :: three_entries) (Some 4) (4 :: chain) ∧ NoDup (4 :: chain)
    ∧ (length (4%Z :: chain) ≤ 8)%nat.
Proof.
  split; [reflexivity|]. split.
  - apply (proj2 (dial_through_exact three_entries 1 (Some 3)) eq_refl); [done|done|].
    apply list_elem_of_further, list_elem_of_further, list_elem_of_here.
  - apply (proj2 (proj2 (dial_through_exact three_entries 3 None) eq_refl) 4 [] three_entries); [done|done|done|].
    intros H. repeat (apply elem_of_cons in H as [H|H]; [discriminate H|]). by apply not_elem_of_nil in H.
Defined.

End EntryFlow.

Module LineImpact.
Import Ingress.

Record LineMember := mkMember {
  address_mode : option ForwardAddressMode;
  id : jsstring;
  node_id : Z;
  port : Z;
  ingress_id : option Z;
  weight : Z;
}.
Inductive strategy := failover | roundrobin.
Record LineGroup := mkGroup { group_strategy : strategy; members : list LineMember }.
Inductive protocol := tcp | udp_line | both_line.

Record LineInput := mkInput {
  name : jsstring;
  line_backend : EntryFlow.backend;
  line_protocol : protocol;
  target_inbound_id : Z;
  target_address_mode : option ForwardAddressMode;
  groups : list LineGroup;
  version : option Z;
}.

Definition or_default (m : option ForwardAddressMode) : option ForwardAddressMode := Some (default default_mode m).
Definition or_null (i : option Z) : option Z := if truthy_id i then i else None.

Definition member_input (index : nat) (m : LineMember) : LineMember :=
  mkMember (if bool_decide (0 < index)%nat then or_default (address_mode m) else Some default_mode)
    (id m) (node_id m) (port m) (or_null (ingress_id m)) (weight m).

Definition group_input (index : nat) (g : LineGroup) : LineGroup :=
  mkGroup (group_strategy g) (member_input index <$> members g).

Definition lineImpactInput (draft : LineInput) (p : protocol) (v : option Z) : LineInput :=
  mkInput (trim (name draft)) (line_backend draft) p (target_inbound_id draft)
    (or_default (target_address_mode draft)) (imap group_input (groups draft)) v.

Lemma member_input_idemp i m : member_input i (member_input i m) = member_input i m.
Proof.
  unfold member_input, or_null, or_default. cbn. destruct (bool_decide (0 < i)%nat), (ingress_id m) as [x|]; cbn; try done;
    destruct (bool_decide (x = 0)) eqn:E; cbn; rewrite ?E; done.
Qed.

(** What is reviewed is what is saved: the input of a line is normalised
    once and for all (normalising the input of a review again, with its own
    protocol and version, changes nothing), and the members of the first group
    are always dialled at their default address. *)
Theorem line_input_canonical (draft : LineInput) (p : protocol) (v : option Z) :
  lineImpactInput (lineImpactInput draft p v) p v = lineImpactInput draft p v ∧
  ∀ g m, head (groups (lineImpactInput draft p v)) = Some g → m ∈ members g → address_mode m = Some default_mode.
Proof.
  split.
  - unfold lineImpactInput. cbn [name line_backend target_inbound_id target_address_mode groups].
    rewrite trim_idemp. f_equal. apply list_eq. intros i. rewrite !list_lookup_imap.
    destruct (groups draft !! i) as [g|]; [|done]. cbn. f_equal. unfold group_input. cbn. f_equal.
    rewrite <- list_fmap_compose. apply list_fmap_ext. intros ? m _. apply member_input_idemp.
  - destruct (groups draft) as [|g0 gs] eqn:E; intros g m; cbn; rewrite E; cbn; [done|]. intros [= <-].
    cbn. by intros (m0 & -> & _)%list_elem_of_fmap.
Qed.

End LineImpact.
