(* ===== verification/MetricsService.v ===== *)
(** * The RPC surface of the status page and its metrics service

    [KomariRpc] of [glass-shared/utils/rpc.ts]: each of its methods is a
    constructor of [operation], and [request] gives the method name and the
    parameters that it hands to [captainCall]; parameters that the adapter never
    reads are left out.  [glass-shared/services/metrics.service.ts]: the request
    keys, the normalisation of parameters, the retry rule and the cache of the
    metric definitions, on the components [SharedCache] and [RequestManager]
    that it uses. *)

From S2P Require Import Prelude JsMap JsString Json JsValue JsNumber JsText Constants.
From S2P Require Import SharedCache RequestManager Ping Network NodeFacts Captain CaptainMetrics Finance.

Open Scope Z_scope.

(** ** [rpc.ts] *)

Module KomariRpc.
Import CaptainCall.

Inductive operation :=
  | getMethods | getHelp | ping | getVersion | getNodes | getNodesLatestStatus
  | getNodeRecentStatus (uuid : jsstring)
  | getPublicInfo | getBackendVersion
  | getRecords (type : jsstring) (uuid : option jsstring) (hours : option num)
  | getLoadRecords (uuid : option jsstring) (hours : option num)
  | getPingRecords (hours : option num) (uuid : option jsstring)
  | getAuditLogs | updateAdminSettings
  | getPublicMe | getPublicNodesInformation | getPublicSettings | recordPublicVisitorEvent | getPublicVersion
  | getPublicClientRecentRecords (uuid : jsstring)
  | getPublicRecordsByUUID (uuid : jsstring) (hours : option json)
  | getPublicPingRecords | getPublicPingTasks | listPublicMetricDefinitions
  | queryPublicMetrics (p : Params)
  | getPublicPingMetricStats (p : Params).

Definition no_params : Params :=
  {| p_entity_id := None; p_uuid := None; p_start := None; p_start_time := None; p_end := None; p_end_time := None;
     p_hours := None; p_metric_keys := None; p_metrics := None; p_metric_key := None; p_type := None |}.

Definition node_params (uuid : option jsstring) (hours : option num) (type : option jsstring) : Params :=
  {| p_entity_id := None; p_uuid := uuid; p_start := None; p_start_time := None; p_end := None; p_end_time := None;
     p_hours := hours; p_metric_keys := None; p_metrics := None; p_metric_key := None; p_type := type |}.

Definition method_of (o : operation) : string :=
  match o with
  | getMethods => "rpc.getMethods" | getHelp => "rpc.getHelp" | ping => "rpc.ping" | getVersion => "rpc.getVersion"
  | getNodes => "common:getNodes" | getNodesLatestStatus => "common:getNodesLatestStatus"
  | getNodeRecentStatus _ => "common:getNodeRecentStatus"
  | getPublicInfo => "common:getPublicInfo" | getBackendVersion => "common:getBackendVersion"
  | getRecords _ _ _ | getLoadRecords _ _ | getPingRecords _ _ => "common:getRecords"
  | getAuditLogs => "admin:getLogs" | updateAdminSettings => "admin:editSettings"
  | getPublicMe => "public:getMe" | getPublicNodesInformation => "public:getNodesInformation"
  | getPublicSettings => "public:getPublicSettings" | recordPublicVisitorEvent => "public:recordVisitorEvent"
  | getPublicVersion => "public:getVersion" | getPublicClientRecentRecords _ => "public:getClientRecentRecords"
  | getPublicRecordsByUUID _ _ => "public:getRecordsByUUID" | getPublicPingRecords => "public:getPingRecords"
  | getPublicPingTasks => "public:getPublicPingTasks" | listPublicMetricDefinitions => "public:listMetricDefinitions"
  | queryPublicMetrics _ => "public:queryMetrics" | getPublicPingMetricStats _ => "public:getPingMetricStats"
  end.

Definition params_of (o : operation) : Params :=
  match o with
  | getNodeRecentStatus uuid | getPublicClientRecentRecords uuid => node_params (Some uuid) None None
  | getRecords type uuid hours => node_params uuid hours (Some type)
  | getLoadRecords uuid hours => node_params uuid hours (Some (js "load"))
  | getPingRecords hours uuid => node_params uuid hours (Some (js "ping"))
  | getPublicRecordsByUUID uuid hours => node_params (Some uuid) ((λ h, Finance.number_of (Some h)) <$> hours) None
  | queryPublicMetrics p | getPublicPingMetricStats p => p
  | _ => no_params
  end.

Definition request (o : operation) : jsstring * Params := (js (method_of o), params_of o).

Section call.
Context `{CaseMapping} (lang : jsstring) (parse : jsstring → option Z) (snapshot : option Snapshot.Snapshot)
  (env : environment).

(** [this.client.call(...)], which is [captainCall]. *)
Definition call (o : operation) : error + result :=
  captainCall lang parse snapshot env (request o).1 (request o).2.
End call.

(** The operations that the adapter of the Captain server implements. *)
Definition implemented (o : operation) : bool :=
  match o with
  | ping | getNodeRecentStatus _ | getBackendVersion | getRecords _ _ _ | getLoadRecords _ _ | getPingRecords _ _
  | getPublicMe | getPublicVersion | getPublicClientRecentRecords _ | getPublicRecordsByUUID _ _
  | getPublicPingTasks | listPublicMetricDefinitions | queryPublicMetrics _ | getPublicPingMetricStats _ => true
  | _ => false
  end.

Lemma bind_result_unsupported {A B} (x : error + A) (f : A → error + B) m :
  (x ≠ inl (Unsupported m)) → (∀ a, f a ≠ inl (Unsupported m)) → bind_result x f ≠ inl (Unsupported m).
Proof. destruct x as [e|a]; cbn; [intros He _ [= ->]; done|auto]. Qed.

Lemma or_range_unsupported {A} (x : option A) m : or_range x ≠ inl (Unsupported m).
Proof. by destruct x. Qed.

(** The failures of the requests are never of this kind. *)
Definition plain_answers (env : environment) : Prop :=
  ∀ m, load_answer env ≠ inl (Unsupported m) ∧ ping_answer env ≠ inl (Unsupported m).

#[local] Ltac choose_method :=
  repeat match goal with
  | |- context [method_in ?a ?l] => let b := eval vm_compute in (method_in a l) in change (method_in a l) with b
  end; cbv beta iota.

Section surface.
Context `{CaseMapping} (lang : jsstring) (parse : jsstring → option Z) (snapshot : option Snapshot.Snapshot)
  (env : environment).

Lemma with_load_unsupported {A} id (f : LoadMetrics.History → option A) m :
  plain_answers env → with_load snapshot env id f ≠ inl (Unsupported m).
Proof using.
  intros Hp. unfold with_load. destruct (HistoryCache.allowed _ _ _); [|done].
  apply bind_result_unsupported; [apply Hp|]. intros h. apply or_range_unsupported.
Qed.

Lemma with_pings_unsupported {A} id (f : PingMetrics.NetworkHistory → option A) m :
  plain_answers env → with_pings snapshot env id f ≠ inl (Unsupported m).
Proof using.
  intros Hp. unfold with_pings. destruct (HistoryCache.allowed _ _ _); [|done].
  apply bind_result_unsupported; [apply Hp|]. intros h. apply or_range_unsupported.
Qed.

Lemma query_metrics_supported id hours b_start b_end keys m :
  plain_answers env → query_metrics lang parse snapshot env id hours b_start b_end keys ≠ inl (Unsupported m).
Proof using.
  intros Hp. unfold query_metrics. cbn zeta.
  assert (∀ id f m, with_load (A := LoadMetrics.MetricQueryResponse) snapshot env id f ≠ inl (Unsupported m)) as Hl
    by (intros; by apply with_load_unsupported).
  assert (∀ id f m, bind_result (with_pings (A := PingMetrics.metrics) snapshot env id f)
    (λ x, inr (PingMetrics.m_metrics x)) ≠ inl (Unsupported m)) as Hg.
  { intros id' f m'. apply bind_result_unsupported; [by apply with_pings_unsupported|done]. }
  apply bind_result_unsupported; [|intros; apply or_range_unsupported].
  destruct (some _ keys), (_ && some is_ping_key keys); [|by apply bind_result_unsupported..|done].
  unfold both. specialize (Hl id (LoadMetrics.loadMetrics (load_snapshot env) id hours keys)).
  specialize (Hg id (PingMetrics.pingMetrics lang parse (ping_snapshot env) id hours b_start b_end)).
  destruct (with_load _ _ _ _) as [e|], (bind_result _ _) as [e'|]; try destruct (load_fails_first env);
    first [done | intros [= E]; naive_solver].
Qed.

(** The adapter answers exactly the operations it implements: when the failures
    of its requests are not themselves of this kind, an implemented operation
    never fails as unsupported, and every other one fails so with its method
    name, unless the call is aborted. *)
Theorem rpc_surface_exact (o : operation) :
  plain_answers env →
  (implemented o = true → ∀ m, call lang parse snapshot env o ≠ inl (Unsupported m)) ∧
  (implemented o = false → aborted_before env = false →
     call lang parse snapshot env o = inl (Unsupported (js (method_of o)))).
Proof using.
  intros Hp. split.
  - intros Hi m. unfold call, captainCall. destruct (aborted_before env); [done|].
    apply bind_result_unsupported; [|intros; by destruct (aborted_after env)].
    unfold dispatch. cbn zeta.
    destruct o; try discriminate Hi; cbn [request fst snd method_of params_of]; choose_method; try done;
      repeat case_bool_decide; try done;
      first [by apply with_load_unsupported | by apply with_pings_unsupported | by apply query_metrics_supported].
  - intros Hi Ha. unfold call, captainCall. rewrite Ha. unfold dispatch. cbn zeta.
    destruct o; try discriminate Hi; cbn [request fst snd method_of params_of]; choose_method; reflexivity.
Qed.
End surface.

Definition sample_environment : environment :=
  {| load_answer := inl NotFound; load_snapshot := None; ping_answer := inl NotFound; ping_snapshot := None;
     load_fails_first := true; now_before := 0; now_after := 0; aborted_before := false; aborted_after := false |}.

Lemma rpc_surface_exact_witness :
  call (H := simple_case) (js "en") (λ _, None) None sample_environment getVersion = inl (Unsupported (js "rpc.getVersion")).
Proof.
  destruct (@rpc_surface_exact simple_case (js "en") (λ _, None) None sample_environment getVersion) as [_ Hu].
  - intros m. split; discriminate.
  - exact (Hu eq_refl eq_refl).
Defined.
End KomariRpc.

(** ** [metrics.service.ts] *)

Module MetricsService.
Import CaptainCall.

Definition normalizeHours (hours : option num) : option num :=
  match hours with
  | Some h => if isFinite h && num_ltb (num_of_Z 0) h
              then (λ z, math_max (num_of_Z 1) (num_of_Z z)) <$> floor_Z h else None
  | None => None
  end.

Definition normalizeMaxPoints (maxPoints : option num) : option num :=
  match maxPoints with
  | Some n => if isFinite n && num_ltb (num_of_Z 0) n then num_of_Z <$> floor_Z n else None
  | None => None
  end.

(** The error of a request: an [RpcError] with its code, or what the adapter
    throws, which is no [RpcError]. *)
Inductive metric_error := Rpc (code : Z) | Adapter (e : error).

Definition shouldRetryMetricRequest (e : metric_error) : bool :=
  match e with
  | Rpc code => negb (bool_decide (code = 401)) && negb (bool_decide (code = 403)) && negb (bool_decide (code = -32601))
  | Adapter _ => true
  end.

Record MetricQueryParams := {
  metric_key : option jsstring;
  metric_keys : option (list jsstring);
  metrics : option (list jsstring);
  entity_id : option jsstring;
  entity_ids : option (list jsstring);
  start : option json;
  start_time : option json;
  end_ : option json;
  end_time : option json;
  hours : option num;
  tags : option json;
  downsample : option bool;
  server_downsample : option bool;
  fill_empty : option bool;
  max_points : option num;
  downsample_points : option num;
  aggregation : option jsstring;
  downsample_algorithm : option jsstring;
  algorithm : option jsstring;
}.

Record PingMetricStatsParams := {
  s_uuid : option jsstring;
  s_entity_id : option jsstring;
  s_entity_ids : option (list jsstring);
  s_task_id : option json;
  s_task_ids : option (list json);
  s_start : option json;
  s_start_time : option json;
  s_end : option json;
  s_end_time : option json;
  s_hours : option num;
  s_max_points : option num;
  s_downsample_points : option num;
}.

(** [new Set(...)] in insertion order. *)
Definition unique (l : list jsstring) : list jsstring :=
  foldl (λ l x, if bool_decide (x ∈ l) then l else l ++ [x]) [] l.

Definition normalizeMetricKeys (p : MetricQueryParams) : list jsstring :=
  sort_strings (unique (bfilter (λ k, negb (bool_decide (k = [])))
    (default [] (metric_keys p) ++ default [] (metrics p)
     ++ match metric_key p with Some ((_ :: _) as k) => [k] | _ => [] end))).

Section keys.
(** [JSON.stringify] of an object with its own keys, sorted, as the list of
    properties. *)
Context (stringify_sorted : jsmap string json → jsstring).

Definition cachePart (v : option json) : jsstring :=
  match v with
  | None | Some JNull => js "all"
  | Some (JArr l) =>
      match join [44] (sort_strings (json_string <$> l)) with [] => js "empty" | s => s end
  | Some (JObj m) => stringify_sorted m
  | Some v => json_string v
  end.

Definition texts (l : list jsstring) : json := JArr (JStr <$> l).

Definition getMetricDefinitionsRequestKey : jsstring := js "metrics:definitions".

Definition getQueryMetricsRequestKey (p : MetricQueryParams) : jsstring :=
  join [58] [js "metrics:query"; cachePart (Some (texts (normalizeMetricKeys p)));
    cachePart (JStr <$> entity_id p); cachePart (texts <$> entity_ids p); cachePart (JNum <$> hours p);
    cachePart (nullish (start p) (start_time p)); cachePart (nullish (end_ p) (end_time p));
    cachePart (JNum <$> nullish (max_points p) (downsample_points p));
    cachePart (JStr <$> nullish (nullish (aggregation p) (downsample_algorithm p)) (algorithm p));
    cachePart (tags p); cachePart (JBool <$> nullish (downsample p) (server_downsample p));
    cachePart (JBool <$> fill_empty p)].

Definition getPingMetricStatsRequestKey (p : PingMetricStatsParams) : jsstring :=
  join [58] [js "metrics:ping-stats"; cachePart (JStr <$> nullish (s_uuid p) (s_entity_id p));
    cachePart (texts <$> s_entity_ids p); cachePart (s_task_id p); cachePart (JArr <$> s_task_ids p);
    cachePart (JNum <$> s_hours p); cachePart (nullish (s_start p) (s_start_time p));
    cachePart (nullish (s_end p) (s_end_time p)); cachePart (JNum <$> nullish (s_max_points p) (s_downsample_points p))].

Definition getPublicPingTasksRequestKey : jsstring := js "metrics:public-ping-tasks".

(** The keys that are aborted. *)
Definition abortQueryMetrics (p : MetricQueryParams) : jsstring := getQueryMetricsRequestKey p.
Definition abortPingMetricStats (p : PingMetricStatsParams) : jsstring := getPingMetricStatsRequestKey p.

Definition normalizedParams (p : MetricQueryParams) : MetricQueryParams :=
  {| metric_key := metric_key p; metric_keys := metric_keys p; metrics := metrics p; entity_id := entity_id p;
     entity_ids := entity_ids p; start := start p; start_time := start_time p; end_ := end_ p; end_time := end_time p;
     hours := normalizeHours (hours p); tags := tags p; downsample := downsample p;
     server_downsample := server_downsample p; fill_empty := fill_empty p;
     max_points := normalizeMaxPoints (nullish (max_points p) (downsample_points p));
     downsample_points := downsample_points p; aggregation := aggregation p;
     downsample_algorithm := downsample_algorithm p; algorithm := algorithm p |}.

Definition normalizedStats (p : PingMetricStatsParams) : PingMetricStatsParams :=
  {| s_uuid := s_uuid p; s_entity_id := s_entity_id p; s_entity_ids := s_entity_ids p; s_task_id := s_task_id p;
     s_task_ids := s_task_ids p; s_start := s_start p; s_start_time := s_start_time p; s_end := s_end p;
     s_end_time := s_end_time p; s_hours := normalizeHours (s_hours p);
     s_max_points := normalizeMaxPoints (nullish (s_max_points p) (s_downsample_points p));
     s_downsample_points := s_downsample_points p |}.

(** The key of the request and the parameters that are sent. *)
Definition queryMetrics (p : MetricQueryParams) : jsstring * MetricQueryParams :=
  (getQueryMetricsRequestKey (normalizedParams p), normalizedParams p).

Definition loadPingMetricStats (p : PingMetricStatsParams) : jsstring * PingMetricStatsParams :=
  (getPingMetricStatsRequestKey (normalizedStats p), normalizedStats p).

Definition loadPublicPingTasks : jsstring * KomariRpc.operation :=
  (getPublicPingTasksRequestKey, KomariRpc.getPublicPingTasks).

(** ** Request keys *)

Lemma unique_spec l : NoDup (unique l) ∧ ∀ x, x ∈ unique l ↔ x ∈ l.
Proof using.
  unfold unique. assert (∀ acc, NoDup acc →
    NoDup (foldl (λ l x, if bool_decide (x ∈ l) then l else l ++ [x]) acc l) ∧
    ∀ x, x ∈ foldl (λ l x, if bool_decide (x ∈ l) then l else l ++ [x]) acc l ↔ x ∈ acc ∨ x ∈ l) as Hgen.
  { induction l as [|y l IH]; intros acc Hn; cbn [foldl]; [set_solver|]. case_bool_decide as Hy.
    - destruct (IH acc Hn) as [H1 H2]. split; [done|]. intros x. rewrite H2. set_solver.
    - destruct (IH (acc ++ [y])) as [H1 H2].
      { apply NoDup_app. split_and!; [done|set_solver|apply NoDup_singleton]. }
      split; [done|]. intros x. rewrite H2. set_solver. }
  destruct (Hgen [] NoDup_nil_2) as [H1 H2]. split; [done|]. intros x. rewrite H2. set_solver.
Qed.

(** The metric names of a query as a set. *)
Definition named (p : MetricQueryParams) (k : jsstring) : Prop :=
  k ≠ [] ∧ (k ∈ default [] (metric_keys p) ∨ k ∈ default [] (metrics p) ∨ metric_key p = Some k).

Lemma normalizeMetricKeys_spec p : NoDup (normalizeMetricKeys p) ∧ ∀ k, k ∈ normalizeMetricKeys p ↔ named p k.
Proof using.
  unfold normalizeMetricKeys. rewrite sort_strings_perm. destruct (unique_spec (bfilter (λ k, negb (bool_decide (k = [])))
    (default [] (metric_keys p) ++ default [] (metrics p) ++ match metric_key p with Some ((_ :: _) as k) => [k] | _ => [] end)))
    as [Hn He].
  split; [done|]. intros k. rewrite sort_strings_perm, He, elem_of_bfilter, negb_true_iff, bool_decide_eq_false.
  unfold named. rewrite !elem_of_app. destruct (metric_key p) as [[|u k']|]; set_solver.
Qed.

(** Queries for the same metrics, named in any order, in any of the three
    fields and any number of times, have the same list of keys. *)
Lemma normalizeMetricKeys_ext p q : (∀ k, named p k ↔ named q k) → normalizeMetricKeys p = normalizeMetricKeys q.
Proof using.
  intros Hpq. destruct (normalizeMetricKeys_spec p) as [Hp Ep], (normalizeMetricKeys_spec q) as [Hq Eq].
  assert (normalizeMetricKeys p ≡ₚ normalizeMetricKeys q) as Hperm.
  { apply NoDup_Permutation; [done|done|]. intros k. by rewrite Ep, Eq. }
  unfold normalizeMetricKeys in *. apply sort_strings_eq. etrans; [symmetry; apply sort_strings_perm|].
  etrans; [exact Hperm|apply sort_strings_perm].
Qed.

(** The same request otherwise. *)
Definition same_rest (p q : MetricQueryParams) : Prop :=
  entity_id p = entity_id q ∧ entity_ids p = entity_ids q ∧ hours p = hours q ∧
  nullish (start p) (start_time p) = nullish (start q) (start_time q) ∧
  nullish (end_ p) (end_time p) = nullish (end_ q) (end_time q) ∧
  nullish (max_points p) (downsample_points p) = nullish (max_points q) (downsample_points q) ∧
  downsample_points p = downsample_points q ∧
  nullish (nullish (aggregation p) (downsample_algorithm p)) (algorithm p)
  = nullish (nullish (aggregation q) (downsample_algorithm q)) (algorithm q) ∧
  tags p = tags q ∧ nullish (downsample p) (server_downsample p) = nullish (downsample q) (server_downsample q) ∧
  fill_empty p = fill_empty q.

(** Queries for the same metrics share one request: when two queries name
    the same set of metrics, in whatever order, field or number of times, and
    agree in the rest, they run under one key of the request manager. *)
Theorem query_key_shared (p q : MetricQueryParams) :
  (∀ k, named p k ↔ named q k) → same_rest p q → (queryMetrics p).1 = (queryMetrics q).1.
Proof using.
  intros Hk (E1 & E2 & E3 & E4 & E5 & E6 & E6' & E7 & E8 & E9 & E10). unfold queryMetrics, getQueryMetricsRequestKey. cbn [fst].
  rewrite (normalizeMetricKeys_ext (normalizedParams p) (normalizedParams q)) by exact Hk.
  cbn [normalizedParams entity_id entity_ids hours start start_time end_ end_time max_points downsample_points aggregation
       downsample_algorithm algorithm tags downsample server_downsample fill_empty].
  by rewrite E1, E2, E3, E4, E5, E6, E6', E7, E8, E9, E10.
Qed.

(** An abort reaches its query when the hours and the number of points are
    already as the query normalises them. *)
Lemma abort_reaches_query p :
  normalizeHours (hours p) = hours p →
  normalizeMaxPoints (nullish (max_points p) (downsample_points p)) = nullish (max_points p) (downsample_points p) →
  abortQueryMetrics p = (queryMetrics p).1.
Proof using.
  intros Hh Hm. unfold abortQueryMetrics, queryMetrics, getQueryMetricsRequestKey. cbn [fst].
  rewrite (normalizeMetricKeys_ext (normalizedParams p) p) by done.
  cbn [normalizedParams entity_id entity_ids hours start start_time end_ end_time max_points downsample_points aggregation
       downsample_algorithm algorithm tags downsample server_downsample fill_empty].
  rewrite Hh, Hm. by destruct (max_points p) as [|], (downsample_points p).
Qed.
End keys.

Definition sample_params (ks : list jsstring) (h : num) : MetricQueryParams :=
  {| metric_key := None; metric_keys := Some ks; metrics := None; entity_id := Some (js "7"); entity_ids := None;
     start := None; start_time := None; end_ := None; end_time := None; hours := Some h; tags := None;
     downsample := Some true; server_downsample := None; fill_empty := None; max_points := Some (num_of_Z 150);
     downsample_points := None; aggregation := None; downsample_algorithm := None; algorithm := None |}.

Lemma query_key_shared_witness :
  (queryMetrics (λ _, []) (sample_params [js "a"; js "b"; js "a"] (num_of_Z 1))).1
  = (queryMetrics (λ _, []) (sample_params [js "b"; js "a"] (num_of_Z 1))).1.
Proof.
  apply query_key_shared.
  - intros k. unfold named. cbn [sample_params metric_keys metrics metric_key default]. set_solver.
  - repeat split.
Defined.

(** *** The metric definitions *)

Section definitions.
Context {MetricDefinitions : Type}.

(** [metricDefinitionsCache] *)
Definition metricDefinitionsCache : SharedCache.SharedCacheOptions MetricDefinitions :=
  SharedCache.mkOptions 1 CACHE_CONFIG.request_ttl (Some CACHE_CONFIG.cleanup_interval) None false.

Definition definitions_key : string := "metrics:definitions".

(** [loadMetricDefinitions]: the cached value, or a request. *)
Definition loadMetricDefinitions (now : Z) (c : SharedCache.t MetricDefinitions)
    : (MetricDefinitions + (string * KomariRpc.operation)) * SharedCache.t MetricDefinitions :=
  match SharedCache.get metricDefinitionsCache now definitions_key c with
  | (Some cached, c) => (inl cached, c)
  | (None, c) => (inr (definitions_key, KomariRpc.listPublicMetricDefinitions), c)
  end.

(** Its continuation after the request. *)
Definition definitions_loaded (now now' : Z) (d : MetricDefinitions) (c : SharedCache.t MetricDefinitions)
    : MetricDefinitions * SharedCache.t MetricDefinitions :=
  SharedCache.set metricDefinitionsCache now now' definitions_key d c.

(** For five minutes after they were loaded the definitions need no request. *)
Lemma definitions_cached now now' now'' d :
  now' < now + CACHE_CONFIG.request_ttl → now'' < now + CACHE_CONFIG.request_ttl →
  (loadMetricDefinitions now'' (definitions_loaded now now' d (SharedCache.constructor true metricDefinitionsCache)).2).1
  = inl d.
Proof using.
  intros H1 H2. pose proof (SharedCache.set_get metricDefinitionsCache now now' now'' definitions_key d
    (SharedCache.constructor true metricDefinitionsCache)) as Hg.
  unfold loadMetricDefinitions, definitions_loaded. destruct (SharedCache.get _ _ _ _) as [[x|] c]; cbn [fst] in *.
  - rewrite (Some_inj _ _ (Hg (SharedCache.constructor_wf _ _) eq_refl ltac:(by intros ? ?%elem_of_nil) H1 H2 ltac:(reflexivity))). done.
  - discriminate (Hg (SharedCache.constructor_wf _ _) eq_refl ltac:(by intros ? ?%elem_of_nil) H1 H2 ltac:(reflexivity)).
Qed.
End definitions.

(** A query for one and a half hours runs under the key of one hour, but its
    abort looks for the key with the fraction. *)
Theorem abort_misses_query :
  let p := sample_params [js "a"] (num_div (num_of_Z 3) (num_of_Z 2)) in
  abortQueryMetrics (λ _, []) p ≠ (queryMetrics (λ _, []) p).1.
Proof. vm_compute. discriminate. Qed.

(** Every failure of the adapter is tried again, also the one of an operation
    that it does not have. *)
Theorem unsupported_is_retried e : shouldRetryMetricRequest (Adapter e) = true.
Proof. reflexivity. Qed.
End MetricsService.
