(* ===== verification/ServiceStatus.v ===== *)
(** * Service status of the portal and the site

    [portal/src/lib/service-status.ts], which the site repeats: the validation of
    an answer of the server, the entries that may still be shown at a given time,
    their summary and the headline.  Times are binary64 numbers, as the code
    computes with them; the fields that are only shown are left out of the
    records.  A property that does not exist is [None], and [undefined++] is not
    a number, which is [None] in a summary. *)

From Stdlib Require Import SpecFloat.
From S2P Require Import Prelude JsMap JsString Json JsValue FloatFacts.

Open Scope Z_scope.

#[local] Strategy opaque [js].

Module ServiceStatus.

Definition healthy : jsstring := js "healthy".
Definition degraded : jsstring := js "degraded".
Definition down : jsstring := js "down".
Definition maintenance_state : jsstring := js "maintenance".
Definition unknown_state : jsstring := js "unknown".
Definition total : jsstring := js "total".

Definition statusStates : list jsstring := [healthy; degraded; down; maintenance_state; unknown_state].

Definition statusReasons : list jsstring :=
  js <$> ["healthy"; "no_data"; "stale"; "config_pending"; "component_failure"; "no_route"; "partial_failure";
          "partial_unknown"; "unsupported"; "external_path"; "maintenance"; "service_paused"]%string.

Record StatusCategory := mkCategory { category_id : Z; category_name : jsstring; sort : Z }.
Record Maintenance := mkMaintenance { starts_at : num; ends_at : num; note : jsstring }.

Record StatusEntry := mkEntry {
  id : num;
  name : jsstring;
  category : option StatusCategory;
  state : jsstring;
  reason : jsstring;
  evidence : list jsstring;
  observed_at : option num;
  maintenance : option Maintenance;
}.

Record ServiceStatus := mkStatus { generated_at : num; entries : list StatusEntry }.

(** ** The answer of the server *)

Definition valid_entry (e : json) : bool :=
  negb (json_falsy e)
  && match json_prop "id" e with Some (JNum x) => isSafeInteger x | _ => false end
  && match json_prop "name" e with Some (JStr _) => true | _ => false end
  && match json_prop "evidence" e with Some (JArr _) => true | _ => false end.

Definition valid_status (data : json) : bool :=
  negb (json_falsy data)
  && match json_prop "generated_at" data with Some (JNum x) => isFinite x | _ => false end
  && match json_prop "entries" data with Some (JArr l) => every valid_entry l | _ => false end.

(** The answer of [fetch]: the body is [None] when it is not JSON. *)
Record response := mkResponse { ok : bool; status : Z; body : option json }.
Inductive failure := StatusRequestError (status : Z) | SyntaxError.

Definition fetchServiceStatus (r : response) : failure + json :=
  if negb (ok r) then inl (StatusRequestError (status r))
  else match body r with
       | None => inl SyntaxError
       | Some data => if valid_status data then inr data else inl (StatusRequestError 0)
       end.

(** ** What may still be shown *)

Definition ge (x y : num) : bool := num_leb y x.
Definition gt (x y : num) : bool := num_ltb y x.

Definition snapshotExpired (data : ServiceStatus) (now : num) : bool :=
  num_leb (generated_at data) (num_of_Z 0)
  || ge (num_sub now (generated_at data)) (num_of_Z 180)
  || gt (num_sub (generated_at data) now) (num_of_Z 60).

Definition unknown (entry : StatusEntry) (r : jsstring) : StatusEntry :=
  mkEntry (id entry) (name entry) (category entry) unknown_state r (evidence entry) (observed_at entry) None.

Definition in_maintenance (m : option Maintenance) (now : num) : bool :=
  match m with
  | Some m => isFinite (starts_at m) && isFinite (ends_at m) && num_leb (starts_at m) now && gt (ends_at m) now
  | None => false
  end.

Definition observed_stale (entry : StatusEntry) (now : num) : bool :=
  match observed_at entry with
  | Some t => negb (isFinite t) || ge (num_sub now t) (num_of_Z 180) || gt (num_sub t now) (num_of_Z 60)
  | None => false
  end.

Definition observed_missing (entry : StatusEntry) : bool :=
  match observed_at entry with Some t => negb (num_truthy t) | None => true end.

Definition current_entry (expired : bool) (now : num) (entry : StatusEntry) : StatusEntry :=
  if expired then unknown entry (js "stale")
  else if negb (bool_decide (state entry ∈ statusStates)) then unknown entry (js "unsupported")
  else if bool_decide (state entry = maintenance_state) then
    if in_maintenance (maintenance entry) now then entry else unknown entry (js "stale")
  else if observed_stale entry now then unknown entry (js "stale")
  else if observed_missing entry && negb (bool_decide (state entry = unknown_state)) then unknown entry (js "no_data")
  else if negb (bool_decide (reason entry ∈ statusReasons)) then unknown entry (js "unsupported")
  else entry.

Definition currentEntries (data : ServiceStatus) (now : num) : list StatusEntry :=
  current_entry (snapshotExpired data now) now <$> entries data.

(** ** Summary and headline *)

Definition summary := jsmap jsstring (option Z).

Definition zero_summary (n : nat) : summary :=
  [(healthy, Some 0); (degraded, Some 0); (down, Some 0); (maintenance_state, Some 0); (unknown_state, Some 0);
   (total, Some (Z.of_nat n))].

(** [result[state]++] *)
Definition increment (result : summary) (key : jsstring) : summary :=
  jm_set key (Z.succ <$> default None (jm_get key result)) result.

Definition summarize (l : list StatusEntry) : summary :=
  foldl (λ result entry, increment result (state entry)) (zero_summary (length l)) l.

Definition field (k : jsstring) (s : summary) : option Z := default None (jm_get k s).
Definition truthy_count (n : option Z) : bool := match n with Some n => negb (bool_decide (n = 0)) | None => false end.
(** [===] on numbers: not a number is different from itself. *)
Definition same_count (a b : option Z) : bool :=
  match a, b with Some a, Some b => bool_decide (a = b) | _, _ => false end.

Definition headlineKey (s : summary) : jsstring :=
  if negb (truthy_count (field total s)) then js "emptyTitle"
  else if same_count (field down s) (field total s) then js "allDown"
  else if truthy_count (field down s) || truthy_count (field degraded s) then js "issues"
  else if truthy_count (field maintenance_state s) then js "maintaining"
  else if truthy_count (field unknown_state s) then js "awaiting"
  else js "allHealthy".

(** The values of the [Map] by identifier, by [sort] and then identifier. *)
Definition statusCategories (l : list StatusEntry) : list StatusCategory :=
  sort_on sort (sort_on category_id (jm_values
    (foldl (λ m c, jm_set (category_id c) c m) ([] : jsmap Z StatusCategory) (omap category l)))).

(** ** Facts *)

Lemma state_ne : healthy ≠ maintenance_state ∧ healthy ≠ unknown_state ∧ down ≠ unknown_state ∧ unknown_state ∈ statusStates
  ∧ (total ∉ statusStates) ∧ NoDup statusStates.
Proof. decide_closed. Qed.

(** An entry that is shown as it was sent. *)
Definition credible (data : ServiceStatus) (now : num) (entry : StatusEntry) : Prop :=
  snapshotExpired data now = false ∧ state entry ∈ statusStates ∧
  if bool_decide (state entry = maintenance_state) then in_maintenance (maintenance entry) now = true
  else observed_stale entry now = false ∧ (state entry ≠ unknown_state → observed_missing entry = false) ∧
       reason entry ∈ statusReasons.

(** An entry of which only the existence is shown. *)
Definition withdrawn (entry shown : StatusEntry) : Prop :=
  ∃ r, shown = unknown entry r ∧ (r = js "stale" ∨ r = js "unsupported" ∨ r = js "no_data").

#[local] Hint Unfold withdrawn : js.

Ltac withdraw :=
  right; split; [intros (? & ? & ?); naive_solver|eexists; split; [reflexivity|tauto]].

(** Nothing is shown on evidence that has gone stale: every entry is either
    shown as it was sent, and then the snapshot is less than three minutes old
    (and not from the future), its state is one of the five, a maintenance is
    under way, any other state rests on an observation of the last three minutes
    and its reason is known; or it is shown as unknown, with a reason and
    without the maintenance it announced.  The first is the case
    exactly if the conditions hold. *)
Theorem current_entries_credible (data : ServiceStatus) (now : num) :
  Forall2 (λ entry shown, (credible data now entry ∧ shown = entry) ∨ (¬ credible data now entry ∧ withdrawn entry shown))
    (entries data) (currentEntries data now).
Proof.
  apply Forall2_fmap_r, Forall_Forall2_diag, Forall_forall. intros e _.
  unfold compose, current_entry, credible. cbv beta.
  destruct (snapshotExpired data now); [withdraw|].
  destruct (bool_decide (state e ∈ statusStates)) eqn:Hs; reflect_bools; cbn [negb]; [|withdraw].
  destruct (bool_decide (state e = maintenance_state)).
  { destruct (in_maintenance _ now); [by left|withdraw]. }
  destruct (observed_stale e now); [withdraw|].
  destruct (observed_missing e); cbn [andb]; case_bool_decide; cbn [andb negb]; try withdraw;
    try (case_bool_decide; cbn [negb]; try withdraw); left; split_and!; first [done|congruence].
Qed.

Lemma current_state expired now e : state (current_entry expired now e) ∈ statusStates.
Proof.
  pose proof state_ne as (_ & _ & _ & Hu & _). unfold current_entry. repeat case_match; try exact Hu; reflect_bools; done.
Qed.

Definition count_state (k : jsstring) (l : list StatusEntry) : Z :=
  Z.of_nat (length (bfilter (λ e, bool_decide (state e = k)) l)).

Lemma summarize_from l s k n :
  jm_get k s = Some (Some n) →
  jm_get k (foldl (λ result entry, increment result (state entry)) s l) = Some (Some (n + count_state k l)).
Proof.
  unfold count_state. revert s n. induction l as [|e l IH]; intros s n Hn; cbn; [by rewrite Z.add_0_r|].
  unfold increment at 2. destruct (decide (state e = k)) as [->|Hne].
  - rewrite bool_decide_true by done. cbn [length]. rewrite (IH _ (Z.succ n)); [f_equal; f_equal; lia|].
    by rewrite jm_get_set_eq, Hn.
  - rewrite bool_decide_false by done. apply IH. by rewrite jm_get_set_ne.
Qed.

Lemma summarize_field l k :
  k ∈ statusStates → field k (summarize l) = Some (count_state k l).
Proof.
  intros Hk. unfold field, summarize. rewrite (summarize_from _ _ k 0); [done|].
  unfold statusStates in Hk. repeat (apply elem_of_cons in Hk as [->|Hk]; [reflexivity|]). by apply not_elem_of_nil in Hk.
Qed.

Lemma summarize_total l :
  Forall (λ e, state e ∈ statusStates) l → field total (summarize l) = Some (Z.of_nat (length l)).
Proof.
  intros Hl. unfold field, summarize. rewrite (summarize_from _ _ total (Z.of_nat (length l))); [|reflexivity].
  cbn. f_equal. unfold count_state. rewrite bfilter_none; [cbn; lia|].
  intros e He. rewrite Forall_forall in Hl. specialize (Hl e He). apply bool_decide_false.
  intros E. destruct state_ne as (_ & _ & _ & _ & Ht & _). apply Ht. by rewrite <- E.
Qed.

Lemma count_zero k l : count_state k l = 0 ↔ ∀ e, e ∈ l → state e ≠ k.
Proof.
  unfold count_state. split.
  - intros H e He E. assert (e ∈ bfilter (λ e, bool_decide (state e = k)) l) as Hi.
    { apply elem_of_bfilter. by rewrite bool_decide_true. }
    destruct (bfilter _ l); [by apply not_elem_of_nil in Hi|cbn in H; lia].
  - intros H. rewrite bfilter_none; [done|]. intros e He. apply bool_decide_false. by apply H.
Qed.

Lemma headline_ne :
  Forall (λ k, js k ≠ js "allHealthy") ["emptyTitle"; "allDown"; "issues"; "maintaining"; "awaiting"]%string.
Proof. decide_closed. Qed.

Lemma headline_counts l :
  Forall (λ e, state e ∈ statusStates) l →
  headlineKey (summarize l) = js "allHealthy" ↔ l ≠ [] ∧ ∀ e, e ∈ l → state e = healthy.
Proof.
  intros Hst. pose proof headline_ne as Hne. rewrite !Forall_cons in Hne. destruct Hne as (N1 & N2 & N3 & N4 & N5 & _).
  assert (∀ k, k ∈ statusStates → k ≠ healthy → (∀ e, e ∈ l → state e = healthy) → count_state k l = 0) as H0.
  { intros k _ Hk Hh. apply count_zero. intros e He. rewrite (Hh e He). done. }
  assert ((∀ k, k ∈ statusStates → k ≠ healthy → count_state k l = 0) → ∀ e, e ∈ l → state e = healthy) as H1.
  { intros Hc e He. rewrite Forall_forall in Hst. specialize (Hst e He). destruct (decide (state e = healthy)); [done|].
    by destruct (proj1 (count_zero _ l) (Hc _ Hst ltac:(done)) e He). }
  destruct (decide (l = [])) as [->|Hl]; [split; [|by intros [? _]]; vm_compute; discriminate|].
  assert (0 < Z.of_nat (length l)) by (destruct l; [done|cbn; lia]).
  unfold headlineKey. rewrite summarize_total by done. rewrite !summarize_field by decide_closed.
  unfold truthy_count, same_count. rewrite (bool_decide_false (Z.of_nat _ = 0)) by lia. cbn [negb].
  assert (∀ k, In k [degraded; down; maintenance_state; unknown_state] → k ∈ statusStates ∧ k ≠ healthy) as Hk.
  { apply List.Forall_forall. decide_closed. }
  split.
  - intros Hh. split; [done|]. apply H1. intros k Hk1 Hk2.
    destruct (bool_decide (count_state down l = _)); [done|].
    destruct (bool_decide (count_state down l = 0)) eqn:E1; [|done]. cbn [negb orb] in Hh.
    destruct (bool_decide (count_state degraded l = 0)) eqn:E2; [|done]. cbn [negb] in Hh.
    destruct (bool_decide (count_state maintenance_state l = 0)) eqn:E3; [|done]. cbn [negb] in Hh.
    destruct (bool_decide (count_state unknown_state l = 0)) eqn:E4; [|done]. reflect_bools.
    unfold statusStates in Hk1. repeat (apply elem_of_cons in Hk1 as [->|Hk1]; [done|]). by apply not_elem_of_nil in Hk1.
  - intros [_ Hh].
    rewrite (H0 degraded), (H0 down), (H0 maintenance_state), (H0 unknown_state) by (try done; apply Hk; cbn; tauto).
    rewrite bool_decide_false by lia. done.
Qed.

Lemma currentEntries_healthy data now :
  (∀ e, e ∈ currentEntries data now → state e = healthy) ↔
  (entries data = [] ∨ snapshotExpired data now = false) ∧
  ∀ e, e ∈ entries data → state e = healthy ∧ observed_stale e now = false ∧ observed_missing e = false ∧
    reason e ∈ statusReasons.
Proof.
  destruct state_ne as (Hhm & Hhu & _ & _ & _ & _). unfold currentEntries. split.
  - intros H. assert (∀ e, e ∈ entries data → state (current_entry (snapshotExpired data now) now e) = healthy) as Hc.
    { intros e He. apply H, list_elem_of_fmap. by exists e. }
    split.
    + destruct (entries data) as [|e l]; [by left|right]. specialize (Hc e (list_elem_of_here _ _)).
      unfold current_entry in Hc. by destruct (snapshotExpired data now).
    + intros e He. specialize (Hc e He). unfold current_entry, unknown in Hc.
      repeat case_match; cbn [state] in Hc; try done; reflect_bools; simplify_eq; try congruence.
      rewrite Hc, (bool_decide_false (healthy = _)), andb_true_r in * by done. done.
  - intros [Hx H] e' (e & -> & He)%list_elem_of_fmap. destruct Hx as [Hx | ->]; [rewrite Hx in He; by apply not_elem_of_nil in He|].
    destruct (H e He) as (Hs & H1 & H2 & H3). unfold current_entry. rewrite Hs, H1, H2.
    rewrite (bool_decide_true (healthy ∈ statusStates)) by decide_closed.
    rewrite (bool_decide_false (healthy = maintenance_state)) by done. cbn [negb andb].
    by rewrite bool_decide_true by done.
Qed.

(** The conditions of the code, positively. *)
Lemma times_current now x :
  isFinite now = true → isFinite x = true →
  (ge (num_sub now x) (num_of_Z 180) = false ∧ gt (num_sub x now) (num_of_Z 60) = false) ↔
  (num_ltb (num_sub now x) (num_of_Z 180) = true ∧ num_leb (num_sub x now) (num_of_Z 60) = true).
Proof.
  intros Hn Hx. unfold ge, gt.
  rewrite (num_leb_flip (num_sub now x)), (num_ltb_flip (num_of_Z 60)) by first [done|by apply num_sub_not_nan]. done.
Qed.

Lemma snapshot_current data now :
  isFinite (generated_at data) = true → isFinite now = true →
  snapshotExpired data now = false ↔
  num_ltb (num_of_Z 0) (generated_at data) = true ∧
  num_ltb (num_sub now (generated_at data)) (num_of_Z 180) = true ∧
  num_leb (num_sub (generated_at data) now) (num_of_Z 60) = true.
Proof.
  intros Hg Hn. unfold snapshotExpired. rewrite !orb_false_iff, <-(times_current now) by done.
  rewrite (num_leb_flip (num_of_Z 0)) by first [done|by apply finite_not_nan]. tauto.
Qed.

Lemma observation_current e now :
  isFinite now = true →
  (observed_stale e now = false ∧ observed_missing e = false) ↔
  ∃ x, observed_at e = Some x ∧ isFinite x = true ∧ num_eqb x (num_of_Z 0) = false ∧
    num_ltb (num_sub now x) (num_of_Z 180) = true ∧ num_leb (num_sub x now) (num_of_Z 60) = true.
Proof.
  intros Hn. unfold observed_stale, observed_missing. destruct (observed_at e) as [x|]; [|naive_solver].
  assert (isFinite x = true → negb (num_truthy x) = false ↔ num_eqb x (num_of_Z 0) = false) as Hz.
  { by destruct x as [[]|[]| |[]]. }
  rewrite !orb_false_iff, negb_false_iff. split.
  - intros [[[Hf H1] H2] H3]. exists x. split_and!; try done; [by apply Hz|by apply times_current..].
  - intros (y & [= <-] & Hf & H3 & H12). rewrite Hz by done.
    apply (times_current now x) in H12 as [? ?]; done.
Qed.

(** C17: the headline says that all is well only when it is, on current
    evidence.  For a snapshot whose [generated_at] is finite (the validation of
    the answer guarantees it) at a finite time [now], in seconds, the headline
    of the entries shown is "allHealthy" if and only if there are entries; the
    snapshot has a positive time, is less than 180 seconds old and at most 60
    seconds ahead of [now]; and every entry was sent as "healthy", with an
    observation at a finite time other than 0, less than 180 seconds old and at
    most 60 seconds ahead of [now], and with one of the twelve known reasons. *)
Theorem headline_all_healthy_exact (data : ServiceStatus) (now : num) :
  isFinite (generated_at data) = true → isFinite now = true →
  let current x := num_ltb (num_sub now x) (num_of_Z 180) = true ∧ num_leb (num_sub x now) (num_of_Z 60) = true in
  headlineKey (summarize (currentEntries data now)) = js "allHealthy" ↔
  entries data ≠ [] ∧ num_ltb (num_of_Z 0) (generated_at data) = true ∧ current (generated_at data) ∧
  ∀ e, e ∈ entries data → state e = js "healthy" ∧
    (∃ x, observed_at e = Some x ∧ isFinite x = true ∧ num_eqb x (num_of_Z 0) = false ∧ current x) ∧
    reason e ∈ js <$> ["healthy"; "no_data"; "stale"; "config_pending"; "component_failure"; "no_route";
      "partial_failure"; "partial_unknown"; "unsupported"; "external_path"; "maintenance"; "service_paused"]%string.
Proof.
  intros Hg Hn current.
  rewrite headline_counts, currentEntries_healthy; [|apply Forall_fmap, Forall_forall; intros; apply current_state].
  assert (currentEntries data now = [] ↔ entries data = []) as -> by (unfold currentEntries; by destruct (entries data)).
  rewrite (snapshot_current _ _ Hg Hn). unfold current.
  split.
  - intros (Hne & [?|Hs] & He); [done|]. split_and!; [done|apply Hs..|]. intros e (? & ? & ? & ?)%He.
    split_and!; [done|by apply observation_current|done].
  - intros (Hne & ? & [? ?] & He). split_and!; [done|by right|]. intros e (? & Ho & ?)%He.
    apply (observation_current e now Hn) in Ho as [? ?]. done.
Qed.

Lemma headline_all_healthy_exact_witness :
  let fresh := mkEntry (num_of_Z 1) (js "a") None healthy (js "healthy") [] (Some (num_of_Z 1000)) None in
  headlineKey (summarize (currentEntries (mkStatus (num_of_Z 1010) [fresh]) (num_of_Z 1179))) = js "allHealthy" ∧
  headlineKey (summarize (currentEntries (mkStatus (num_of_Z 1010) [fresh]) (num_of_Z 1180))) ≠ js "allHealthy".
Proof.
  intros fresh. split.
  - apply (headline_all_healthy_exact (mkStatus (num_of_Z 1010) [fresh]) (num_of_Z 1179)); [reflexivity|reflexivity|].
    split; [discriminate|]. split; [reflexivity|]. split; [split; reflexivity|].
    intros e He. apply list_elem_of_singleton in He as ->. split; [reflexivity|]. split.
    + exists (num_of_Z 1000). repeat split.
    + apply list_elem_of_here.
  - intros H. apply (headline_all_healthy_exact (mkStatus (num_of_Z 1010) [fresh]) (num_of_Z 1180)) in H;
      [|reflexivity|reflexivity].
    destruct H as (_ & _ & _ & H). destruct (H fresh (list_elem_of_here _ _)) as (_ & (x & Hx & _ & _ & Hc & _) & _).
    cbn in Hx. apply (inj Some) in Hx. subst x. vm_compute in Hc. discriminate Hc.
Defined.

Lemma count_cons k e l : count_state k (e :: l) = (if bool_decide (state e = k) then 1 else 0) + count_state k l.
Proof. unfold count_state. cbn. destruct (bool_decide (state e = k)); cbn [length]; lia. Qed.

Lemma state_counts_add l :
  Forall (λ e, state e ∈ statusStates) l → foldr (λ k a, count_state k l + a) 0 statusStates = Z.of_nat (length l).
Proof.
  pose proof state_ne as (_ & _ & _ & _ & _ & Hnd). induction 1 as [|e l He Hl IH]; [done|].
  assert (foldr (λ k a, (if bool_decide (state e = k) then 1 else 0) + a) 0 statusStates = 1) as H1.
  { revert He Hnd. generalize statusStates. intros ks. induction ks as [|k ks IHk]; [by intros ?%not_elem_of_nil|].
    intros Hin [Hk Hnd]%NoDup_cons. cbn. destruct (decide (state e = k)) as [E|E].
    - rewrite bool_decide_true by done. enough (foldr (λ k a, (if bool_decide (state e = k) then 1 else 0) + a) 0 ks = 0) by lia.
      clear -Hk E. induction ks as [|k' ks IH]; [done|]. cbn. rewrite bool_decide_false by set_solver. apply IH. set_solver.
    - rewrite bool_decide_false by done. apply IHk; [set_solver|done]. }
  cbn [length]. rewrite Nat2Z.inj_succ, <- IH. rewrite <- Z.add_1_l, <- H1. clear.
  induction statusStates as [|k ks IHk]; [done|]. cbn [foldr]. rewrite count_cons. lia.
Qed.

(** The summary of the entries shown is a partition: each of the five counts
    is the number of entries in that state, [total] is their number, and the
    five counts add up to it. *)
Theorem summary_partition (data : ServiceStatus) (now : num) :
  let l := currentEntries data now in
  (∀ k, k ∈ statusStates → field k (summarize l) = Some (count_state k l)) ∧
  field total (summarize l) = Some (Z.of_nat (length (entries data))) ∧
  foldr (λ k a, count_state k l + a) 0 statusStates = Z.of_nat (length (entries data)).
Proof.
  intros l. assert (Forall (λ e, state e ∈ statusStates) l) as Hst
    by (apply Forall_fmap, Forall_forall; intros; apply current_state).
  assert (length l = length (entries data)) as Hlen by apply length_fmap.
  split_and!; [intros; by apply summarize_field| |].
  - by rewrite summarize_total, Hlen.
  - by rewrite state_counts_add, Hlen.
Qed.

Lemma categories_wf (cs : list StatusCategory) (m : jsmap Z StatusCategory) :
  jm_wf m → (∀ k c, (k, c) ∈ m → category_id c = k) →
  let m' := foldl (λ m c, jm_set (category_id c) c m) m cs in
  jm_wf m' ∧ ∀ k c, (k, c) ∈ m' → category_id c = k.
Proof.
  revert m. induction cs as [|c cs IH]; intros m Hw Hm; [done|]. cbn. apply IH; [by apply jm_wf_set|].
  intros k c' [?|[??]]%jm_elem_of_set; simplify_eq/=; [done|by apply Hm|done].
Qed.

(** The categories of the entries, once per identifier and in order. *)
Theorem categories_once (l : list StatusEntry) :
  NoDup (category_id <$> statusCategories l) ∧
  (∀ i, i ∈ category_id <$> statusCategories l ↔ ∃ c, c ∈ omap category l ∧ category_id c = i) ∧
  StronglySorted (λ a b, sort a ≤ sort b) (statusCategories l).
Proof.
  unfold statusCategories. set (m := foldl _ _ _).
  destruct (categories_wf (omap category l) [] (NoDup_nil_2 : jm_wf [])) as [Hw Hk]; [by intros ? ? ?%not_elem_of_nil|].
  fold m in Hw, Hk.
  assert (category_id <$> jm_values m = jm_keys m) as Hkeys.
  { unfold jm_values, jm_keys. rewrite <- list_fmap_compose. apply list_fmap_ext. intros i [k c] Hi. cbn.
    apply Hk. by apply list_elem_of_lookup_2 in Hi. }
  assert (category_id <$> sort_on sort (sort_on category_id (jm_values m)) ≡ₚ jm_keys m) as Hp
    by (by rewrite <- Hkeys, !sort_on_perm).
  split_and!; [by rewrite Hp| |apply sort_on_sorted].
  intros i. rewrite Hp. unfold m. clear.
  assert (∀ (m : jsmap Z StatusCategory), i ∈ jm_keys (foldl (λ m c, jm_set (category_id c) c m) m (omap category l)) ↔
    i ∈ jm_keys m ∨ ∃ c, c ∈ omap category l ∧ category_id c = i) as H; [|rewrite H; set_solver].
  generalize (omap category l). intros cs. induction cs as [|c cs IH]; intros m; cbn [foldl]; [set_solver|].
  rewrite IH. unfold jm_keys. rewrite jm_keys_set. case_bool_decide; set_solver.
Qed.

End ServiceStatus.
