(* ===== verification/Referral.v ===== *)
(** * Invitations and the return address of the portal

    [portal/src/lib/referral.ts] (module [Referral]: [createReferralWriter],
    which writes the codes of invitations one after another) and
    [portal/src/lib/login-return.ts] (module [LoginReturn]).

    A call of the writer makes a promise that waits for the one before, calls
    [write] and settles with it.  [Start] is the continuation that calls [write],
    [Settle] the answer of the server and [Caught] the handler that forgets a
    failed code; they run in any order the promises allow.  [URLSearchParams] is
    a parameter. *)

From S2P Require Import Prelude JsMap JsString.

Open Scope nat_scope.

Module Referral.

Inductive status := Waiting | Writing | Settled (ok : bool).

#[global] Instance status_eq_dec : EqDecision status.
Proof. solve_decision. Defined.

(** A promise with its code, the promise it waits for, and whether the handler
    of its failure has run. *)
Record promise := mkPromise { code : jsstring; previous : option nat; state : status; caught : bool }.

Record t := mk { latest : option nat; promises : list promise; writes : list nat }.

Definition initial : t := mk None [] [].

Definition settled (i : nat) (s : t) : bool :=
  match promises s !! i with
  | Some p => match state p with Settled _ => true | _ => false end
  | None => false
  end.

Definition latest_code (s : t) : option jsstring := latest s ≫= λ i, code <$> promises s !! i.

(** The promise that is returned is [None] when it is [Promise.resolve()]. *)
Definition remember (value : jsstring) (s : t) : t * option nat :=
  let c := trim value in
  if bool_decide (c = []) then (s, latest s)
  else if bool_decide (latest_code s = Some c) then (s, latest s)
  else let i := length (promises s) in
       (mk (Some i) (promises s ++ [mkPromise c (latest s) Waiting false]) (writes s), Some i).

Definition with_state (st : status) (p : promise) : promise := mkPromise (code p) (previous p) st (caught p).

(** [.catch(() => {}).then(() => write(code))] *)
Definition start (i : nat) (s : t) : t :=
  match promises s !! i with
  | Some p =>
      if bool_decide (state p = Waiting) && match previous p with Some j => settled j s | None => true end
      then mk (latest s) (<[i := with_state Writing p]> (promises s)) (writes s ++ [i])
      else s
  | None => s
  end.

Definition settle (i : nat) (ok : bool) (s : t) : t :=
  match promises s !! i with
  | Some p => if bool_decide (state p = Writing)
              then mk (latest s) (<[i := with_state (Settled ok) p]> (promises s)) (writes s) else s
  | None => s
  end.

(** [promise.catch(() => { if (latest === current) latest = undefined })] *)
Definition on_failure (i : nat) (s : t) : t :=
  match promises s !! i with
  | Some p =>
      if bool_decide (state p = Settled false) && negb (caught p)
      then mk (if bool_decide (latest s = Some i) then None else latest s)
             (<[i := mkPromise (code p) (previous p) (state p) true]> (promises s)) (writes s)
      else s
  | None => s
  end.

Inductive event := Remember (value : jsstring) | Start (i : nat) | Settle (i : nat) (ok : bool) | Caught (i : nat).

Definition step (e : event) (s : t) : t :=
  match e with
  | Remember v => (remember v s).1
  | Start i => start i s
  | Settle i ok => settle i ok s
  | Caught i => on_failure i s
  end.

(** ** The invariant

    The promises form a chain: only the newest can be the latest one, each waits
    for the one before unless that has failed, and the writes begun are those of
    an initial segment, of which all but the newest have settled. *)

Definition failed (i : nat) (s : t) : Prop := ∃ p, promises s !! i = Some p ∧ state p = Settled false.

Record inv (s : t) : Prop := {
  inv_latest : match latest s with
               | Some j => length (promises s) = S j
               | None => ∀ j, length (promises s) = S j → failed j s
               end;
  inv_previous i p : promises s !! i = Some p →
    match previous p with Some j => i = S j | None => ∀ j, i = S j → failed j s end;
  inv_codes i p q : promises s !! i = Some p → promises s !! S i = Some q → code p = code q → failed i s;
  inv_named i p : promises s !! i = Some p → code p ≠ [];
  inv_writes : writes s = seq 0 (length (writes s));
  inv_started i p : promises s !! i = Some p → (i < length (writes s) ↔ state p ≠ Waiting);
  inv_bound : length (writes s) ≤ length (promises s);
  inv_settled i : S i < length (writes s) → settled i s = true;
}.

(** What the promises look like after one of them changes its state. *)
Record moves (i : nat) (p p' : promise) (s s' : t) : Prop := {
  mv_old : promises s !! i = Some p;
  mv_new : promises s' = <[i := p']> (promises s);
  mv_code : code p' = code p;
  mv_previous : previous p' = previous p;
  mv_failed : state p = Settled false → state p' = Settled false;
}.

Lemma moves_lookup i p p' s s' j q :
  moves i p p' s s' → promises s' !! j = Some q →
  ∃ q0, promises s !! j = Some q0 ∧ code q = code q0 ∧ previous q = previous q0 ∧ (j ≠ i → q = q0) ∧ (j = i → q = p').
Proof.
  intros [Hp -> Hc Hv _] Hq. destruct (decide (j = i)) as [->|Hne].
  - rewrite list_lookup_insert_eq in Hq by (by eapply lookup_lt_Some). simplify_eq. exists p. naive_solver.
  - rewrite list_lookup_insert_ne in Hq by done. exists q. naive_solver.
Qed.

Lemma moves_failed i p p' s s' j : moves i p p' s s' → failed j s → failed j s'.
Proof.
  unfold failed. intros [Hp -> _ _ Hf] (q & Hq & Hs). destruct (decide (j = i)) as [->|Hne].
  - exists p'. rewrite list_lookup_insert_eq by (by eapply lookup_lt_Some). split; [done|]. apply Hf. congruence.
  - exists q. by rewrite list_lookup_insert_ne.
Qed.

Lemma settled_true i s : settled i s = true ↔ ∃ p ok, promises s !! i = Some p ∧ state p = Settled ok.
Proof. unfold settled. split; [intros; repeat case_match; naive_solver|intros (p & ok & -> & ->); done]. Qed.

Lemma failed_settled i s : failed i s → settled i s = true.
Proof. intros (p & Hp & Hs). apply settled_true. by exists p, false. Qed.

(** The part of the invariant that does not speak of the writes. *)
Lemma moves_chain i p p' s s' :
  inv s → moves i p p' s s' →
  (latest s' = latest s ∨ latest s' = None ∧ latest s = Some i ∧ state p' = Settled false) →
  (match latest s' with
   | Some j => length (promises s') = S j
   | None => ∀ j, length (promises s') = S j → failed j s'
   end) ∧
  (∀ j q, promises s' !! j = Some q →
     match previous q with Some k => j = S k | None => ∀ k, j = S k → failed k s' end) ∧
  (∀ j q r, promises s' !! j = Some q → promises s' !! S j = Some r → code q = code r → failed j s') ∧
  (∀ j q, promises s' !! j = Some q → code q ≠ []).
Proof.
  intros Hi Hm Hl. assert (length (promises s') = length (promises s)) as Hlen
    by (rewrite (mv_new _ _ _ _ _ Hm); apply length_insert).
  split_and!.
  - pose proof (inv_latest s Hi) as H. rewrite Hlen. destruct Hl as [->|(-> & El & Ep)].
    + destruct (latest s); [done|]. intros j Hj. eapply moves_failed; [done|]. by apply H.
    + rewrite El in H. intros j Hj. rewrite H in Hj. simplify_eq. exists p'. rewrite (mv_new _ _ _ _ _ Hm).
      rewrite list_lookup_insert_eq; [done|]. eapply lookup_lt_Some, (mv_old _ _ _ _ _ Hm).
  - intros j q Hq. destruct (moves_lookup _ _ _ _ _ _ _ Hm Hq) as (q0 & Hq0 & _ & -> & _).
    pose proof (inv_previous s Hi j q0 Hq0) as H. destruct (previous q0); [done|].
    intros k Hk. eapply moves_failed; [done|]. by apply H.
  - intros j q r Hq Hr E. destruct (moves_lookup _ _ _ _ _ _ _ Hm Hq) as (q0 & Hq0 & Ec & _).
    destruct (moves_lookup _ _ _ _ _ _ _ Hm Hr) as (r0 & Hr0 & Ec' & _). eapply moves_failed; [done|].
    eapply (inv_codes s Hi); [done..|congruence].
  - intros j q Hq. destruct (moves_lookup _ _ _ _ _ _ _ Hm Hq) as (q0 & Hq0 & -> & _). by eapply inv_named.
Qed.

(** A move that does not begin a write. *)
Lemma moves_inv i p p' s s' :
  inv s → moves i p p' s s' → writes s' = writes s →
  state p ≠ Waiting → state p' ≠ Waiting → (settled i s = true → ∃ ok, state p' = Settled ok) →
  (latest s' = latest s ∨ latest s' = None ∧ latest s = Some i ∧ state p' = Settled false) → inv s'.
Proof.
  intros Hi Hm Hw H1 H2 Hst Hl. destruct (moves_chain _ _ _ _ _ Hi Hm Hl) as (C1 & C2 & C3 & C4).
  split; try done; rewrite ?Hw.
  - apply (inv_writes s Hi).
  - intros j q Hq. destruct (moves_lookup _ _ _ _ _ _ _ Hm Hq) as (q0 & Hq0 & _ & _ & Hne & He).
    rewrite (inv_started s Hi j q0 Hq0). destruct (decide (j = i)) as [->|Hji]; [|by rewrite Hne].
    rewrite He by done. rewrite (mv_old _ _ _ _ _ Hm) in Hq0. simplify_eq. tauto.
  - rewrite (mv_new _ _ _ _ _ Hm), length_insert. apply (inv_bound s Hi).
  - intros j Hj. pose proof (inv_settled s Hi j Hj) as Hs. destruct (decide (j = i)) as [->|Hji].
    + destruct (Hst Hs) as [ok Hok]. apply settled_true. exists p', ok. rewrite (mv_new _ _ _ _ _ Hm).
      rewrite list_lookup_insert_eq; [done|]. eapply lookup_lt_Some, (mv_old _ _ _ _ _ Hm).
    + unfold settled in *. by rewrite (mv_new _ _ _ _ _ Hm), list_lookup_insert_ne.
Qed.

(** Everything before a promise that may start has settled, and it is the next
    one to write. *)
Lemma may_start i p s :
  inv s → promises s !! i = Some p → state p = Waiting →
  match previous p with Some j => settled j s | None => true end = true → i = length (writes s) ∧
    ∀ j, j < i → settled j s = true.
Proof.
  intros Hi Hp Hw Hprev.
  assert (¬ i < length (writes s)) as Hge by (rewrite (inv_started s Hi i p Hp); intros H; by apply H).
  assert (∀ j, i = S j → settled j s = true) as Hj.
  { intros j ->. pose proof (inv_previous s Hi _ p Hp) as H. destruct (previous p) as [k|]; [by simplify_eq|].
    by apply failed_settled, H. }
  assert (i = length (writes s)) as ->.
  { destruct i as [|j]; [lia|]. specialize (Hj j eq_refl). apply settled_true in Hj as (q & ok & Hq & Hs).
    assert (j < length (writes s)) by (apply (inv_started s Hi j q Hq); congruence). lia. }
  split; [done|]. intros j Hlt. destruct (decide (S j = length (writes s))) as [E|]; [by apply Hj|].
  apply (inv_settled s Hi). lia.
Qed.

Lemma start_inv i s : inv s → inv (start i s).
Proof.
  intros Hi. unfold start. destruct (promises s !! i) as [p|] eqn:Hp; [|done].
  destruct (bool_decide (state p = Waiting) && _) eqn:E; [|done]. apply andb_true_iff in E as [Hw Hprev].
  apply bool_decide_eq_true in Hw. destruct (may_start i p s Hi Hp Hw Hprev) as [-> Hall].
  set (n := length (writes s)) in *. set (s' := mk _ _ _).
  assert (moves n p (with_state Writing p) s s') as Hm by (split; cbn; try done; congruence).
  destruct (moves_chain _ _ _ _ _ Hi Hm (or_introl eq_refl)) as (C1 & C2 & C3 & C4).
  assert (length (writes s') = S n) as Hlen by (cbn; rewrite length_app; cbn; lia).
  split; try done; rewrite ?Hlen.
  - unfold s'. cbn [writes]. rewrite (inv_writes s Hi) at 1. fold n. by rewrite seq_S.
  - intros j q Hq. destruct (moves_lookup _ _ _ _ _ _ _ Hm Hq) as (q0 & Hq0 & _ & _ & Hne & He).
    destruct (decide (j = n)) as [->|Hji]; [rewrite He by done; cbn; split; [done|lia]|].
    rewrite Hne by done. rewrite <- (inv_started s Hi j q0 Hq0). fold n. lia.
  - cbn. rewrite length_insert. by apply lookup_lt_Some in Hp.
  - intros j Hj. unfold settled. cbn. rewrite list_lookup_insert_ne by lia. apply Hall. lia.
Qed.

Lemma settle_keeps_inv i ok s : inv s → inv (settle i ok s).
Proof.
  intros Hi. unfold settle. destruct (promises s !! i) as [p|] eqn:Hp; [|done].
  case_bool_decide as Hw; [|done].
  eapply (moves_inv i p (with_state (Settled ok) p)); [done|split; cbn; try done; congruence|done| | | |by left]; cbn; try congruence.
  intros _. by exists ok.
Qed.

Lemma on_failure_inv i s : inv s → inv (on_failure i s).
Proof.
  intros Hi. unfold on_failure. destruct (promises s !! i) as [p|] eqn:Hp; [|done].
  destruct (bool_decide (state p = Settled false) && _) eqn:E; [|done]. apply andb_true_iff in E as [Hw _].
  apply bool_decide_eq_true in Hw.
  eapply (moves_inv i p (mkPromise (code p) (previous p) (state p) true));
    [done|split; cbn; try done; congruence|done|congruence|cbn; congruence|intros _; by exists false|].
  cbn. case_bool_decide; [right|left]; done.
Qed.

Lemma latest_code_spec s c j : latest s = Some j → latest_code s = Some c ↔ ∃ p, promises s !! j = Some p ∧ code p = c.
Proof. intros E. unfold latest_code. rewrite E. cbn. destruct (promises s !! j); naive_solver. Qed.

Lemma snoc_failed j x s : failed j s → failed j (mk (Some (length (promises s))) (promises s ++ [x]) (writes s)).
Proof. intros (p & Hp & Hs). exists p. split; [|done]. cbn. by apply lookup_app_l_Some. Qed.

Lemma remember_inv v s : inv s → inv (remember v s).1.
Proof.
  intros Hi. unfold remember. case_bool_decide as Hv; [done|]. case_bool_decide as Hc; [done|]. cbn [fst].
  set (n := length (promises s)). set (x := mkPromise _ _ _ _).
  assert (∀ i q, (promises s ++ [x]) !! i = Some q → promises s !! i = Some q ∨ i = n ∧ q = x) as Hcase.
  { intros i q [Hq|[Hge Hq]]%lookup_app_Some; [by left|right].
    apply list_lookup_singleton_Some in Hq as [? <-]. unfold n. split; [lia|done]. }
  assert (∀ j, n = S j → latest s = None → failed j s) as Hnone.
  { intros j Hj E. pose proof (inv_latest s Hi) as H. rewrite E in H. by apply H. }
  split; cbn [latest promises writes].
  - rewrite length_app. cbn. unfold n. lia.
  - intros i q [Hq|[-> ->]]%Hcase.
    + pose proof (inv_previous s Hi i q Hq) as H. destruct (previous q); [done|].
      intros j Hj. by apply snoc_failed, H.
    + cbn. pose proof (inv_latest s Hi) as H. destruct (latest s) as [j|] eqn:E; [exact H|].
      intros j Hj. by apply snoc_failed, Hnone.
  - intros i p q [Hp|[-> ->]]%Hcase [Hq|[E ->]]%Hcase Ecode.
    + apply snoc_failed. by eapply inv_codes.
    + apply snoc_failed. destruct (latest s) as [j|] eqn:El; [|by apply Hnone].
      pose proof (inv_latest s Hi) as H. rewrite El in H. fold n in H. rewrite H in E. simplify_eq.
      destruct Hc. apply (latest_code_spec s _ j El). by exists p.
    + apply lookup_lt_Some in Hq. unfold n in Hq. lia.
    + lia.
  - intros i p [Hp|[-> ->]]%Hcase; [by eapply inv_named|done].
  - apply (inv_writes s Hi).
  - intros i p [Hp|[-> ->]]%Hcase; [by apply (inv_started s Hi)|]. cbn.
    pose proof (inv_bound s Hi). fold n in H. split; [lia|done].
  - rewrite length_app. pose proof (inv_bound s Hi). lia.
  - intros i Hlt. pose proof (inv_settled s Hi i Hlt) as Hs. apply settled_true in Hs as (p & ok & Hp & Hs).
    apply settled_true. exists p, ok. split; [|done]. cbn. by apply lookup_app_l_Some.
Qed.

Lemma initial_inv : inv initial.
Proof. split; cbn; intros; first [done|lia]. Qed.

Lemma reachable_inv es : inv (runs step es initial).
Proof.
  apply runs_invariant; [|apply initial_inv].
  intros [v|i|i ok|i] s Hs; [by apply remember_inv|by apply start_inv|by apply settle_keeps_inv|by apply on_failure_inv].
Qed.

(** C18: Invitations are written in the order in which they were given, one at a
    time: in every run the writes begun are those of the first promises, in
    order and each once; when one begins, all earlier ones have settled; and the
    same code is written twice in a row only if the first write failed. *)
Theorem referral_writes_ordered (es : list event) :
  let s := runs step es initial in
  writes s = seq 0 (length (writes s)) ∧
  (∀ i j p, i ∈ writes s → j < i → promises s !! j = Some p → ∃ ok, state p = Settled ok) ∧
  (∀ i p q, promises s !! i = Some p → promises s !! S i = Some q → code p = code q → state p = Settled false).
Proof.
  intros s. pose proof (reachable_inv es) as Hi. fold s in Hi. split_and!.
  - apply (inv_writes s Hi).
  - intros i j p Hw Hj Hp. rewrite (inv_writes s Hi) in Hw. apply elem_of_seq in Hw.
    assert (settled j s = true) as (q & ok & Hq & Hs)%settled_true by (apply (inv_settled s Hi); lia).
    exists ok. congruence.
  - intros i p q Hp Hq E. destruct (inv_codes s Hi i p q Hp Hq E) as (p' & Hp' & Hs). congruence.
Qed.

(** The writer never gets stuck: in every state that can be reached, as long
    as a promise has not settled there is one whose write is under way (the
    server's turn) or that starts at once when its turn comes. *)
Theorem referral_progress (es : list event) (i : nat) :
  let s := runs step es initial in
  i < length (promises s) → settled i s = false →
  ∃ j p, promises s !! j = Some p ∧ (state p = Writing ∨ state p = Waiting ∧ writes (start j s) = writes s ++ [j]).
Proof.
  intros s Hlt Hns. pose proof (reachable_inv es) as Hi. fold s in Hi.
  assert (∀ j p, promises s !! j = Some p → settled j s = false → (∀ k, k < j → settled k s = true) →
    state p = Writing ∨ state p = Waiting ∧ writes (start j s) = writes s ++ [j]) as Hgo.
  { intros j p Hp Hn Hk. destruct (state p) as [| |ok] eqn:E; [right|by left|].
    - split; [done|]. unfold start. rewrite Hp, E. cbn.
      replace (match previous p with Some k => settled k s | None => true end) with true; [done|].
      pose proof (inv_previous s Hi j p Hp) as H. destruct (previous p) as [k|]; [|done]. symmetry. apply Hk. lia.
    - rewrite (proj2 (settled_true j s)) in Hn; [done|by exists p, ok]. }
  assert (∃ j, j < length (promises s) ∧ settled j s = false ∧ ∀ k, k < j → settled k s = true) as (j & Hj & Hn & Hk).
  { clear Hgo Hi. revert Hlt Hns. induction i as [i IH] using lt_wf_ind. intros Hlt Hns.
    destruct (decide (Forall (λ k, settled k s = true) (seq 0 i))) as [Ha|Ha].
    - exists i. split_and!; [done|done|]. rewrite Forall_forall in Ha. intros k Hk. apply Ha, elem_of_seq. lia.
    - apply not_Forall_Exists in Ha; [|apply _]. apply Exists_exists in Ha as (k & Hk%elem_of_seq & Hs).
      apply (IH k); [lia|lia|by apply not_true_iff_false]. }
  destruct (lookup_lt_is_Some_2 _ _ Hj) as [p Hp]. exists j, p. auto.
Qed.

Lemma referral_progress_witness :
  let s := runs step [Remember (js "a"); Start 0; Settle 0 true; Remember (js " b ")] initial in
  ∃ j p, promises s !! j = Some p ∧ (state p = Writing ∨ state p = Waiting ∧ writes (start j s) = writes s ++ [j]).
Proof.
  apply (referral_progress [Remember (js "a"); Start 0; Settle 0 true; Remember (js " b ")] 1).
  - apply Nat.leb_le. vm_compute. reflexivity.
  - vm_compute. reflexivity.
Defined.

(** What a caller waits for is the write of its own code: the promise that is
    returned for a code carries that code, and for an empty one it is the
    latest. *)
Theorem referral_returns_own_code (es : list event) (v : jsstring) :
  let s := runs step es initial in
  let r := remember v s in
  if bool_decide (trim v = []) then r.2 = latest s ∧ r.1 = s
  else ∃ i p, r.2 = Some i ∧ promises r.1 !! i = Some p ∧ code p = trim v ∧ latest r.1 = Some i.
Proof.
  intros s r. unfold r, remember. case_bool_decide as Hv; [done|]. case_bool_decide as Hc.
  - unfold latest_code in Hc. destruct (latest s) as [i|] eqn:E; [|done]. cbn in Hc.
    destruct (promises s !! i) as [p|] eqn:Hp; [|done]. exists i, p. cbn in *. naive_solver.
  - exists (length (promises s)). eexists. cbn. rewrite list_lookup_middle by done. done.
Qed.

End Referral.

Module LoginReturn.
Section login.

(** [new URLSearchParams(search).get(name)] *)
Context (search_get : jsstring → jsstring → option jsstring).

Definition AUTHORIZE : jsstring := js "/portal/authorize".

Definition loginReturn (search : jsstring) : jsstring :=
  let next := default [] (search_get search (js "next")) in
  if bool_decide (next = AUTHORIZE) || startsWith next (AUTHORIZE ++ [63%Z]) then next else js "/portal/".

Definition referralCode (search : jsstring) : jsstring :=
  default [] (trim <$> search_get search (js "ref")).

(** Whatever the address asks for, signing in leads to the portal: the result
    is its start page or the authorization page with its query. *)
Theorem login_return_confined (search : jsstring) :
  loginReturn search = js "/portal/" ∨ loginReturn search = AUTHORIZE ∨
  ∃ q, loginReturn search = AUTHORIZE ++ [63%Z] ++ q.
Proof using.
  unfold loginReturn. cbv zeta. generalize (default [] (search_get search (js "next"))). intros next.
  destruct (bool_decide (next = AUTHORIZE)) eqn:E; cbn [orb].
  - right; left. by apply bool_decide_eq_true in E.
  - destruct (startsWith _ _) eqn:Hs; [|by left]. right; right.
    apply startsWith_prefix in Hs as [q ->]. exists q. by rewrite <- app_assoc.
Qed.

End login.
End LoginReturn.
