(* ===== verification/Evidence.v ===== *)
(** * Evidence that expires, and commands for a shell

    [admin/src/lib/line-change-evidence.ts] (module [LineEvidence]: how long a
    confirmed change of a line may be shown as applied),
    [admin/src/lib/node-addresses.ts] (module [NodeAddresses]: whether a server
    follows an address that was observed) and [admin/src/lib/agent-https.ts]
    (module [AgentHTTPS]: the freshness of a check and the commands that the
    console shows for copying into a shell).

    Clocks are integers; a duration that is not finite is [None].  [new URL] is a
    parameter that gives the parts of an address; its [port] is [None] when it is
    the default port of the protocol.  [sh_words] reads the words of a command as
    a POSIX shell does, as far as these commands use the syntax. *)

From S2P Require Import Prelude JsMap JsString JsNumber.

Open Scope Z_scope.

Module LineEvidence.

Record EvidenceClock := mkClock { monotonic : Z; wall : Z }.
Record EvidenceLease := mkLease { monotonicDeadline : Z; wallDeadline : Z }.

Inductive target_status := t_pending | t_delivered | t_applied | t_not_applied | t_stale | t_superseded
  | t_identity_changed | t_removed | t_unknown.
Inductive change_status := no_runtime_change | superseded | applied | partial | pending | unknown.

#[global] Instance target_status_eq_dec : EqDecision target_status.
Proof. solve_decision. Defined.
#[global] Instance change_status_eq_dec : EqDecision change_status.
Proof. solve_decision. Defined.

Record LineChangeTarget := mkTarget { node_id : Z; status : target_status; fresh_for_ms : option Z }.
Record LineChange := mkChange { change_state : change_status; superseded_at : option jsstring; targets : list LineChangeTarget }.

Record ObservedLineTarget := mkObserved { target : LineChangeTarget; lease : EvidenceLease }.
Record ObservedLineChange := mkObservedChange
  { o_state : change_status; o_superseded_at : option jsstring; o_targets : list ObservedLineTarget }.

Definition evidenceLease (start : EvidenceClock) (freshForMs : option Z) : EvidenceLease :=
  let remaining := match freshForMs with Some f => Z.max 0 f | None => 0 end in
  mkLease (monotonic start + remaining) (wall start + remaining).

Definition evidenceIsFresh (l : EvidenceLease) (now : EvidenceClock) (connected : bool) : bool :=
  connected && bool_decide (monotonic now < monotonicDeadline l) && bool_decide (wall now < wallDeadline l).

Definition observeLineChange (change : LineChange) (start : EvidenceClock) : ObservedLineChange :=
  mkObservedChange (change_state change) (superseded_at change)
    ((λ t, mkObserved t (evidenceLease start (fresh_for_ms t))) <$> targets change).

Definition lineTargetStatus (t : ObservedLineTarget) (now : EvidenceClock) (connected : bool) : target_status :=
  if negb connected then t_unknown
  else if bool_decide (status (target t) = t_applied) && negb (evidenceIsFresh (lease t) now connected) then t_stale
  else status (target t).

(** [change.superseded_at] in a condition. *)
Definition truthy_text (s : option jsstring) : bool := match s with Some (_ :: _) => true | _ => false end.

Definition lineChangeStatus (change : ObservedLineChange) (now : EvidenceClock) (connected : bool) : change_status :=
  if negb connected then unknown
  else if bool_decide (o_state change = superseded) || truthy_text (o_superseded_at change) then superseded
  else if bool_decide (o_targets change = []) then no_runtime_change
  else if every (λ t, bool_decide (status (target t) = t_superseded)) (o_targets change) then superseded
  else
    let n := length (bfilter (λ t, bool_decide (lineTargetStatus t now connected = t_applied)) (o_targets change)) in
    if bool_decide (o_state change = applied) && bool_decide (n = length (o_targets change)) then applied
    else if bool_decide (0 < n)%nat then partial else pending.

(** ** Applied means applied everywhere, and lately *)

(** Less than [f] milliseconds after [start], on both clocks. *)
Definition within (start now : EvidenceClock) (f : option Z) : Prop :=
  ∃ f', f = Some f' ∧ monotonic now - monotonic start < f' ∧ wall now - wall start < f'.

Lemma lease_fresh start f now connected :
  monotonic start ≤ monotonic now →
  evidenceIsFresh (evidenceLease start f) now connected = true ↔ connected = true ∧ within start now f.
Proof.
  intros Hm. unfold evidenceIsFresh, evidenceLease, within. cbn. destruct connected; cbn; [|naive_solver].
  rewrite andb_true_iff, !bool_decide_eq_true. destruct f as [f|].
  - split; [intros []; split; [done|]; exists f; split_and!; [done|lia|lia]|].
    intros (_ & f' & ? & ? & ?). simplify_eq. lia.
  - split; [lia|naive_solver].
Qed.

Lemma full_filter {A} (f : A → bool) l : length (bfilter f l) = length l ↔ ∀ x, x ∈ l → f x = true.
Proof.
  induction l as [|x l IH]; cbn; [split; [by intros _ ? ?%not_elem_of_nil|done]|].
  pose proof (length_bfilter f l). destruct (f x) eqn:E; cbn [length].
  - rewrite Nat.succ_inj_wd, IH. set_solver.
  - split; [lia|]. intros H'. specialize (H' x (list_elem_of_here _ _)). congruence.
Qed.

Lemma target_applied t now connected :
  lineTargetStatus t now connected = t_applied ↔
  connected = true ∧ status (target t) = t_applied ∧ evidenceIsFresh (lease t) now connected = true.
Proof.
  unfold lineTargetStatus. destruct connected; cbn; [|naive_solver].
  case_bool_decide as E; cbn; [|naive_solver]. rewrite E. destruct (evidenceIsFresh _ _ _); naive_solver.
Qed.

(** C19: A change is shown as applied exactly if it is applied everywhere and the
    confirmation is still good: at a time after the request was sent, the status
    is [applied] if and only if the console is connected, the server says so and
    names no successor, there are targets, and every target is applied with
    evidence whose time, counted from the start of the request on both clocks,
    has not run out. *)
Theorem line_change_applied_exact (change : LineChange) (start now : EvidenceClock) (connected : bool) :
  monotonic start ≤ monotonic now →
  lineChangeStatus (observeLineChange change start) now connected = applied ↔
  connected = true ∧ change_state change = applied ∧ truthy_text (superseded_at change) = false ∧ targets change ≠ [] ∧
  ∀ t, t ∈ targets change → status t = t_applied ∧ within start now (fresh_for_ms t).
Proof.
  intros Hm. unfold lineChangeStatus. cbn [observeLineChange o_state o_superseded_at o_targets].
  set (observe := λ t, mkObserved t (evidenceLease start (fresh_for_ms t))).
  destruct connected; cbn [negb]; [|naive_solver].
  case_bool_decide as E1; cbn [orb]; [naive_solver congruence|].
  destruct (truthy_text _) eqn:Es; [naive_solver|].
  case_bool_decide as E2.
  { split; [done|]. intros (_ & _ & _ & Hne & _). by apply fmap_nil_inv in E2. }
  assert (targets change ≠ []) as Hne by (intros E; apply E2; by rewrite E).
  assert ((∀ x, x ∈ observe <$> targets change → bool_decide (lineTargetStatus x now true = t_applied) = true) ↔
    ∀ t, t ∈ targets change → status t = t_applied ∧ within start now (fresh_for_ms t)) as Hall.
  { setoid_rewrite bool_decide_eq_true. setoid_rewrite target_applied. setoid_rewrite list_elem_of_fmap. split.
    - intros H t Ht. destruct (H (observe t)) as (_ & Hs & Hf); [by exists t|]. cbn in Hf.
      by apply (lease_fresh _ _ _ _ Hm) in Hf as [_ ?].
    - intros H x (t & -> & Ht). destruct (H t Ht) as [Hs Hw]. split_and!; [done|done|].
      cbn. by apply (lease_fresh _ _ _ _ Hm). }
  rewrite <- full_filter in Hall. cbv zeta.
  set (n := length (bfilter _ _)) in *.
  destruct (every _ _) eqn:Ee.
  { split; [done|]. intros (_ & _ & _ & _ & H). exfalso.
    destruct (targets change) as [|t l]; [done|]. cbn in Ee. apply andb_true_iff in Ee as [Ee _].
    apply bool_decide_eq_true in Ee. destruct (H t (list_elem_of_here _ _)) as [Hs _]. cbn in Ee. congruence. }
  case_bool_decide as E3; cbn [andb].
  - case_bool_decide as E4; [split; [intros _; split_and!; try done; by apply Hall|done]|].
    split; [by case_bool_decide|]. intros (_ & _ & _ & _ & H). by apply Hall in H.
  - split; [by case_bool_decide|naive_solver].
Qed.

Lemma line_change_applied_exact_witness :
  lineChangeStatus (observeLineChange (mkChange applied None [mkTarget 1 t_applied (Some 500)]) (mkClock 10 20)) (mkClock 400 519) true
  = applied.
Proof.
  apply (line_change_applied_exact (mkChange applied None [mkTarget 1 t_applied (Some 500)]) (mkClock 10 20) (mkClock 400 519) true);
    [cbn; lia|].
  cbn. split_and!; [done|done|done|discriminate|].
  intros t [->|Ht]%elem_of_cons; [|by apply not_elem_of_nil in Ht].
  split; [done|]. exists 500. cbn. split_and!; [done|lia|lia].
Defined.

(** Evidence only decays: what is applied later was applied before. *)
Theorem line_change_decays (change : ObservedLineChange) (now later : EvidenceClock) (connected : bool) :
  monotonic now ≤ monotonic later → wall now ≤ wall later →
  lineChangeStatus change later connected = applied → lineChangeStatus change now connected = applied.
Proof.
  intros Hm Hw. unfold lineChangeStatus. destruct connected; cbn [negb]; [|done].
  case_match; [done|]. case_match; [done|]. case_match; [done|]. cbv zeta.
  destruct (bool_decide (o_state change = applied)); cbn [andb]; [|intros; repeat case_match; done].
  destruct (bool_decide (length (bfilter (λ t, bool_decide (lineTargetStatus t later true = t_applied)) _) = _)) eqn:E;
    [apply bool_decide_eq_true in E|intros; repeat case_match; done]. intros _. rewrite bool_decide_true; [done|].
  rewrite full_filter in E |- *. intros t Ht. specialize (E t Ht). rewrite !bool_decide_eq_true, !target_applied in *.
  destruct E as (? & ? & Hf). split_and!; [done|done|]. unfold evidenceIsFresh in *. reflect_bools.
  rewrite !andb_true_iff, !bool_decide_eq_true in *. lia.
Qed.

End LineEvidence.

Module NodeAddresses.

Inductive check_status := no_conflict | conflict.
#[global] Instance check_eq_dec : EqDecision check_status.
Proof. solve_decision. Defined.

Record AddressFallback := mkFallback {
  address : option jsstring;
  source : jsstring;
  origin : jsstring;
  sampled_at : Z;
  received_at : Z;
  check : option check_status;
  run_id : option jsstring;
  error : option jsstring;
}.

Record AddressFallbackFollow := mkFollow {
  f_address : option jsstring;
  f_source : option jsstring;
  f_origin : option jsstring;
  f_run_id : option jsstring;
  candidate_since : option Z;
  last_sampled_at : option Z;
  last_success : option Z;
  confirmed_at : option Z;
}.

Definition truthy (z : option Z) : bool := match z with Some z => negb (bool_decide (z = 0)) | None => false end.
Definition truthy_text (s : option jsstring) : bool := match s with Some (_ :: _) => true | _ => false end.

Definition addressObservationFresh (receivedAt : option Z) (now : Z) : bool :=
  match receivedAt with
  | Some r => negb (bool_decide (r = 0)) && bool_decide (r ≤ now) && bool_decide (now - r < 900)
  | None => false
  end.

Definition addressFallbackFresh (fallback : option AddressFallback) (now : Z) : bool :=
  match fallback with
  | Some f => truthy_text (address f) && negb (truthy_text (error f)) && addressObservationFresh (Some (received_at f)) now
              && bool_decide (0 < sampled_at f) && bool_decide (now - sampled_at f < 900)
              && bool_decide (sampled_at f - now ≤ 60)
  | None => false
  end.

Inductive FallbackFollowState := disabled | primary_state | unavailable | legacy | conflict_state | waiting | confirming
  | applying | following.

Definition is_hex (u : Z) : bool := bool_decide (97 ≤ u ≤ 102) || bool_decide (48 ≤ u ≤ 57).
Definition valid_run (s : option jsstring) : bool :=
  bool_decide (length (default [] s) = 32%nat) && every is_hex (default [] s).

(** The candidate is about exactly this observation. *)
Definition same_evidence (c : AddressFallbackFollow) (f : AddressFallback) : bool :=
  bool_decide (f_address c = address f) && bool_decide (f_origin c = Some (origin f))
  && bool_decide (f_source c = Some (source f)) && bool_decide (f_run_id c = run_id f)
  && bool_decide (last_sampled_at c = Some (sampled_at f)) && bool_decide (last_success c = Some (received_at f)).

Definition fallbackFollowState (enabled fresh primary : bool) (fallback : option AddressFallback)
    (candidate : option AddressFallbackFollow) (entry : jsstring) : FallbackFollowState :=
  if negb enabled then disabled
  else if primary then primary_state
  else match fallback with
  | None => unavailable
  | Some f =>
      if negb fresh || negb (truthy_text (address f)) || truthy_text (error f) then unavailable
      else if bool_decide (check f = Some conflict) then conflict_state
      else if negb (bool_decide (check f = Some no_conflict)) || negb (valid_run (run_id f)) then legacy
      else match candidate with
      | None => waiting
      | Some c =>
          if negb (truthy (candidate_since c)) || negb (same_evidence c f) then waiting
          else match confirmed_at c with
               | Some t =>
                   if bool_decide (t = 0) then confirming
                   else if bool_decide (received_at f < t) || bool_decide (t < default 0 (candidate_since c)) then waiting
                   else if bool_decide (Some entry = address f) then following else applying
               | None => confirming
               end
      end
  end.

(** A server is shown as following an address only on complete evidence for
    that very address: the state is [following] exactly if the policy is on, no
    primary address is in use, the observation is fresh, without error or
    conflict and of a known run, the candidate was made from this observation
    (address, source, endpoint, run, sample and receipt all agree), it was
    confirmed neither before it became the candidate nor after the observation
    was received, and the entry already has the address. *)
Theorem following_exact (enabled fresh primary : bool) (fallback : option AddressFallback)
    (candidate : option AddressFallbackFollow) (entry : jsstring) :
  fallbackFollowState enabled fresh primary fallback candidate entry = following ↔
  enabled = true ∧ primary = false ∧ fresh = true ∧
  ∃ f c since t, fallback = Some f ∧ candidate = Some c ∧
    address f = Some entry ∧ entry ≠ [] ∧ truthy_text (error f) = false ∧ check f = Some no_conflict ∧
    valid_run (run_id f) = true ∧ same_evidence c f = true ∧
    candidate_since c = Some since ∧ since ≠ 0 ∧ confirmed_at c = Some t ∧ t ≠ 0 ∧ since ≤ t ≤ received_at f.
Proof.
  unfold fallbackFollowState. split.
  - intros H. destruct enabled; [|done]. destruct primary; [done|]. destruct fallback as [f|]; [|done].
    destruct fresh, (truthy_text (address f)) eqn:Ha, (truthy_text (error f)) eqn:He; cbn [negb orb] in H; try done.
    case_bool_decide as Hc; [done|]. case_bool_decide as Hn; cbn [negb orb] in H; [|done].
    destruct (valid_run (run_id f)) eqn:Hr; cbn [negb] in H; [|done]. destruct candidate as [c|]; [|done].
    destruct (candidate_since c) as [since|] eqn:Hs; cbn [truthy negb orb] in H; [|done].
    case_bool_decide as Hz; cbn [negb orb] in H; [done|].
    destruct (same_evidence c f) eqn:Hv; cbn [negb] in H; [|done].
    destruct (confirmed_at c) as [t|] eqn:Ht; [|done]. case_bool_decide as Htz; [done|].
    case_bool_decide as H1; cbn [orb default] in H; [done|]. case_bool_decide as H2; cbn in H2, H; [done|].
    case_bool_decide as Hx; [|done]. split_and!; [done..|]. exists f, c, since, t.
    rewrite <- Hx in Ha. cbn in Ha. split_and!; try done; [by destruct entry|lia|lia].
  - intros (-> & -> & -> & f & c & since & t & -> & -> & Ha & Hne & He & Hn & Hr & Hv & Hs & Hz & Ht & Htz & Hb).
    rewrite Ha, He, Hn, Hr, Hv, Hs, Ht. cbn [negb orb truthy truthy_text]. destruct entry as [|u entry]; [done|].
    cbn [default]. rewrite (bool_decide_false (Some no_conflict = Some conflict)) by done.
    rewrite (bool_decide_true (Some no_conflict = _)), (bool_decide_false (since = 0)), (bool_decide_false (t = 0)) by done.
    rewrite (bool_decide_false (received_at f < t)), (bool_decide_false (t < since)) by lia. cbn [negb orb].
    by rewrite bool_decide_true.
Qed.

End NodeAddresses.

Module AgentHTTPS.

(** The parts of a [URL] that are read. *)
Record URL := mkURL {
  origin : jsstring;
  hostname : jsstring;
  port : option Z;
  protocol : jsstring;
  username : jsstring;
  password : jsstring;
  search : jsstring;
  hash : jsstring;
  pathname : jsstring;
}.

Record AgentHTTPSSettings := mkSettings { enabled : bool; url : jsstring; revision : jsstring }.
Record AgentHTTPSCheckResult := mkResult { r_revision : jsstring; r_url : jsstring; perspective : jsstring }.
Record AgentHTTPSObservation := mkObservation { result : AgentHTTPSCheckResult; start_wall : Z; start_mono : Z }.

Definition agentHTTPSFresh (wallStart monoStart wallNow monoNow : Z) : bool :=
  let w := wallNow - wallStart in
  let m := monoNow - monoStart in
  bool_decide (0 ≤ w) && bool_decide (0 ≤ m) && bool_decide (w < 30000) && bool_decide (m < 30000).

Definition agentHTTPSCheckFresh (o : AgentHTTPSObservation) (s : AgentHTTPSSettings) (wallNow monoNow : Z) : bool :=
  bool_decide (perspective (result o) = js "panel") && bool_decide (r_revision (result o) = revision s)
  && bool_decide (r_url (result o) = url s) && enabled s
  && agentHTTPSFresh (start_wall o) (start_mono o) wallNow monoNow.

(** [text.replaceAll("'", ...)]: an apostrophe ends the quoted part, is written
    in double quotes, and a new quoted part begins. *)
Definition shell_escape (s : jsstring) : jsstring :=
  s ≫= λ u, if bool_decide (u = 39) then [39; 34; 39; 34; 39] else [u].

Section commands.

(** [new URL(value)], [None] when it throws. *)
Context (parse_url : jsstring → option URL).

Definition agentHTTPSOrigin (value : jsstring) : option URL :=
  u ← parse_url value;
  if bool_decide (0 < default 443 (port u)) && bool_decide (protocol u = js "https:") && bool_decide (username u = [])
     && bool_decide (password u = []) && bool_decide (search u = []) && bool_decide (hash u = [])
     && bool_decide (pathname u = js "/")
  then Some u else None.

Definition suggestedAgentHTTPSURL (baseURL : jsstring) : jsstring :=
  match parse_url baseURL with
  | Some u => js "https://" ++ hostname u ++ js ":2096"
  | None => []
  end.

Definition docker_prefix (readOnly : bool) : jsstring :=
  js "curl -q -fsSL --proto '=https' --proto-redir '=https' https://raw.githubusercontent.com/zeptop-dev/captain/master/install.sh -o captain-install.sh && sudo sh captain-install.sh "
  ++ (if readOnly then js "check-agent-https" else js "enable-agent-https") ++ js " --agent-https-port ".
Definition docker_suffix (readOnly : bool) : jsstring := if readOnly then [] else js " --agent-firewall auto".

Definition agentHTTPSDockerCommand (savedURL : jsstring) (readOnly : bool) : option jsstring :=
  u ← agentHTTPSOrigin savedURL;
  let p := default 443 (port u) in
  if bool_decide (p < 1024) || bool_decide (65535 < p) || bool_decide (p = 8080) then None
  else Some (docker_prefix readOnly ++ int_string p ++ js " --agent-https-url '" ++ shell_escape (origin u) ++ [39]
             ++ docker_suffix readOnly).

Definition check_prefix : jsstring := js "curl -q --fail --show-error --globoff --max-time 10 --proto '=https' -- ".

Definition agentHTTPSCheckCommand (savedURL : jsstring) : option jsstring :=
  u ← agentHTTPSOrigin savedURL;
  Some (check_prefix ++ [39] ++ shell_escape (origin u ++ js "/api/agent/health") ++ [39]).

End commands.

(** ** Reading a command *)

Inductive quoting := plain | single | double.

(** The words read so far, the word being read and how it is quoted. *)
Record reader := mkReader { words : list jsstring; word : option jsstring; quote : quoting }.

Definition add (u : Z) (r : reader) : reader :=
  mkReader (words r) (Some (default [] (word r) ++ [u])) (quote r).
Definition enter (q : quoting) (r : reader) : reader := mkReader (words r) (Some (default [] (word r))) q.

(** Characters that mean something else to the shell outside quotes: reading
    stops there.  An ampersand is read as part of a word. *)
Definition special (u : Z) : bool :=
  bool_decide (u ∈ [9; 10; 33; 35; 36; 40; 41; 42; 59; 60; 62; 63; 91; 92; 93; 96; 123; 124; 125; 126]).

Definition read_unit (r : reader) (u : Z) : option reader :=
  match quote r with
  | plain =>
      if bool_decide (u = 32) then Some (mkReader (words r ++ option_list (word r)) None plain)
      else if bool_decide (u = 39) then Some (enter single r)
      else if bool_decide (u = 34) then Some (enter double r)
      else if special u then None else Some (add u r)
  | single => if bool_decide (u = 39) then Some (enter plain r) else Some (add u r)
  | double => if bool_decide (u = 34) then Some (enter plain r)
              else if bool_decide (u ∈ [33; 36; 92; 96]) then None else Some (add u r)
  end.

Definition read (r : option reader) (s : jsstring) : option reader := foldl (λ r u, r ≫= λ r, read_unit r u) r s.

Definition sh_words (s : jsstring) : option (list jsstring) :=
  read (Some (mkReader [] None plain)) s ≫= λ r,
  match quote r with plain => Some (words r ++ option_list (word r)) | _ => None end.

Lemma read_app r a b : read r (a ++ b) = read (read r a) b.
Proof. apply foldl_app. Qed.

(** Escaped text inside single quotes reads as the text. *)
Lemma read_escaped ws w s : read (Some (mkReader ws (Some w) single)) (shell_escape s) = Some (mkReader ws (Some (w ++ s)) single).
Proof.
  revert w. induction s as [|u s IH]; intros w; [by rewrite app_nil_r|].
  unfold shell_escape. cbn [mbind list_bind]. rewrite read_app. fold (shell_escape s).
  case_bool_decide as E; [subst u|].
  - change (read _ [39; 34; 39; 34; 39]) with (Some (mkReader ws (Some (w ++ [39])) single)).
    rewrite IH. by rewrite <- app_assoc.
  - cbn [read foldl mbind option_bind read_unit quote]. rewrite bool_decide_false by done.
    unfold add. cbn. rewrite IH. by rewrite <- app_assoc.
Qed.

Definition is_digit (u : Z) : Prop := 48 ≤ u ≤ 57.

Lemma read_digits ws w s : Forall is_digit s →
  read (Some (mkReader ws (Some w) plain)) s = Some (mkReader ws (Some (w ++ s)) plain).
Proof.
  intros H. revert w. induction H as [|u s Hu Hs IH]; intros w; [by rewrite app_nil_r|].
  assert (read_unit (mkReader ws (Some w) plain) u = Some (mkReader ws (Some (w ++ [u])) plain)) as E.
  { unfold read_unit. cbn [quote]. unfold is_digit in Hu. rewrite !bool_decide_false by lia.
    unfold special. rewrite bool_decide_false; [done|]. set_unfold. lia. }
  change (read (read_unit (mkReader ws (Some w) plain) u) s = Some (mkReader ws (Some (w ++ u :: s)) plain)).
  rewrite E, IH. by rewrite <- app_assoc.
Qed.

Lemma int_string_digits z : 0 ≤ z → Forall is_digit (int_string z) ∧ int_string z ≠ [].
Proof.
  intros Hz. unfold int_string, digit_string. rewrite bool_decide_false by lia. split.
  - apply Forall_fmap. eapply Forall_impl; [by apply digits_range|]. unfold is_digit. cbn. lia.
  - intros E%fmap_nil_inv. pose proof (digits_value_digits z Hz) as Hv. rewrite E in Hv. cbn in Hv. subst z.
    vm_compute in E. discriminate.
Qed.

Definition check_words : list jsstring :=
  js <$> ["curl"; "-q"; "--fail"; "--show-error"; "--globoff"; "--max-time"; "10"; "--proto"; "=https"; "--"]%string.

Definition docker_words (readOnly : bool) : list jsstring :=
  (js <$> ["curl"; "-q"; "-fsSL"; "--proto"; "=https"; "--proto-redir"; "=https";
           "https://raw.githubusercontent.com/zeptop-dev/captain/master/install.sh"; "-o"; "captain-install.sh"; "&&";
           "sudo"; "sh"; "captain-install.sh"]%string)
  ++ [if readOnly then js "check-agent-https" else js "enable-agent-https"; js "--agent-https-port"].

Lemma check_prefix_words :
  read (read (Some (mkReader [] None plain)) check_prefix) [39] = Some (mkReader check_words (Some []) single).
Proof. vm_compute. reflexivity. Qed.

Lemma docker_prefix_words b :
  read (Some (mkReader [] None plain)) (docker_prefix b) = Some (mkReader (docker_words b) None plain).
Proof. destruct b; vm_compute; reflexivity. Qed.

Lemma docker_middle_words ws w :
  read (Some (mkReader ws (Some w) plain)) (js " --agent-https-url '")
  = Some (mkReader ((ws ++ [w]) ++ [js "--agent-https-url"]) (Some []) single).
Proof. vm_compute. reflexivity. Qed.

Lemma docker_suffix_words b ws w :
  read (Some (mkReader ws (Some w) plain)) (docker_suffix b)
  = Some (if b then mkReader ws (Some w) plain
          else mkReader ((ws ++ [w]) ++ [js "--agent-firewall"]) (Some (js "auto")) plain).
Proof. destruct b; vm_compute; reflexivity. Qed.

Lemma read_digits_start ws s : s ≠ [] → Forall is_digit s →
  read (Some (mkReader ws None plain)) s = Some (mkReader ws (Some s) plain).
Proof.
  destruct s as [|u s]; [done|]. intros _ H. transitivity (read (Some (mkReader ws (Some []) plain)) (u :: s)); [|by apply (read_digits ws [])].
  apply Forall_inv in H. unfold is_digit in H. unfold read. cbn [foldl mbind option_bind]. f_equal.
  unfold read_unit. cbn [quote]. by rewrite !bool_decide_false by lia.
Qed.

(** C20: The commands that are shown for copying cannot be broken out of: whatever
    the saved address parses to, the command for checking an agent is read by a
    shell as its fixed words and one last word, the address of the health check,
    and the installation command as its fixed words with the port and the origin
    as one word each, also when the origin contains apostrophes, spaces or
    shell syntax. *)
Theorem commands_are_quoted (parse_url : jsstring → option URL) (saved : jsstring) (readOnly : bool) :
  match agentHTTPSOrigin parse_url saved with
  | None => agentHTTPSCheckCommand parse_url saved = None ∧ agentHTTPSDockerCommand parse_url saved readOnly = None
  | Some u =>
      agentHTTPSCheckCommand parse_url saved ≫= sh_words = Some (check_words ++ [origin u ++ js "/api/agent/health"]) ∧
      ∀ command, agentHTTPSDockerCommand parse_url saved readOnly = Some command →
        1024 ≤ default 443 (port u) ≤ 65535 ∧
        sh_words command = Some (docker_words readOnly ++ [int_string (default 443 (port u)); js "--agent-https-url"; origin u]
          ++ if readOnly then [] else [js "--agent-firewall"; js "auto"])
  end.
Proof.
  unfold agentHTTPSCheckCommand, agentHTTPSDockerCommand.
  destruct (agentHTTPSOrigin parse_url saved) as [u|]; cbn [mbind option_bind]; [|done]. split.
  - unfold sh_words. rewrite !read_app, check_prefix_words, read_escaped. done.
  - intros command. set (p := default 443 (port u)).
    destruct (bool_decide (p < 1024) || _ || _) eqn:E; [done|]. intros <-%(inj Some).
    apply orb_false_iff in E as [[H1 H2]%orb_false_iff _]. apply bool_decide_eq_false in H1, H2. split; [lia|].
    destruct (int_string_digits p ltac:(lia)) as [Hd Hn].
    unfold sh_words. rewrite !read_app, docker_prefix_words, (read_digits_start _ _ Hn Hd), docker_middle_words, read_escaped.
    change (read (Some (mkReader ?ws (Some ?w) single)) [39]) with (Some (mkReader ws (Some w) plain)).
    rewrite docker_suffix_words. destruct readOnly; cbn [mbind option_bind quote words word option_list];
      by rewrite <- !app_assoc.
Qed.

End AgentHTTPS.
