(* ===== verification/Billing.v ===== *)
(** * Bills and renewals of the infrastructure

    [admin/src/lib/infrastructure-payment.ts] (module [Payment]: the dates of
    bills and the draft of a payment), [admin/src/lib/node-renewal.ts] (module
    [Renewal]: the period of a renewal in whole months) and the parts of
    [admin/src/lib/node-infrastructure.ts] that decide about bills (module
    [Infrastructure]).

    Dates are texts [YYYY-MM-DD], compared as texts, and day numbers of
    [Calendar] behind them.  How the platform reads a text that is not a date
    differs between engines (it rolls over or fails); the class [DateParse]
    only says what it does with a date, and the code compares what comes back
    with the text.  [None] is a RangeError. *)

From S2P Require Import Prelude JsMap JsString JsNumber Calendar JsText.

Open Scope Z_scope.

Import Calendar.

(** ** Texts of dates *)

Module DateText.

Definition date_text (c : civil) : jsstring :=
  pad 4 (year c) ++ [45] ++ pad 2 (month c + 1) ++ [45] ++ pad 2 (mday c).

(** [/^\d{4}-\d{2}-\d{2}$/.test(s)] *)
Definition date_shape (s : jsstring) : bool :=
  match s with
  | [a; b; c; d; x; e; f; y; g; h] =>
      every is_ascii_digit [a; b; c; d; e; f; g; h] && bool_decide (x = 45) && bool_decide (y = 45)
  | _ => false
  end.

Definition fields_of (s : jsstring) : civil :=
  {| year := digits_of (take 4 s); month := digits_of (take 2 (drop 5 s)) - 1; mday := digits_of (drop 8 s) |}.

Lemma digits_of_snoc l u : digits_of (l ++ [u]) = digits_of l * 10 + (u - 48).
Proof. unfold digits_of, digits_value. by rewrite fmap_app, foldl_app. Qed.

Lemma digits_of_nonneg l : every is_ascii_digit l = true → 0 ≤ digits_of l.
Proof.
  induction l as [|u l IH] using rev_ind; [done|]. rewrite every_true. intros H. rewrite digits_of_snoc.
  assert (is_ascii_digit u = true) as Hu by (apply H; set_solver). unfold is_ascii_digit in Hu. reflect_bools.
  assert (0 ≤ digits_of l) by (apply IH, every_true; set_solver). lia.
Qed.

Lemma pad_digits l : every is_ascii_digit l = true → pad (length l) (digits_of l) = l.
Proof.
  induction l as [|u l IH] using rev_ind; [done|]. rewrite every_true. intros H.
  assert (is_ascii_digit u = true) as Hu by (apply H; set_solver). unfold is_ascii_digit in Hu. reflect_bools.
  assert (every is_ascii_digit l = true) as Hl by (apply every_true; set_solver).
  rewrite length_app, Nat.add_comm. cbn [length Nat.add pad]. rewrite digits_of_snoc.
  pose proof (digits_of_nonneg l Hl).
  replace ((digits_of l * 10 + (u - 48)) / 10) with (digits_of l) by (apply (Z.div_unique _ _ _ (u - 48)); lia).
  replace ((digits_of l * 10 + (u - 48)) mod 10) with (u - 48) by (apply (Z.mod_unique _ _ (digits_of l)); lia).
  rewrite IH by done. f_equal. f_equal. lia.
Qed.

Lemma div10_small z P : 0 ≤ z < 10 * P → 0 ≤ z / 10 < P.
Proof. intros H. split; [apply Z.div_pos; lia|apply Z.div_lt_upper_bound; lia]. Qed.

Lemma digits_pad k z : 0 ≤ z < 10 ^ Z.of_nat k → digits_of (pad k z) = z.
Proof.
  revert z. induction k as [|k IH]; intros z Hz; [cbn in Hz; cbn; lia|]. cbn [pad]. rewrite digits_of_snoc.
  rewrite Nat2Z.inj_succ, Z.pow_succ_r in Hz by lia. rewrite IH by (by apply div10_small).
  pose proof (Z.div_mod z 10). lia.
Qed.

Lemma pad_all_digits k z : every is_ascii_digit (pad k z) = true.
Proof.
  revert z. induction k as [|k IH]; intros z; [done|]. cbn [pad]. apply every_true. intros u [Hu|Hu]%elem_of_app.
  - by apply (proj1 (every_true _ _) (IH (z / 10))).
  - apply list_elem_of_singleton in Hu as ->. unfold is_ascii_digit. rewrite bool_decide_true; [done|].
    pose proof (Z.mod_pos_bound z 10). lia.
Qed.

(** Fixed width texts of numbers are ordered as the numbers. *)
Lemma pad_order k a b r q :
  0 ≤ a < 10 ^ Z.of_nat k → 0 ≤ b < 10 ^ Z.of_nat k →
  js_leb (pad k a ++ r) (pad k b ++ q) = bool_decide (a < b) || (bool_decide (a = b) && js_leb r q).
Proof.
  revert a b r q. induction k as [|k IH]; intros a b r q Ha Hb.
  - cbn in Ha, Hb. rewrite (bool_decide_false (a < b)), (bool_decide_true (a = b)) by lia. done.
  - rewrite Nat2Z.inj_succ, Z.pow_succ_r in Ha, Hb by lia. cbn [pad]. rewrite <- !app_assoc, IH by (by apply div10_small).
    cbn [app js_leb]. pose proof (Z.div_mod a 10). pose proof (Z.div_mod b 10).
    pose proof (Z.mod_pos_bound a 10). pose proof (Z.mod_pos_bound b 10).
    destruct (js_leb r q); repeat case_bool_decide; cbn; try done; lia.
Qed.

Definition before (c c' : civil) : Prop :=
  year c < year c' ∨ year c = year c' ∧ (month c < month c' ∨ month c = month c' ∧ mday c ≤ mday c').

Definition four_digits (c : civil) : Prop := 0 ≤ year c ≤ 9999.

Lemma valid_small c : valid c → 0 ≤ month c + 1 < 100 ∧ 0 ≤ mday c < 100.
Proof. apply small_fields. Qed.

Lemma date_text_order c c' :
  valid c → valid c' → four_digits c → four_digits c' → js_leb (date_text c) (date_text c') = true ↔ before c c'.
Proof.
  intros [? ?]%valid_small [? ?]%valid_small Hc Hc'. unfold four_digits in *. unfold date_text.
  rewrite pad_order by (change (10 ^ Z.of_nat 4) with 10000; lia). cbn [app js_leb].
  rewrite (bool_decide_true (45 = 45)), (bool_decide_false (45 < 45)) by lia. cbn [orb andb].
  rewrite pad_order by (change (10 ^ Z.of_nat 2) with 100; lia). cbn [app js_leb].
  rewrite (bool_decide_true (45 = 45)), (bool_decide_false (45 < 45)) by lia. cbn [orb andb].
  rewrite <- (app_nil_r (pad 2 (mday c))), <- (app_nil_r (pad 2 (mday c'))).
  rewrite pad_order by (change (10 ^ Z.of_nat 2) with 100; lia). unfold before.
  repeat case_bool_decide; cbn; split; try done; lia.
Qed.

Lemma day_before c c' : valid c → valid c' → day_of c < day_of c' → before c c'.
Proof.
  intros Hc Hc' H. unfold before.
  assert (month_index c ≤ month_index c') as Hi.
  { destruct (decide (month_index c' < month_index c)) as [Hlt|]; [|lia]. pose proof (month_order c' c Hc' Hc Hlt). lia. }
  unfold month_index in Hi. destruct Hc as [Hm Hd], Hc' as [Hm' Hd'].
  destruct (decide (year c = year c')) as [Ey|]; [|lia]. destruct (decide (month c = month c')) as [Em|]; [|lia].
  right. split; [done|]. right. split; [done|]. unfold day_of in H. rewrite Ey, Em in H. unfold make_day in H. lia.
Qed.

Lemma date_text_fields c : valid c → four_digits c → fields_of (date_text c) = c.
Proof.
  intros [? ?]%valid_small Hy. unfold four_digits in Hy. unfold fields_of, date_text.
  rewrite take_app_length' by (by rewrite length_pad).
  assert (∀ r, drop 5 (pad 4 (year c) ++ [45] ++ r) = r) as -> by (intros r; rewrite app_assoc;
    apply drop_app_length'; by rewrite length_app, length_pad).
  rewrite take_app_length' by (by rewrite length_pad).
  rewrite !app_assoc, drop_app_length' by (by rewrite !length_app, !length_pad).
  rewrite !digits_pad by (change (10 ^ Z.of_nat 2) with 100; change (10 ^ Z.of_nat 4) with 10000; lia).
  destruct c; cbn. f_equal. lia.
Qed.

Lemma date_text_shape c : date_shape (date_text c) = true.
Proof.
  unfold date_text. pose proof (pad_all_digits 4 (year c)) as H1. pose proof (pad_all_digits 2 (month c + 1)) as H2.
  pose proof (pad_all_digits 2 (mday c)) as H3. cbn [pad app date_shape] in *. cbn [every forallb] in *.
  rewrite !andb_true_iff in *. rewrite !bool_decide_true by done. tauto.
Qed.

(** A text of that shape is the text of its fields. *)
Lemma shape_text s : date_shape s = true → s = date_text (fields_of s) ∧ four_digits (fields_of s).
Proof.
  intros H. destruct s as [|a [|b [|c [|d [|x [|e [|f [|y [|g [|h [|? ?]]]]]]]]]]]; try done.
  cbn [date_shape] in H. rewrite !andb_true_iff, !bool_decide_eq_true in H. destruct H as [[Hd ->] ->].
  rewrite every_true in Hd. unfold date_text, four_digits, fields_of. cbn [take drop year month mday].
  assert (every is_ascii_digit [a; b; c; d] = true) as H4 by (apply every_true; set_solver).
  assert (every is_ascii_digit [e; f] = true) as H2 by (apply every_true; set_solver).
  assert (every is_ascii_digit [g; h] = true) as H2' by (apply every_true; set_solver).
  split.
  - change (pad 4) with (pad (length [a; b; c; d])). rewrite pad_digits by done.
    rewrite Z.sub_add. change (pad 2 (digits_of [e; f])) with (pad (length [e; f]) (digits_of [e; f])).
    change (pad 2 (digits_of [g; h])) with (pad (length [g; h]) (digits_of [g; h])). by rewrite !pad_digits.
  - pose proof (digits_of_nonneg _ H4). rewrite every_true in H4. cbn in *.
    assert (∀ u, u ∈ [a; b; c; d] → 48 ≤ u ≤ 57) as Hu.
    { intros u Hu. specialize (H4 u Hu). unfold is_ascii_digit in H4. by reflect_bools. }
    pose proof (Hu a ltac:(set_solver)). pose proof (Hu b ltac:(set_solver)).
    pose proof (Hu c ltac:(set_solver)). pose proof (Hu d ltac:(set_solver)). unfold digits_of, digits_value. cbn. lia.
Qed.

End DateText.
Import DateText.

(** [new Date(`${value}T00:00:00Z`).getTime()]: a date is read as its first
    millisecond.  Nothing is said about other texts. *)
Class DateParse := {
  parse_date : jsstring → option Z;
  parse_valid c : valid c → four_digits c → parse_date (date_text c) = Some (day_of c * MS_PER_DAY);
}.

(** An implementation that rejects what is not a date. *)
#[refine] Instance strict_parse : DateParse := {|
  parse_date s := if date_shape s && bool_decide (valid (fields_of s)) then Some (day_of (fields_of s) * MS_PER_DAY) else None;
|}.
Proof. intros c Hc Hy. by rewrite date_text_shape, date_text_fields, bool_decide_true. Defined.

(** [time.toISOString().slice(0, 10)] *)
Definition iso_date (ms : Z) : option jsstring := take 10 <$> toISOString ms.

Lemma iso_text_date c t : four_digits c → take 10 (iso_text c t) = date_text c.
Proof.
  intros Hy. unfold iso_text, year_text, date_text. rewrite bool_decide_true by exact Hy. reflexivity.
Qed.

Lemma iso_date_text c :
  valid c → four_digits c → iso_date (day_of c * MS_PER_DAY) = Some (date_text c).
Proof.
  intros Hc Hy. unfold iso_date, toISOString. unfold four_digits in Hy.
  assert (- 719600 ≤ day_of c ≤ 2933000) as Hd.
  { destruct (day_of_month c Hc) as [Hlo Hhi].
    assert (month_day 0 ≤ month_day (month_index c)) by (apply month_day_mono; destruct Hc; unfold month_index; lia).
    assert (month_day (month_index c + 1) ≤ month_day 120000) by (apply month_day_mono; destruct Hc; unfold month_index; lia).
    change (month_day 0) with (-719528) in *. change (month_day 120000) with 2932897 in *. lia. }
  rewrite bool_decide_true by (unfold MAX_TIME, MS_PER_DAY; lia). cbn. f_equal.
  rewrite Z.div_mul, Z.mod_mul, civil_of_day_of by (done || (unfold MS_PER_DAY; lia)).
  by apply iso_text_date.
Qed.

Module Payment.

Record InfraAsset := mkAsset {
  primary_node_id : option Z;
  auto_renewal_enabled : option bool;
  currency : jsstring;
  amount_minor : Z;
  period_months : Z;
  anchor_day : Z;
  next_due : jsstring;
  revision : Z;
}.

Section dates.
Context `{DateParse}.

Definition MIN_DATE : jsstring := js "1970-01-01".
Definition MAX_DATE : jsstring := js "9900-12-31".

Definition validBillingDate (value : jsstring) : bool :=
  date_shape value && js_leb MIN_DATE value && js_leb value MAX_DATE
  && match parse_date value with
     | Some ms => bool_decide (iso_date ms = Some value)
     | None => false
     end.

(** [Date.UTC(year, month, day)] as a day number, [None] when it is out of the
    range of dates.  The years here are at least 1970. *)
Definition utc_day (y m d : Z) : option Z :=
  let day := make_day y m d in if bool_decide (Z.abs (day * MS_PER_DAY) ≤ MAX_TIME) then Some day else None.

(** The billing day in the month of [next], or its last day. *)
Definition day_in_month (next : civil) (anchor : Z) : option Z :=
  last ← utc_day (year next) (month next + 1) 0;
  utc_day (year next) (month next) (Z.min anchor (mday (civil_of last))).

Definition next_day (due : civil) (months anchor : Z) : option Z :=
  first ← utc_day (year due) (month due + months) 1;
  day_in_month (civil_of first) anchor.

Definition nextBillingDate (asset : InfraAsset) : option jsstring :=
  if negb (validBillingDate (next_due asset)) || bool_decide (period_months asset ≤ 0) then Some []
  else
    day ← next_day (fields_of (next_due asset)) (period_months asset) (anchor_day asset);
    result ← iso_date (day * MS_PER_DAY);
    Some (if validBillingDate result then result else []).

(** ** Exactness *)

Definition billing_year (c : civil) : Prop := 1970 ≤ year c ≤ 9900.

Lemma limits c :
  valid c → four_digits c →
  (js_leb MIN_DATE (date_text c) = true ↔ 1970 ≤ year c) ∧ (js_leb (date_text c) MAX_DATE = true ↔ year c ≤ 9900).
Proof.
  intros Hc Hy. change MIN_DATE with (date_text {| year := 1970; month := 0; mday := 1 |}).
  change MAX_DATE with (date_text {| year := 9900; month := 11; mday := 31 |}).
  rewrite !date_text_order by (done || (apply (bool_decide_unpack _); vm_compute; exact I) || (unfold four_digits; cbn; lia)).
  unfold before. cbn. destruct Hc as [Hm Hd]. pose proof (month_start_step (year c) (month c) Hm). unfold month_length in *. lia.
Qed.

Lemma valid_date_exact value :
  validBillingDate value = true ↔ ∃ c, valid c ∧ billing_year c ∧ value = date_text c.
Proof using.
  unfold validBillingDate. split.
  - rewrite !andb_true_iff. intros [[[Hs Hlo] Hhi] Hp]. destruct (shape_text value Hs) as [E Hy].
    destruct (parse_date value) as [ms|]; [|done]. apply bool_decide_eq_true in Hp.
    unfold iso_date, toISOString in Hp. destruct (bool_decide (Z.abs ms ≤ MAX_TIME)); [|done].
    cbn in Hp. apply (inj Some) in Hp. set (c := civil_of (ms / MS_PER_DAY)) in *.
    assert (valid c) as Hc by apply civil_of_valid.
    assert (four_digits c) as Hcy.
    { unfold four_digits. destruct (decide (0 ≤ year c ≤ 9999)); [done|exfalso].
      unfold iso_text, year_text in Hp. rewrite bool_decide_false in Hp by done.
      rewrite E in Hp. unfold date_text in Hp.
      generalize dependent (year (fields_of value)). intros y Hp. cbn [pad app] in Hp.
      destruct (bool_decide (0 ≤ year c)); cbn [app take] in Hp; apply (f_equal head) in Hp; cbn [head] in Hp;
        apply (inj Some) in Hp; clear -Hp; pose proof (Z.mod_pos_bound (y / 10 / 10 / 10) 10 eq_refl); lia. }
    assert (date_text c = value) as Ec.
    { by rewrite <- Hp, iso_text_date. }
    exists c. rewrite <- Ec in Hlo, Hhi. destruct (limits c Hc Hcy) as [H1 H2]. rewrite H1 in Hlo. rewrite H2 in Hhi. done.
  - intros (c & Hc & Hb & ->). assert (four_digits c) as Hy by (unfold billing_year in Hb; unfold four_digits; lia).
    destruct (limits c Hc Hy) as [[_ H1] [_ H2]]. unfold billing_year in Hb.
    rewrite date_text_shape, H1, H2, parse_valid, iso_date_text by (done || lia). by rewrite bool_decide_true.
Qed.

(** The date a number of months later, on the billing day if the month has it. *)
Definition due_after (c : civil) (months anchor : Z) : civil :=
  let i := month_index c + months in
  {| year := i / 12; month := i mod 12; mday := Z.min anchor (month_length (i / 12) (i mod 12)) |}.

Lemma due_after_valid c months anchor : 1 ≤ anchor → valid (due_after c months anchor).
Proof.
  intros Ha. unfold valid, due_after. cbn. pose proof (Z.mod_pos_bound (month_index c + months) 12 ltac:(lia)) as Hm.
  pose proof (month_start_step ((month_index c + months) / 12) _ Hm). lia.
Qed.

Lemma due_after_later c months anchor :
  valid c → 1 ≤ anchor → 0 < months → day_of c < day_of (due_after c months anchor).
Proof.
  intros Hc Ha Hm. apply month_order; [done|by apply due_after_valid|]. unfold month_index at 2. cbn.
  pose proof (Z.div_mod (month_index c + months) 12). lia.
Qed.

Lemma make_day_shift y m d : make_day y m d = make_day y m 1 + d - 1.
Proof. unfold make_day. lia. Qed.

(** The day before the first of the next month. *)
Lemma last_of_month y m :
  0 ≤ m < 12 → make_day y (m + 1) 0 = day_of {| year := y; month := m; mday := month_length y m |}.
Proof.
  intros Hm. unfold day_of. cbn [year month mday].
  rewrite (make_day_shift y m), (make_day_shift y (m + 1)), next_month by done. lia.
Qed.

Lemma utc_day_in_range y m d :
  0 ≤ y → 0 ≤ m → - 1 ≤ d ≤ 31 → y * 12 + m ≤ 240000 → utc_day y m d = Some (make_day y m d).
Proof.
  intros Hy Hm Hd Hb. unfold utc_day. rewrite bool_decide_true; [done|].
  assert (make_day y m d = month_day (y * 12 + m) + d - 1) as E.
  { rewrite month_day_index. apply make_day_shift. }
  assert (month_day 0 ≤ month_day (y * 12 + m)) by (apply month_day_mono; lia).
  assert (month_day (y * 12 + m) ≤ month_day 240000) by (apply month_day_mono; lia).
  change (month_day 0) with (-719528) in *. change (month_day 240000) with 6585322 in *. rewrite E.
  unfold MS_PER_DAY, MAX_TIME. lia.
Qed.

#[local] Strategy 1000 [make_day civil_of month_length month_start month_index].

Lemma month_first c months i :
  i = month_index c + months →
  make_day (year c) (month c + months) 1 = day_of {| year := i / 12; month := i mod 12; mday := 1 |}.
Proof.
  intros Ei. pose proof (Z.div_mod i 12 ltac:(lia)) as Hdm. unfold day_of. cbn [year month mday].
  rewrite <- !month_day_index. f_equal. unfold month_index in *. lia.
Qed.

Lemma first_valid y m d : 0 ≤ m < 12 → 1 ≤ d ≤ month_length y m → valid {| year := y; month := m; mday := d |}.
Proof. done. Qed.

Lemma day_in_month_exact y m anchor :
  0 ≤ y → 0 ≤ m < 12 → y * 12 + m < 240000 → 1 ≤ anchor →
  day_in_month {| year := y; month := m; mday := 1 |} anchor
  = Some (day_of {| year := y; month := m; mday := Z.min anchor (month_length y m) |}).
Proof.
  intros Hy Hm Hb Ha. pose proof (month_start_step y m Hm) as Hlen. unfold day_in_month. cbn [year month].
  rewrite utc_day_in_range by lia. cbn [mbind option_bind]. rewrite last_of_month by done.
  rewrite civil_of_day_of by (apply first_valid; [done|lia]). cbn [mday].
  by rewrite utc_day_in_range by lia.
Qed.

Lemma next_day_due c months anchor :
  valid c → billing_year c → 1 ≤ months ≤ 120 → 1 ≤ anchor →
  next_day c months anchor = Some (day_of (due_after c months anchor)).
Proof.
  intros Hc Hb Hp Ha. unfold due_after. cbv zeta. remember (month_index c + months) as i eqn:Ei.
  assert (23640 ≤ i ≤ 118931) as Hi by (destruct Hc as [Hm _]; unfold month_index, billing_year in *; lia).
  pose proof (Z.mod_pos_bound i 12 ltac:(lia)) as Hm. pose proof (Z.div_mod i 12 ltac:(lia)) as Hdm.
  pose proof (month_start_step (i / 12) (i mod 12) Hm) as Hlen.
  unfold next_day. rewrite utc_day_in_range by (destruct Hc; unfold billing_year, month_index in *; lia).
  cbn [mbind option_bind]. rewrite (month_first c months i Ei).
  rewrite civil_of_day_of by (apply first_valid; [done|lia]).
  apply day_in_month_exact; lia.
Qed.

Lemma due_year c months anchor :
  valid c → billing_year c → 1 ≤ months ≤ 120 → 1970 ≤ year (due_after c months anchor) ≤ 9999.
Proof.
  intros [Hm _] Hb Hp. unfold due_after, billing_year, month_index in *. cbn [year].
  pose proof (Z.div_mod (year c * 12 + month c + months) 12 ltac:(lia)).
  pose proof (Z.mod_pos_bound (year c * 12 + month c + months) 12 ltac:(lia)). lia.
Qed.

Lemma valid_text c : valid c → four_digits c → validBillingDate (date_text c) = bool_decide (billing_year c).
Proof using.
  intros Hc Hy. destruct (validBillingDate (date_text c)) eqn:E.
  - apply valid_date_exact in E as (c' & Hc' & Hb' & E). symmetry. apply bool_decide_true.
    apply (f_equal fields_of) in E. rewrite !date_text_fields in E; [by rewrite E|try done..].
    unfold billing_year in Hb'. unfold four_digits. lia.
  - symmetry. apply bool_decide_false. intros Hb. apply not_true_iff_false in E. apply E, valid_date_exact. by exists c.
Qed.

(** C21: The next date of a bill is its billing day, that many months later: for a
    bill due on a date between 1970 and 9900 with a period of 1 to 120 months
    (the periods that the console supports) and a billing day of at least 1, the
    proposed date is the billing day of the month exactly that many months later
    (or the last day of a shorter month), a valid date after the one that is due;
    after the year 9900 there is none. *)
Theorem next_billing_date_exact (asset : InfraAsset) (c : civil) :
  valid c → billing_year c → next_due asset = date_text c → 1 ≤ period_months asset ≤ 120 → 1 ≤ anchor_day asset →
  let next := due_after c (period_months asset) (anchor_day asset) in
  nextBillingDate asset = Some (if bool_decide (billing_year next) then date_text next else []) ∧
  valid next ∧ day_of c < day_of next.
Proof using.
  intros Hc Hb Hn Hp Ha. cbv zeta. split_and!; [|by apply due_after_valid|by apply due_after_later; try lia].
  assert (four_digits c) as Hy by (unfold billing_year in Hb; unfold four_digits; lia).
  pose proof (due_year c _ (anchor_day asset) Hc Hb Hp) as Hy'.
  unfold nextBillingDate. rewrite Hn, valid_text, bool_decide_true, bool_decide_false by (done || lia). cbn [negb orb].
  rewrite date_text_fields, next_day_due by done. cbn [mbind option_bind].
  rewrite iso_date_text by (unfold four_digits; by (apply due_after_valid || lia)). cbn [mbind option_bind].
  rewrite valid_text; [done|by apply due_after_valid|unfold four_digits; lia].
Qed.

(** ** The draft of a payment *)

Inductive PaymentDateAction := no_action | record_only | set_due_date.
#[global] Instance action_eq_dec : EqDecision PaymentDateAction.
Proof using. solve_decision. Defined.

Record PaymentDraft := mkDraft {
  asset : InfraAsset;
  request_key : jsstring;
  draft_amount : Z;
  paid_date : jsstring;
  reference : jsstring;
  notes : jsstring;
  confirm : bool;
  date_action : PaymentDateAction;
  draft_next_due : jsstring;
}.

Definition truthy_id (i : option Z) : bool := match i with Some i => negb (bool_decide (i = 0)) | None => false end.

Definition paymentDateDefaults (a : InfraAsset) : option (PaymentDateAction * jsstring) :=
  if negb (truthy_id (primary_node_id a)) && bool_decide (period_months a = 0) then Some (no_action, [])
  else next ← nextBillingDate a;
       Some (if default false (auto_renewal_enabled a) then record_only else set_due_date, next).

Definition newPaymentDraft (a : InfraAsset) (date requestKey : jsstring) : option PaymentDraft :=
  d ← paymentDateDefaults a;
  Some (mkDraft a requestKey (amount_minor a) date [] [] false d.1 d.2).

Definition reloadPaymentDraft (draft : PaymentDraft) (fresh : InfraAsset) : option PaymentDraft :=
  d ← paymentDateDefaults fresh;
  Some (mkDraft fresh (request_key draft)
          (if bool_decide (currency fresh = currency (asset draft)) then draft_amount draft else amount_minor fresh)
          (paid_date draft) (reference draft) (notes draft) false d.1 d.2).

Inductive date_error := invalidDate | earlierDate.

Definition paymentDateError (draft : PaymentDraft) : option date_error :=
  if negb (bool_decide (date_action draft = set_due_date)) then None
  else if negb (validBillingDate (draft_next_due draft)) then Some invalidDate
  else if negb (js_leb (next_due (asset draft)) (draft_next_due draft)) then Some earlierDate
  else None.

(** The request: absent fields are [None]. *)
Record payload := mkPayload {
  p_request_key : jsstring;
  p_revision : Z;
  p_amount_minor : Z;
  p_paid_date : jsstring;
  p_reference : jsstring;
  p_notes : jsstring;
  p_date_action : option PaymentDateAction;
  p_next_due : option jsstring;
}.

Definition paymentPayload (draft : PaymentDraft) : payload :=
  mkPayload (request_key draft) (revision (asset draft)) (draft_amount draft) (paid_date draft) (reference draft) (notes draft)
    (if bool_decide (date_action draft = no_action) then None else Some (date_action draft))
    (if bool_decide (date_action draft = set_due_date) then Some (draft_next_due draft) else None).

(** A payment can be sent as it is proposed, and a reload never pays twice:
    for a bill with a date and a period, the new draft has no date error unless
    the next date would be after 9900, and a draft that is reviewed again after
    the bill has changed keeps its request key, needs a new confirmation, refers
    to the revision that was read, and has the date proposed for the new bill
    instead of the old one. *)
Theorem payment_draft_sound (a : InfraAsset) (c : civil) (date key : jsstring) (old : PaymentDraft) :
  valid c → billing_year c → next_due a = date_text c → 1 ≤ period_months a ≤ 120 → 1 ≤ anchor_day a →
  billing_year (due_after c (period_months a) (anchor_day a)) →
  (∃ d, newPaymentDraft a date key = Some d ∧ paymentDateError d = None ∧ confirm d = false) ∧
  (∃ d, reloadPaymentDraft old a = Some d ∧ paymentDateError d = None ∧ confirm d = false ∧
     p_request_key (paymentPayload d) = p_request_key (paymentPayload old) ∧
     p_revision (paymentPayload d) = revision a ∧
     p_next_due (paymentPayload d) =
       if default false (auto_renewal_enabled a) then None
       else Some (date_text (due_after c (period_months a) (anchor_day a)))).
Proof using.
  intros Hc Hb Hn Hp Ha Hb'. destruct (next_billing_date_exact a c Hc Hb Hn Hp Ha) as (Hnext & Hv & Hlt).
  rewrite bool_decide_true in Hnext by done.
  set (next := due_after c (period_months a) (anchor_day a)) in *.
  set (action := if default false (auto_renewal_enabled a) then record_only else set_due_date).
  assert (paymentDateDefaults a = Some (action, date_text next)) as Hd.
  { unfold paymentDateDefaults. rewrite (bool_decide_false (period_months a = 0)), andb_false_r by lia. by rewrite Hnext. }
  assert (four_digits c ∧ four_digits next) as [H4 H4'] by (unfold billing_year in *; unfold four_digits; lia).
  assert (∀ d, asset d = a → draft_next_due d = date_text next → paymentDateError d = None) as He.
  { intros d E1 E2. unfold paymentDateError. rewrite E1, E2, Hn, valid_text, (bool_decide_true (billing_year next)) by done.
    rewrite (proj2 (date_text_order c next Hc Hv H4 H4')) by (by apply day_before). by case_bool_decide. }
  unfold newPaymentDraft, reloadPaymentDraft. rewrite Hd. cbn [mbind option_bind fst snd].
  split; (eexists; split; [reflexivity|]); (split; [by apply He|]); [done|].
  split_and!; [done..|]. unfold paymentPayload. cbn [p_next_due date_action draft_next_due]. unfold action.
  by destruct (default false (auto_renewal_enabled a)).
Qed.

End dates.

Definition monthly (due : jsstring) : InfraAsset := mkAsset None None (js "USD") 500 1 31 due 4.

Lemma next_billing_date_exact_witness :
  nextBillingDate (monthly (js "2024-01-31")) = Some (js "2024-02-29").
Proof.
  refine (proj1 (next_billing_date_exact (monthly (js "2024-01-31")) {| year := 2024; month := 0; mday := 31 |} _ _ _ _ _)).
  - apply (bool_decide_unpack _). vm_compute. exact I.
  - unfold billing_year. cbn. lia.
  - vm_compute. reflexivity.
  - cbn. lia.
  - cbn. lia.
Defined.

Lemma payment_draft_sound_witness :
  ∃ d, newPaymentDraft (monthly (js "2024-01-31")) (js "2024-02-01") (js "k") = Some d ∧ paymentDateError d = None.
Proof.
  assert (next_due (monthly (js "2024-01-31")) = date_text {| year := 2024; month := 0; mday := 31 |}) as Hn
    by (vm_compute; reflexivity).
  destruct (payment_draft_sound (monthly (js "2024-01-31")) {| year := 2024; month := 0; mday := 31 |} (js "2024-02-01") (js "k")
      (mkDraft (monthly []) [] 0 [] [] [] true no_action [])) as [(d & Hd & He & _) _].
  - apply (bool_decide_unpack _). vm_compute. exact I.
  - unfold billing_year. cbn. lia.
  - exact Hn.
  - cbn. lia.
  - cbn. lia.
  - apply (bool_decide_unpack _). vm_compute. exact I.
  - exists d. split; assumption.
Defined.

End Payment.

Module Renewal.

(** [years] is the text [String(years)]; [/^(0|[1-9][0-9]{0,2})(\.[0-9]{1,4})?$/]
    splits it into a whole part and a fraction. *)
Definition whole_shape (s : jsstring) : bool :=
  every is_ascii_digit s && bool_decide (1 ≤ length s ≤ 3)%nat
  && (bool_decide (s = [48]) || negb (bool_decide (head s = Some 48))).
Definition fraction_shape (s : jsstring) : bool :=
  every is_ascii_digit s && bool_decide (1 ≤ length s ≤ 4)%nat.

(** [years.split('.')], for a text of that form. *)
Definition years_parts (years : jsstring) : option (jsstring * jsstring) :=
  match split_char 46 years [] with
  | [w] => if whole_shape w then Some (w, []) else None
  | [w; f] => if whole_shape w && fraction_shape f then Some (w, f) else None
  | _ => None
  end.

(** [fraction.padEnd(4, '0')] *)
Definition pad_end (f : jsstring) : jsstring := f ++ replicate (4 - length f) 48.

Definition scaled_years (w f : jsstring) : Z := digits_of w * 10000 + digits_of (pad_end f).

Definition renewalPeriodMonths (cycle years : jsstring) : option Z :=
  if bool_decide (cycle = js "monthly") then Some 1
  else if bool_decide (cycle = js "quarterly") then Some 3
  else if bool_decide (cycle = js "semiannual") then Some 6
  else if bool_decide (cycle = js "annual") then Some 12
  else if negb (bool_decide (cycle = js "custom")) then None
  else match years_parts years with
       | Some (w, f) =>
           let scaled := scaled_years w f in
           if bool_decide (0 < scaled) && bool_decide ((scaled * 12) mod 10000 = 0)
           then Some (scaled * 12 / 10000) else None
       | None => None
       end.

Lemma digits_of_replicate f k : digits_of (f ++ replicate k 48) = digits_of f * 10 ^ Z.of_nat k.
Proof.
  induction k as [|k IH]; [rewrite app_nil_r; lia|].
  replace (replicate (S k) 48) with (replicate k 48 ++ [48]) by (symmetry; apply replicate_cons_app).
  rewrite app_assoc, digits_of_snoc, IH, Nat2Z.inj_succ, Z.pow_succ_r by lia. lia.
Qed.

Lemma custom_is_custom : Forall (λ k, js "custom" ≠ js k) ["monthly"; "quarterly"; "semiannual"; "annual"]%string.
Proof. decide_closed. Qed.

(** A period in years is turned into months exactly or not at all: for a
    custom cycle of [w.f] years (a fraction of at most four digits), the result
    is [m] months if and only if [m] is positive and [m / 12] is that number,
    with nothing rounded; every other text of years gives nothing. *)
Theorem renewal_period_exact (years w f : jsstring) (m : Z) :
  years_parts years = Some (w, f) →
  renewalPeriodMonths (js "custom") years = Some m ↔
  0 < m ∧ m * 10 ^ Z.of_nat (length f) = 12 * (digits_of w * 10 ^ Z.of_nat (length f) + digits_of f).
Proof.
  intros Hp.
  assert (length f ≤ 4)%nat as Hlen.
  { unfold years_parts in Hp. repeat case_match; simplify_eq; cbn; try lia.
    match goal with H : _ && _ = true |- _ => apply andb_true_iff in H as [_ H]; unfold fraction_shape in H end.
    rewrite andb_true_iff, bool_decide_eq_true in *. lia. }
  assert (renewalPeriodMonths (js "custom") years =
    if bool_decide (0 < scaled_years w f) && bool_decide ((scaled_years w f * 12) mod 10000 = 0)
    then Some (scaled_years w f * 12 / 10000) else None) as ->.
  { unfold renewalPeriodMonths. pose proof custom_is_custom as Hc. rewrite !Forall_cons in Hc.
    destruct Hc as (H1 & H2 & H3 & H4 & _). rewrite !bool_decide_false, (bool_decide_true (js "custom" = _)) by done.
    cbn [negb]. by rewrite Hp. }
  unfold scaled_years, pad_end. rewrite digits_of_replicate.
  set (P := 10 ^ Z.of_nat (length f)). set (Q := 10 ^ Z.of_nat (4 - length f)).
  assert (P * Q = 10000) as HPQ.
  { unfold P, Q. rewrite <- Z.pow_add_r by lia. replace (Z.of_nat (length f) + _) with 4 by lia. done. }
  assert (0 < P ∧ 0 < Q) as [HP HQ] by (unfold P, Q; split; apply Z.pow_pos_nonneg; lia).
  set (D := digits_of w). set (E := digits_of f). set (T := D * 10000 + E * Q).
  assert (T = Q * (D * P + E)) as HT by (unfold T; rewrite <- HPQ; ring).
  assert (m * P = 12 * (D * P + E) ↔ m * 10000 = T * 12) as ->.
  { rewrite HT, <- HPQ. split; intros Hx.
    - rewrite Z.mul_assoc, Hx. ring.
    - apply (Z.mul_reg_r _ _ Q); [lia|]. transitivity (m * (P * Q)); [ring|]. rewrite Hx. ring. }
  clearbody T. clear -T. split.
  - case_bool_decide as H1; [|done]. case_bool_decide as H2; [|done]. cbn [andb]. intros [= <-].
    pose proof (Z.div_mod (T * 12) 10000 ltac:(lia)). lia.
  - intros [Hm Hx]. rewrite (bool_decide_true (0 < T)) by lia.
    rewrite <- Hx, Z.mod_mul, Z.div_mul, bool_decide_true by lia. done.
Qed.

Lemma renewal_period_exact_witness : renewalPeriodMonths (js "custom") (js "1.25") = Some 15.
Proof.
  apply (renewal_period_exact (js "1.25") (js "1") (js "25") 15).
  - vm_compute. reflexivity.
  - vm_compute. split; reflexivity.
Defined.

End Renewal.

Module Infrastructure.
Import Renewal.

Section infrastructure.
Context `{DateParse}.

Record NodeCost := mkCost { amount : jsstring; cycle : jsstring; years : option jsstring }.
Record NodeInfrastructure := mkInfra { supplier : option Z; billing : option NodeCost; expires_at : jsstring }.

Definition supportedAssetPeriod (months : Z) : bool :=
  bool_decide (0 < months) && bool_decide (months ≤ 120) && (bool_decide (months = 1) || bool_decide (months mod 3 = 0)).

Inductive billing_reason := supplierRequired | structuredRequired | periodRequired | expiryRequired.

Definition createBillingReason (infra : NodeInfrastructure) : option billing_reason :=
  match supplier infra with
  | None => Some supplierRequired
  | Some _ =>
      match billing infra with
      | None => Some structuredRequired
      | Some b =>
          if bool_decide (trim (amount b) = []) then Some structuredRequired
          else match renewalPeriodMonths (cycle b) (default [] (years b)) with
               | None => Some periodRequired
               | Some months =>
                   if negb (supportedAssetPeriod months) then Some periodRequired
                   else if negb (date_shape (expires_at infra)) || negb (js_leb Payment.MIN_DATE (expires_at infra))
                           || negb (js_leb (expires_at infra) Payment.MAX_DATE) then Some expiryRequired
                   else None
               end
      end
  end.

Record BillAsset := mkBill { active : bool; primary : option Z; node : option Z; months : Z }.

Definition eligibleBillingAsset (a : BillAsset) (nodeID : Z) : bool :=
  active a && negb (Payment.truthy_id (primary a))
  && (negb (Payment.truthy_id (node a)) || bool_decide (node a = Some nodeID)) && supportedAssetPeriod (months a).

Definition renewalUnavailable (date costMode cycle years : jsstring) : option jsstring :=
  if negb (date_shape date) || startsWith date (js "0000-") then Some (js "nodeCost.renewalDateRequired")
  else if match parse_date date with Some ms => negb (bool_decide (iso_date ms = Some date)) | None => true end
  then Some (js "nodeCost.renewalDateRequired")
  else if negb (bool_decide (costMode = js "structured")) then Some (js "nodeCost.renewalCycleRequired")
  else if negb (bool_decide (is_Some (renewalPeriodMonths cycle years))) then Some (js "nodeCost.renewalWholeMonths")
  else None.

(** A period for which a bill can be made is one for which the next date of the
    bill is computed. *)
Theorem created_bill_has_period (infra : NodeInfrastructure) (b : NodeCost) :
  billing infra = Some b → createBillingReason infra = None →
  ∃ m, renewalPeriodMonths (cycle b) (default [] (years b)) = Some m ∧ 1 ≤ m ≤ 120 ∧ (m = 1 ∨ m mod 3 = 0).
Proof using.
  intros Hb. unfold createBillingReason. rewrite Hb. destruct (supplier infra); [|done].
  case_bool_decide; [done|]. destruct (renewalPeriodMonths _ _) as [m|]; [|done].
  destruct (supportedAssetPeriod m) eqn:E; cbn [negb]; [|done]. intros _. exists m. split; [done|].
  unfold supportedAssetPeriod in E. rewrite !andb_true_iff, orb_true_iff, !bool_decide_eq_true in E. lia.
Qed.

End infrastructure.
End Infrastructure.
